(* ===== verification/_CoqProject ===== *)
-Q . S2P
Prelude.v
Host.v
Spec.v
Shared.v
Interfaces.v
ProjectRegistry.v
ProjectDirectory.v
BondIssuer.v
BondLedger.v
CouponEngine.v
Provenance.v
Calendar.v
CreditRetirement.v
DexRouter.v
OrderBook.v
Governance.v
OracleConsumer.v
Wiring.v
Exchange.v
Council.v
System.v
Market.v
