(* ===== verification/Prelude.v ===== *)
(** * Nature-based bond protocol: verification library

    The Soroban contracts of [src/contracts/]: tokenised bonds on nature projects whose
    coupons are carbon and biodiversity credits.  An oracle reports what a project
    measured, a registry says which projects are approved, an issuer keeps the bonds, an
    engine turns verified reports into credits of the bond holders, holders retire their
    credits for certificates or trade their bonds, and a council changes parameters.

    ** The program and the files that model it

    Each contract is one Rust crate with one [lib.rs]; a definition keeps the name of the
    function it models, and [exec] runs one transaction.

    - [Prelude]: machine integers ([in_range], [wrap], [checked], [saturating]),
      big-endian bytes, stores with a type per key, sums over stores, lists.
    - [Host]: the ledger environment, instance and persistent storage, lifetimes, events,
      authorisation, cross-contract calls and rollback, the monad of an entrypoint, and
      executions ([reach init exec n s]: [s] after at most [n] transactions, with moves of
      the other contracts in between).  [inv_ok] inverts a successful run, [run] evaluates
      one forward.
    - [Spec]: abstract machines.  A machine says what a call does to an abstract state:
      done, refused with an error, or trapped; [Implements] says that a contract, in every
      state of its invariant, ends each call as the machine does and stays related to it.
    - [Shared]: [shared/src/errors.rs] and [types.rs].
    - [ProjectRegistry]: [project-registry]; projects, their review, admin rotation.
    - [ProjectDirectory]: the machine of [project-registry], a list of projects without
      keys, indexes or counters, and the registry as its implementation.
    - [BondIssuer]: [bond-issuer]; issuance, subscription, transfer, maturity, redemption.
    - [BondLedger]: the machine of [bond-issuer], bonds and balances, and the issuer as its
      implementation.
    - [CouponEngine]: [coupon-engine]; batched distribution, claims, dust, deductions.
    - [Provenance]: more about [coupon-engine]: from the credits of a closed period back to
      its report, and what a period issues and pays against what the report is worth
      ([worth], a valuation of the measurements that does not use the code's arithmetic).
    - [Calendar], [CreditRetirement]: [credit-retirement]; retirement, certificates and
      their vintage year, checked against a calendar counted day by day.
    - [DexRouter]: [dex-router]; listings, purchases, quote balances, best price, clean-up.
    - [OrderBook]: the machine of [dex-router], orders, quote balances and the issuer's
      world, and the router as its implementation while that world moves.
    - [Governance]: [governance]; proposals, votes, timelock, allowlist, migration.
    - [OracleConsumer]: [oracle-consumer]; providers and stakes, reports, verification,
      challenges and their votes, slashing, bonds, admin override, report periods.
    - [Interfaces]: what each contract promises its callers, as type classes over a world:
      [BondReader] and [BondMarket] (issuer), [OracleReader], [RegistryReader] and
      [ProjectSource] (registry), [CreditSource] (engine).  A client is verified against
      the class.
    - [Wiring]: the contracts as instances of those classes: a contract state with its
      invariant is a world ([aged], [Component]), and [Registry], [Bonds], [Oracle],
      [Engine] nest as they are deployed: the oracle on the registry, the engine on the
      bonds and the oracle, the retirement contract on the engine.
    - [Exchange]: the refinements composed: the router deployed on the issuer, with anybody
      calling either, is the order book over the bond ledger.
    - [Council]: the council as the admin of the registry: the registry's entrypoints as
      [Targets] of proposals, and executions of the two contracts ([joint]) in which
      anybody calls either of them, with the history of the calls on the registry.
    - [System]: theorems about several contracts together, with a deployment that computes.
    - [Market]: the router on the deployed issuer, with everybody calling either of them.

    ** State and operations

    The state of a contract is a [cstate]: its two storages as typed maps indexed by the
    contract's own [DataKey], the lifetimes of entries, the event log and the [world], the
    state of the contracts it calls.  An entrypoint is a function
    [Env -> cstate -> result] built with the notations [let*] and [;;]; [Err] and [Trap]
    roll the frame back.  Arithmetic that Rust leaves unchecked is [arith], which panics or
    wraps according to the build profile in [Env] (the workspace does not set
    [overflow-checks]); so a theorem holds in both profiles unless it says otherwise.

    ** What the theorems show

    - Conservation: [supply_conserved] (balances of a bond add up to its supply),
      [quote_conserved], [credits_conserved] (a period issues exactly the worth of its
      report), [period_within_report] (and never pays more), [retired_one_for_one],
      [challenge_bonds].
    - Provenance: [credits_from_verified_reports] and [certificates_traced]: credits and
      certificates lead back to a verified report of the right project.
    - State machines: [bond_lifecycle], [project_review], [order_lifecycle],
      [proposal_lifecycle], [report_warrant], [report_final], [rejected_project_out]
      (a rejection after a challenge reaches the registry and lasts; the only other one,
      an override, does not reach it), [override_keeps_lock] (what an override does).
    - Authority: [execution_authorised] (an execution is the call the signers approved),
      [allowlist_governed], [admin_rotation_delay], [no_replay], and [council_rules]: what
      the registry of a council holds is what its signers adopted or their oracle consumer
      revoked; [assets_need_signature]: bonds and quote leave nobody who is silent.
    - Exactness: [transfer_outcome] (which error, on every path), [claim_pays_out],
      [purchase_settles], [best_price_optimal] (against every other allocation),
      [vintage_year_correct], [clean_up_exact], [retire_certifies],
      [migration_preserves_reads].
    - Progress: [retire_succeeds], [proposal_passes].
    - Round trips: [register_read_back].
    - Refinement: [registry_refines_directory], [issuer_refines_ledger] and
      [router_refines_book]: a contract and its abstract machine agree on the outcome of
      every call, errors and traps included, after any sequence of calls;
      [exchange_refined]: the same for the router together with the issuer it calls.
      [CreditRetirement.refines] relates the storage of the retirement contract to a list
      of records, its specification; [retirements_append_only] and the getters are stated
      on the list.

    Some theorems record behaviour that differs from what the source says it does:
    [report_distributed_twice], [legacy_certificate_not_extendable],
    [archived_nonce_outcome], [override_keeps_lock].  The README and
    [docs/credit-methodology.md] multiply the credits of a report by the conversion factor
    of its methodology (0.95 for ACR, 1.05 for CAR); the code has no such factor, and
    [worth], [credits_from_verified_reports] and [credits_conserved] state its amounts,
    one credit per thousand units of carbon whatever the methodology.

    ** Bounds

    The source has no unbounded loop: every loop runs over a vector or an integer range, so
    the models are structural folds and need no fuel.  Invariants are proved for executions
    of fewer than 2^64 transactions, which keeps counters and nonces (64-bit, one step per
    transaction) from wrapping; [clean_up_exact] asks for fewer than 2^32 orders, the width
    of its result.  Calls into a contract used as a world keep the same bound: the call
    that would reach it aborts.

    ** Not modelled

    - The host's decisions (who signed, how long an entry lives, when it is archived) are
      fields of [Env] or moves of the state, never definitions; fees, budgets and the
      length limits of host vectors are left out.
    - Governance calls arbitrary contracts with arbitrary arguments; the host's universal
      value and the targets are parameters ([HostVal], [Targets]).  [Council] instantiates
      the targets with the registry; the decoding of arguments, which the contract macros
      generate, follows the signatures of the entrypoints ([registry_methods]).
    - The integration tests ([contracts/tests]) and the unit tests inside each [lib.rs].
    - The TypeScript services (API, frontend, oracle data collection, IPFS uploads) and the
      scripts: input and output around the contracts. *)

From Stdlib Require Export ZArith Lia.
From stdpp Require Export base gmap countable strings list numbers option.
Open Scope Z_scope.

(** ** Machine integers

    A Rust integer is a [Z] together with the type that bounds it. *)

Inductive int_type := U32 | U64 | I128.

Definition int_lo (t : int_type) : Z :=
  match t with U32 => 0 | U64 => 0 | I128 => - 2 ^ 127 end.

Definition int_hi (t : int_type) : Z :=
  match t with U32 => 2 ^ 32 - 1 | U64 => 2 ^ 64 - 1 | I128 => 2 ^ 127 - 1 end.

Definition in_range (t : int_type) (z : Z) : bool := (int_lo t <=? z) && (z <=? int_hi t).

(** Two's-complement (or unsigned) reduction to the width of [t]: an [as] cast,
    and what unchecked arithmetic yields in a release build. *)
Definition wrap (t : int_type) (z : Z) : Z :=
  (z - int_lo t) mod (int_hi t - int_lo t + 1) + int_lo t.

(** [checked_add], [checked_sub], [checked_mul]: [None] outside the width. *)
Definition checked (t : int_type) (z : Z) : option Z := if in_range t z then Some z else None.

(** [saturating_add], [saturating_sub], [saturating_mul]. *)
Definition saturating (t : int_type) (z : Z) : Z := Z.max (int_lo t) (Z.min (int_hi t) z).

Lemma in_range_spec t z : in_range t z = true <-> int_lo t <= z <= int_hi t.
Proof. unfold in_range. rewrite andb_true_iff, !Z.leb_le. done. Qed.

Lemma int_lo_hi t : int_lo t <= 0 < int_hi t.
Proof. destruct t; cbn; lia. Qed.

Lemma wrap_in_range t z : in_range t (wrap t z) = true.
Proof.
  apply in_range_spec. unfold wrap.
  assert (0 < int_hi t - int_lo t + 1) as Hpos by (pose proof (int_lo_hi t); lia).
  pose proof (Z.mod_pos_bound (z - int_lo t) _ Hpos). lia.
Qed.

Lemma wrap_id t z : in_range t z = true -> wrap t z = z.
Proof.
  intros Hz%in_range_spec. unfold wrap. rewrite Z.mod_small by lia. lia.
Qed.

Lemma checked_Some t z r : checked t z = Some r <-> r = z /\ in_range t z = true.
Proof. unfold checked. destruct (in_range t z) eqn:Hr; split; [intros [= <-]; auto|intros [-> _]; done|done|intros [-> [=]]]. Qed.

Lemma checked_in t z : in_range t z = true -> checked t z = Some z.
Proof. unfold checked. by intros ->. Qed.

Lemma saturating_id t z : in_range t z = true -> saturating t z = z.
Proof. intros ?%in_range_spec. unfold saturating. lia. Qed.

Lemma saturating_in_range t z : in_range t (saturating t z) = true.
Proof. apply in_range_spec. unfold saturating. pose proof (int_lo_hi t). lia. Qed.

(** ** Identifiers *)

(** A Soroban [Address] (account or contract): the contracts only compare
    addresses for equality. *)
Record Address := Addr { address_id : N }.

#[export] Instance Address_eq_dec : EqDecision Address.
Proof. solve_decision. Defined.

#[export] Instance Address_countable : Countable Address.
Proof. refine (inj_countable' address_id Addr _). by intros []. Defined.

(** A [Symbol] or [String] of the SDK. *)
Abbreviation Symbol := string.

(** [BytesN<32>]: the list of its 32 bytes, each in [0, 255]. *)
Abbreviation BytesN := (list Z).

(** [hash.to_array().iter().all(|&b| b == 0)] *)
Definition all_zero (h : BytesN) : bool := forallb (fun b => b =? 0) h.

(** [u64::to_be_bytes] *)
Fixpoint be_bytes (n : nat) (z : Z) : list Z :=
  match n with
  | O => []
  | S n' => Z.shiftr z (8 * Z.of_nat n') mod 256 :: be_bytes n' z
  end.

(** [u64::from_be_bytes] *)
Definition be_value (l : list Z) : Z := fold_left (fun acc b => acc * 256 + b) l 0.

Lemma be_bytes_fold n z acc :
  fold_left (fun acc b => acc * 256 + b) (be_bytes n z) acc =
  acc * 2 ^ (8 * Z.of_nat n) + z mod 2 ^ (8 * Z.of_nat n).
Proof.
  revert acc. induction n as [|n IH]; intros acc; simpl fold_left.
  - simpl. rewrite Z.mod_1_r. lia.
  - rewrite IH. rewrite Z.shiftr_div_pow2 by lia.
    replace (8 * Z.of_nat (S n)) with (8 * Z.of_nat n + 8) by lia.
    rewrite Z.pow_add_r by lia. change (2 ^ 8) with 256.
    rewrite (Z.rem_mul_r z) by lia. lia.
Qed.

(** Decoding the encoding gives the number back, modulo the width. *)
Lemma be_value_bytes n z : be_value (be_bytes n z) = z mod 2 ^ (8 * Z.of_nat n).
Proof. unfold be_value. rewrite be_bytes_fold. lia. Qed.

Lemma length_be_bytes n z : length (be_bytes n z) = n.
Proof. induction n; simpl; congruence. Qed.

Lemma be_bytes_inj n x y :
  0 <= x < 2 ^ (8 * Z.of_nat n) -> 0 <= y < 2 ^ (8 * Z.of_nat n) ->
  be_bytes n x = be_bytes n y -> x = y.
Proof.
  intros Hx Hy Heq. apply (f_equal be_value) in Heq. rewrite !be_value_bytes in Heq.
  by rewrite !Z.mod_small in Heq by done.
Qed.

(** ** Finite sums over maps *)

Section map_sum.
Context {K V : Type} `{Countable K} (w : K -> V -> Z).

Definition map_sum (m : gmap K V) : Z := map_fold (fun k v acc => w k v + acc) 0 m.

Lemma map_sum_empty : map_sum ∅ = 0.
Proof. apply map_fold_empty. Qed.

Lemma map_sum_insert_fresh k v (m : gmap K V) :
  m !! k = None -> map_sum (<[k := v]> m) = w k v + map_sum m.
Proof. intros Hk. unfold map_sum.
  by rewrite (map_fold_insert_L (fun k v acc => w k v + acc)) by (done || (intros; lia)).
Qed.

Lemma map_sum_lookup k v (m : gmap K V) :
  m !! k = Some v -> map_sum m = w k v + map_sum (delete k m).
Proof. intros Hk. unfold map_sum.
  by rewrite (map_fold_delete_L (fun k v acc => w k v + acc) 0 k v m) by (done || (intros; lia)).
Qed.

Definition old_weight (k : K) (o : option V) : Z :=
  match o with Some v => w k v | None => 0 end.

Lemma map_sum_delete k (m : gmap K V) :
  map_sum (delete k m) = map_sum m - old_weight k (m !! k).
Proof.
  destruct (m !! k) as [v|] eqn:Hk; simpl.
  - rewrite (map_sum_lookup k v m Hk). lia.
  - rewrite delete_id by done. lia.
Qed.

Lemma map_sum_insert k v (m : gmap K V) :
  map_sum (<[k := v]> m) = map_sum m - old_weight k (m !! k) + w k v.
Proof.
  rewrite <- insert_delete_eq, map_sum_insert_fresh, map_sum_delete by apply lookup_delete_eq.
  lia.
Qed.

Lemma map_sum_nonneg (m : gmap K V) :
  (forall k v, m !! k = Some v -> 0 <= w k v) -> 0 <= map_sum m.
Proof.
  revert m. refine (map_ind _ _ _).
  - intros _. by rewrite map_sum_empty.
  - intros k v m Hk IH Hw. rewrite map_sum_insert_fresh by done.
    assert (0 <= w k v) by (apply Hw, lookup_insert_eq).
    enough (0 <= map_sum m) by lia. apply IH. intros k' v' Hk'.
    apply Hw. rewrite lookup_insert_ne; [done|congruence].
Qed.

Lemma map_sum_ge k v (m : gmap K V) :
  (forall k' v', m !! k' = Some v' -> 0 <= w k' v') -> m !! k = Some v -> w k v <= map_sum m.
Proof.
  intros Hw Hk. rewrite (map_sum_lookup k v m Hk).
  enough (0 <= map_sum (delete k m)) by lia.
  apply map_sum_nonneg. intros k' v' [_ ?]%lookup_delete_Some. eauto.
Qed.

Lemma map_sum_zero (m : gmap K V) :
  (forall k v, m !! k = Some v -> w k v = 0) -> map_sum m = 0.
Proof.
  revert m. refine (map_ind _ _ _).
  - intros _. apply map_sum_empty.
  - intros k v m Hk IH Hw. rewrite map_sum_insert_fresh by done.
    rewrite (Hw k v) by apply lookup_insert_eq. rewrite IH; [lia|].
    intros k' v' Hk'. apply Hw. rewrite lookup_insert_ne; [done|congruence].
Qed.

(** The sum only depends on the weights at each key. *)
Lemma map_sum_ext (m m' : gmap K V) :
  (forall k, old_weight k (m !! k) = old_weight k (m' !! k)) -> map_sum m = map_sum m'.
Proof.
  revert m'. pattern m. revert m. refine (map_ind _ _ _).
  - intros m' Hw. symmetry. rewrite map_sum_empty. apply map_sum_zero. intros k v Hk.
    specialize (Hw k). by rewrite lookup_empty, Hk in Hw.
  - intros k v m Hk IH m' Hw. rewrite map_sum_insert_fresh by done.
    rewrite (IH (delete k m')).
    + rewrite map_sum_delete. specialize (Hw k). rewrite lookup_insert_eq in Hw. simpl in Hw. lia.
    + intros j. specialize (Hw j). destruct (decide (k = j)) as [->|].
      * by rewrite Hk, lookup_delete_eq.
      * rewrite lookup_insert_ne in Hw by done. by rewrite lookup_delete_ne.
Qed.
End map_sum.

(** ** Typed stores

    A contract's storage maps each [DataKey] to a value whose type the key
    determines; [ty] is that typing. *)

Abbreviation store K ty := (gmap K (sigT ty)).

Section store.
Context {K : Type} `{Countable K} {ty : K -> Type}.

Definition sget (k : K) (m : store K ty) : option (ty k) :=
  match m !! k with
  | Some (existT k' v) =>
      match decide (k' = k) with
      | left e => Some (eq_rect k' ty v k e)
      | right _ => None
      end
  | None => None
  end.

Definition sset (k : K) (v : ty k) (m : store K ty) : store K ty := <[k := existT k v]> m.

Definition sdel (k : K) (m : store K ty) : store K ty := delete k m.

Lemma cast_id (k : K) (v : ty k) (e : k = k) : eq_rect k ty v k e = v.
Proof. by rewrite <- Eqdep_dec.eq_rect_eq_dec by (intros; apply (decide (_ = _))). Qed.

Lemma sget_empty k : sget k (∅ : store K ty) = None.
Proof. unfold sget. by rewrite lookup_empty. Qed.

Lemma sget_sset_eq k v (m : store K ty) : sget k (sset k v m) = Some v.
Proof.
  unfold sget, sset. rewrite lookup_insert_eq.
  destruct (decide (k = k)) as [e|]; [|done]. by rewrite cast_id.
Qed.

Lemma sget_sset_ne k k' v (m : store K ty) : k' <> k -> sget k (sset k' v m) = sget k m.
Proof. intros Hne. unfold sget, sset. by rewrite lookup_insert_ne. Qed.

Lemma sget_sdel_eq k (m : store K ty) : sget k (sdel k m) = None.
Proof. unfold sget, sdel. by rewrite lookup_delete_eq. Qed.

Lemma sget_sdel_ne k k' (m : store K ty) : k' <> k -> sget k (sdel k' m) = sget k m.
Proof. intros Hne. unfold sget, sdel. by rewrite lookup_delete_ne. Qed.

(** The sum, over the entries of a store, of a weight of key and value. *)
Section weight.
Context (w : forall k, ty k -> Z).

Definition entry_weight (k : K) (x : sigT ty) : Z :=
  match decide (projT1 x = k) with left _ => w (projT1 x) (projT2 x) | right _ => 0 end.

Definition ssum (m : store K ty) : Z := map_sum entry_weight m.

Definition oweight (k : K) (o : option (ty k)) : Z :=
  match o with Some v => w k v | None => 0 end.

Lemma old_entry_weight k (m : store K ty) :
  old_weight entry_weight k (m !! k) = oweight k (sget k m).
Proof.
  unfold sget. destruct (m !! k) as [[k' v]|]; simpl; [|done].
  unfold entry_weight; simpl. destruct (decide (k' = k)) as [e|]; [|done].
  destruct e. by rewrite cast_id.
Qed.

Lemma ssum_empty : ssum (∅ : store K ty) = 0.
Proof. apply map_sum_empty. Qed.

Lemma ssum_sset k v (m : store K ty) :
  ssum (sset k v m) = ssum m - oweight k (sget k m) + w k v.
Proof.
  unfold ssum, sset. rewrite map_sum_insert, <- old_entry_weight.
  unfold entry_weight at 3; simpl. by destruct (decide (k = k)).
Qed.

Lemma ssum_sdel k (m : store K ty) : ssum (sdel k m) = ssum m - oweight k (sget k m).
Proof. unfold ssum, sdel. by rewrite map_sum_delete, <- old_entry_weight. Qed.

Lemma entry_weight_sget k x (m : store K ty) :
  m !! k = Some x -> entry_weight k x = oweight k (sget k m).
Proof. intros Hx. rewrite <- old_entry_weight. by rewrite Hx. Qed.

Lemma ssum_ext (m m' : store K ty) :
  (forall k, oweight k (sget k m) = oweight k (sget k m')) -> ssum m = ssum m'.
Proof. intros Hw. apply map_sum_ext. intros k. by rewrite !old_entry_weight. Qed.

(** Two stores that differ in the weight of one key only. *)
Lemma ssum_update k (m m' : store K ty) :
  (forall j, j <> k -> oweight j (sget j m') = oweight j (sget j m)) ->
  ssum m' = ssum m - oweight k (sget k m) + oweight k (sget k m').
Proof.
  intros Hw. pose proof (ssum_sdel k m) as H1. pose proof (ssum_sdel k m') as H2.
  rewrite (ssum_ext (sdel k m') (sdel k m)) in H2; [lia|].
  intros j. destruct (decide (k = j)) as [->|]; [by rewrite !sget_sdel_eq|].
  rewrite !sget_sdel_ne by done. by apply Hw.
Qed.

Lemma ssum_nonneg (m : store K ty) :
  (forall k v, sget k m = Some v -> 0 <= w k v) -> 0 <= ssum m.
Proof.
  intros Hw. apply map_sum_nonneg. intros k x Hx.
  rewrite (entry_weight_sget k x m Hx). destruct (sget k m) eqn:Hg; simpl; [eauto|lia].
Qed.

Lemma ssum_ge k v (m : store K ty) :
  (forall k v, sget k m = Some v -> 0 <= w k v) -> sget k m = Some v -> w k v <= ssum m.
Proof.
  intros Hw Hk. destruct (m !! k) as [x|] eqn:Hx.
  - pose proof (entry_weight_sget k x m Hx) as He. rewrite Hk in He. simpl in He.
    rewrite <- He. apply map_sum_ge; [|done]. intros k' x' Hx'.
    rewrite (entry_weight_sget k' x' m Hx'). destruct (sget k' m) eqn:?; simpl; [eauto|lia].
  - unfold sget in Hk. by rewrite Hx in Hk.
Qed.

Lemma ssum_zero (m : store K ty) :
  (forall k v, sget k m = Some v -> w k v = 0) -> ssum m = 0.
Proof.
  intros Hw. apply map_sum_zero. intros k x Hx.
  rewrite (entry_weight_sget k x m Hx). destruct (sget k m) eqn:?; simpl; eauto.
Qed.
End weight.
End store.

Arguments sget : simpl never.
Arguments sset : simpl never.
Arguments sdel : simpl never.
Arguments ssum : simpl never.

(** Entries that a key update does not touch keep their weight. *)
Lemma ssum_sset_zero `{Countable K} {ty : K -> Type} (w : forall k, ty k -> Z) k v (m : store K ty) :
  (forall v, w k v = 0) -> ssum w (sset k v m) = ssum w m.
Proof.
  intros Hw. rewrite ssum_sset, Hw. destruct (sget k m); simpl; rewrite ?Hw; lia.
Qed.

Create Rewrite HintDb store.
#[export] Hint Rewrite @sget_empty @sget_sset_eq @sget_sdel_eq : store.
#[export] Hint Rewrite @sget_sset_ne @sget_sdel_ne using congruence : store.

(** [store_simp] normalises lookups in updated stores whose keys are
    distinguishable; [store_case] also splits on the equality of two keys. *)
Ltac store_simp := autorewrite with store in *.

Ltac store_split k' k :=
  let Heq := fresh "Heq" in let Hne := fresh "Hne" in
  destruct (decide (k' = k)) as [Heq|Hne];
  [ simplify_eq; rewrite ?sget_sset_eq, ?sget_sdel_eq
  | rewrite ?(sget_sset_ne k k'), ?(sget_sdel_ne k k') by exact Hne ].

Ltac store_case :=
  match goal with
  | |- context [sget ?k (sset ?k' _ _)] => store_split k' k
  | |- context [sget ?k (sdel ?k' _)] => store_split k' k
  end.

(** ** Filters *)

Lemma filter_ext_elem {A} (P Q : A -> Prop) `{!forall x, Decision (P x), !forall x, Decision (Q x)} (l : list A) :
  (forall x, x ∈ l -> P x <-> Q x) -> filter P l = filter Q l.
Proof.
  induction l as [|x l IH]; intros Hl; [done|]. rewrite !filter_cons.
  rewrite IH by (intros; apply Hl; by right).
  destruct (Hl x ltac:(by left)). repeat case_decide; tauto.
Qed.

Lemma filter_Forall {A} (P Q : A -> Prop) `{!forall x, Decision (P x)} (l : list A) :
  Forall Q l -> Forall Q (filter P l).
Proof. induction 1; rewrite ?filter_nil, ?filter_cons; [done|]. case_decide; auto. Qed.

Lemma filter_none {A} (P : A -> Prop) `{!forall x, Decision (P x)} (l : list A) :
  (forall x, x ∈ l -> ~ P x) -> filter P l = [].
Proof.
  induction l as [|x l IH]; intros Hl; [done|]. rewrite filter_cons, decide_False by (apply Hl; by left).
  apply IH. intros y Hy. apply Hl. by right.
Qed.

(** ** Lists without duplicates *)

Lemma NoDup_snoc {A} (l : list A) x : NoDup l -> x ∉ l -> NoDup (l ++ [x]).
Proof.
  intros Hl Hx. apply list.NoDup_app. split_and!; [done| |apply NoDup_singleton].
  intros y Hy ->%list_elem_of_singleton. done.
Qed.

(** One more element satisfies the predicate. *)
Lemma length_filter_one_more {A} (P Q : A -> Prop) `{!forall x, Decision (P x), !forall x, Decision (Q x)}
    (l : list A) a :
  NoDup l -> a ∈ l -> ~ P a -> Q a -> (forall x, x <> a -> P x <-> Q x) ->
  length (filter Q l) = S (length (filter P l)).
Proof.
  intros Hnd Hin HP HQ Hx. induction l as [|y l IH]; [by apply elem_of_nil in Hin|].
  rewrite !filter_cons. apply list.NoDup_cons in Hnd as [Hy Hnd].
  apply elem_of_cons in Hin as [<-|Hin].
  - rewrite decide_True, decide_False by done. simpl. f_equal.
    f_equal. apply filter_ext_elem. intros z Hz. symmetry. apply Hx. by intros ->.
  - assert (y <> a) as Hya by (intros ->; done). specialize (IH Hnd Hin). destruct (Hx y Hya) as [H1 H2].
    repeat case_decide; simpl; try tauto. by rewrite IH.
Qed.

(** ** Paging

    [page start count l] is the slice every [*_range] getter returns. *)

Definition page {A} (start count : Z) (l : list A) : list A :=
  take (Z.to_nat count) (drop (Z.to_nat start) l).

Lemma page_app {A} start c1 c2 (l : list A) :
  0 <= start -> 0 <= c1 -> 0 <= c2 ->
  page start (c1 + c2) l = page start c1 l ++ page (start + c1) c2 l.
Proof.
  intros. unfold page. rewrite !Z2Nat.inj_add by lia.
  rewrite <- drop_drop. generalize (drop (Z.to_nat start) l) as l'. intros l'.
  revert l'. induction (Z.to_nat c1) as [|n IH]; intros [|x l']; simpl; rewrite ?take_nil, ?drop_nil; auto.
  by rewrite IH.
Qed.

Lemma page_all {A} count (l : list A) : Z.of_nat (length l) <= count -> page 0 count l = l.
Proof. intros. unfold page. rewrite drop_0. apply take_ge. lia. Qed.

(** Collecting [l !! i] for [i] in [start..end). *)
Lemma seqZ_lookup_page {A} (l : list A) start n :
  0 <= start -> start + n <= Z.of_nat (length l) ->
  omap (fun i => l !! Z.to_nat i) (seqZ start n) = page start n l.
Proof.
  intros Hs Hlen. destruct (decide (0 <= n)) as [Hn|Hn].
  2: { rewrite seqZ_nil by lia. unfold page. by rewrite (Z2Nat.nonpos n) by lia. }
  revert start Hs Hlen. pattern n. revert n Hn. apply natlike_ind; [done|].
  intros n Hn IH start Hs Hlen.
  destruct (lookup_lt_is_Some_2 l (Z.to_nat start)) as [x Hx]; [lia|].
  rewrite seqZ_cons by lia. simpl. rewrite Hx.
  replace (Z.pred (Z.succ n)) with n by lia. rewrite IH by lia. unfold page.
  rewrite (drop_S l x (Z.to_nat start)) by done.
  rewrite (Z2Nat.inj_succ n), (Z2Nat.inj_succ start) by lia. done.
Qed.
