(* ===== verification/Host.v ===== *)
(** * The Soroban host, as the contracts see it

    Ledger environment, contract state (instance and persistent storage, entry
    lifetimes, event log, the other contracts), the computation monad of an
    entrypoint, frames with rollback, cross-contract calls, and executions of a
    contract as a step relation.  What the host itself decides (authorisation,
    the lifetime given to an entry, the network's overflow build profile) is a
    field of [Env], never a definition. *)

From S2P Require Import Prelude.

(** ** Environment of an invocation *)

Record Env := mkEnv {
  timestamp : Z;                                 (* env.ledger().timestamp() : u64 *)
  self : Address;                                (* env.current_contract_address() *)
  invokers : list Address;                       (* contracts below this frame, innermost first *)
  authorized : list Address -> Address -> bool;  (* the signatures that cover this call path *)
  overflow_checks : bool;                        (* the build profile: panic or wrap *)
  new_live : Z;                                  (* live-until ledger given to a fresh entry *)
  extend_live : Z -> Z -> Z -> Z;                (* old live-until, threshold, extend_to *)
}.

(** The environment of a frame called from [e]. *)
Definition sub_env (callee : Address) (e : Env) : Env :=
  mkEnv (timestamp e) callee (self e :: invokers e) (authorized e)
        (overflow_checks e) (new_live e) (extend_live e).

(** [require_auth]: the signatures cover the address on this call path, or the
    address is the contract that made the call. *)
Definition is_authorized (e : Env) (a : Address) : bool :=
  match invokers e with
  | i :: _ => bool_decide (i = a) || authorized e (self e :: invokers e) a
  | [] => authorized e [self e] a
  end.

(** ** Contract state and computations *)

Section contract.
Context {K : Type} `{Countable K} {ty : K -> Type} {E Ev W : Type}.

Record cstate := mkState {
  inst : store K ty;       (* env.storage().instance() *)
  pers : store K ty;       (* env.storage().persistent() *)
  live : gmap K Z;         (* live-until ledger of each persistent entry *)
  inst_live : Z;           (* live-until ledger of the instance entry *)
  events : list Ev;        (* env.events(), newest last *)
  world : W;               (* the state of the other contracts *)
}.

Inductive result (A : Type) :=
| Ok (a : A) (s : cstate)     (* return Ok(a) *)
| Err (x : E) (s : cstate)    (* return Err(x); the frame will roll back *)
| Trap.                       (* panic or host error; the frame will roll back *)

Definition contract (A : Type) : Type := Env -> cstate -> result A.

(** State transformers. *)
Definition put_inst (k : K) (v : ty k) (s : cstate) : cstate :=
  mkState (sset k v (inst s)) (pers s) (live s) (inst_live s) (events s) (world s).
Definition del_inst (k : K) (s : cstate) : cstate :=
  mkState (sdel k (inst s)) (pers s) (live s) (inst_live s) (events s) (world s).
Definition put_pers (k : K) (v : ty k) (s : cstate) : cstate :=
  mkState (inst s) (sset k v (pers s)) (live s) (inst_live s) (events s) (world s).
Definition with_pers (m : store K ty) (s : cstate) : cstate :=
  mkState (inst s) m (live s) (inst_live s) (events s) (world s).
Definition del_pers (k : K) (s : cstate) : cstate :=
  mkState (inst s) (sdel k (pers s)) (delete k (live s)) (inst_live s) (events s) (world s).
Definition put_live (m : gmap K Z) (s : cstate) : cstate :=
  mkState (inst s) (pers s) m (inst_live s) (events s) (world s).
Definition put_inst_live (z : Z) (s : cstate) : cstate :=
  mkState (inst s) (pers s) (live s) z (events s) (world s).
Definition log (ev : Ev) (s : cstate) : cstate :=
  mkState (inst s) (pers s) (live s) (inst_live s) (events s ++ [ev]) (world s).
Definition put_world (w : W) (s : cstate) : cstate :=
  mkState (inst s) (pers s) (live s) (inst_live s) (events s) w.
End contract.

Arguments cstate K {_ _} ty Ev W.
Arguments result K {_ _} ty E Ev W A.
Arguments contract K {_ _} ty E Ev W A.
Arguments Ok {K _ _ ty E Ev W A} a s.
Arguments Err {K _ _ ty E Ev W A} x s.
Arguments Trap {K _ _ ty E Ev W A}.

Section monad.
Context {K : Type} `{Countable K} {ty : K -> Type} {E Ev W : Type}.
Local Abbreviation M := (contract K ty E Ev W).
Local Abbreviation state := (cstate K ty Ev W).

Definition ret {A} (a : A) : M A := fun _ s => Ok a s.

Definition bind {A B} (m : M A) (k : A -> M B) : M B := fun e s =>
  match m e s with
  | Ok a s' => k a e s'
  | Err x s' => Err x s'
  | Trap => Trap
  end.

(** [return Err(x)] *)
Definition throw {A} (x : E) : M A := fun _ s => Err x s.

(** [panic!], a failed [assert!], an [unwrap] of [None], a host error *)
Definition panic {A} : M A := fun _ _ => Trap.

(** [if b { return Err(x) }] *)
Definition fail_if (b : bool) (x : E) : M unit := if b then throw x else ret tt.

(** [o.ok_or(x)?] *)
Definition ok_or {A} (o : option A) (x : E) : M A :=
  match o with Some a => ret a | None => throw x end.

(** [o.unwrap()] *)
Definition unwrap {A} (o : option A) : M A :=
  match o with Some a => ret a | None => panic end.

(** [assert!(b)] *)
Definition assert_ (b : bool) : M unit := if b then ret tt else panic.

(** [if b { m }] *)
Definition when (b : bool) (m : M unit) : M unit := if b then m else ret tt.

(** The [Result] of [m] as a value: [m.is_ok()], [match m { .. }]. *)
Definition attempt {A} (m : M A) : M (A + E) := fun e s =>
  match m e s with
  | Ok a s' => Ok (inl a) s'
  | Err x s' => Ok (inr x) s'
  | Trap => Trap
  end.

(** [for x in l { acc = f acc x }] *)
Fixpoint mfold {A B} (f : B -> A -> M B) (acc : B) (l : list A) : M B :=
  match l with
  | [] => ret acc
  | x :: l' => bind (f acc x) (fun acc' => mfold f acc' l')
  end.

(** [for x in l { f x }] *)
Fixpoint for_each {A} (f : A -> M unit) (l : list A) : M unit :=
  match l with
  | [] => ret tt
  | x :: l' => bind (f x) (fun _ => for_each f l')
  end.

(** Arithmetic operators: outside the width they panic when the build keeps
    overflow checks and wrap otherwise. *)
Definition arith (t : int_type) (z : Z) : M Z := fun e s =>
  if in_range t z then Ok z s else if overflow_checks e then Trap else Ok (wrap t z) s.

(** Ledger and authorisation. *)
Definition ledger_timestamp : M Z := fun e s => Ok (timestamp e) s.
Definition current_contract_address : M Address := fun e s => Ok (self e) s.
Definition require_auth (a : Address) : M unit := fun e s =>
  if is_authorized e a then Ok tt s else Trap.
Definition publish (ev : Ev) : M unit := fun _ s => Ok tt (log ev s).

(** Instance storage. *)
Definition iget (k : K) : M (option (ty k)) := fun _ s => Ok (sget k (inst s)) s.
Definition ihas (k : K) : M bool := fun _ s => Ok (bool_decide (is_Some (sget k (inst s)))) s.
Definition iset (k : K) (v : ty k) : M unit := fun _ s => Ok tt (put_inst k v s).
Definition iremove (k : K) : M unit := fun _ s => Ok tt (del_inst k s).
Definition iextend_ttl (threshold extend_to : Z) : M unit := fun e s =>
  Ok tt (put_inst_live (extend_live e (inst_live s) threshold extend_to) s).

(** Persistent storage.  A [set] on a missing key creates the entry with the
    network's minimum lifetime; [extend_ttl] on a missing key is a host error. *)
Definition pget (k : K) : M (option (ty k)) := fun _ s => Ok (sget k (pers s)) s.
Definition phas (k : K) : M bool := fun _ s => Ok (bool_decide (is_Some (sget k (pers s)))) s.
Definition pset (k : K) (v : ty k) : M unit := fun e s =>
  Ok tt (put_live (match sget k (pers s) with
                   | Some _ => live s
                   | None => <[k := new_live e]> (live s)
                   end) (put_pers k v s)).
Definition premove (k : K) : M unit := fun _ s => Ok tt (del_pers k s).
Definition pextend_ttl (k : K) (threshold extend_to : Z) : M unit := fun e s =>
  match sget k (pers s) with
  | Some _ =>
      Ok tt (put_live (<[k := extend_live e (default (new_live e) (live s !! k)) threshold extend_to]>
                         (live s)) s)
  | None => Trap
  end.

(** [if storage.has(k) { storage.extend_ttl(k, ..) }] *)
Definition bump_if_present (k : K) (threshold extend_to : Z) : M unit :=
  bind (phas k) (fun has => when has (pextend_ttl k threshold extend_to)).
End monad.

Declare Scope contract_scope.
Delimit Scope contract_scope with contract.
Open Scope contract_scope.

Notation "'let*' x ':=' m 'in' k" := (bind m (fun x => k))
  (at level 10, x pattern, m at level 100, k at level 200) : contract_scope.
Notation "m ;; k" := (bind m (fun _ => k))
  (at level 100, k at level 200, right associativity) : contract_scope.

(** ** Cross-contract calls

    A callee is a function of the environment of its frame and of the world it
    lives in; what it wrote is kept only when it returns [Ok]. *)

Inductive eresult (W E A : Type) :=
| EOk (a : A) (w : W)
| EErr (x : E)
| EAbort.
Arguments EOk {W E A} a w.
Arguments EErr {W E A} x.
Arguments EAbort {W E A}.

Definition ecall (W E A : Type) : Type := Env -> W -> eresult W E A.

Section calls.
Context {K : Type} `{Countable K} {ty : K -> Type} {E Ev W : Type}.
Local Abbreviation M := (contract K ty E Ev W).

(** [env.invoke_contract]: a failing callee traps the caller. *)
Definition invoke_contract {E' A} (callee : Address) (c : ecall W E' A) : M A := fun e s =>
  match c (sub_env callee e) (world s) with
  | EOk a w => Ok a (put_world w s)
  | _ => Trap
  end.

(** [env.try_invoke_contract]: [inl a] for [Ok(Ok(a))], [inr (Some x)] for
    [Err(Ok(x))], [inr None] for [Err(Err(_))]. *)
Definition try_invoke_contract {E' A} (callee : Address) (c : ecall W E' A) :
    M (A + option E') := fun e s =>
  match c (sub_env callee e) (world s) with
  | EOk a w => Ok (inl a) (put_world w s)
  | EErr x => Ok (inr (Some x)) s
  | EAbort => Ok (inr None) s
  end.

(** An entrypoint seen from outside its frame. *)
Definition as_callee {A} (m : M A) : ecall (cstate K ty Ev W) E A := fun e s =>
  match m e s with
  | Ok a s' => EOk a s'
  | Err x _ => EErr x
  | Trap => EAbort
  end.

(** The state a transaction leaves behind. *)
Definition commit {A} (r : result K ty E Ev W A) (s : cstate K ty Ev W) : cstate K ty Ev W :=
  match r with Ok _ s' => s' | _ => s end.

(** [r] reports the error [o], or succeeds when there is none. *)
Definition agrees {A} (r : result K ty E Ev W A) (o : option E) : Prop :=
  match o with
  | Some x => exists s, r = Err x s
  | None => exists a s, r = Ok a s
  end.

Definition is_ok {A} (r : result K ty E Ev W A) : bool :=
  match r with Ok _ _ => true | _ => false end.
End calls.

(** The state before deployment. *)
Definition empty_state `{Countable K} {ty : K -> Type} {Ev W} (w : W) : cstate K ty Ev W :=
  mkState ∅ ∅ ∅ 0 [] w.

(** ** Executions

    [reach n s]: [s] is a state of the contract after at most [n] transactions
    from one of the initial states; between them the other contracts move along
    the steps their world allows. *)

Class World (W : Type) := {
  wstep : W -> W -> Prop;    (* what the other contracts may do between two calls *)
  wquiet : W -> W -> Prop;   (* what a getter may do: refresh lifetimes *)
  #[global] wstep_preorder :: PreOrder wstep;
  #[global] wquiet_preorder :: PreOrder wquiet;
  wquiet_step w w' : wquiet w w' -> wstep w w';
}.

(** A contract that calls nobody: nothing moves around it. *)
#[export] Instance unit_world : World unit.
Proof. by refine {| wstep := eq; wquiet := eq |}. Defined.

Section reach.
Context {K : Type} `{Countable K} {ty : K -> Type} {E Ev W : Type} `{!World W}.
Context {Call : Type} (init : cstate K ty Ev W -> Prop)
        (exec : Call -> contract K ty E Ev W unit).
Local Abbreviation state := (cstate K ty Ev W).

Inductive reach : Z -> state -> Prop :=
| reach_init s : init s -> reach 0 s
| reach_call n s e c : reach n s -> reach (n + 1) (commit (exec c e s) s)
| reach_world n s w : reach n s -> wstep (world s) w -> reach n (put_world w s).

Lemma reach_nonneg n s : reach n s -> 0 <= n.
Proof. induction 1; lia. Qed.

(** The state after a list of transactions. *)
Definition run_calls (cs : list (Env * Call)) (s : state) : state :=
  fold_left (fun s '(e, c) => commit (exec c e s) s) cs s.

Lemma reach_run_calls cs n s : reach n s -> reach (n + Z.of_nat (length cs)) (run_calls cs s).
Proof.
  revert n s. induction cs as [|[e c] cs IH]; intros n s Hr; simpl.
  - by rewrite Z.add_0_r.
  - replace (n + Z.of_nat (S (length cs))) with ((n + 1) + Z.of_nat (length cs)) by lia.
    apply IH. by apply reach_call.
Qed.

(** An invariant of executions of fewer than [bound] transactions. *)
Lemma reach_ind_bounded (bound : Z) (Inv : Z -> state -> Prop) :
  (forall s, init s -> Inv 0 s) ->
  (forall n s s' e c, 0 <= n -> n + 1 < bound -> Inv n s -> exec c e s = Ok tt s' -> Inv (n + 1) s') ->
  (forall n s, Inv n s -> Inv (n + 1) s) ->
  (forall n s w, Inv n s -> wstep (world s) w -> Inv n (put_world w s)) ->
  forall n s, reach n s -> n < bound -> Inv n s.
Proof.
  intros Hinit Hcall Hmono Hworld n s. induction 1 as [s|n s e c Hr IH|n s w Hr IH Hw]; intros Hn.
  - auto.
  - pose proof (reach_nonneg _ _ Hr). specialize (IH ltac:(lia)).
    destruct (exec c e s) as [[] s'|x s'|] eqn:Hex; simpl; eauto.
  - auto.
Qed.
End reach.

(** An execution that continues another one. *)
Lemma reach_trans `{Countable K} {ty : K -> Type} {E Ev W Call} `{!World W} init
    (exec : Call -> contract K ty E Ev W unit) n s m t :
  reach init exec n s -> reach (eq s) exec m t -> reach init exec (n + m) t.
Proof.
  intros Hs Ht. induction Ht as [t <-|m t e c Ht IH|m t w Ht IH Hw].
  - by rewrite Z.add_0_r.
  - rewrite Z.add_assoc. by apply reach_call.
  - by apply reach_world.
Qed.

(** ** Inverting successful computations *)

Section inversion.
Context {K : Type} `{Countable K} {ty : K -> Type} {E Ev W : Type}.
Implicit Types (s : cstate K ty Ev W) (e : Env).

Lemma bind_Ok {A B} (m : contract K ty E Ev W A) (k : A -> contract K ty E Ev W B) e s b s' :
  bind m k e s = Ok b s' -> exists a s1, m e s = Ok a s1 /\ k a e s1 = Ok b s'.
Proof. unfold bind. destruct (m e s); naive_solver. Qed.

Lemma ret_Ok {A} (a a' : A) e s s' :
  @ret K _ _ ty E Ev W A a e s = Ok a' s' -> a' = a /\ s' = s.
Proof. unfold ret. naive_solver. Qed.

Lemma fail_if_Ok b (x : E) e s u s' :
  @fail_if K _ _ ty E Ev W b x e s = Ok u s' -> b = false /\ s' = s.
Proof. unfold fail_if. destruct b; unfold throw, ret; naive_solver. Qed.

Lemma assert_Ok b e s u s' :
  @assert_ K _ _ ty E Ev W b e s = Ok u s' -> b = true /\ s' = s.
Proof. unfold assert_. destruct b; unfold panic, ret; naive_solver. Qed.

Lemma ok_or_Ok {A} (o : option A) (x : E) e s a s' :
  @ok_or K _ _ ty E Ev W A o x e s = Ok a s' -> o = Some a /\ s' = s.
Proof. unfold ok_or. destruct o; unfold throw, ret; naive_solver. Qed.

Lemma unwrap_Ok {A} (o : option A) e s a s' :
  @unwrap K _ _ ty E Ev W A o e s = Ok a s' -> o = Some a /\ s' = s.
Proof. unfold unwrap. destruct o; unfold panic, ret; naive_solver. Qed.

Lemma arith_Ok t z e s a s' :
  @arith K _ _ ty E Ev W t z e s = Ok a s' ->
  s' = s /\ in_range t a = true /\ (in_range t z = true -> a = z) /\ (overflow_checks e = true -> a = z).
Proof.
  unfold arith. destruct (in_range t z) eqn:Hz; [naive_solver|].
  destruct (overflow_checks e) eqn:Ho; intros [=]; subst.
  repeat split; [apply wrap_in_range|done|congruence].
Qed.

Lemma timestamp_Ok e s t s' :
  @ledger_timestamp K _ _ ty E Ev W e s = Ok t s' -> t = timestamp e /\ s' = s.
Proof. unfold ledger_timestamp. naive_solver. Qed.

Lemma current_Ok e s a s' :
  @current_contract_address K _ _ ty E Ev W e s = Ok a s' -> a = self e /\ s' = s.
Proof. unfold current_contract_address. naive_solver. Qed.

Lemma require_auth_Ok a e s u s' :
  @require_auth K _ _ ty E Ev W a e s = Ok u s' -> is_authorized e a = true /\ s' = s.
Proof. unfold require_auth. destruct (is_authorized e a); naive_solver. Qed.

Lemma publish_Ok ev e s u s' :
  @publish K _ _ ty E Ev W ev e s = Ok u s' -> s' = log ev s.
Proof. unfold publish. naive_solver. Qed.

Lemma iget_Ok k e s o s' :
  @iget K _ _ ty E Ev W k e s = Ok o s' -> o = sget k (inst s) /\ s' = s.
Proof. unfold iget. naive_solver. Qed.

Lemma ihas_Ok k e s b s' :
  @ihas K _ _ ty E Ev W k e s = Ok b s' -> b = bool_decide (is_Some (sget k (inst s))) /\ s' = s.
Proof. unfold ihas. naive_solver. Qed.

Lemma iset_Ok k v e s u s' :
  @iset K _ _ ty E Ev W k v e s = Ok u s' -> s' = put_inst k v s.
Proof. unfold iset. naive_solver. Qed.

Lemma iremove_Ok k e s u s' :
  @iremove K _ _ ty E Ev W k e s = Ok u s' -> s' = del_inst k s.
Proof. unfold iremove. naive_solver. Qed.

Lemma iextend_Ok th ex e s u s' :
  @iextend_ttl K _ _ ty E Ev W th ex e s = Ok u s' -> exists l, s' = put_inst_live l s.
Proof. unfold iextend_ttl. naive_solver. Qed.

Lemma pget_Ok k e s o s' :
  @pget K _ _ ty E Ev W k e s = Ok o s' -> o = sget k (pers s) /\ s' = s.
Proof. unfold pget. naive_solver. Qed.

Lemma phas_Ok k e s b s' :
  @phas K _ _ ty E Ev W k e s = Ok b s' -> b = bool_decide (is_Some (sget k (pers s))) /\ s' = s.
Proof. unfold phas. naive_solver. Qed.

Lemma pset_Ok k v e s u s' :
  @pset K _ _ ty E Ev W k v e s = Ok u s' -> exists l, s' = put_live l (put_pers k v s).
Proof. unfold pset. naive_solver. Qed.

Lemma premove_Ok k e s u s' :
  @premove K _ _ ty E Ev W k e s = Ok u s' -> s' = del_pers k s.
Proof. unfold premove. naive_solver. Qed.

Lemma pextend_Ok k th ex e s u s' :
  @pextend_ttl K _ _ ty E Ev W k th ex e s = Ok u s' -> exists l, s' = put_live l s.
Proof. unfold pextend_ttl. destruct (sget k (pers s)); naive_solver. Qed.

Lemma bump_if_present_Ok k th ex e s u s' :
  @bump_if_present K _ _ ty E Ev W k th ex e s = Ok u s' -> exists l, s' = put_live l s.
Proof.
  intros (b&s1&[_ ->]%phas_Ok&H')%bind_Ok. unfold when in H'. destruct b.
  - by apply pextend_Ok in H'.
  - apply ret_Ok in H' as [_ ->]. exists (live s). by destruct s.
Qed.

Lemma when_Ok b (m : contract K ty E Ev W unit) e s u s' :
  when b m e s = Ok u s' -> b = true /\ m e s = Ok u s' \/ b = false /\ s' = s.
Proof. unfold when, ret. destruct b; naive_solver. Qed.

Lemma for_each_cons_Ok {A} (f : A -> contract K ty E Ev W unit) x l e s u s' :
  for_each f (x :: l) e s = Ok u s' -> exists s1, f x e s = Ok tt s1 /\ for_each f l e s1 = Ok u s'.
Proof. intros ([]&s1&?&?)%bind_Ok. eauto. Qed.

Lemma mfold_cons_Ok {A B} (f : B -> A -> contract K ty E Ev W B) acc x l e s r s' :
  mfold f acc (x :: l) e s = Ok r s' ->
  exists acc1 s1, f acc x e s = Ok acc1 s1 /\ mfold f acc1 l e s1 = Ok r s'.
Proof. intros (a&s1&?&?)%bind_Ok. eauto. Qed.

(** A property every turn of a loop preserves. *)
Lemma mfold_Ok_ind {A B} (P : B -> cstate K ty Ev W -> Prop) (f : B -> A -> contract K ty E Ev W B)
    acc l e s r s' :
  (forall acc x s acc' s', P acc s -> f acc x e s = Ok acc' s' -> P acc' s') ->
  P acc s -> mfold f acc l e s = Ok r s' -> P r s'.
Proof.
  intros Hstep. revert acc s. induction l as [|x l IH]; intros acc s HP Hm.
  - by apply (ret_Ok acc r e) in Hm as [-> ->].
  - apply mfold_cons_Ok in Hm as (acc1&s1&Hf&Hm). eauto.
Qed.

(** A loop whose body only checks leaves the state alone. *)
Lemma for_each_fail_if_Ok {A} (b : A -> bool) (x : E) l e s u s' :
  for_each (fun a => @fail_if K _ _ ty E Ev W (b a) x) l e s = Ok u s' ->
  s' = s /\ Forall (fun a => b a = false) l.
Proof.
  induction l as [|a l IH] in s |- *; [by intros [= <-]|].
  intros (s1&[? ->]%fail_if_Ok&[-> ?]%IH)%for_each_cons_Ok. auto.
Qed.

Lemma invoke_Ok {E' A} callee (c : ecall W E' A) e s a s' :
  @invoke_contract K _ _ ty E Ev W E' A callee c e s = Ok a s' ->
  exists w, c (sub_env callee e) (world s) = EOk a w /\ s' = put_world w s.
Proof. unfold invoke_contract. destruct (c _ _); naive_solver. Qed.

Lemma try_invoke_Ok {E' A} callee (c : ecall W E' A) e s r s' :
  @try_invoke_contract K _ _ ty E Ev W E' A callee c e s = Ok r s' ->
  (exists a w, r = inl a /\ c (sub_env callee e) (world s) = EOk a w /\ s' = put_world w s) \/
  (exists x, r = inr (Some x) /\ c (sub_env callee e) (world s) = EErr x /\ s' = s) \/
  (r = inr None /\ c (sub_env callee e) (world s) = EAbort /\ s' = s).
Proof. unfold try_invoke_contract. destruct (c _ _); naive_solver. Qed.

Lemma attempt_Ok {A} (m : contract K ty E Ev W A) e s r s' :
  attempt m e s = Ok r s' ->
  (exists a, r = inl a /\ m e s = Ok a s') \/ (exists x, r = inr x /\ m e s = Err x s').
Proof. unfold attempt. destruct (m e s); naive_solver. Qed.

Lemma as_callee_EOk {A} (m : contract K ty E Ev W A) e s a s' :
  as_callee m e s = EOk a s' -> m e s = Ok a s'.
Proof. unfold as_callee. destruct (m e s); naive_solver. Qed.

Lemma commit_cases {A} (r : result K ty E Ev W A) s :
  (exists a s', r = Ok a s' /\ commit r s = s') \/ commit r s = s.
Proof. destruct r; simpl; eauto. Qed.
End inversion.

(** One step of inversion of [H : m e s = Ok a s'], and its closure.  Contracts
    extend [inv_hook] with the specifications of their helpers. *)
Ltac inv_hook H := fail.

Ltac inv_step H :=
  first
    [ inv_hook H
    | lazymatch type of H with
      | bind _ _ _ _ = Ok _ _ =>
          let a := fresh "a" in let s := fresh "s" in let H1 := fresh "H" in
          apply bind_Ok in H as (a & s & H1 & H); inv_ok H1; inv_ok H
      | ret _ _ _ = Ok _ _ => apply ret_Ok in H as [? ?]; simplify_eq
      | fail_if _ _ _ _ = Ok _ _ => apply fail_if_Ok in H as [? ?]; subst
      | assert_ _ _ _ = Ok _ _ => apply assert_Ok in H as [? ?]; subst
      | ok_or _ _ _ _ = Ok _ _ => apply ok_or_Ok in H as [? ?]; simplify_eq
      | unwrap _ _ _ = Ok _ _ => apply unwrap_Ok in H as [? ?]; simplify_eq
      | arith _ _ _ _ = Ok _ _ => apply arith_Ok in H as (? & ? & ? & ?); subst
      | ledger_timestamp _ _ = Ok _ _ => apply timestamp_Ok in H as [? ?]; subst
      | current_contract_address _ _ = Ok _ _ => apply current_Ok in H as [? ?]; subst
      | require_auth _ _ _ = Ok _ _ => apply require_auth_Ok in H as [? ?]; subst
      | publish _ _ _ = Ok _ _ => apply publish_Ok in H; subst
      | iget _ _ _ = Ok _ _ => apply iget_Ok in H as [? ?]; subst
      | ihas _ _ _ = Ok _ _ => apply ihas_Ok in H as [? ?]; subst
      | iset _ _ _ _ = Ok _ _ => apply iset_Ok in H; subst
      | iremove _ _ _ = Ok _ _ => apply iremove_Ok in H; subst
      | iextend_ttl _ _ _ _ = Ok _ _ => apply iextend_Ok in H as [? ?]; subst
      | pget _ _ _ = Ok _ _ => apply pget_Ok in H as [? ?]; subst
      | phas _ _ _ = Ok _ _ => apply phas_Ok in H as [? ?]; subst
      | pset _ _ _ _ = Ok _ _ => apply pset_Ok in H as [? ?]; subst
      | premove _ _ _ = Ok _ _ => apply premove_Ok in H; subst
      | pextend_ttl _ _ _ _ _ = Ok _ _ => apply pextend_Ok in H as [? ?]; subst
      | bump_if_present _ _ _ _ _ = Ok _ _ => apply bump_if_present_Ok in H as [? ?]; subst
    | invoke_contract _ _ _ _ = Ok _ _ => apply invoke_Ok in H as (? & ? & ?); subst
      | when _ _ _ _ = Ok _ _ =>
        apply when_Ok in H as [[? H]|[? ?]]; subst; [inv_ok H|]
    | throw _ _ _ = Ok _ _ => discriminate H
      | panic _ _ = Ok _ _ => discriminate H
      | Ok _ _ = Ok _ _ => injection H as ? ?; simplify_eq
      | Err _ _ = Ok _ _ => discriminate H
      | Trap = Ok _ _ => discriminate H
      end ]
with inv_ok H := try inv_step H.

(** ** Running computations forwards *)

Section forward.
Context {K : Type} `{Countable K} {ty : K -> Type} {E Ev W : Type}.
Implicit Types (s : cstate K ty Ev W) (e : Env).

Lemma bind_run {A B} (m : contract K ty E Ev W A) (k : A -> contract K ty E Ev W B) e s a s1 :
  m e s = Ok a s1 -> bind m k e s = k a e s1.
Proof. unfold bind. by intros ->. Qed.

Lemma bind_err {A B} (m : contract K ty E Ev W A) (k : A -> contract K ty E Ev W B) e s x s1 :
  m e s = Err x s1 -> bind m k e s = Err x s1.
Proof. unfold bind. by intros ->. Qed.

Lemma bind_trap {A B} (m : contract K ty E Ev W A) (k : A -> contract K ty E Ev W B) e s :
  m e s = Trap -> bind m k e s = Trap.
Proof. unfold bind. by intros ->. Qed.

Lemma bind_assoc_run {A B C} (m : contract K ty E Ev W A) (k : A -> contract K ty E Ev W B)
    (h : B -> contract K ty E Ev W C) e s :
  bind (bind m k) h e s = bind m (fun a => bind (k a) h) e s.
Proof. unfold bind. by destruct (m e s). Qed.

Lemma fail_if_run b (x : E) e s : b = false -> @fail_if K _ _ ty E Ev W b x e s = Ok tt s.
Proof. by intros ->. Qed.

Lemma fail_if_err b (x : E) e s : b = true -> @fail_if K _ _ ty E Ev W b x e s = Err x s.
Proof. by intros ->. Qed.

Lemma ok_or_run {A} (o : option A) (x : E) e s a :
  o = Some a -> @ok_or K _ _ ty E Ev W A o x e s = Ok a s.
Proof. by intros ->. Qed.

Lemma ok_or_err {A} (o : option A) (x : E) e s :
  o = None -> @ok_or K _ _ ty E Ev W A o x e s = Err x s.
Proof. by intros ->. Qed.

Lemma arith_run t z e s : in_range t z = true -> @arith K _ _ ty E Ev W t z e s = Ok z s.
Proof. unfold arith. by intros ->. Qed.

Lemma require_auth_run a e s :
  is_authorized e a = true -> @require_auth K _ _ ty E Ev W a e s = Ok tt s.
Proof. unfold require_auth. by intros ->. Qed.

Lemma require_auth_trap a e s :
  is_authorized e a = false -> @require_auth K _ _ ty E Ev W a e s = Trap.
Proof. unfold require_auth. by intros ->. Qed.

Lemma invoke_run {E' A} callee (c : ecall W E' A) e s a w :
  c (sub_env callee e) (world s) = EOk a w ->
  @invoke_contract K _ _ ty E Ev W E' A callee c e s = Ok a (put_world w s).
Proof. unfold invoke_contract. by intros ->. Qed.

Lemma try_invoke_run {E' A} callee (c : ecall W E' A) e s a w :
  c (sub_env callee e) (world s) = EOk a w ->
  @try_invoke_contract K _ _ ty E Ev W E' A callee c e s = Ok (inl a) (put_world w s).
Proof. unfold try_invoke_contract. by intros ->. Qed.

(** [only_live m e s]: from [s], [m] returns and changes lifetimes only. *)
Definition only_live (m : contract K ty E Ev W unit) e s : Prop :=
  exists l, m e s = Ok tt (put_live l s).

Lemma only_live_bind (m : contract K ty E Ev W unit) (k : unit -> contract K ty E Ev W unit) e s :
  only_live m e s -> (forall l, only_live (k tt) e (put_live l s)) -> only_live (bind m k) e s.
Proof.
  intros [l Hm] Hk. destruct (Hk l) as [l' Hl]. exists l'. unfold bind. by rewrite Hm, Hl.
Qed.

Lemma only_live_timestamp f e s :
  only_live (f (timestamp e)) e s -> only_live (bind ledger_timestamp f) e s.
Proof. done. Qed.

Lemma only_live_pextend k th ex e s :
  is_Some (sget k (pers s)) -> only_live (pextend_ttl k th ex) e s.
Proof. intros [v Hv]. unfold only_live, pextend_ttl. rewrite Hv. eauto. Qed.

Lemma only_live_bump k th ex e s : only_live (bump_if_present k th ex) e s.
Proof.
  unfold only_live, bump_if_present, bind, phas, when, ret.
  case_bool_decide as Hk; [by apply only_live_pextend|].
  exists (live s). by destruct s.
Qed.
End forward.

(** [run] performs the leading steps of the goal's computation: reads, writes and
    returns by computation, guards and lookups by the goal's hypotheses. *)
Ltac run_with m :=
  lazymatch m with
  | bind _ _ => rewrite bind_assoc_run
  | pget _ => erewrite bind_run by reflexivity
  | iget _ => erewrite bind_run by reflexivity
  | phas _ => erewrite bind_run by reflexivity
  | ihas _ => erewrite bind_run by reflexivity
  | pset _ _ => erewrite bind_run by reflexivity
  | iset _ _ => erewrite bind_run by reflexivity
  | premove _ => erewrite bind_run by reflexivity
  | iremove _ => erewrite bind_run by reflexivity
  | publish _ => erewrite bind_run by reflexivity
  | ret _ => erewrite bind_run by reflexivity
  | ledger_timestamp => erewrite bind_run by reflexivity
  | current_contract_address => erewrite bind_run by reflexivity
  | iextend_ttl _ _ => erewrite bind_run by reflexivity
  | fail_if _ _ =>
      first [ erewrite bind_run by (apply fail_if_run; first [eassumption|reflexivity])
            | erewrite bind_err by (apply fail_if_err; first [eassumption|reflexivity]) ]
  | require_auth _ =>
      first [ erewrite bind_run by (apply require_auth_run; eassumption)
            | erewrite bind_trap by (apply require_auth_trap; eassumption) ]
  | invoke_contract _ _ => erewrite bind_run by (apply invoke_run; eassumption)
  | try_invoke_contract _ _ => erewrite bind_run by (apply try_invoke_run; eassumption)
  | ok_or _ _ =>
      first [ erewrite bind_run by (apply ok_or_run; first [eassumption|reflexivity])
            | erewrite bind_err by (apply ok_or_err; first [eassumption|reflexivity]) ]
  end.

Ltac run_one :=
  lazymatch goal with
  | |- context [bind ?m _ _ _] => run_with m
  end.

Ltac run := repeat (run_one; cbn beta).

(** [host_simp] computes the fields of transformed states and the lookups in the
    updated stores, everywhere. *)
Ltac host_cbn :=
  cbn [inst pers live inst_live events world put_inst del_inst put_pers with_pers del_pers
       put_live put_inst_live log put_world] in *.

Ltac host_simp := repeat progress (host_cbn; store_simp).

(** Turns the boolean guards a computation has passed into propositions. *)
Ltac guards :=
  repeat match goal with
  | H : negb _ = false |- _ => apply negb_false_iff in H
  | H : negb _ = true |- _ => apply negb_true_iff in H
  | H : (_ <=? _) = false |- _ => apply Z.leb_gt in H
  | H : (_ <=? _) = true |- _ => apply Z.leb_le in H
  | H : (_ <? _) = false |- _ => apply Z.ltb_ge in H
  | H : (_ <? _) = true |- _ => apply Z.ltb_lt in H
  | H : (_ =? _) = true |- _ => apply Z.eqb_eq in H
  | H : (_ =? _) = false |- _ => apply Z.eqb_neq in H
  | H : bool_decide _ = false |- _ => apply bool_decide_eq_false in H
  | H : bool_decide _ = true |- _ => apply bool_decide_eq_true in H
  | H : ~ (_ <> _) |- _ => apply dec_stable in H
  | H : checked _ _ = Some _ |- _ => apply checked_Some in H as [-> H]
  | H : _ || _ = false |- _ => apply orb_false_iff in H as [? ?]
  | H : _ && _ = true |- _ => apply andb_true_iff in H as [? ?]
  end.

(** ** States up to lifetimes and events

    Reading refreshes entry lifetimes, so getters change the state; [same_data]
    is the equivalence under which they do not. *)

Section same_data.
Context {K : Type} `{Countable K} {ty : K -> Type} {E Ev W : Type}.
Implicit Types (s t : cstate K ty Ev W).

Definition same_data s t : Prop :=
  inst s = inst t /\ pers s = pers t /\ events s = events t /\ world s = world t.

#[export] Instance same_data_equivalence : Equivalence same_data.
Proof.
  unfold same_data. split; red.
  - done.
  - intros s t (?&?&?&?); auto.
  - intros s t u (->&->&->&->) (?&?&?&?); auto.
Qed.

#[export] Instance inst_proper : Proper (same_data ==> eq) inst.
Proof. by intros s t (?&?&?&?). Qed.
#[export] Instance pers_proper : Proper (same_data ==> eq) pers.
Proof. by intros s t (?&?&?&?). Qed.
#[export] Instance world_proper : Proper (same_data ==> eq) world.
Proof. by intros s t (?&?&?&?). Qed.

Lemma same_data_put_live l s t : same_data s t -> same_data (put_live l s) t.
Proof. done. Qed.

Lemma put_live_same l s : same_data (put_live l s) s.
Proof. done. Qed.
Lemma put_inst_live_same l s : same_data (put_inst_live l s) s.
Proof. done. Qed.
End same_data.

(** A successful transaction, from the boolean that evaluates it. *)
Lemma commit_is_ok `{Countable K} {ty : K -> Type} {E Ev W} (r : result K ty E Ev W unit) s :
  is_ok r = true -> r = Ok tt (commit r s).
Proof. by destruct r as [[]| |]. Qed.

(** A successful computation, from the value it evaluates to. *)
Lemma run_value `{Countable K} {ty : K -> Type} {E Ev W A} (m : contract K ty E Ev W A) (r : A) e s s' :
  (match m e s with Ok a _ => Some a | _ => None end) = Some r -> s' = commit (m e s) s -> m e s = Ok r s'.
Proof. intros Hr ->. destruct (m e s); simpl in *; congruence. Qed.

(** ** A concrete environment, for examples

    Everybody signs everything at ledger time [t]; the build has no overflow
    checks; entries live for ever. *)
Definition sample_env (t : Z) : Env :=
  mkEnv t (Addr 1000) [] (fun _ _ => true) false 0 (fun live _ _ => live).

(** The same environment with a build that keeps overflow checks. *)
Definition checked_env (t : Z) : Env :=
  mkEnv t (Addr 1000) [] (fun _ _ => true) true 0 (fun live _ _ => live).
