(* ===== verification/Spec.v ===== *)
(** * Specifications: abstract machines and what implements them

    An abstract machine says, without storage, lifetimes or machine arithmetic, what a
    call does to an abstract state: it is done, refused with an error, or trapped.  A
    contract implements the machine when every transaction, in every state its invariant
    allows, has the outcome of the machine and stays related to it. *)

From S2P Require Import Prelude Host.

Inductive outcome (L E : Type) :=
| Done (l : L)
| Refused (x : E)
| Trapped.
Arguments Done {L E} l.
Arguments Refused {L E} x.
Arguments Trapped {L E}.

(** Preconditions, in the order they are looked at. *)
Definition check {L E} (b : bool) (x : E) (o : outcome L E) : outcome L E := if b then o else Refused x.
Definition found {A L E} (a : option A) (x : E) (k : A -> outcome L E) : outcome L E :=
  match a with Some v => k v | None => Refused x end.

Declare Scope spec_scope.
Delimit Scope spec_scope with spec.
Notation "'require' b 'else' x ;; o" := (check b x o)
  (at level 100, b at level 99, x at level 99, o at level 200, right associativity,
   format "'require'  b  'else'  x  ;; '//' o") : spec_scope.
Notation "'find' v := a 'else' x ;; o" := (found a x (fun v => o))
  (at level 100, v name, a at level 99, x at level 99, o at level 200, right associativity,
   format "'find'  v  :=  a  'else'  x  ;; '//' o") : spec_scope.

(** The state after a call: what was refused has changed nothing. *)
Definition after {L E} (o : outcome L E) (l : L) : L := match o with Done l' => l' | _ => l end.

(** Arithmetic in a width: out of range it traps or wraps, as the build says. *)
Definition computed {L E} (e : Env) (t : int_type) (z : Z) (k : Z -> outcome L E) : outcome L E :=
  if in_range t z then k z else if overflow_checks e then Trapped else k (wrap t z).

(** Every signer has a nonce, and a signed call spends it. *)
Definition next_nonce (nonce : Address -> Z) (a : Address) : Address -> Z :=
  fun a' => if decide (a = a') then nonce a + 1 else nonce a'.

Section signing.
Context {L E : Type} (nonce : L -> Address -> Z) (spend : Address -> L -> L) (bad : E).

(** A call that [a] signs, with the nonce that is its turn. *)
Definition by_signer (e : Env) (a : Address) (n : Z) (l : L) (k : L -> outcome L E) : outcome L E :=
  if is_authorized e a then check (n =? nonce l a) bad (k (spend a l)) else Trapped.
End signing.

(** Things numbered in order of creation, from 1. *)
Definition numbered {A} (i : Z) (l : list A) : option A := if 1 <=? i then l !! Z.to_nat (i - 1) else None.
Definition renumber {A} (i : Z) (x : A) (l : list A) : list A := <[Z.to_nat (i - 1) := x]> l.

Lemma numbered_renumber {A} i j (x : A) l :
  is_Some (numbered i l) -> numbered j (renumber i x l) = if decide (i = j) then Some x else numbered j l.
Proof.
  unfold numbered, renumber. intros Hi. destruct (Z.leb_spec 1 i); [|by destruct Hi].
  destruct (decide (i = j)) as [<-|Hne].
  - rewrite (proj2 (Z.leb_le 1 i)) by done. apply list_lookup_insert_eq. by apply lookup_lt_is_Some.
  - destruct (Z.leb_spec 1 j); [|done]. apply list_lookup_insert_ne. lia.
Qed.

Lemma length_renumber {A} i (x : A) l : length (renumber i x l) = length l.
Proof. apply length_insert. Qed.

Lemma numbered_nil {A} i : numbered i (@nil A) = None.
Proof. unfold numbered. by destruct (1 <=? i); rewrite ?lookup_nil. Qed.

Lemma numbered_snoc {A} i (x : A) l :
  numbered i (l ++ [x]) = if decide (i = Z.of_nat (length l) + 1) then Some x else numbered i l.
Proof.
  unfold numbered. case_decide as Hi.
  - subst. rewrite (proj2 (Z.leb_le 1 _)) by lia. rewrite Z.add_simpl_r, Nat2Z.id. by rewrite list_lookup_middle.
  - destruct (Z.leb_spec 1 i); [|done]. destruct (decide (Z.to_nat (i - 1) < length l)%nat).
    + by rewrite lookup_app_l.
    + rewrite lookup_app_r by lia. rewrite (lookup_ge_None_2 l) by lia.
      destruct (_ - _)%nat eqn:Hx; [lia|done].
Qed.

Lemma numbered_elem {A} (x : A) l :
  x ∈ l <-> exists i, 1 <= i <= Z.of_nat (length l) /\ numbered i l = Some x.
Proof.
  rewrite list_elem_of_lookup. unfold numbered. split.
  - intros [i Hi]. exists (Z.of_nat i + 1). rewrite (proj2 (Z.leb_le 1 _)), Z.add_simpl_r, Nat2Z.id by lia.
    apply lookup_lt_Some in Hi as ?. split; [lia|done].
  - intros (i & Hi & Hx). rewrite (proj2 (Z.leb_le 1 _)) in Hx by lia. eauto.
Qed.

Lemma numbered_range {A} i (x : A) l : numbered i l = Some x -> 1 <= i <= Z.of_nat (length l).
Proof.
  unfold numbered. destruct (Z.leb_spec 1 i); [|done]. intros ?%lookup_lt_Some. lia.
Qed.

Section machine.
Context {L E Call : Type} (spec : Env -> Call -> L -> outcome L E).

Definition spec_calls (cs : list (Env * Call)) (l : L) : L :=
  fold_left (fun l ec => after (spec ec.1 ec.2 l) l) cs l.
End machine.

Section refinement.
Context {K : Type} `{Countable K} {ty : K -> Type} {E Ev W Call L : Type}.
Local Abbreviation state := (cstate K ty Ev W).
Context (R : state -> L -> Prop).

(** The transaction has the outcome [o], and its state is the one [o] describes. *)
Definition meets {A} (r : result K ty E Ev W A) (o : outcome L E) : Prop :=
  match o, r with
  | Done l, Ok _ s => R s l
  | Refused x, Err y _ => x = y
  | Trapped, Trap => True
  | _, _ => False
  end.

Lemma meets_check {A} b x o (r : result K ty E Ev W A) :
  (b = false -> meets r (Refused x)) -> (b = true -> meets r o) -> meets r (check b x o).
Proof. unfold check. destruct b; auto. Qed.

Lemma meets_found {A B} (a : option A) x k (r : result K ty E Ev W B) :
  (a = None -> meets r (Refused x)) -> (forall v, a = Some v -> meets r (k v)) -> meets r (found a x k).
Proof. unfold found. destruct a; auto. Qed.

(** A guard of the contract is a precondition of the machine. *)
Lemma meets_guard {A} b c x (k : unit -> contract K ty E Ev W A) e (s : state) o :
  b = negb c -> (c = true -> meets (k tt e s) o) -> meets (bind (fail_if b x) k e s) (check c x o).
Proof. intros ->. destruct c; simpl; [|done]. auto. Qed.

Lemma meets_in_range {A} t z x (k : Z -> contract K ty E Ev W A) e (s : state) o :
  (in_range t z = true -> meets (k z e s) o) ->
  meets (bind (ok_or (checked t z) x) k e s) (check (in_range t z) x o).
Proof. intros Hk. unfold checked. destruct (in_range t z); simpl; [|done]. by apply Hk. Qed.

(** Checked arithmetic on a result the width bounds from above only. *)
Lemma meets_checked {A} t z x (k : Z -> contract K ty E Ev W A) e (s : state) o :
  int_lo t <= z -> (z <= int_hi t -> meets (k z e s) o) ->
  meets (bind (ok_or (checked t z) x) k e s) (check (z <=? int_hi t) x o).
Proof.
  intros Hlo Hk. assert ((z <=? int_hi t) = in_range t z) as ->.
  { unfold in_range. by rewrite (proj2 (Z.leb_le _ _) Hlo). }
  apply meets_in_range. intros [_ Hz]%in_range_spec. by apply Hk.
Qed.

Lemma meets_arith {A} t z (k : Z -> contract K ty E Ev W A) e (s : state) o :
  (forall v, meets (k v e s) (o v)) -> meets (bind (arith t z) k e s) (computed e t z o).
Proof. unfold bind, arith, computed. intros Hk. by destruct (in_range t z), (overflow_checks e). Qed.

(** A list of the same guard is one precondition. *)
Lemma for_each_fail_if_run {A} (b : A -> bool) (x : E) l e (s : state) :
  for_each (fun a => fail_if (b a) x) l e s =
  if forallb (fun a => negb (b a)) l then Ok tt s else Err x s.
Proof.
  induction l as [|a l IH]; [done|]. simpl. unfold bind, fail_if at 1. by destruct (b a).
Qed.

Lemma meets_guards {A B} (b c : A -> bool) x l (k : unit -> contract K ty E Ev W B) e (s : state) o :
  (forall a, b a = negb (c a)) -> (forallb c l = true -> meets (k tt e s) o) ->
  meets (bind (for_each (fun a => fail_if (b a) x) l) k e s) (check (forallb c l) x o).
Proof.
  intros Hbc Hk. unfold bind. rewrite for_each_fail_if_run.
  assert (forallb (fun a => negb (b a)) l = forallb c l) as ->.
  { clear Hk. induction l as [|a l IH]; simpl; [done|]. by rewrite Hbc, negb_involutive, IH. }
  unfold check. destruct (forallb c l); simpl; auto.
Qed.

(** What follows a finished call may log and bump lifetimes only. *)
Lemma meets_bind {A B} (m : contract K ty E Ev W A) (k : A -> contract K ty E Ev W B) e (s : state) o :
  meets (m e s) o -> (forall a t l, R t l -> meets (k a e t) (Done l)) -> meets (bind m k e s) o.
Proof. unfold bind. destruct o, (m e s); simpl; intros Hm Hk; try done. by apply Hk. Qed.

(** What a call returns plays no part. *)
Lemma meets_drop {A} (m : contract K ty E Ev W A) e (s : state) o :
  meets (m e s) o -> meets (bind m (fun _ => ret tt) e s) o.
Proof. unfold bind. by destruct (m e s). Qed.

Lemma meets_commit {A} (r : result K ty E Ev W A) o s l : meets r o -> R s l -> R (commit r s) (after o l).
Proof. by destruct o, r. Qed.

(** A contract with invariant [inv] implements the machine [spec]. *)
Class Implements (inv : Z -> state -> Prop) (exec : Call -> contract K ty E Ev W unit)
    (spec : Env -> Call -> L -> outcome L E) : Prop := {
  implements_inv n c e s s' : n + 1 < 2 ^ 64 -> inv n s -> exec c e s = Ok tt s' -> inv (n + 1) s';
  implements_mono n s : inv n s -> inv (n + 1) s;
  implements_step n e c s l : inv n s -> n + 1 < 2 ^ 64 -> R s l -> meets (exec c e s) (spec e c l);
}.

(** Transaction by transaction, the contract and the machine stay together. *)
Lemma implements_run inv exec spec `{!Implements inv exec spec} cs n s l :
  inv n s -> R s l -> n + Z.of_nat (length cs) < 2 ^ 64 ->
  inv (n + Z.of_nat (length cs)) (run_calls exec cs s) /\ R (run_calls exec cs s) (spec_calls spec cs l).
Proof.
  revert n s l. induction cs as [|[e c] cs IH]; intros n s l Hs HR Hn; simpl in *; [by rewrite Z.add_0_r|].
  replace (n + Z.of_nat (S (length cs))) with ((n + 1) + Z.of_nat (length cs)) in * by lia.
  apply IH; [|apply meets_commit; [apply (implements_step n); [done|lia|done]|done]|lia].
  destruct (exec c e s) as [[] s'|x s'|] eqn:He; simpl; [|by apply implements_mono..].
  eapply implements_inv; [lia|done..].
Qed.

(** The states after any calls are related, and so is the outcome of the next one. *)
Lemma implements_next inv exec spec `{!Implements inv exec spec} cs e c n s l :
  inv n s -> R s l -> n + Z.of_nat (length cs) + 1 < 2 ^ 64 ->
  R (run_calls exec cs s) (spec_calls spec cs l) /\
  meets (exec c e (run_calls exec cs s)) (spec e c (spec_calls spec cs l)).
Proof.
  intros Hs HR Hn. destruct (implements_run inv exec spec cs n s l Hs HR ltac:(lia)) as [Hs' HR'].
  split; [done|]. by apply (implements_step (n + Z.of_nat (length cs))).
Qed.

(** *** Between the calls, the other contracts move *)

Context (move : W -> L -> L).

Definition run_history (exec : Call -> contract K ty E Ev W unit) (h : list (Env * Call + W)) (s : state) : state :=
  fold_left (fun s x => match x with inl (e, c) => commit (exec c e s) s | inr w => put_world w s end) h s.

Definition spec_history (spec : Env -> Call -> L -> outcome L E) (h : list (Env * Call + W)) (l : L) : L :=
  fold_left (fun l x => match x with inl (e, c) => after (spec e c l) l | inr w => move w l end) h l.

Lemma implements_history inv exec spec `{!Implements inv exec spec} h e c n s l :
  (forall n s w, inv n s -> inv n (put_world w s)) -> (forall s l w, R s l -> R (put_world w s) (move w l)) ->
  inv n s -> R s l -> n + Z.of_nat (length h) + 1 < 2 ^ 64 ->
  R (run_history exec h s) (spec_history spec h l) /\
  meets (exec c e (run_history exec h s)) (spec e c (spec_history spec h l)).
Proof.
  intros Hinv HR. revert n s l. induction h as [|x h IH]; intros n s l Hs Hl Hn; simpl length in Hn.
  { split; [done|]. apply (implements_step n); [done|simpl in Hn; lia|done]. }
  simpl. replace (n + Z.of_nat (S (length h)) + 1) with ((n + 1) + Z.of_nat (length h) + 1) in Hn by lia.
  destruct x as [[e0 c0]|w]; apply (IH (n + 1)); try done.
  - destruct (exec c0 e0 s) as [[] s'|x s'|] eqn:He; simpl; [|by apply implements_mono..].
    eapply implements_inv; [lia|done..].
  - apply meets_commit; [apply (implements_step n); [done|lia|done]|done].
  - by apply implements_mono, Hinv.
  - by apply HR.
Qed.
End refinement.
