(* ===== verification/Shared.v ===== *)
(** * Shared error codes and data types

    [src/contracts/shared/src/errors.rs] and [types.rs]: one module per enum, so
    that constructors keep their source names ([BondError.InvalidNonce] is
    [BondError::InvalidNonce]).  The contracts never compute with the numeric
    discriminants, so only the constructors are modelled. *)

From S2P Require Import Prelude.

(** ** errors.rs *)

Module BondError.
Inductive BondError :=
| NotInitialized | Unauthorized | InvalidNonce | BondNotFound | BondAlreadyMatured
| InsufficientSupply | ZeroAmount | ProjectNotApproved | Overflow | ReportNotVerified
| InvalidReport | PeriodAlreadyDistributed | AlreadyProcessed | NotYetMature
| MaturityDateInPast | InsufficientBalance.
End BondError.

Module OracleError.
Inductive OracleError :=
| NotInitialized | Unauthorized | InvalidNonce | ProviderNotFound | ProviderAlreadyExists
| ReportNotFound | ReportAlreadyVerified | ChallengeWindowExpired | InsufficientStake
| InvalidSignature | InvalidResolution | SelfChallenge | StakeLocked | InvalidThreshold
| ProjectRegistryNotConfigured | ProjectNotFound | ProjectNotApproved
| ProjectRegistryCallFailed | OverlappingReportPeriod | ChallengeAlreadyExists
| NoPendingAdminChange | TimelockNotElapsed | InsufficientChallengeBond | AlreadyVoted
| ChallengeNotStale | BackdatedReportPeriod.
End OracleError.

Module DEXError.
Inductive DEXError :=
| NotInitialized | Unauthorized | InvalidNonce | OrderNotFound | OrderAlreadyFilled
| InsufficientBalance | SelfBuyNotAllowed | OrderExpired | ZeroAmount | InsufficientFunds
| Overflow | SellerBalanceDepleted | InvalidRange.
End DEXError.

Module RegistryError.
Inductive RegistryError :=
| NotInitialized | Unauthorized | ProjectNotFound | ProjectAlreadyExists
| InvalidStatusTransition | InvalidNonce | OracleConsumerNotSet | ProjectNotApproved
| ProjectInactive | CannotSuspend | NoPendingAdminChange | TimelockNotElapsed.
End RegistryError.

Module CreditError.
Inductive CreditError :=
| NotInitialized | Unauthorized | InsufficientCredits | AlreadyRetired | InvalidNonce
| NotAHolder | InvalidCertificate | InvalidCreditType | ProjectMismatch | PeriodNotFound
| PeriodNotDistributed | InsufficientCreditsByType | RetirementNotFound | Overflow.
End CreditError.

Module CouponEngineError.
Inductive CouponEngineError :=
| NotInitialized | Unauthorized | InvalidNonce | BondNotFound | PeriodNotFound
| PeriodAlreadyDistributed | AlreadyProcessed | InvalidReport | ReportNotVerified
| Overflow | ZeroAmount | ProjectNotApproved | AccountingMismatch.
End CouponEngineError.

Module GovernanceError.
Inductive GovernanceError :=
| NotInitialized | Unauthorized | InvalidNonce | NotSigner | ProposalNotFound
| AlreadyVoted | NotPending | TimelockNotElapsed | NotQueued | AlreadyExecuted
| ProposalExpired | UnauthorizedCall | InvalidCallArgs | NonceArchived.
End GovernanceError.

(** ** types.rs *)

Module CreditType.
Inductive CreditType := Carbon | Biodiversity | Basket | BlueCarbon.
End CreditType.

Module BondStatus.
Inductive BondStatus := Active | Matured | Defaulted.
End BondStatus.

Module ProjectStatus.
Inductive ProjectStatus := Pending | Approved | Rejected | Inactive.
End ProjectStatus.

Module ReportStatus.
Inductive ReportStatus := Pending | Verified | Challenged | Rejected.
End ReportStatus.

Module VoteChoice.
Inductive VoteChoice := Approve | Veto.
End VoteChoice.

#[export] Instance CreditType_eq_dec : EqDecision CreditType.CreditType.
Proof. solve_decision. Defined.
#[export] Instance BondStatus_eq_dec : EqDecision BondStatus.BondStatus.
Proof. solve_decision. Defined.
#[export] Instance ProjectStatus_eq_dec : EqDecision ProjectStatus.ProjectStatus.
Proof. solve_decision. Defined.
#[export] Instance ReportStatus_eq_dec : EqDecision ReportStatus.ReportStatus.
Proof. solve_decision. Defined.
#[export] Instance VoteChoice_eq_dec : EqDecision VoteChoice.VoteChoice.
Proof. solve_decision. Defined.

Definition credit_type_code (t : CreditType.CreditType) : nat :=
  match t with
  | CreditType.Carbon => 0 | CreditType.Biodiversity => 1
  | CreditType.Basket => 2 | CreditType.BlueCarbon => 3
  end.

#[export] Instance CreditType_countable : Countable CreditType.CreditType.
Proof.
  refine (inj_countable credit_type_code
    (fun n => match n with
              | 0%nat => Some CreditType.Carbon | 1%nat => Some CreditType.Biodiversity
              | 2%nat => Some CreditType.Basket | 3%nat => Some CreditType.BlueCarbon
              | _ => None end) _).
  by intros [].
Defined.

(** [BiodiversityMetrics]: (habitat, species, units) when present. *)
Inductive BiodiversityMetrics :=
| Absent
| Present (v : Z * Z * Z).

Record BondConfig := mkBondConfig {
  bc_project_id : BytesN;
  bc_face_value : Z;
  bc_coupon_schedule : list Z;
  bc_credit_type : CreditType.CreditType;
  bc_maturity_date : Z;
  bc_total_supply : Z;
}.

Record Project := mkProject {
  pj_id : Z;
  pj_owner : Address;
  pj_metadata_ipfs_hash : BytesN;
  pj_name : Symbol;
  pj_status : ProjectStatus.ProjectStatus;
  pj_methodology : Symbol;
  pj_country : Symbol;
}.

(** [status as u32] *)
Definition report_status_code (r : ReportStatus.ReportStatus) : Z :=
  match r with
  | ReportStatus.Pending => 0 | ReportStatus.Verified => 1
  | ReportStatus.Challenged => 2 | ReportStatus.Rejected => 3
  end.

Record OracleReport := mkOracleReport {
  or_project_id : Z;
  or_project_metadata_hash : BytesN;
  or_period_start : Z;
  or_period_end : Z;
  or_carbon_sequestered : Z;
  or_methodology : Symbol;
  or_provider_signature : list Z;
  or_ipfs_evidence_hash : BytesN;
}.
