(* ===== verification/Interfaces.v ===== *)
(** * Interfaces between the contracts

    What each contract promises to the contracts that call it, as type classes
    over a world [W]: the calls (by address of the callee), an abstract view of
    the callee's data, and the laws that relate them.  Clients are verified
    against these classes; the implementations discharge them. *)

From S2P Require Import Prelude Host Shared.

(** The report record oracle-consumer hands out. *)
Record Report := mkReport {
  rp_id : Z;
  rp_provider : Address;
  rp_project_id : Z;
  rp_project_metadata_hash : BytesN;
  rp_period_start : Z;
  rp_period_end : Z;
  rp_carbon_sequestered : Z;
  rp_biodiversity : BiodiversityMetrics;
  rp_methodology : Symbol;
  rp_ipfs_evidence_hash : BytesN;
  rp_status : ReportStatus.ReportStatus;
  rp_submitted_at : Z;
  rp_verified_at : Z;
}.

(** The record project-registry hands out to link a report to a project. *)
Record ProjectLinkage := mkProjectLinkage {
  pl_id : Z;
  pl_metadata_ipfs_hash : BytesN;
  pl_status : ProjectStatus.ProjectStatus;
}.

(** The record of a coupon period coupon-engine hands out. *)
Record PeriodInfo := mkPeriodInfo {
  pi_period_index : Z;
  pi_start_time : Z;
  pi_end_time : Z;
  pi_total_credits_earned : Z;
  pi_distributed : bool;
  pi_report_id : Z;
  pi_undistributed : Z;
}.

(** ** BondIssuer, for its readers: the terms of a bond never change. *)
Class BondReader (W : Type) `{!World W} := {
  bond_config : W -> Address -> Z -> option BondConfig;
  call_get_bond : Address -> Z -> ecall W BondError.BondError BondConfig;
  call_total_subscribed : Address -> Z -> ecall W BondError.BondError Z;
  call_get_holder_balance : Address -> Z -> Address -> ecall W BondError.BondError Z;
  call_get_bond_spec a b e w c w' :
    call_get_bond a b e w = EOk c w' -> bond_config w a b = Some c /\ wquiet w w';
  call_total_subscribed_spec a b e w v w' :
    call_total_subscribed a b e w = EOk v w' -> wquiet w w';
  call_get_holder_balance_spec a b h e w v w' :
    call_get_holder_balance a b h e w = EOk v w' -> wquiet w w';
  bond_config_stable w w' a b c :
    wstep w w' -> bond_config w a b = Some c -> bond_config w' a b = Some c;
}.

(** The measurements of a report are not negative ([submit_report] rejects others). *)
Definition report_nonneg (r : Report) : Prop :=
  0 <= rp_carbon_sequestered r /\
  match rp_biodiversity r with
  | Absent => True
  | Present (habitat, species, units) => 0 <= habitat /\ 0 <= species /\ 0 <= units
  end.

(** ** OracleConsumer, for its readers: a verified report stays what it is. *)
Class OracleReader (W : Type) `{!World W} := {
  report_record : W -> Address -> Z -> option Report;
  call_get_report : Address -> Z -> ecall W OracleError.OracleError Report;
  call_get_report_spec a r e w rep w' :
    call_get_report a r e w = EOk rep w' ->
    (report_nonneg rep /\ report_record w a r = Some rep) /\ wquiet w w';
  report_record_stable w w' a r rep :
    wstep w w' -> report_record w a r = Some rep -> rp_status rep = ReportStatus.Verified ->
    report_record w' a r = Some rep;
}.

(** ** ProjectRegistry, for its readers *)
Class RegistryReader (W : Type) `{!World W} := {
  call_status_by_hash : Address -> BytesN -> ecall W RegistryError.RegistryError ProjectStatus.ProjectStatus;
  call_status_by_hash_spec a h e w st w' : call_status_by_hash a h e w = EOk st w' -> wquiet w w';
}.

(** ** CouponEngine, for the retirement contract: balances that can be deducted. *)
Class CreditSource (W : Type) `{!World W} := {
  credit_balance : W -> Address -> Z -> Address -> Z;
  period_record : W -> Address -> Z -> Z -> option PeriodInfo;
  call_accrued_credits : Address -> Z -> Address -> ecall W CouponEngineError.CouponEngineError Z;
  call_get_period_info : Address -> Z -> Z -> ecall W CouponEngineError.CouponEngineError PeriodInfo;
  call_deduct_credits : Address -> Z -> Address -> Z -> CreditType.CreditType ->
    ecall W CouponEngineError.CouponEngineError Z;
  call_accrued_credits_spec c b h e w v w' :
    call_accrued_credits c b h e w = EOk v w' -> v = credit_balance w c b h /\ wquiet w w';
  call_get_period_info_spec c b p e w info w' :
    call_get_period_info c b p e w = EOk info w' -> period_record w c b p = Some info /\ wquiet w w';
  call_deduct_credits_spec c b h v t e w r w' :
    call_deduct_credits c b h v t e w = EOk r w' ->
    0 < v <= credit_balance w c b h /\ wstep w w' /\
    forall b' h', credit_balance w' c b' h' =
      if decide ((b', h') = (b, h)) then credit_balance w c b h - v else credit_balance w c b' h';
  credit_balance_quiet w w' c b h : wquiet w w' -> credit_balance w' c b h = credit_balance w c b h;
  period_record_quiet w w' c b p : wquiet w w' -> period_record w' c b p = period_record w c b p;
}.

(** ** BondIssuer, for the marketplace: balances that can be transferred. *)
Class BondMarket (W : Type) `{!World W} `{!BondReader W} := {
  bond_balance : W -> Address -> Z -> Address -> Z;
  call_get_nonce : Address -> Address -> ecall W BondError.BondError Z;
  call_transfer : Address -> Address -> Address -> Z -> Z -> Z -> ecall W BondError.BondError unit;
  call_get_holder_balance_value a b h e w v w' :
    call_get_holder_balance a b h e w = EOk v w' -> v = bond_balance w a b h /\ in_range I128 v = true;
  call_get_nonce_spec a h e w v w' : call_get_nonce a h e w = EOk v w' -> wquiet w w';
  call_transfer_spec a from to b v n e w u w' :
    call_transfer a from to b v n e w = EOk u w' ->
    from <> to /\ 0 < v <= bond_balance w a b from /\ is_authorized e from = true /\ wstep w w' /\
    forall b' h', bond_balance w' a b' h' = bond_balance w a b' h'
      + (if decide ((b', h') = (b, to)) then v else 0) - (if decide ((b', h') = (b, from)) then v else 0);
  bond_balance_quiet w w' a b h : wquiet w w' -> bond_balance w' a b h = bond_balance w a b h;
}.

(** ** ProjectRegistry, for oracle-consumer: linkage and revocation. *)
Class ProjectSource (W : Type) `{!World W} := {
  project_status : W -> Address -> Z -> option ProjectStatus.ProjectStatus;
  call_get_project_linkage : Address -> Z -> ecall W RegistryError.RegistryError ProjectLinkage;
  call_revoke_project : Address -> Address -> Z -> Symbol -> Z -> ecall W RegistryError.RegistryError unit;
  call_get_project_linkage_spec r p e w l w' :
    call_get_project_linkage r p e w = EOk l w' ->
    project_status w r p = Some (pl_status l) /\ wquiet w w';
  call_revoke_project_spec r a p reason n e w u w' :
    call_revoke_project r a p reason n e w = EOk u w' ->
    project_status w r p = Some ProjectStatus.Approved /\
    project_status w' r p = Some ProjectStatus.Rejected /\ wstep w w';
  project_status_quiet w w' r p : wquiet w w' -> project_status w' r p = project_status w r p;
}.
