(* ===== verification/ProjectRegistry.v ===== *)
(** * ProjectRegistry: project registration, review, linkage and admin rotation

    Model of [src/contracts/project-registry/src/lib.rs]. *)

From S2P Require Import Prelude Host Shared Interfaces.

(** ** Storage and events *)

Definition LEDGERS_PER_DAY : Z := 17280.
Definition PERSISTENT_TTL_THRESHOLD : Z := LEDGERS_PER_DAY * 30.
Definition PERSISTENT_TTL_EXTEND_TO : Z := LEDGERS_PER_DAY * 120.
Definition ADMIN_TRANSFER_TIMELOCK_SECONDS : Z := 172800.

Module DataKey.
Inductive DataKey :=
| Admin
| Project (key : BytesN)
| ProjectCount
| ProjectId (id : Z)
| ProjectByHash (hash : BytesN)
| Nonce (addr : Address)
| OwnerProjects (owner : Address)
| OracleConsumerId
| PendingAdmin.
End DataKey.
Abbreviation DataKey := DataKey.DataKey.

#[export] Instance DataKey_eq_dec : EqDecision DataKey.
Proof. solve_decision. Defined.

#[export] Instance DataKey_countable : Countable DataKey.
Proof.
  refine (inj_countable'
    (fun k => match k with
      | DataKey.Admin => (0%N, [], Addr 0) | DataKey.Project b => (1%N, b, Addr 0)
      | DataKey.ProjectCount => (2%N, [], Addr 0) | DataKey.ProjectId i => (3%N, [i], Addr 0)
      | DataKey.ProjectByHash h => (4%N, h, Addr 0) | DataKey.Nonce a => (5%N, [], a)
      | DataKey.OwnerProjects a => (6%N, [], a) | DataKey.OracleConsumerId => (7%N, [], Addr 0)
      | DataKey.PendingAdmin => (8%N, [], Addr 0) end)
    (fun x => match x with
      | (0%N, _, _) => DataKey.Admin | (1%N, b, _) => DataKey.Project b
      | (2%N, _, _) => DataKey.ProjectCount | (3%N, [i], _) => DataKey.ProjectId i
      | (4%N, h, _) => DataKey.ProjectByHash h | (5%N, _, a) => DataKey.Nonce a
      | (6%N, _, a) => DataKey.OwnerProjects a | (7%N, _, _) => DataKey.OracleConsumerId
      | _ => DataKey.PendingAdmin end) _).
  by intros [].
Defined.

Record PendingAdminChange := mkPendingAdminChange {
  pac_candidate : Address;
  pac_executable_at : Z;
}.

Record ProjectSummary := mkProjectSummary {
  ps_id : Z;
  ps_name : Symbol;
  ps_status : ProjectStatus.ProjectStatus;
  ps_country : Symbol;
}.

Definition ty (k : DataKey) : Type :=
  match k with
  | DataKey.Admin => Address
  | DataKey.Project _ => Project
  | DataKey.ProjectCount => Z
  | DataKey.ProjectId _ => Z
  | DataKey.ProjectByHash _ => Z
  | DataKey.Nonce _ => Z
  | DataKey.OwnerProjects _ => list Z
  | DataKey.OracleConsumerId => Address
  | DataKey.PendingAdmin => PendingAdminChange
  end.

Inductive Event :=
| P_SUSPEND (project_id : Z) (caller : Address) (reason : Symbol)
| P_REVOKE (project_id : Z) (caller : Address) (reason : Symbol)
| ORA_SET (caller oracle_consumer_id : Address)
| admin_transfer_proposed (caller candidate : Address) (executable_at : Z)
| admin_transfer_cancelled (caller : Address)
| admin_changed (old_admin caller : Address).

(** The registry calls no other contract. *)
Abbreviation M := (contract DataKey ty RegistryError.RegistryError Event unit).
Abbreviation state := (cstate DataKey ty Event unit).

(** ** Helpers *)

(** The id in big-endian order, padded to 32 bytes. *)
Definition project_id_to_bytes (id : Z) : BytesN := be_bytes 8 id ++ repeat 0 24.

Definition bump_instance : M unit :=
  iextend_ttl PERSISTENT_TTL_THRESHOLD PERSISTENT_TTL_EXTEND_TO.

Definition bump_persistent (key : DataKey) : M unit :=
  pextend_ttl key PERSISTENT_TTL_THRESHOLD PERSISTENT_TTL_EXTEND_TO.

Definition read_persistent (key : DataKey) : M (option (ty key)) :=
  let* o := pget key in
  match o with
  | Some value => bump_persistent key ;; ret (Some value)
  | None => ret None
  end.

Definition write_persistent (key : DataKey) (value : ty key) : M unit :=
  pset key value ;;
  bump_persistent key.

Definition require_admin (caller : Address) : M unit :=
  let* o := iget DataKey.Admin in
  let* admin := ok_or o RegistryError.NotInitialized in
  fail_if (bool_decide (caller <> admin)) RegistryError.Unauthorized.

Definition require_admin_or_oracle (caller : Address) : M unit :=
  let* r := attempt (require_admin caller) in
  match r with
  | inl _ => ret tt
  | inr _ =>
      let* o := iget DataKey.OracleConsumerId in
      let* oracle_consumer := ok_or o RegistryError.OracleConsumerNotSet in
      fail_if (bool_decide (caller <> oracle_consumer)) RegistryError.Unauthorized
  end.

(** [matches!(status, Pending | Approved)] *)
Definition active_project (st : ProjectStatus.ProjectStatus) : bool :=
  match st with
  | ProjectStatus.Pending | ProjectStatus.Approved => true
  | ProjectStatus.Rejected | ProjectStatus.Inactive => false
  end.

Definition ensure_metadata_hash_available (metadata_ipfs_hash : BytesN) : M unit :=
  let* o := read_persistent (DataKey.ProjectByHash metadata_ipfs_hash) in
  match o with
  | Some project_id =>
      let* p := read_persistent (DataKey.Project (project_id_to_bytes project_id)) in
      match p with
      | Some project => fail_if (active_project (pj_status project)) RegistryError.ProjectAlreadyExists
      | None => ret tt
      end
  | None => ret tt
  end.

(** [if nonce != expected_nonce { return Err(InvalidNonce) }] *)
Definition check_nonce (caller : Address) (nonce : Z) : M Z :=
  let* o := read_persistent (DataKey.Nonce caller) in
  let expected_nonce : Z := default 0 o in
  fail_if (negb (nonce =? expected_nonce)) RegistryError.InvalidNonce ;;
  ret expected_nonce.

(** The prologue of the signed entrypoints. *)
Definition consume_nonce (caller : Address) (nonce : Z) : M unit :=
  let* expected_nonce := check_nonce caller nonce in
  let* next := arith U64 (expected_nonce + 1) in
  write_persistent (DataKey.Nonce caller) next.

(** [project.status = next] *)
Definition with_status (project : Project) (next : ProjectStatus.ProjectStatus) : Project :=
  mkProject (pj_id project) (pj_owner project) (pj_metadata_ipfs_hash project) (pj_name project)
    next (pj_methodology project) (pj_country project).

(** Load a project, require its status and replace it. *)
Definition transition (project_id : Z) (required next : ProjectStatus.ProjectStatus) : M unit :=
  let key := DataKey.Project (project_id_to_bytes project_id) in
  let* o := read_persistent key in
  let* project := ok_or o RegistryError.ProjectNotFound in
  fail_if (bool_decide (pj_status project <> required)) RegistryError.InvalidStatusTransition ;;
  write_persistent key (with_status project next).

(** ** Entrypoints *)

Definition constructor (admin : Address) : M unit :=
  iset DataKey.Admin admin ;;
  bump_instance.

Definition register_project (caller : Address) (metadata_ipfs_hash : BytesN)
    (name methodology country : Symbol) (nonce : Z) : M Z :=
  bump_instance ;;
  require_auth caller ;;
  let* expected_nonce := check_nonce caller nonce in
  fail_if (all_zero metadata_ipfs_hash) RegistryError.ProjectNotFound ;;
  ensure_metadata_hash_available metadata_ipfs_hash ;;
  let* next := arith U64 (expected_nonce + 1) in
  write_persistent (DataKey.Nonce caller) next ;;
  let* c := read_persistent DataKey.ProjectCount in
  let* new_id := arith U64 (default 0 c + 1) in
  write_persistent DataKey.ProjectCount new_id ;;
  let project := mkProject new_id caller metadata_ipfs_hash name ProjectStatus.Pending methodology country in
  write_persistent (DataKey.Project (project_id_to_bytes new_id)) project ;;
  write_persistent (DataKey.ProjectByHash metadata_ipfs_hash) new_id ;;
  let* o := read_persistent (DataKey.OwnerProjects caller) in
  write_persistent (DataKey.OwnerProjects caller) (default [] o ++ [new_id]) ;;
  ret new_id.

Definition suspend_project (caller : Address) (project_id : Z) (reason : Symbol) (nonce : Z) : M unit :=
  bump_instance ;;
  require_auth caller ;;
  consume_nonce caller nonce ;;
  require_admin caller ;;
  transition project_id ProjectStatus.Approved ProjectStatus.Inactive ;;
  publish (P_SUSPEND project_id caller reason).

Definition revoke_project (caller : Address) (project_id : Z) (reason : Symbol) (nonce : Z) : M unit :=
  bump_instance ;;
  require_auth caller ;;
  consume_nonce caller nonce ;;
  require_admin_or_oracle caller ;;
  transition project_id ProjectStatus.Approved ProjectStatus.Rejected ;;
  publish (P_REVOKE project_id caller reason).

Definition read_project (project_id : Z) : M (option Project) :=
  read_persistent (DataKey.Project (project_id_to_bytes project_id)).

Definition is_project_active (project_id : Z) : M bool :=
  bump_instance ;;
  let* o := read_project project_id in
  ret (match o with
       | Some project => bool_decide (pj_status project = ProjectStatus.Approved)
       | None => false
       end).

Definition get_project_status (project_id : Z) : M ProjectStatus.ProjectStatus :=
  bump_instance ;;
  let* o := read_project project_id in
  ok_or (pj_status <$> o) RegistryError.ProjectNotFound.

Definition linkage_of (project : Project) : ProjectLinkage :=
  mkProjectLinkage (pj_id project) (pj_metadata_ipfs_hash project) (pj_status project).

Definition get_project_linkage (project_id : Z) : M ProjectLinkage :=
  bump_instance ;;
  let* o := read_project project_id in
  ok_or (linkage_of <$> o) RegistryError.ProjectNotFound.

Definition set_oracle_consumer (caller oracle_consumer_id : Address) (nonce : Z) : M unit :=
  bump_instance ;;
  require_auth caller ;;
  consume_nonce caller nonce ;;
  require_admin caller ;;
  iset DataKey.OracleConsumerId oracle_consumer_id ;;
  publish (ORA_SET caller oracle_consumer_id).

Definition approve_project (caller : Address) (project_id nonce : Z) : M unit :=
  bump_instance ;;
  require_auth caller ;;
  consume_nonce caller nonce ;;
  require_admin caller ;;
  transition project_id ProjectStatus.Pending ProjectStatus.Approved.

Definition reject_project (caller : Address) (project_id nonce : Z) : M unit :=
  bump_instance ;;
  require_auth caller ;;
  consume_nonce caller nonce ;;
  require_admin caller ;;
  transition project_id ProjectStatus.Pending ProjectStatus.Rejected.

Definition get_project (project_id : Z) : M Project :=
  bump_instance ;;
  let* o := read_project project_id in
  ok_or o RegistryError.ProjectNotFound.

Definition get_project_by_hash (metadata_ipfs_hash : BytesN) : M Project :=
  bump_instance ;;
  let* o := read_persistent (DataKey.ProjectByHash metadata_ipfs_hash) in
  let* project_id := ok_or o RegistryError.ProjectNotFound in
  let* p := read_project project_id in
  ok_or p RegistryError.ProjectNotFound.

Definition get_project_status_by_hash (hash : BytesN) : M ProjectStatus.ProjectStatus :=
  bump_instance ;;
  let* o := read_persistent (DataKey.ProjectByHash hash) in
  let* project_id := ok_or o RegistryError.ProjectNotFound in
  let* p := read_project project_id in
  let* project := ok_or p RegistryError.ProjectNotFound in
  ret (pj_status project).

Definition summary_of (project : Project) : ProjectSummary :=
  mkProjectSummary (pj_id project) (pj_name project) (pj_status project) (pj_country project).

(** One turn of the loop of [list_projects]. *)
Definition push_summary (result : list ProjectSummary) (i : Z) : M (list ProjectSummary) :=
  let* o := read_project i in
  ret (match o with Some project => result ++ [summary_of project] | None => result end).

Definition list_projects (page page_size : Z) : M (list ProjectSummary) :=
  bump_instance ;;
  let* c := read_persistent DataKey.ProjectCount in
  let count : Z := default 0 c in
  let page_size := Z.min page_size 50 in
  let* start := arith U64 (page * page_size) in
  if count <=? start then ret []
  else
    let* next := arith U64 (start + page_size) in
    let end_ := Z.min next count in
    mfold push_summary [] (seqZ (start + 1) (end_ - start)).

Definition project_count : M Z :=
  bump_instance ;;
  let* c := read_persistent DataKey.ProjectCount in
  ret (default 0 c).

Definition get_owner_projects (owner : Address) : M (list Z) :=
  bump_instance ;;
  let* o := read_persistent (DataKey.OwnerProjects owner) in
  ret (default [] o).

Definition propose_admin_transfer (caller candidate : Address) (nonce : Z) : M unit :=
  bump_instance ;;
  require_auth caller ;;
  consume_nonce caller nonce ;;
  require_admin caller ;;
  let* now := ledger_timestamp in
  let* executable_at := arith U64 (now + ADMIN_TRANSFER_TIMELOCK_SECONDS) in
  write_persistent DataKey.PendingAdmin (mkPendingAdminChange candidate executable_at) ;;
  publish (admin_transfer_proposed caller candidate executable_at).

Definition cancel_admin_transfer (caller : Address) (nonce : Z) : M unit :=
  bump_instance ;;
  require_auth caller ;;
  consume_nonce caller nonce ;;
  require_admin caller ;;
  let* has := phas DataKey.PendingAdmin in
  fail_if (negb has) RegistryError.NoPendingAdminChange ;;
  premove DataKey.PendingAdmin ;;
  publish (admin_transfer_cancelled caller).

Definition accept_admin_transfer (caller : Address) (nonce : Z) : M unit :=
  bump_instance ;;
  require_auth caller ;;
  consume_nonce caller nonce ;;
  let* o := read_persistent DataKey.PendingAdmin in
  let* pending := ok_or o RegistryError.NoPendingAdminChange in
  fail_if (bool_decide (caller <> pac_candidate pending)) RegistryError.Unauthorized ;;
  let* now := ledger_timestamp in
  fail_if (now <? pac_executable_at pending) RegistryError.TimelockNotElapsed ;;
  let* a := iget DataKey.Admin in
  let* old_admin := ok_or a RegistryError.NotInitialized in
  iset DataKey.Admin caller ;;
  premove DataKey.PendingAdmin ;;
  publish (admin_changed old_admin caller).

Definition get_admin : M (option Address) := iget DataKey.Admin.

Definition get_pending_admin : M (option PendingAdminChange) :=
  bump_instance ;;
  read_persistent DataKey.PendingAdmin.

(** ** Executions *)

Inductive Call :=
| CRegister (caller : Address) (hash : BytesN) (name methodology country : Symbol) (nonce : Z)
| CSuspend (caller : Address) (project_id : Z) (reason : Symbol) (nonce : Z)
| CRevoke (caller : Address) (project_id : Z) (reason : Symbol) (nonce : Z)
| CApprove (caller : Address) (project_id nonce : Z)
| CReject (caller : Address) (project_id nonce : Z)
| CSetOracle (caller oracle_consumer_id : Address) (nonce : Z)
| CPropose (caller candidate : Address) (nonce : Z)
| CCancel (caller : Address) (nonce : Z)
| CAccept (caller : Address) (nonce : Z)
| CGetProject (project_id : Z)
| CGetByHash (hash : BytesN)
| CList (page page_size : Z).

(** The arguments fit the types of the interface; the host decodes no others. *)
Definition well_typed (c : Call) : bool :=
  match c with
  | CRegister _ h _ _ _ n => Nat.eqb (length h) 32 && in_range U64 n
  | CSuspend _ p _ n | CRevoke _ p _ n | CApprove _ p n | CReject _ p n =>
      in_range U64 p && in_range U64 n
  | CSetOracle _ _ n | CPropose _ _ n | CCancel _ n | CAccept _ n => in_range U64 n
  | CGetProject p => in_range U64 p
  | CGetByHash h => Nat.eqb (length h) 32
  | CList p k => in_range U32 p && in_range U32 k
  end.

Definition dispatch (c : Call) : M unit :=
  match c with
  | CRegister a h nm me co n => register_project a h nm me co n ;; ret tt
  | CSuspend a p r n => suspend_project a p r n
  | CRevoke a p r n => revoke_project a p r n
  | CApprove a p n => approve_project a p n
  | CReject a p n => reject_project a p n
  | CSetOracle a o n => set_oracle_consumer a o n
  | CPropose a c n => propose_admin_transfer a c n
  | CCancel a n => cancel_admin_transfer a n
  | CAccept a n => accept_admin_transfer a n
  | CGetProject p => get_project p ;; ret tt
  | CGetByHash h => get_project_by_hash h ;; ret tt
  | CList p n => list_projects p n ;; ret tt
  end.

Definition exec (c : Call) : M unit := assert_ (well_typed c) ;; dispatch c.

Definition deployed (s : state) : Prop :=
  exists e admin, constructor admin e (empty_state tt) = Ok tt s.

Abbreviation reachable := (reach deployed exec).

(** ** Views *)

Definition project_of (s : state) (id : Z) : option Project :=
  sget (DataKey.Project (project_id_to_bytes id)) (pers s).
Definition by_hash (s : state) (h : BytesN) : option Z := sget (DataKey.ProjectByHash h) (pers s).
Definition count_of (s : state) : Z := default 0 (sget DataKey.ProjectCount (pers s)).
Definition nonce_of (s : state) (a : Address) : Z := default 0 (sget (DataKey.Nonce a) (pers s)).
Definition admin_of (s : state) : option Address := sget DataKey.Admin (inst s).
Definition oracle_of (s : state) : option Address := sget DataKey.OracleConsumerId (inst s).
Definition pending_of (s : state) : option PendingAdminChange := sget DataKey.PendingAdmin (pers s).

Ltac views := unfold project_of, by_hash, count_of, nonce_of, admin_of, oracle_of, pending_of in *.

(** ** Specifications of the helpers *)

Lemma bump_instance_Ok e s u s' : bump_instance e s = Ok u s' -> exists l, s' = put_inst_live l s.
Proof. intros H. unfold bump_instance in H. inv_ok H. by eexists. Qed.

Lemma read_persistent_Ok k e s o s' :
  read_persistent k e s = Ok o s' -> o = sget k (pers s) /\ exists l, s' = put_live l s.
Proof.
  intros H. unfold read_persistent, bump_persistent in H. inv_ok H.
  destruct (sget k (pers s)); inv_ok H.
  - split; [done|]. by eexists.
  - split; [done|]. exists (live s). by destruct s.
Qed.

Lemma read_project_Ok id e s o s' :
  read_project id e s = Ok o s' -> o = project_of s id /\ exists l, s' = put_live l s.
Proof. apply (read_persistent_Ok (DataKey.Project (project_id_to_bytes id))). Qed.

Lemma write_persistent_Ok k v e s u s' :
  write_persistent k v e s = Ok u s' -> exists l, s' = put_live l (put_pers k v s).
Proof. intros H. unfold write_persistent, bump_persistent in H. inv_ok H. by eexists. Qed.

Lemma registry_require_admin_Ok a e s u s' :
  require_admin a e s = Ok u s' -> admin_of s = Some a /\ s' = s.
Proof. intros H. unfold require_admin in H. inv_ok H. guards. by subst. Qed.

Lemma require_admin_Err a e s x s' : require_admin a e s = Err x s' -> s' = s.
Proof.
  unfold require_admin, bind, iget, ok_or, fail_if, ret, throw.
  intros H. by repeat case_match; simplify_eq.
Qed.

Lemma require_admin_or_oracle_Ok a e s u s' :
  require_admin_or_oracle a e s = Ok u s' ->
  (admin_of s = Some a \/ oracle_of s = Some a) /\ s' = s.
Proof.
  intros H. unfold require_admin_or_oracle in H. apply bind_Ok in H as (r&s1&Hr&H).
  apply attempt_Ok in Hr as [([]&->&Hr)|(x&->&Hr)].
  - apply registry_require_admin_Ok in Hr as [? ->]. inv_ok H. auto.
  - apply require_admin_Err in Hr as ->. inv_ok H. guards. subst. auto.
Qed.

Ltac inv_hook H ::=
  lazymatch type of H with
  | bump_instance _ _ = Ok _ _ => apply bump_instance_Ok in H as [? ?]; subst
  | read_persistent _ _ _ = Ok _ _ =>
      let l := fresh "l" in apply read_persistent_Ok in H as (?&l&?); subst
  | read_project _ _ _ = Ok _ _ =>
      let l := fresh "l" in apply read_project_Ok in H as (?&l&?); subst
  | write_persistent _ _ _ _ = Ok _ _ =>
      let l := fresh "l" in apply write_persistent_Ok in H as [l ?]; subst
  | require_admin _ _ _ = Ok _ _ => apply registry_require_admin_Ok in H as [? ?]; subst
  | require_admin_or_oracle _ _ _ = Ok _ _ => apply require_admin_or_oracle_Ok in H as [? ?]; subst
  end.

Lemma check_nonce_Ok a n e s k s' :
  check_nonce a n e s = Ok k s' -> n = nonce_of s a /\ k = n /\ exists l, s' = put_live l s.
Proof.
  intros H. unfold check_nonce in H. inv_ok H. guards. subst. split_and!; [done..|]. by eexists.
Qed.

Lemma registry_consume_nonce_Ok a n e s u s' :
  consume_nonce a n e s = Ok u s' ->
  n = nonce_of s a /\
  exists next l, s' = put_live l (put_pers (DataKey.Nonce a) next s) /\
                 (in_range U64 (n + 1) = true -> next = n + 1).
Proof.
  intros H. unfold consume_nonce in H. inv_ok H.
  match goal with Hc : check_nonce _ _ _ _ = _ |- _ => apply check_nonce_Ok in Hc as (->&->&l0&->) end.
  split; [done|]. by eexists _, _.
Qed.

Lemma ensure_available_Ok h e s u s' :
  ensure_metadata_hash_available h e s = Ok u s' ->
  (forall id p, by_hash s h = Some id -> project_of s id = Some p -> active_project (pj_status p) = false) /\
  exists l, s' = put_live l s.
Proof.
  intros H. unfold ensure_metadata_hash_available in H. inv_ok H. views.
  destruct (sget (DataKey.ProjectByHash h) (pers s)) as [id|] eqn:Hh; inv_ok H.
  2: { split; [done|by eexists]. }
  host_cbn. destruct (sget (DataKey.Project (project_id_to_bytes id)) (pers s)) as [p|] eqn:Hp;
    inv_ok H; (split; [intros; simplify_eq; congruence|by eexists]).
Qed.

Lemma transition_Ok id required next e s u s' :
  transition id required next e s = Ok u s' ->
  exists p l, project_of s id = Some p /\ pj_status p = required /\
    s' = put_live l (put_pers (DataKey.Project (project_id_to_bytes id)) (with_status p next) s).
Proof.
  intros H. unfold transition in H. inv_ok H. guards. by eexists _, _.
Qed.

Ltac inv_hook H ::=
  lazymatch type of H with
  | bump_instance _ _ = Ok _ _ => apply bump_instance_Ok in H as [? ?]; subst
  | read_persistent _ _ _ = Ok _ _ =>
      let l := fresh "l" in apply read_persistent_Ok in H as (?&l&?); subst
  | read_project _ _ _ = Ok _ _ =>
      let l := fresh "l" in apply read_project_Ok in H as (?&l&?); subst
  | write_persistent _ _ _ _ = Ok _ _ =>
      let l := fresh "l" in apply write_persistent_Ok in H as [l ?]; subst
  | require_admin _ _ _ = Ok _ _ => apply registry_require_admin_Ok in H as [? ?]; subst
  | require_admin_or_oracle _ _ _ = Ok _ _ => apply require_admin_or_oracle_Ok in H as [? ?]; subst
  | check_nonce _ _ _ _ = Ok _ _ =>
      let l := fresh "l" in apply check_nonce_Ok in H as (?&?&l&?); subst
  | consume_nonce _ _ _ _ = Ok _ _ =>
      let l := fresh "l" in let next := fresh "next" in
      apply registry_consume_nonce_Ok in H as (?&next&l&?&?); subst
  | ensure_metadata_hash_available _ _ _ = Ok _ _ =>
      let l := fresh "l" in apply ensure_available_Ok in H as (?&l&?); subst
  | transition _ _ _ _ _ = Ok _ _ =>
      let p := fresh "p" in let l := fresh "l" in apply transition_Ok in H as (p&l&?&?&?); subst
  end.

(** ** What a successful call did *)

(** The signer [a] used the nonce [n] it had to use; [next] is the one stored. *)
Definition signed_by (e : Env) (s : state) (a : Address) (n next : Z) : Prop :=
  is_authorized e a = true /\ n = nonce_of s a /\ (in_range U64 (n + 1) = true -> next = n + 1).

Definition after_nonce (a : Address) (next : Z) (s : state) : store DataKey ty :=
  sset (DataKey.Nonce a) next (pers s).

Ltac op_tac H := inv_ok H; guards; subst; views; host_simp; unfold signed_by, after_nonce;
  eexists; split_and!; eauto.

Lemma register_Ok a h nm me co n e s id s' :
  register_project a h nm me co n e s = Ok id s' ->
  exists next, signed_by e s a n next /\ all_zero h = false /\
    (forall i p, by_hash s h = Some i -> project_of s i = Some p -> active_project (pj_status p) = false) /\
    (in_range U64 (count_of s + 1) = true -> id = count_of s + 1) /\
    inst s' = inst s /\ events s' = events s /\
    pers s' = sset (DataKey.OwnerProjects a) (default [] (sget (DataKey.OwnerProjects a) (pers s)) ++ [id])
               (sset (DataKey.ProjectByHash h) id
                 (sset (DataKey.Project (project_id_to_bytes id))
                       (mkProject id a h nm ProjectStatus.Pending me co)
                   (sset DataKey.ProjectCount id (after_nonce a next s)))).
Proof. intros H. unfold register_project in H. op_tac H. Qed.

(** [who] moved project [p] from [required] to [next_status]. *)
Definition moved (s s' : state) (a : Address) (next : Z) (id : Z) (p : Project)
    (required next_status : ProjectStatus.ProjectStatus) : Prop :=
  project_of s id = Some p /\ pj_status p = required /\ inst s' = inst s /\
  pers s' = sset (DataKey.Project (project_id_to_bytes id)) (with_status p next_status)
              (after_nonce a next s).

Ltac moved_tac H := inv_ok H; unfold moved, signed_by, after_nonce; views; host_simp;
  eexists _, _; split_and!; eauto.

Lemma suspend_Ok a id r n e s u s' :
  suspend_project a id r n e s = Ok u s' ->
  exists p next, signed_by e s a n next /\ admin_of s = Some a /\
    moved s s' a next id p ProjectStatus.Approved ProjectStatus.Inactive.
Proof. intros H. unfold suspend_project in H. moved_tac H. Qed.

Lemma revoke_Ok a id r n e s u s' :
  revoke_project a id r n e s = Ok u s' ->
  exists p next, signed_by e s a n next /\ (admin_of s = Some a \/ oracle_of s = Some a) /\
    moved s s' a next id p ProjectStatus.Approved ProjectStatus.Rejected.
Proof. intros H. unfold revoke_project in H. moved_tac H. Qed.

Lemma approve_Ok a id n e s u s' :
  approve_project a id n e s = Ok u s' ->
  exists p next, signed_by e s a n next /\ admin_of s = Some a /\
    moved s s' a next id p ProjectStatus.Pending ProjectStatus.Approved.
Proof. intros H. unfold approve_project in H. moved_tac H. Qed.

Lemma reject_Ok a id n e s u s' :
  reject_project a id n e s = Ok u s' ->
  exists p next, signed_by e s a n next /\ admin_of s = Some a /\
    moved s s' a next id p ProjectStatus.Pending ProjectStatus.Rejected.
Proof. intros H. unfold reject_project in H. moved_tac H. Qed.

Lemma set_oracle_Ok a o n e s u s' :
  set_oracle_consumer a o n e s = Ok u s' ->
  exists next, signed_by e s a n next /\ admin_of s = Some a /\
    inst s' = sset DataKey.OracleConsumerId o (inst s) /\ pers s' = after_nonce a next s.
Proof. intros H. unfold set_oracle_consumer in H. op_tac H. Qed.

Lemma propose_Ok a c n e s u s' :
  propose_admin_transfer a c n e s = Ok u s' ->
  exists next at_, signed_by e s a n next /\ admin_of s = Some a /\
    (in_range U64 (timestamp e + ADMIN_TRANSFER_TIMELOCK_SECONDS) = true ->
     at_ = timestamp e + ADMIN_TRANSFER_TIMELOCK_SECONDS) /\
    inst s' = inst s /\
    pers s' = sset DataKey.PendingAdmin (mkPendingAdminChange c at_) (after_nonce a next s).
Proof.
  intros H. unfold propose_admin_transfer in H. inv_ok H. views; host_simp.
  unfold signed_by, after_nonce. eexists _, _. split_and!; eauto.
Qed.

Lemma cancel_Ok a n e s u s' :
  cancel_admin_transfer a n e s = Ok u s' ->
  exists next, signed_by e s a n next /\ admin_of s = Some a /\ is_Some (pending_of s) /\
    inst s' = inst s /\ pers s' = sdel DataKey.PendingAdmin (after_nonce a next s).
Proof. intros H. unfold cancel_admin_transfer in H. op_tac H. Qed.

Lemma accept_Ok a n e s u s' :
  accept_admin_transfer a n e s = Ok u s' ->
  exists next pd, signed_by e s a n next /\ pending_of s = Some pd /\
    a = pac_candidate pd /\ pac_executable_at pd <= timestamp e /\
    inst s' = sset DataKey.Admin a (inst s) /\
    pers s' = sdel DataKey.PendingAdmin (after_nonce a next s).
Proof.
  intros H. unfold accept_admin_transfer in H. inv_ok H. guards. views; host_simp.
  unfold signed_by, after_nonce. eexists _, _. split_and!; eauto.
Qed.

(** ** Getters *)

Lemma get_project_Ok id e s p s' :
  get_project id e s = Ok p s' -> project_of s id = Some p /\ same_data s' s.
Proof. intros H. unfold get_project in H. inv_ok H. views. by split. Qed.

Lemma get_project_by_hash_Ok h e s p s' :
  get_project_by_hash h e s = Ok p s' ->
  exists id, by_hash s h = Some id /\ project_of s id = Some p /\ same_data s' s.
Proof. intros H. unfold get_project_by_hash in H. inv_ok H. views. by eexists. Qed.

Lemma push_summary_Ok acc i e s acc' s' :
  push_summary acc i e s = Ok acc' s' ->
  acc' = acc ++ omap (fun i => summary_of <$> project_of s i) [i] /\ exists l, s' = put_live l s.
Proof.
  intros H. unfold push_summary in H. inv_ok H. split; [|by eexists].
  unfold project_of. simpl. destruct (sget _ _); simpl; by rewrite ?app_nil_r.
Qed.

Lemma push_summaries_Ok is_ acc e s acc' s' :
  mfold push_summary acc is_ e s = Ok acc' s' ->
  acc' = acc ++ omap (fun i => summary_of <$> project_of s i) is_ /\ same_data s' s.
Proof.
  revert acc s. induction is_ as [|i l IH]; intros acc s H.
  - apply (ret_Ok acc acc' e) in H as [-> ->]. split; [by rewrite app_nil_r|done].
  - apply mfold_cons_Ok in H as (acc1&s1&[-> [l1 ->]]%push_summary_Ok&[-> Hd]%IH).
    split; [|done]. rewrite <- app_assoc. f_equal. simpl.
    change (project_of (put_live l1 s) i) with (project_of s i). by destruct (summary_of <$> _).
Qed.

(** ** Storage keys of projects *)

Lemma project_id_to_bytes_inj i j :
  0 <= i < 2 ^ 64 -> 0 <= j < 2 ^ 64 -> project_id_to_bytes i = project_id_to_bytes j -> i = j.
Proof.
  intros Hi Hj Heq. unfold project_id_to_bytes in Heq.
  apply app_inj_2 in Heq as [Heq _]; [|done]. by apply be_bytes_inj in Heq.
Qed.

(** ** The invariant of executions *)

(** The ids of the projects of [a], in registration order. *)
Definition owned (s : state) (a : Address) : list Z :=
  filter (fun i => pj_owner <$> project_of s i = Some a) (seqZ 1 (count_of s)).

Record inv (n : Z) (s : state) : Prop := {
  inv_count : 0 <= count_of s <= n;
  inv_key : forall k p, sget (DataKey.Project k) (pers s) = Some p ->
              k = project_id_to_bytes (pj_id p) /\ 1 <= pj_id p <= count_of s;
  inv_total : forall id, 1 <= id <= count_of s -> is_Some (project_of s id);
  inv_hash : forall h id, by_hash s h = Some id ->
               1 <= id <= count_of s /\
               exists p, project_of s id = Some p /\ pj_metadata_ipfs_hash p = h;
  inv_active : forall k p, sget (DataKey.Project k) (pers s) = Some p ->
                 active_project (pj_status p) = true ->
                 by_hash s (pj_metadata_ipfs_hash p) = Some (pj_id p);
  inv_owned : forall a, default [] (sget (DataKey.OwnerProjects a) (pers s)) = owned s a;
  inv_nonce : forall a, 0 <= nonce_of s a <= n;
}.

Lemma registry_inv_same n s t : pers t = pers s -> inv n s -> inv n t.
Proof.
  intros Hp [? ? ? ? ? ? ?].
  split; unfold owned in *; views; rewrite ?Hp; auto.
Qed.

Lemma registry_inv_mono n s : inv n s -> inv (n + 1) s.
Proof. intros [? ? ? ? ? ? Hn]. split; auto; [lia|]. intros a. specialize (Hn a). lia. Qed.

Lemma registry_inv_init s : deployed s -> inv 0 s.
Proof.
  intros (e & admin & H). unfold constructor in H. inv_ok H.
  split; unfold owned; views; host_cbn; rewrite ?sget_empty; simpl; try done;
    intros *; rewrite ?sget_empty; simpl; try done; try lia.
Qed.

Lemma registry_nonce_step e n s a k next a' :
  n + 1 < 2 ^ 64 -> inv n s -> signed_by e s a k next ->
  0 <= default 0 (sget (DataKey.Nonce a') (after_nonce a next s)) <= n + 1.
Proof.
  intros Hn Hinv (_ & -> & Hnx). pose proof (inv_nonce n s Hinv) as Hno.
  views. unfold after_nonce. store_case; simpl.
  - specialize (Hno a'). rewrite Hnx; [lia|]. apply in_range_spec; simpl; lia.
  - specialize (Hno a'). lia.
Qed.

(** A change of nonces, instance data or the pending admin keeps the invariant. *)
Lemma inv_after_nonce n e s a k next s' :
  n + 1 < 2 ^ 64 -> inv n s -> signed_by e s a k next ->
  (forall key, (forall a, key <> DataKey.Nonce a) -> key <> DataKey.PendingAdmin ->
     sget key (pers s') = sget key (pers s)) ->
  (forall a', sget (DataKey.Nonce a') (pers s') = sget (DataKey.Nonce a') (after_nonce a next s)) ->
  inv (n + 1) s'.
Proof.
  intros Hn Hinv Hsig Hother Hnonce.
  pose proof (fun a' => registry_nonce_step e n s a k next a' Hn Hinv Hsig) as Hno.
  destruct Hinv as [Hc Hk Ht Hh Ha Ho _].
  assert (Hproj : forall id, project_of s' id = project_of s id) by (intros; apply (Hother (DataKey.Project _)); congruence).
  assert (Hcount : count_of s' = count_of s) by (unfold count_of; by rewrite Hother by congruence).
  assert (Hby : forall h, by_hash s' h = by_hash s h) by (intros; apply (Hother (DataKey.ProjectByHash _)); congruence).
  split.
  - lia.
  - intros key p. rewrite Hother, Hcount by congruence. apply Hk.
  - intros id. rewrite Hcount, Hproj. apply Ht.
  - intros h id. rewrite Hby, Hcount. setoid_rewrite Hproj. apply Hh.
  - intros key p. rewrite Hother, Hby by congruence. apply Ha.
  - intros b. rewrite Hother, Ho by congruence. unfold owned. rewrite Hcount.
    apply list_filter_iff. intros i. by rewrite Hproj.
  - intros b. unfold nonce_of. rewrite Hnonce. apply Hno.
Qed.

Lemma sget_after_nonce_ne k a next s :
  (forall a, k <> DataKey.Nonce a) -> sget k (after_nonce a next s) = sget k (pers s).
Proof. intros. unfold after_nonce. by rewrite sget_sset_ne by congruence. Qed.
#[export] Hint Rewrite sget_after_nonce_ne using congruence : store.

Lemma moved_projects s s' a next id p required st :
  moved s s' a next id p required st ->
  forall i, project_of s' i =
    if decide (project_id_to_bytes id = project_id_to_bytes i) then Some (with_status p st) else project_of s i.
Proof.
  intros (_&_&_&Hp) i. unfold project_of. rewrite Hp. case_decide as He.
  - by rewrite He, sget_sset_eq.
  - rewrite sget_sset_ne by congruence. by store_simp.
Qed.

Lemma inv_moved n e s s' a k next id p required st :
  n + 1 < 2 ^ 64 -> inv n s -> signed_by e s a k next ->
  moved s s' a next id p required st ->
  (active_project st = true -> active_project required = true) -> inv (n + 1) s'.
Proof.
  intros Hn Hinv Hsig Hm Hact. pose proof (moved_projects _ _ _ _ _ _ _ _ Hm) as Hproj.
  pose proof (fun a' => registry_nonce_step e n s a k next a' Hn Hinv Hsig) as Hno.
  destruct Hm as (Hpid & Hst & _ & Hp). destruct Hinv as [Hc Hk Ht Hh Ha Ho _].
  assert (Hcount : count_of s' = count_of s) by (unfold count_of; rewrite Hp; by store_simp).
  assert (Hby : forall h, by_hash s' h = by_hash s h) by (intros; unfold by_hash; rewrite Hp; by store_simp).
  split.
  - lia.
  - intros key q. rewrite Hcount, Hp. store_case; [|store_simp; apply Hk].
    intros [= <-]. by apply (Hk _ p).
  - intros i. rewrite Hcount, Hproj. case_decide; eauto.
  - intros h i. rewrite Hby, Hcount. intros Hhi. destruct (Hh h i Hhi) as (?&q&Hq&Hqh).
    split; [done|]. rewrite Hproj. case_decide as He; [|eauto].
    eexists; split; [done|]. simpl. unfold project_of in *. rewrite <- He in Hq. congruence.
  - intros key q. rewrite Hby, Hp. store_case; [|store_simp; apply Ha].
    intros [= <-]. simpl. intros Hs. apply (Ha _ p Hpid). auto.
  - intros b. rewrite Hp. store_simp. rewrite Ho. unfold owned. rewrite Hcount.
    apply list_filter_iff. intros i. rewrite Hproj. case_decide as He; [|done].
    unfold project_of in *. rewrite <- He, Hpid. done.
  - intros b. unfold nonce_of. rewrite Hp. store_simp. apply Hno.
Qed.

(** The id that [register_project] hands out is not in use. *)
Lemma fresh_key n s i :
  n < 2 ^ 64 - 1 -> inv n s -> count_of s < i < 2 ^ 64 -> project_of s i = None.
Proof.
  intros Hn Hinv Hi. destruct (project_of s i) as [p|] eqn:Hp; [|done]. exfalso.
  pose proof (inv_count n s Hinv).
  apply (inv_key n s Hinv) in Hp as [Heq ?]. apply project_id_to_bytes_inj in Heq; lia.
Qed.

(** [p] was added to the directory; [next] is the nonce its owner goes on with. *)
Definition added (s s' : state) (next : Z) (p : Project) : Prop :=
  pers s' = sset (DataKey.OwnerProjects (pj_owner p))
                 (default [] (sget (DataKey.OwnerProjects (pj_owner p)) (pers s)) ++ [pj_id p])
              (sset (DataKey.ProjectByHash (pj_metadata_ipfs_hash p)) (pj_id p)
                (sset (DataKey.Project (project_id_to_bytes (pj_id p))) p
                  (sset DataKey.ProjectCount (pj_id p) (after_nonce (pj_owner p) next s)))).

Lemma added_views s s' next p :
  added s s' next p ->
  count_of s' = pj_id p /\
  (forall h, by_hash s' h = if decide (pj_metadata_ipfs_hash p = h) then Some (pj_id p) else by_hash s h) /\
  forall key, sget (DataKey.Project key) (pers s') =
    if decide (project_id_to_bytes (pj_id p) = key) then Some p else sget (DataKey.Project key) (pers s).
Proof.
  unfold added, count_of, by_hash. intros ->. split_and!.
  - by store_simp.
  - intros h. store_simp. case_decide as He; subst; by store_simp.
  - intros key. store_simp. case_decide as He; subst; by store_simp.
Qed.

(** The projects from before, and the list of their owners. *)
Lemma added_old n s s' next p i :
  n + 1 < 2 ^ 64 -> inv n s -> pj_id p = count_of s + 1 -> added s s' next p ->
  1 <= i <= count_of s -> project_of s' i = project_of s i.
Proof.
  intros Hn Hinv Hid (_&_&Hkey)%added_views Hi. pose proof (inv_count n s Hinv).
  unfold project_of. rewrite Hkey. case_decide as He; [|done]. apply project_id_to_bytes_inj in He; lia.
Qed.

Lemma added_owned n s s' next p b :
  n + 1 < 2 ^ 64 -> inv n s -> pj_id p = count_of s + 1 -> added s s' next p ->
  default [] (sget (DataKey.OwnerProjects b) (pers s')) = owned s' b.
Proof.
  intros Hn Hinv Hid Hp. pose proof (fun i => added_old n s s' next p i Hn Hinv Hid Hp) as Hold.
  pose proof (inv_count n s Hinv). destruct (added_views _ _ _ _ Hp) as (Hcount&_&Hkey).
  assert (Hnew : project_of s' (count_of s + 1) = Some p) by (unfold project_of; rewrite Hkey, Hid; by case_decide).
  unfold owned. rewrite Hcount, Hid, seqZ_app, list.filter_app by lia.
  assert (Hf : filter (fun i => pj_owner <$> project_of s' i = Some b) (seqZ 1 (count_of s)) = owned s b).
  { unfold owned. apply filter_ext_elem. intros i Hi%elem_of_seqZ. by rewrite Hold by lia. }
  rewrite Hf, seqZ_cons by lia. change (seqZ _ (Z.pred 1)) with (@nil Z).
  replace (1 + count_of s) with (count_of s + 1) by lia. rewrite filter_cons, filter_nil, Hnew. simpl.
  rewrite Hp, Hid. destruct (decide (pj_owner p = b)) as [<-|Hne].
  - rewrite sget_sset_eq, decide_True by done. simpl. by rewrite (inv_owned n s Hinv).
  - rewrite decide_False by congruence. rewrite app_nil_r. store_simp. apply (inv_owned n s Hinv).
Qed.

Lemma inv_register n e s s' a h nm me co k id :
  n + 1 < 2 ^ 64 -> inv n s -> register_project a h nm me co k e s = Ok id s' -> inv (n + 1) s'.
Proof.
  intros Hn Hinv H. apply register_Ok in H as (next&Hsig&_&Hfree&Hid&_&_&Hp).
  pose proof (fun a' => registry_nonce_step e n s a k next a' Hn Hinv Hsig) as Hno. pose proof (inv_count n s Hinv).
  rewrite Hid in * by (apply in_range_spec; simpl; lia). clear Hid.
  set (p := mkProject (count_of s + 1) a h nm ProjectStatus.Pending me co). change (added s s' next p) in Hp.
  pose proof (fun i => added_old n s s' next p i Hn Hinv eq_refl Hp) as Hold.
  pose proof (fun b => added_owned n s s' next p b Hn Hinv eq_refl Hp) as Hown.
  destruct (added_views _ _ _ _ Hp) as (Hcount&Hby&Hkey). simpl in Hcount, Hby, Hkey.
  assert (Hnew : project_of s' (count_of s + 1) = Some p) by (unfold project_of; rewrite Hkey; by case_decide).
  destruct Hinv as [Hc Hk Ht Hh Ha Ho _]. split; [lia|..|exact Hown|].
  - intros key q. rewrite Hcount, Hkey. case_decide as He; [intros [= <-]; simpl; split; [done|lia]|].
    intros Hq. apply Hk in Hq as [? ?]. split; [done|lia].
  - intros i. rewrite Hcount. intros Hi. destruct (decide (i = count_of s + 1)) as [->|]; [by rewrite Hnew|].
    rewrite Hold by lia. apply Ht. lia.
  - intros h' i. rewrite Hby, Hcount. case_decide as He.
    + intros [= <-]. subst h'. split; [lia|]. by eexists.
    + intros Hhi. apply Hh in Hhi as (?&?). rewrite Hold by lia. split; [lia|done].
  - intros key q. rewrite Hby, Hkey. case_decide as He; [intros [= <-] _; simpl; by rewrite decide_True|].
    intros Hq Hact. specialize (Ha _ _ Hq Hact). case_decide as Hhq; [exfalso|done].
    subst h. apply Hk in Hq as Hkq. destruct Hkq as [Hkq _].
    assert (Hq' : project_of s (pj_id q) = Some q) by (unfold project_of; rewrite <- Hkq; exact Hq).
    rewrite (Hfree _ _ Ha Hq') in Hact. done.
  - intros b. unfold nonce_of. rewrite Hp. store_simp. apply Hno.
Qed.

Lemma project_key_inj i j :
  DataKey.Project (project_id_to_bytes i) = DataKey.Project (project_id_to_bytes j) ->
  0 <= i < 2 ^ 64 -> 0 <= j < 2 ^ 64 -> i = j.
Proof.
  intros He ? ?. apply project_id_to_bytes_inj; [done..|].
  by apply (f_equal (fun k => match k with DataKey.Project b => b | _ => [] end)) in He.
Qed.

Lemma list_projects_Ok page size e s l s' : list_projects page size e s = Ok l s' -> same_data s' s.
Proof.
  intros H. unfold list_projects in H. inv_ok H. host_cbn.
  destruct (_ <=? _); inv_ok H; [done|]. by apply push_summaries_Ok in H as [_ ?].
Qed.

Lemma exec_Ok c e s s' :
  exec c e s = Ok tt s' -> well_typed c = true /\ dispatch c e s = Ok tt s'.
Proof. intros H. unfold exec in H. by apply bind_Ok in H as ([]&?&[Hw ->]%assert_Ok&H'). Qed.

Lemma registry_inv_exec n c e s s' :
  n + 1 < 2 ^ 64 -> inv n s -> exec c e s = Ok tt s' -> inv (n + 1) s'.
Proof.
  intros Hn Hinv H. apply exec_Ok in H as [_ H]. destruct c; simpl in H; try (apply bind_Ok in H as (?&?&H&[_ ->]%ret_Ok)).
  - by eapply inv_register.
  - apply suspend_Ok in H as (p&next&?&_&?). by eapply inv_moved.
  - apply revoke_Ok in H as (p&next&?&_&?). by eapply inv_moved.
  - apply approve_Ok in H as (p&next&?&_&?). by eapply inv_moved.
  - apply reject_Ok in H as (p&next&?&_&?). by eapply inv_moved.
  - apply set_oracle_Ok in H as (next&?&_&_&Hp). eapply inv_after_nonce; eauto; intros; rewrite Hp; by store_simp.
  - apply propose_Ok in H as (next&?&?&_&_&_&Hp).
    eapply inv_after_nonce; eauto; intros; rewrite Hp; by store_simp.
  - apply cancel_Ok in H as (next&?&_&_&_&Hp).
    eapply inv_after_nonce; eauto; intros; rewrite Hp; by store_simp.
  - apply accept_Ok in H as (next&?&?&_&_&_&_&Hp).
    eapply inv_after_nonce; eauto; intros; rewrite Hp; by store_simp.
  - apply get_project_Ok in H as [_ (_&?&_)]. eauto using registry_inv_mono, registry_inv_same.
  - apply get_project_by_hash_Ok in H as (_&_&_&_&?&_). eauto using registry_inv_mono, registry_inv_same.
  - apply list_projects_Ok in H as (_&?&_). eauto using registry_inv_mono, registry_inv_same.
Qed.

Lemma registry_reachable_inv n s : reachable n s -> n < 2 ^ 64 -> inv n s.
Proof.
  apply (reach_ind_bounded deployed exec (2 ^ 64) inv).
  - exact registry_inv_init.
  - intros m t t' e c _ Hm. by apply registry_inv_exec.
  - exact registry_inv_mono.
  - intros m t w ? _. by apply (registry_inv_same _ t).
Qed.

(** ** Project review *)

(** Which call may take a project from one status to another. *)
Inductive review (s : state) (c : Call) (id : Z) :
    ProjectStatus.ProjectStatus -> ProjectStatus.ProjectStatus -> Prop :=
| review_none st : review s c id st st
| review_approve a n : c = CApprove a id n -> admin_of s = Some a ->
    review s c id ProjectStatus.Pending ProjectStatus.Approved
| review_reject a n : c = CReject a id n -> admin_of s = Some a ->
    review s c id ProjectStatus.Pending ProjectStatus.Rejected
| review_suspend a r n : c = CSuspend a id r n -> admin_of s = Some a ->
    review s c id ProjectStatus.Approved ProjectStatus.Inactive
| review_revoke a r n : c = CRevoke a id r n -> admin_of s = Some a \/ oracle_of s = Some a ->
    review s c id ProjectStatus.Approved ProjectStatus.Rejected.

Lemma review_same s c id p s' :
  project_of s id = Some p -> pers s' = pers s ->
  exists st, project_of s' id = Some (with_status p st) /\ review s c id (pj_status p) st.
Proof.
  intros Hp Heq. exists (pj_status p). unfold project_of in *. rewrite Heq, Hp.
  split; [by destruct p|constructor].
Qed.

Lemma review_other s c id p s' :
  project_of s id = Some p -> project_of s' id = project_of s id ->
  exists st, project_of s' id = Some (with_status p st) /\ review s c id (pj_status p) st.
Proof.
  intros Hp ->. exists (pj_status p). rewrite Hp. split; [by destruct p|constructor].
Qed.

Lemma review_moved s s' c a next id i p q required st :
  0 <= id < 2 ^ 64 -> 0 <= i < 2 ^ 64 ->
  moved s s' a next i q required st -> project_of s id = Some p ->
  (id = i -> review s c id required st) ->
  exists st, project_of s' id = Some (with_status p st) /\ review s c id (pj_status p) st.
Proof.
  intros Hid Hi Hm Hp Hrev. pose proof (moved_projects _ _ _ _ _ _ _ _ Hm id) as Hpr.
  case_decide as He; [|by apply review_other].
  apply project_id_to_bytes_inj in He as ->; [|done..]. destruct Hm as (Hq&<-&_). simplify_eq.
  exists st. auto.
Qed.

Lemma exec_review n s e c s' id p :
  inv n s -> n + 1 < 2 ^ 64 -> 1 <= id < 2 ^ 64 ->
  project_of s id = Some p -> exec c e s = Ok tt s' ->
  exists st, project_of s' id = Some (with_status p st) /\ review s c id (pj_status p) st.
Proof.
  intros Hinv Hn Hid Hp H.
  apply exec_Ok in H as [Hc H].
  destruct c; simpl in H, Hc; guards; repeat match goal with
    Hx : in_range U64 _ = true |- _ => apply in_range_spec in Hx; simpl in Hx end; try (apply bind_Ok in H as (?&?&H&[_ ->]%ret_Ok)).
  - apply register_Ok in H as (next&_&_&_&Hx&_&_&Hp').
    pose proof (inv_count n s Hinv). rewrite Hx in Hp' by (apply in_range_spec; simpl; lia).
    apply review_other; [done|]. unfold project_of at 1. rewrite Hp'.
    pose proof (inv_key n s Hinv _ _ Hp) as [Hk ?]. apply project_id_to_bytes_inj in Hk; [|lia..].
    rewrite !sget_sset_ne; [by store_simp|congruence| |congruence..].
    intros He%project_key_inj; lia.
  - apply suspend_Ok in H as (q&next&_&?&Hm). eapply review_moved; eauto; [lia..|].
    intros ->. by eapply review_suspend.
  - apply revoke_Ok in H as (q&next&_&?&Hm). eapply review_moved; eauto; [lia..|].
    intros ->. by eapply review_revoke.
  - apply approve_Ok in H as (q&next&_&?&Hm). eapply review_moved; eauto; [lia..|].
    intros ->. by eapply review_approve.
  - apply reject_Ok in H as (q&next&_&?&Hm). eapply review_moved; eauto; [lia..|].
    intros ->. by eapply review_reject.
  - apply set_oracle_Ok in H as (next&_&_&_&Hp'). apply review_other; [done|].
    unfold project_of at 1. rewrite Hp'. by store_simp.
  - apply propose_Ok in H as (next&?&_&_&_&_&Hp'). apply review_other; [done|].
    unfold project_of at 1. rewrite Hp'. by store_simp.
  - apply cancel_Ok in H as (next&_&_&_&_&Hp'). apply review_other; [done|].
    unfold project_of at 1. rewrite Hp'. by store_simp.
  - apply accept_Ok in H as (next&?&_&_&_&_&_&Hp'). apply review_other; [done|].
    unfold project_of at 1. rewrite Hp'. by store_simp.
  - apply get_project_Ok in H as [_ (_&?&_)]. by apply review_same.
  - apply get_project_by_hash_Ok in H as (_&_&_&_&?&_). by apply review_same.
  - apply list_projects_Ok in H as (_&?&_). by apply review_same.
Qed.

(** C31: A successful transaction keeps every field of a registered project except its
    status, and moves the status only along the review graph, by the call and the role
    that the edge names: the admin approves, rejects or suspends; the admin or the
    configured oracle consumer revokes. *)
Theorem project_review n s e c s' id p :
  reachable n s -> n + 1 < 2 ^ 64 -> 1 <= id < 2 ^ 64 ->
  project_of s id = Some p -> exec c e s = Ok tt s' ->
  exists st, project_of s' id = Some (with_status p st) /\ review s c id (pj_status p) st.
Proof. intros Hr Hn. apply exec_review with n; [apply registry_reachable_inv; [done|lia]|done]. Qed.

(** ** Reading: forward evaluation *)

Lemma read_persistent_total k e s :
  exists l, read_persistent k e s = Ok (sget k (pers s)) (put_live l s).
Proof.
  unfold read_persistent, bump_persistent. run.
  destruct (sget k (pers s)) as [v|] eqn:Hv.
  - destruct (only_live_pextend (E := RegistryError.RegistryError) k PERSISTENT_TTL_THRESHOLD
      PERSISTENT_TTL_EXTEND_TO e s) as [l Hl]; [by eexists|].
    exists l. by rewrite (bind_run _ _ _ _ _ _ Hl).
  - exists (live s). by destruct s.
Qed.

Ltac run_read :=
  match goal with
  | |- context [bind (read_persistent ?k) _ ?e ?t] =>
      let l := fresh "l" in let Hl := fresh "Hl" in
      destruct (read_persistent_total k e t) as [l Hl]; rewrite (bind_run _ _ _ _ _ _ Hl); clear Hl
  end.

Lemma bump_instance_run e s : exists l, bump_instance e s = Ok tt (put_inst_live l s).
Proof. by eexists. Qed.

Lemma project_id_of n s id p :
  inv n s -> n < 2 ^ 64 -> 0 <= id < 2 ^ 64 -> project_of s id = Some p ->
  pj_id p = id /\ 1 <= id <= count_of s.
Proof.
  intros Hinv Hn Hid Hp. apply (inv_key n s Hinv) in Hp as [Hk ?].
  pose proof (inv_count n s Hinv). apply project_id_to_bytes_inj in Hk; [|lia..]. lia.
Qed.

Lemma get_project_total n s e id p :
  inv n s -> project_of s id = Some p -> exists s', get_project id e s = Ok p s' /\ same_data s' s.
Proof.
  intros Hinv Hp. unfold get_project, bump_instance, read_project. run. run_read. host_cbn.
  fold (project_of s id). rewrite Hp. by eexists.
Qed.

Lemma get_by_hash_total n s e id p :
  inv n s -> n < 2 ^ 64 -> 0 <= id < 2 ^ 64 -> project_of s id = Some p -> active_project (pj_status p) = true ->
  exists s', get_project_by_hash (pj_metadata_ipfs_hash p) e s = Ok p s' /\ same_data s' s.
Proof.
  intros Hinv Hn Hid Hp Hact. pose proof (inv_active n s Hinv _ _ Hp Hact) as Hh.
  destruct (project_id_of n s id p) as [Hpid _]; auto. rewrite Hpid in Hh.
  unfold get_project_by_hash, bump_instance, read_project. run. run_read. host_cbn.
  unfold by_hash in Hh. rewrite Hh. run. run_read. host_cbn. fold (project_of s id). rewrite Hp. by eexists.
Qed.

Lemma get_owner_total n s e a :
  inv n s -> exists s', get_owner_projects a e s = Ok (owned s a) s' /\ same_data s' s.
Proof.
  intros Hinv. unfold get_owner_projects, bump_instance. run. run_read. host_cbn.
  pose proof (inv_owned n s Hinv a) as Ho. rewrite Ho. by eexists.
Qed.

(** Metadata hashes identify live projects: in every reachable state a pending or
    approved project is found by its hash, so two of them never share one. *)
Theorem active_hash_lookup n s e id p :
  reachable n s -> n < 2 ^ 64 -> 0 <= id < 2 ^ 64 ->
  project_of s id = Some p -> active_project (pj_status p) = true ->
  (exists s', get_project_by_hash (pj_metadata_ipfs_hash p) e s = Ok p s' /\ same_data s' s) /\
  forall id' p', 0 <= id' < 2 ^ 64 -> project_of s id' = Some p' ->
    active_project (pj_status p') = true -> pj_metadata_ipfs_hash p' = pj_metadata_ipfs_hash p -> id' = id.
Proof.
  intros Hr Hn Hid Hp Hact. apply registry_reachable_inv in Hr as Hinv; [|done].
  split; [by eapply get_by_hash_total|]. pose proof (inv_active n s Hinv _ _ Hp Hact) as Hh.
  destruct (project_id_of n s id p) as [Hpid _]; auto.
  intros id' p' Hid' Hp' Hact' Heq. pose proof (inv_active n s Hinv _ _ Hp' Hact') as Hh'.
  destruct (project_id_of n s id' p') as [Hpid' _]; auto. congruence.
Qed.

(** The whole directory, in order of registration. *)
Definition summaries (s : state) : list ProjectSummary :=
  omap (fun i => summary_of <$> project_of s i) (seqZ 1 (count_of s)).

Lemma read_project_total id e s : exists l, read_project id e s = Ok (project_of s id) (put_live l s).
Proof. apply (read_persistent_total (DataKey.Project (project_id_to_bytes id))). Qed.

Lemma push_summaries_total is_ acc e s :
  exists s', mfold push_summary acc is_ e s = Ok (acc ++ omap (fun i => summary_of <$> project_of s i) is_) s'.
Proof.
  revert acc s. induction is_ as [|i l IH]; intros acc s; [eexists; by rewrite app_nil_r|].
  simpl. unfold push_summary at 1. destruct (read_project_total i e s) as [l1 Hl].
  rewrite bind_assoc_run, (bind_run _ _ _ _ _ _ Hl). run.
  destruct (IH (match project_of s i with Some project => acc ++ [summary_of project] | None => acc end)
              (put_live l1 s)) as [s' ->]. exists s'. f_equal.
  destruct (project_of s i); simpl; by rewrite <- ?app_assoc.
Qed.

Lemma seqZ_split a b n : 0 <= a -> 0 <= b -> a + b <= n ->
  seqZ 1 n = seqZ 1 a ++ seqZ (a + 1) b ++ seqZ (a + b + 1) (n - a - b).
Proof.
  intros. replace n with (a + (b + (n - a - b))) at 1 by lia. rewrite !seqZ_app by lia.
  do 3 f_equal; lia.
Qed.

(** Every id of the directory is there. *)
Lemma summaries_total n s a b :
  inv n s -> 0 <= a -> 0 <= b -> a + b <= count_of s ->
  length (omap (fun i => summary_of <$> project_of s i) (seqZ (a + 1) b)) = Z.to_nat b.
Proof.
  intros Hinv Ha Hb. revert a Ha. pattern b. revert b Hb. apply natlike_ind; [done|].
  intros b Hb IH a Ha Hab. rewrite seqZ_cons by lia. simpl.
  destruct (inv_total n s Hinv (a + 1)) as [p Hp]; [lia|]. rewrite Hp. simpl.
  rewrite Z.pred_succ, <- Z.add_1_r, IH by lia. lia.
Qed.

Lemma page_of_summaries n s start b :
  inv n s -> 0 <= start -> 0 <= b -> start + b <= count_of s ->
  omap (fun i => summary_of <$> project_of s i) (seqZ (start + 1) b) = page start b (summaries s).
Proof.
  intros Hinv Hs Hb Hle. unfold summaries, page. rewrite (seqZ_split start b) by lia.
  pose proof (summaries_total n s 0 start Hinv ltac:(lia) Hs ltac:(lia)) as H1. simpl in H1.
  pose proof (summaries_total n s start b Hinv Hs Hb Hle) as H2.
  rewrite !omap_app. rewrite drop_app_length' by done. by rewrite take_app_length' by done.
Qed.

Lemma length_summaries n s : inv n s -> length (summaries s) = Z.to_nat (count_of s).
Proof.
  intros Hinv. pose proof (inv_count n s Hinv).
  apply (summaries_total n s 0 (count_of s) Hinv); lia.
Qed.

Lemma list_projects_total n s e pg size :
  inv n s -> n < 2 ^ 64 -> 0 <= pg < 2 ^ 32 -> 0 <= size < 2 ^ 32 ->
  exists s', list_projects pg size e s =
    Ok (page (pg * Z.min size 50) (Z.min size 50) (summaries s)) s' /\ same_data s' s.
Proof.
  intros Hinv Hn Hpg Hsize.
  enough (exists s', list_projects pg size e s =
    Ok (page (pg * Z.min size 50) (Z.min size 50) (summaries s)) s') as [s' Hs'].
  { exists s'. split; [done|]. by eapply list_projects_Ok. }
  pose proof (length_summaries n s Hinv) as Hlen. pose proof (inv_count n s Hinv).
  unfold list_projects, bump_instance. run. run_read. fold (count_of s). host_cbn.
  change (default 0 (sget DataKey.ProjectCount (pers s))) with (count_of s).
  set (k := Z.min size 50). assert (0 <= k <= 50) by lia. assert (0 <= pg * k < 2 ^ 38) by nia.
  rewrite (bind_run _ _ _ _ _ _ (arith_run _ _ _ _ (proj2 (in_range_spec U64 (pg * k)) ltac:(cbn [int_lo int_hi]; lia)))).
  destruct (Z.leb_spec (count_of s) (pg * k)) as [Hge|Hlt].
  { eexists. unfold page, ret. rewrite drop_ge by lia. by rewrite take_nil. }
  rewrite (bind_run _ _ _ _ _ _ (arith_run _ _ _ _ (proj2 (in_range_spec U64 (pg * k + k)) ltac:(cbn [int_lo int_hi]; lia)))).
  match goal with |- context [mfold _ _ ?is_ ?e ?t] => destruct (push_summaries_total is_ [] e t) as [s' ->] end.
  exists s'. f_equal. simpl app. cbn beta. etransitivity; [apply (page_of_summaries n s); [done|lia..]|].
  unfold page. destruct (decide (pg * k + k <= count_of s)).
  - do 2 f_equal. lia.
  - rewrite !take_ge by (rewrite length_drop; lia). done.
Qed.

(** [list_projects] never fails and returns exactly the requested slice of the
    directory (page size capped at 50), without gaps. *)
Theorem list_projects_page n s e pg size :
  reachable n s -> n < 2 ^ 64 -> 0 <= pg < 2 ^ 32 -> 0 <= size < 2 ^ 32 ->
  length (summaries s) = Z.to_nat (count_of s) /\
  exists s', list_projects pg size e s =
    Ok (page (pg * Z.min size 50) (Z.min size 50) (summaries s)) s' /\ same_data s' s.
Proof.
  intros Hr Hn Hpg Hsize. apply registry_reachable_inv in Hr as Hinv; [|done].
  split; [by apply length_summaries with n|by apply (list_projects_total n)].
Qed.

(** ** Admin rotation *)

(** The admin changes only when the pending candidate accepts after the timelock. *)
Definition admin_effect (e : Env) (s s' : state) : Prop :=
  admin_of s' = admin_of s \/
  exists pd, pending_of s = Some pd /\ pac_executable_at pd <= timestamp e /\
    is_authorized e (pac_candidate pd) = true /\ admin_of s' = Some (pac_candidate pd).

(** A pending change appears only by a proposal of the admin, dated by the timelock. *)
Definition pending_effect (e : Env) (c : Call) (s s' : state) : Prop :=
  pending_of s' = pending_of s \/ pending_of s' = None \/
  exists a cand at_ n, c = CPropose a cand n /\ admin_of s = Some a /\ is_authorized e a = true /\
    pending_of s' = Some (mkPendingAdminChange cand at_) /\
    (in_range U64 (timestamp e + ADMIN_TRANSFER_TIMELOCK_SECONDS) = true ->
     at_ = timestamp e + ADMIN_TRANSFER_TIMELOCK_SECONDS).

(** The oracle consumer is the one the admin last set. *)
Definition oracle_effect (e : Env) (c : Call) (s s' : state) : Prop :=
  oracle_of s' = oracle_of s \/
  exists a o n, c = CSetOracle a o n /\ admin_of s = Some a /\ is_authorized e a = true /\ oracle_of s' = Some o.

Definition role_effects (e : Env) (c : Call) (s s' : state) : Prop :=
  admin_effect e s s' /\ pending_effect e c s s' /\ oracle_effect e c s s'.

Lemma effects_of_stores e c s s' a next :
  inst s' = inst s -> (forall key, key = DataKey.PendingAdmin ->
     sget key (pers s') = sget key (after_nonce a next s)) ->
  role_effects e c s s'.
Proof.
  intros Hi Hp. split_and!; left; views; rewrite ?Hi; try done. rewrite Hp by done. by store_simp.
Qed.

Lemma effects_same e c s s' : same_data s' s -> role_effects e c s s'.
Proof. intros (Hi&Hp&_). split_and!; left; views; by rewrite ?Hi, ?Hp. Qed.

Lemma effects_moved e c s s' a next id p r st : moved s s' a next id p r st -> role_effects e c s s'.
Proof.
  intros (_&_&Hi&Hp). apply (effects_of_stores _ _ _ _ a next); [done|].
  intros key ->. rewrite Hp. by store_simp.
Qed.

Lemma exec_effects c e s s' : exec c e s = Ok tt s' -> role_effects e c s s'.
Proof.
  intros [_ H]%exec_Ok. destruct c; simpl in H; try (apply bind_Ok in H as (?&?&H&[_ ->]%ret_Ok)).
  - apply register_Ok in H as (next&_&_&_&_&Hi&_&Hp). apply (effects_of_stores _ _ _ _ caller next); [done|].
    intros key ->. rewrite Hp. by store_simp.
  - apply suspend_Ok in H as (p&next&_&_&?). by eapply effects_moved.
  - apply revoke_Ok in H as (p&next&_&_&?). by eapply effects_moved.
  - apply approve_Ok in H as (p&next&_&_&?). by eapply effects_moved.
  - apply reject_Ok in H as (p&next&_&_&?). by eapply effects_moved.
  - apply set_oracle_Ok in H as (next&(?&_&_)&?&Hi&Hp).
    split_and!; [left|left|right; exists caller, oracle_consumer_id, nonce; split_and!; try done];
      views; rewrite ?Hi, ?Hp; by store_simp.
  - apply propose_Ok in H as (next&at_&(Ha&_&_)&?&Hat&Hi&Hp). split_and!; [left; unfold admin_of; by rewrite Hi| |left; unfold oracle_of; by rewrite Hi].
    right. right. exists caller, candidate, at_, nonce. unfold pending_of. rewrite Hp. by store_simp.
  - apply cancel_Ok in H as (next&_&_&_&Hi&Hp).
    split_and!; [left|right; left|left]; views; rewrite ?Hi, ?Hp; by store_simp.
  - apply accept_Ok in H as (next&pd&(?&_&_)&?&->&?&Hi&Hp).
    split_and!; [right; exists pd; split_and!; try done|right; left|left]; views; rewrite ?Hi, ?Hp; by store_simp.
  - apply get_project_Ok in H as [_ ?]. by apply effects_same.
  - apply get_project_by_hash_Ok in H as (_&_&_&?). by apply effects_same.
  - apply list_projects_Ok in H. by apply effects_same.
Qed.

(** C32: Admin rotation is timelocked: starting from a state without a pending change, no
    sequence of transactions, signed by anybody, changes the admin before 48 hours have
    passed. *)
Theorem admin_rotation_delay s t0 cs :
  pending_of s = None -> 0 <= t0 -> t0 + 2 * ADMIN_TRANSFER_TIMELOCK_SECONDS < 2 ^ 64 ->
  Forall (fun ec => t0 <= timestamp ec.1 < t0 + ADMIN_TRANSFER_TIMELOCK_SECONDS) cs ->
  admin_of (run_calls exec cs s) = admin_of s.
Proof.
  intros Hnone H0 Hmax Hcs.
  assert (Hinv : forall t, admin_of t = admin_of s ->
    (forall pd, pending_of t = Some pd -> t0 + ADMIN_TRANSFER_TIMELOCK_SECONDS <= pac_executable_at pd) ->
    admin_of (run_calls exec cs t) = admin_of s).
  2: { apply Hinv; [done|]. rewrite Hnone. done. }
  clear Hnone. induction Hcs as [|[e c] cs Ht Hcs IH]; intros t Hadm Hpend; [done|].
  simpl. simpl in Ht. destruct (exec c e t) as [[] t'|x t'|] eqn:Hex; simpl; try by apply IH.
  apply exec_effects in Hex as (Ha&Hp&_). apply IH.
  - destruct Ha as [->|(pd&Hpd&Hle&_)]; [done|]. specialize (Hpend _ Hpd). lia.
  - destruct Hp as [->|[->|(a&cand&at_&k&_&_&_&->&Hat)]]; [done..|].
    intros pd [= <-]. simpl. rewrite Hat; [lia|]. apply in_range_spec.
    unfold ADMIN_TRANSFER_TIMELOCK_SECONDS in *. cbn [int_lo int_hi]. lia.
Qed.

(** The address that claims to make the call. *)
Definition caller_of (c : Call) : option Address :=
  match c with
  | CRegister a _ _ _ _ _ | CSuspend a _ _ _ | CRevoke a _ _ _ | CApprove a _ _ | CReject a _ _
  | CSetOracle a _ _ | CPropose a _ _ | CCancel a _ | CAccept a _ => Some a
  | CGetProject _ | CGetByHash _ | CList _ _ => None
  end.

Lemma exec_signed c e s s' a : exec c e s = Ok tt s' -> caller_of c = Some a -> is_authorized e a = true.
Proof.
  intros [_ H]%exec_Ok Hc. destruct c; simpl in H, Hc; try done; injection Hc as ->.
  - apply bind_Ok in H as (?&?&H&_). by apply register_Ok in H as (?&(?&_)&_).
  - by apply suspend_Ok in H as (?&?&(?&_)&_).
  - by apply revoke_Ok in H as (?&?&(?&_)&_).
  - by apply approve_Ok in H as (?&?&(?&_)&_).
  - by apply reject_Ok in H as (?&?&(?&_)&_).
  - by apply set_oracle_Ok in H as (?&(?&_)&_).
  - by apply propose_Ok in H as (?&?&(?&_)&_).
  - by apply cancel_Ok in H as (?&(?&_)&_).
  - by apply accept_Ok in H as (?&?&(?&_)&_).
Qed.

(** A project that was not there is pending. *)
Lemma moved_none s s' a next i q required st id p :
  moved s s' a next i q required st -> project_of s id = None -> project_of s' id = Some p -> False.
Proof.
  intros Hm Hn Hp. rewrite (moved_projects _ _ _ _ _ _ _ _ Hm) in Hp. destruct Hm as (Hq&_). unfold project_of in *.
  case_decide as He; [rewrite He in Hq|]; congruence.
Qed.

Ltac none_kept Hs Hp := unfold project_of in *; rewrite Hs in Hp; revert Hp; store_simp; congruence.

Lemma exec_new c e s s' id p :
  exec c e s = Ok tt s' -> project_of s id = None -> project_of s' id = Some p ->
  pj_status p = ProjectStatus.Pending.
Proof.
  intros [_ H]%exec_Ok Hn Hp. destruct c; simpl in H; try (apply bind_Ok in H as (?&?&H&[_ ->]%ret_Ok)).
  - apply register_Ok in H as (next&_&_&_&_&_&_&Hs). unfold project_of in *. rewrite Hs in Hp.
    destruct (decide (project_id_to_bytes x = project_id_to_bytes id)) as [He|He]; revert Hp; rewrite ?He; store_simp.
    + by intros [= <-].
    + congruence.
  - apply suspend_Ok in H as (q&next&_&_&?). exfalso. by eapply moved_none.
  - apply revoke_Ok in H as (q&next&_&_&?). exfalso. by eapply moved_none.
  - apply approve_Ok in H as (q&next&_&_&?). exfalso. by eapply moved_none.
  - apply reject_Ok in H as (q&next&_&_&?). exfalso. by eapply moved_none.
  - apply set_oracle_Ok in H as (next&_&_&_&Hs). none_kept Hs Hp.
  - apply propose_Ok in H as (next&?&_&_&_&_&Hs). none_kept Hs Hp.
  - apply cancel_Ok in H as (next&_&_&_&_&Hs). none_kept Hs Hp.
  - apply accept_Ok in H as (next&?&_&_&_&_&_&Hs). none_kept Hs Hp.
  - apply get_project_Ok in H as [_ (_&Hs&_)]. unfold project_of in *. congruence.
  - apply get_project_by_hash_Ok in H as (_&_&_&_&Hs&_). unfold project_of in *. congruence.
  - apply list_projects_Ok in H as (_&Hs&_). unfold project_of in *. congruence.
Qed.

Lemma inactive_step n s e c s' id p :
  inv n s -> n + 1 < 2 ^ 64 -> 1 <= id < 2 ^ 64 -> project_of s id = Some p ->
  active_project (pj_status p) = false -> exec c e s = Ok tt s' -> project_of s' id = Some p.
Proof.
  intros Hinv Hn Hid Hp Hst Hex. destruct (exec_review _ _ _ _ _ _ _ Hinv Hn Hid Hp Hex) as (st&Hst'&Hrev).
  inversion Hrev as [st0 Heq|? ? _ _ Heq|? ? _ _ Heq|? ? ? _ _ Heq|? ? ? _ _ Heq]; subst;
    rewrite <- Heq in Hst || rewrite Hst'; try done; by destruct p.
Qed.

(** A rejected or suspended project never changes again: no sequence of later
    transactions, by whatever signers, reinstates it or alters any of its fields. *)
Theorem retired_for_ever n s m t id p :
  reachable n s -> 1 <= id < 2 ^ 64 -> project_of s id = Some p ->
  active_project (pj_status p) = false ->
  reach (eq s) exec m t -> n + m < 2 ^ 64 -> project_of t id = Some p.
Proof.
  intros Hr Hid Hp Hst Ht. revert Hp. pose proof (reach_nonneg _ _ _ _ Hr).
  induction Ht as [t <-|m t e c Ht IH|m t w Ht IH _]; intros Hp Hm; [done| |by apply IH].
  pose proof (reach_nonneg _ _ _ _ Ht). specialize (IH Hp ltac:(lia)).
  destruct (exec c e t) as [[] t'|x t'|] eqn:Hex; simpl; [|done..].
  pose proof (reach_trans _ _ _ _ _ _ Hr Ht) as Hrt. apply registry_reachable_inv in Hrt; [|lia].
  eapply inactive_step; [done| |done..]. lia.
Qed.

(** A project keeps everything but its status in every later state. *)
Lemma reach_keeps_project n s m t id p :
  reachable n s -> 1 <= id < 2 ^ 64 -> project_of s id = Some p ->
  reach (eq s) exec m t -> n + m < 2 ^ 64 -> exists st, project_of t id = Some (with_status p st).
Proof.
  intros Hr Hid Hp Ht. pose proof (reach_nonneg _ _ _ _ Hr).
  induction Ht as [t <-|m t e c Ht IH|m t w Ht IH _]; intros Hm; [exists (pj_status p); by destruct p| |by apply IH].
  pose proof (reach_nonneg _ _ _ _ Ht). destruct (IH ltac:(lia)) as [st Hst].
  destruct (exec c e t) as [[] t'|x t'|] eqn:Hex; simpl; [|by exists st..].
  pose proof (reach_trans _ _ _ _ _ _ Hr Ht) as Hrt. apply registry_reachable_inv in Hrt; [|lia].
  destruct (exec_review (n + m) t e c t' id _ Hrt ltac:(lia) Hid Hst Hex) as (st'&Hst'&_). by exists st'.
Qed.

Lemma owned_elem s a id p :
  project_of s id = Some p -> pj_owner p = a -> 1 <= id <= count_of s -> id ∈ owned s a.
Proof.
  intros Hp Ho Hid. apply list_elem_of_filter. split; [by rewrite Hp, <- Ho|]. apply elem_of_seqZ. lia.
Qed.

(** C40: what is registered is what is read back: after a registration returned an id, and
    after whatever transactions since, [get_project] of that id succeeds with exactly the
    hash, name, methodology, country and owner that were registered, the owner's index
    lists the id, and as long as the project is pending or approved its hash finds it. The
    storage key of a project decodes to its id. *)
Theorem register_read_back n s e a h nm me co k id s1 m t e' :
  reachable n s -> Nat.eqb (length h) 32 && in_range U64 k = true ->
  register_project a h nm me co k e s = Ok id s1 -> reach (eq s1) exec m t -> n + 1 + m < 2 ^ 64 ->
  exists st, let p := mkProject id a h nm st me co in
    (exists t', get_project id e' t = Ok p t' /\ same_data t' t) /\
    (exists l t', get_owner_projects a e' t = Ok l t' /\ same_data t' t /\ id ∈ l) /\
    (active_project st = true -> exists t', get_project_by_hash h e' t = Ok p t' /\ same_data t' t) /\
    be_value (take 8 (project_id_to_bytes id)) = id.
Proof.
  intros Hr Hc He Ht Hn. pose proof (reach_nonneg _ _ _ _ Hr). pose proof (reach_nonneg _ _ _ _ Ht).
  apply registry_reachable_inv in Hr as Hinv; [|lia].
  destruct (register_Ok _ _ _ _ _ _ _ _ _ _ He) as (next&_&_&_&Hid&_&_&Hp). pose proof (inv_count n s Hinv).
  rewrite in_range_spec in Hid. cbn [int_lo int_hi] in Hid. specialize (Hid ltac:(lia)).
  assert (Hr1 : reachable (n + 1) s1).
  { pose proof (reach_call deployed exec n s e (CRegister a h nm me co k) Hr) as Hr1. unfold exec, bind in Hr1. simpl in Hr1.
    rewrite Hc in Hr1. simpl in Hr1. unfold bind in Hr1. by rewrite He in Hr1. }
  assert (Hp1 : project_of s1 id = Some (mkProject id a h nm ProjectStatus.Pending me co)).
  { unfold project_of. rewrite Hp. by store_simp. }
  destruct (reach_keeps_project (n + 1) s1 m t id _ Hr1 ltac:(lia) Hp1 Ht ltac:(lia)) as [st Hst]. exists st. intros p.
  change (with_status _ st) with p in Hst. pose proof (reach_trans _ _ _ _ _ _ Hr1 Ht) as Hrt.
  apply registry_reachable_inv in Hrt; [|lia]. split_and!.
  - by eapply get_project_total.
  - destruct (get_owner_total _ t e' a Hrt) as (t'&Ht'&Hd). exists (owned t a), t'. split_and!; [done|done|].
    apply (owned_elem t a id p Hst); [done|]. destruct (project_id_of _ t id p Hrt ltac:(lia) ltac:(lia) Hst). done.
  - intros Hact. apply (get_by_hash_total (n + 1 + m) t e' id p); [done|lia|lia|done|done].
  - unfold project_id_to_bytes. rewrite take_app_length' by (by rewrite length_be_bytes).
    rewrite be_value_bytes. apply Z.mod_small. lia.
Qed.

(** ** A concrete execution *)

Definition sample_hash (b : Z) : BytesN := b :: repeat 0 31.
Definition sample_start : state := put_inst DataKey.Admin (Addr 1) (empty_state tt).

(** Owner 2 registers two projects; the admin approves the first and rejects the second. *)
Definition sample_calls : list (Env * Call) :=
  [(sample_env 5, CRegister (Addr 2) (sample_hash 7) "mangrove" "VM0033" "KE" 0);
   (sample_env 6, CRegister (Addr 2) (sample_hash 8) "forest" "VM0007" "BR" 1);
   (sample_env 7, CApprove (Addr 1) 1 0);
   (sample_env 8, CReject (Addr 1) 2 1)].

Definition sample_state : state := run_calls exec sample_calls sample_start.

Lemma registry_sample_reachable : reachable 4 sample_state.
Proof.
  apply (reach_run_calls deployed exec sample_calls 0), reach_init.
  by exists (mkEnv 0 (Addr 0) [] (fun _ _ => true) false 0 (fun _ _ _ => 0)), (Addr 1).
Qed.

Definition sample_project (id h : Z) (nm me co : Symbol) (st : ProjectStatus.ProjectStatus) : Project :=
  mkProject id (Addr 2) (sample_hash h) nm st me co.
Definition sample_mangrove := sample_project 1 7 "mangrove" "VM0033" "KE" ProjectStatus.Approved.
Definition sample_forest := sample_project 2 8 "forest" "VM0007" "BR" ProjectStatus.Rejected.

Definition sample_suspended : state :=
  run_calls exec [(sample_env 9, CSuspend (Addr 1) 1 "fire" 2)] sample_state.

Lemma project_review_witness :
  exists st, project_of sample_suspended 1 = Some (with_status sample_mangrove st) /\
    review sample_state (CSuspend (Addr 1) 1 "fire" 2) 1 ProjectStatus.Approved st.
Proof.
  exact (project_review 4 sample_state (sample_env 9) (CSuspend (Addr 1) 1 "fire" 2) sample_suspended 1
           sample_mangrove registry_sample_reachable ltac:(done) ltac:(done) ltac:(by vm_compute)
           ltac:(by apply (commit_is_ok _ sample_state); vm_compute)).
Defined.

Lemma active_hash_lookup_witness :
  (exists s', get_project_by_hash (sample_hash 7) (sample_env 9) sample_state = Ok sample_mangrove s' /\
              same_data s' sample_state) /\
  forall id' p', 0 <= id' < 2 ^ 64 -> project_of sample_state id' = Some p' ->
    active_project (pj_status p') = true -> pj_metadata_ipfs_hash p' = sample_hash 7 -> id' = 1.
Proof.
  exact (active_hash_lookup 4 sample_state (sample_env 9) 1 sample_mangrove registry_sample_reachable
           ltac:(done) ltac:(done) ltac:(by vm_compute) ltac:(done)).
Defined.

Lemma list_projects_page_witness :
  length (summaries sample_state) = 2%nat /\
  exists s', list_projects 1 1 (sample_env 9) sample_state =
    Ok (page 1 1 (summaries sample_state)) s' /\ same_data s' sample_state.
Proof.
  exact (list_projects_page 4 sample_state (sample_env 9) 1 1 registry_sample_reachable
           ltac:(done) ltac:(done) ltac:(done)).
Defined.

Lemma admin_rotation_delay_witness :
  admin_of (run_calls exec [(sample_env 100, CPropose (Addr 1) (Addr 9) 2);
                            (sample_env 200, CAccept (Addr 9) 0)] sample_state) = Some (Addr 1).
Proof.
  exact (admin_rotation_delay sample_state 50
           [(sample_env 100, CPropose (Addr 1) (Addr 9) 2); (sample_env 200, CAccept (Addr 9) 0)]
           ltac:(by vm_compute) ltac:(done) ltac:(done) ltac:(repeat constructor; done)).
Defined.

Lemma retired_for_ever_witness : project_of sample_suspended 2 = Some sample_forest.
Proof.
  exact (retired_for_ever 4 sample_state 1 sample_suspended 2 sample_forest registry_sample_reachable
           ltac:(done) ltac:(by vm_compute) ltac:(done)
           (reach_run_calls (eq sample_state) exec [(sample_env 9, CSuspend (Addr 1) 1 "fire" 2)] 0
              sample_state (reach_init _ _ _ eq_refl)) ltac:(done)).
Defined.

(** The forest of the sample execution, read back after the admin rejected it. *)
Definition sample_one : state := run_calls exec (take 1 sample_calls) sample_start.
Definition sample_register : M Z :=
  register_project (Addr 2) (sample_hash 8) "forest" "VM0007" "BR" 1.
Definition sample_two : state := commit (sample_register (sample_env 6) sample_one) sample_one.
Definition sample_later : state := run_calls exec (drop 2 sample_calls) sample_two.

Lemma register_read_back_witness :
  exists st, let p := mkProject 2 (Addr 2) (sample_hash 8) "forest" st "VM0007" "BR" in
    (exists t', get_project 2 (sample_env 9) sample_later = Ok p t' /\ same_data t' sample_later) /\
    (exists l t', get_owner_projects (Addr 2) (sample_env 9) sample_later = Ok l t' /\ same_data t' sample_later /\ 2 ∈ l) /\
    (active_project st = true ->
       exists t', get_project_by_hash (sample_hash 8) (sample_env 9) sample_later = Ok p t' /\ same_data t' sample_later) /\
    be_value (take 8 (project_id_to_bytes 2)) = 2.
Proof.
  refine (register_read_back 1 sample_one (sample_env 6) (Addr 2) (sample_hash 8) "forest" "VM0007" "BR" 1 2 sample_two
            2 sample_later (sample_env 9) _ eq_refl _ _ eq_refl).
  - apply (reach_run_calls deployed exec (take 1 sample_calls) 0), reach_init. by exists (sample_env 0), (Addr 1).
  - apply run_value; [vm_compute; reflexivity|exact eq_refl].
  - apply (reach_run_calls (eq sample_two) exec (drop 2 sample_calls) 0), reach_init. reflexivity.
Defined.
