(* ===== verification/ProjectDirectory.v ===== *)
(** * The project directory: what ProjectRegistry promises, and that it keeps it

    The abstract machine of [project-registry]: an administrator, perhaps an oracle
    consumer and a pending change of administrator, the projects in order of
    registration, a nonce for every signer.  There are no storage keys, no hash index and
    no counters: a hash is taken when a live project has it. *)

From S2P Require Import Prelude Host Shared Interfaces ProjectRegistry Spec.
Open Scope spec_scope.

(** ** The machine *)

Record Directory := mkDirectory {
  dr_admin : Address;
  dr_oracle : option Address;
  dr_pending : option PendingAdminChange;
  dr_projects : list Project;           (* project 1 first *)
  dr_nonce : Address -> Z;
}.

Definition empty_directory (admin : Address) : Directory := mkDirectory admin None None [] (fun _ => 0).

Definition project_at (id : Z) (d : Directory) : option Project := numbered id (dr_projects d).

(** Some project that [live] accepts was registered under hash [h]. *)
Definition under_hash (live : ProjectStatus.ProjectStatus -> bool) (h : BytesN) (d : Directory) : bool :=
  existsb (fun p => live (pj_status p) && bool_decide (pj_metadata_ipfs_hash p = h)) (dr_projects d).

(** Changes of the directory. *)
Definition spend_nonce (a : Address) (d : Directory) : Directory :=
  mkDirectory (dr_admin d) (dr_oracle d) (dr_pending d) (dr_projects d) (next_nonce (dr_nonce d) a).
Definition add_project (p : Project) (d : Directory) : Directory :=
  mkDirectory (dr_admin d) (dr_oracle d) (dr_pending d) (dr_projects d ++ [p]) (dr_nonce d).
Definition set_project (id : Z) (p : Project) (d : Directory) : Directory :=
  mkDirectory (dr_admin d) (dr_oracle d) (dr_pending d) (renumber id p (dr_projects d)) (dr_nonce d).
Definition set_oracle (o : Address) (d : Directory) : Directory :=
  mkDirectory (dr_admin d) (Some o) (dr_pending d) (dr_projects d) (dr_nonce d).
Definition set_pending (o : option PendingAdminChange) (d : Directory) : Directory :=
  mkDirectory (dr_admin d) (dr_oracle d) o (dr_projects d) (dr_nonce d).
Definition set_admin (a : Address) (d : Directory) : Directory :=
  mkDirectory a (dr_oracle d) (dr_pending d) (dr_projects d) (dr_nonce d).

Local Abbreviation result := (outcome Directory RegistryError.RegistryError).
Local Abbreviation signed := (by_signer dr_nonce spend_nonce RegistryError.InvalidNonce).

Definition register_spec (a : Address) (h : BytesN) (nm me co : Symbol) (d : Directory) : result :=
  require negb (all_zero h) else RegistryError.ProjectNotFound ;;
  require negb (under_hash active_project h d) else RegistryError.ProjectAlreadyExists ;;
  Done (add_project (mkProject (Z.of_nat (length (dr_projects d)) + 1) a h nm ProjectStatus.Pending me co) d).

Definition by_admin (a : Address) (d : Directory) (k : result) : result :=
  require bool_decide (a = dr_admin d) else RegistryError.Unauthorized ;; k.

Definition by_admin_or_oracle (a : Address) (d : Directory) (k : result) : result :=
  if bool_decide (a = dr_admin d) then k
  else
    find o := dr_oracle d else RegistryError.OracleConsumerNotSet ;;
    require bool_decide (a = o) else RegistryError.Unauthorized ;; k.

Definition review_spec (id : Z) (required next : ProjectStatus.ProjectStatus) (d : Directory) : result :=
  find p := project_at id d else RegistryError.ProjectNotFound ;;
  require bool_decide (pj_status p = required) else RegistryError.InvalidStatusTransition ;;
  Done (set_project id (with_status p next) d).

Definition cancel_spec (d : Directory) : result :=
  require bool_decide (is_Some (dr_pending d)) else RegistryError.NoPendingAdminChange ;;
  Done (set_pending None d).

Definition accept_spec (now : Z) (a : Address) (d : Directory) : result :=
  find c := dr_pending d else RegistryError.NoPendingAdminChange ;;
  require bool_decide (a = pac_candidate c) else RegistryError.Unauthorized ;;
  require pac_executable_at c <=? now else RegistryError.TimelockNotElapsed ;;
  Done (set_pending None (set_admin a d)).

Definition directory_spec (e : Env) (c : Call) (d : Directory) : result :=
  if negb (well_typed c) then Trapped else
  match c with
  | CRegister a h nm me co n => signed e a n d (register_spec a h nm me co)
  | CSuspend a id _ n => signed e a n d (fun d =>
      by_admin a d (review_spec id ProjectStatus.Approved ProjectStatus.Inactive d))
  | CRevoke a id _ n => signed e a n d (fun d =>
      by_admin_or_oracle a d (review_spec id ProjectStatus.Approved ProjectStatus.Rejected d))
  | CApprove a id n => signed e a n d (fun d =>
      by_admin a d (review_spec id ProjectStatus.Pending ProjectStatus.Approved d))
  | CReject a id n => signed e a n d (fun d =>
      by_admin a d (review_spec id ProjectStatus.Pending ProjectStatus.Rejected d))
  | CSetOracle a o n => signed e a n d (fun d => by_admin a d (Done (set_oracle o d)))
  | CPropose a c n => signed e a n d (fun d => by_admin a d
      (computed e U64 (timestamp e + ADMIN_TRANSFER_TIMELOCK_SECONDS) (fun t =>
         Done (set_pending (Some (mkPendingAdminChange c t)) d))))
  | CCancel a n => signed e a n d (fun d => by_admin a d (cancel_spec d))
  | CAccept a n => signed e a n d (accept_spec (timestamp e) a)
  | CGetProject id => find _p := project_at id d else RegistryError.ProjectNotFound ;; Done d
  | CGetByHash h => require under_hash (fun _ => true) h d else RegistryError.ProjectNotFound ;; Done d
  | CList _ _ => Done d
  end.

(** ** The relation *)

Record implements (s : state) (d : Directory) : Prop := {
  im_admin : admin_of s = Some (dr_admin d);
  im_oracle : oracle_of s = dr_oracle d;
  im_pending : pending_of s = dr_pending d;
  im_count : count_of s = Z.of_nat (length (dr_projects d));
  im_project id : 0 <= id < 2 ^ 64 -> project_of s id = project_at id d;
  im_hash h : is_Some (by_hash s h) <-> under_hash (fun _ => true) h d = true;
  im_nonce a : nonce_of s a = dr_nonce d a;
}.

Lemma directory_same s t d : inst t = inst s -> pers t = pers s -> implements s d -> implements t d.
Proof. intros Hi Hp []. split; views; rewrite ?Hi, ?Hp; auto. Qed.

Lemma under_hash_spec live h d :
  under_hash live h d = true <->
  exists p, p ∈ dr_projects d /\ live (pj_status p) = true /\ pj_metadata_ipfs_hash p = h.
Proof.
  unfold under_hash. rewrite existsb_exists. setoid_rewrite list_elem_of_In.
  split; intros (p & Hp & H); exists p; (split; [done|]); [guards|]; [done|].
  apply andb_true_iff. by rewrite bool_decide_eq_true.
Qed.

(** ** What each write means *)

Lemma nonce_after s a f b :
  (forall a, nonce_of s a = f a) ->
  default 0 (sget (DataKey.Nonce b) (after_nonce a (f a + 1) s)) = next_nonce f a b.
Proof.
  intros Hf. unfold next_nonce, after_nonce. store_case; [by rewrite decide_True|].
  rewrite decide_False by congruence. apply Hf.
Qed.

Lemma directory_nonce s t d a k :
  implements s d -> inst t = inst s -> pers t = after_nonce a k s -> k = dr_nonce d a + 1 ->
  implements t (spend_nonce a d).
Proof.
  intros [] Hi Hp ->. split; views; simpl; rewrite ?Hi, ?Hp; intros; store_simp; auto.
  by apply nonce_after.
Qed.

(** The hashes in use depend on the hashes of the projects alone. *)
Lemma under_any_hash h d :
  under_hash (fun _ => true) h d = true <-> h ∈ pj_metadata_ipfs_hash <$> dr_projects d.
Proof.
  rewrite under_hash_spec, list_elem_of_fmap. split.
  - intros (p & Hp & _ & <-). eauto.
  - intros (p & -> & Hp). eauto.
Qed.

Lemma directory_set s t d id p next :
  implements s d -> 0 <= id < 2 ^ 64 -> project_at id d = Some p -> inst t = inst s ->
  pers t = sset (DataKey.Project (project_id_to_bytes id)) (with_status p next) (pers s) ->
  implements t (set_project id (with_status p next) d).
Proof.
  intros [] Hid Hp Hi Ht. split; views; rewrite ?Hi, ?Ht; intros; store_simp; auto.
  - by rewrite im_count0; simpl; rewrite length_renumber.
  - unfold project_at at 1. simpl. rewrite numbered_renumber by by eexists.
    case_decide as He; [subst; by rewrite sget_sset_eq|]. rewrite sget_sset_ne; [auto|].
    by intros Heq%project_key_inj.
  - rewrite im_hash0, !under_any_hash. simpl. unfold renumber. rewrite list_fmap_insert, list_insert_id; [done|].
    unfold project_at, numbered in Hp. destruct (1 <=? id); [|done]. by rewrite list_lookup_fmap, Hp.
Qed.

Lemma directory_add s t d p next n :
  implements s d -> n + 1 < 2 ^ 64 -> count_of s <= n -> pj_id p = count_of s + 1 ->
  inst t = inst s -> added s t next p ->
  next = dr_nonce d (pj_owner p) + 1 -> implements t (add_project p (spend_nonce (pj_owner p) d)).
Proof.
  intros [] Hn Hc Hid Hi Hp ->. destruct (added_views _ _ _ _ Hp) as (Hcount & Hby & Hkey). unfold added in Hp.
  split; views; rewrite ?Hi; auto.
  - rewrite Hp. by store_simp.
  - rewrite Hcount, Hid, im_count0. simpl. rewrite length_app. simpl. lia.
  - intros id Hr. rewrite Hkey, Hid. unfold project_at, add_project. cbn [dr_projects spend_nonce]. rewrite numbered_snoc, <- im_count0.
    destruct (decide (id = _)) as [->|Hne]; [by rewrite decide_True|].
    rewrite decide_False; [by apply im_project0|]. intros Heq. apply project_id_to_bytes_inj in Heq; lia.
  - intros h. rewrite Hby, under_any_hash. cbn [dr_projects add_project spend_nonce]. rewrite fmap_app, elem_of_app, <- under_any_hash.
    change (pj_metadata_ipfs_hash <$> [p]) with [pj_metadata_ipfs_hash p].
    change (under_hash _ h (spend_nonce _ d)) with (under_hash (fun _ => true) h d). rewrite <- im_hash0, list_elem_of_singleton.
    case_decide as He; [split; [by right|by eexists]|]. split; [by left|]. by intros [?|?]; [|congruence].
  - intros a. rewrite Hp. store_simp. by apply nonce_after.
Qed.

Lemma directory_pending s t d o :
  implements s d -> inst t = inst s -> sget DataKey.PendingAdmin (pers t) = o ->
  (forall k, k <> DataKey.PendingAdmin -> sget k (pers t) = sget k (pers s)) ->
  implements t (set_pending o d).
Proof. intros [] Hi Ho Hk. split; views; rewrite ?Hi; intros; rewrite ?Hk by congruence; auto. Qed.

Lemma directory_oracle s t d o :
  implements s d -> inst t = sset DataKey.OracleConsumerId o (inst s) -> pers t = pers s ->
  implements t (set_oracle o d).
Proof. intros [] Hi Hp. split; views; rewrite ?Hi, ?Hp; intros; store_simp; auto. Qed.

Lemma directory_admin s t d a :
  implements s d -> inst t = sset DataKey.Admin a (inst s) -> pers t = pers s ->
  implements t (set_admin a d).
Proof. intros [] Hi Hp. split; views; rewrite ?Hi, ?Hp; intros; store_simp; auto. Qed.

Lemma directory_empty s admin e :
  constructor admin e (empty_state tt) = Ok tt s -> implements s (empty_directory admin).
Proof.
  intros H. unfold constructor in H. inv_ok H.
  split; views; host_simp; simpl; intros; rewrite ?sget_empty; try done.
  unfold project_at. simpl. by rewrite numbered_nil.
Qed.

(** A live project is found by its hash, and only then is the hash taken. *)
Lemma hash_taken n s d h :
  inv n s -> n < 2 ^ 64 -> implements s d ->
  under_hash active_project h d =
  match by_hash s h with
  | Some id => match project_of s id with Some p => active_project (pj_status p) | None => false end
  | None => false
  end.
Proof.
  intros Hinv Hn Hd. pose proof (inv_count n s Hinv) as Hc. apply Bool.eq_iff_eq_true. rewrite under_hash_spec. split.
  - intros (p & (i & Hi & Hp)%numbered_elem & Hact & Hh). rewrite <- (im_count s d Hd) in Hi.
    change (project_at i d = Some p) in Hp. rewrite <- (im_project s d Hd) in Hp by lia.
    pose proof (inv_active n s Hinv _ _ Hp Hact) as Hby. rewrite Hh in Hby.
    destruct (project_id_of n s i p) as [Hid _]; [done|done|lia|done|]. by rewrite Hby, Hid, Hp.
  - destruct (by_hash s h) as [id|] eqn:Hby; [|done].
    destruct (inv_hash n s Hinv h id Hby) as (Hid & p & Hp & Hh). rewrite Hp. intros Hact.
    exists p. split; [|done]. apply numbered_elem. exists id. rewrite <- (im_count s d Hd). split; [done|].
    rewrite <- Hp. symmetry. apply (im_project s d Hd). lia.
Qed.

(** ** Handler by handler *)

Section handlers.
Context (n : Z) (e : Env) (Hn : n + 1 < 2 ^ 64).

(** What the state after the prologue is good for. *)
Local Abbreviation good s d := (inv (n + 1) s /\ implements s d).

Lemma write_persistent_total k v s : exists lv, write_persistent k v e s = Ok tt (put_live lv (put_pers k v s)).
Proof.
  unfold write_persistent, bump_persistent. run.
  match goal with |- context [pextend_ttl ?k ?a ?b ?e ?t] =>
    destruct (only_live_pextend (E := RegistryError.RegistryError) k a b e t) as [lv Hlv] end.
  - host_simp. by eexists.
  - rewrite Hlv. by eexists.
Qed.

Lemma check_nonce_run a k s :
  exists lv, check_nonce a k e s =
    if k =? nonce_of s a then Ok k (put_live lv s) else Err RegistryError.InvalidNonce (put_live lv s).
Proof.
  unfold check_nonce. run_read. exists l. cbv zeta. fold (nonce_of s a).
  by destruct (Z.eqb_spec k (nonce_of s a)) as [->|Hk].
Qed.

Lemma next_in_range s a : inv n s -> in_range U64 (nonce_of s a + 1) = true.
Proof. intros Hinv. pose proof (inv_nonce n s Hinv a). apply in_range_spec; simpl; lia. Qed.

Local Ltac run_write :=
  match goal with
  | |- context [bind (write_persistent ?k ?v) _ e ?t] =>
      let lv := fresh "lv" in let Hlv := fresh "Hlv" in
      destruct (write_persistent_total k v t) as [lv Hlv]; rewrite (bind_run _ _ _ _ _ _ Hlv); clear Hlv
  end.

(** The state after a spent nonce. *)
Lemma good_nonce a s t d :
  inv n s -> implements s d -> is_authorized e a = true ->
  inst t = inst s -> pers t = after_nonce a (nonce_of s a + 1) s -> good t (spend_nonce a d).
Proof.
  intros Hinv Hd Ha Hi Hp. split.
  - apply (inv_after_nonce n e s a (nonce_of s a) (nonce_of s a + 1)); [done..| |].
    + intros key Hk _. rewrite Hp. by apply sget_after_nonce_ne.
    + intros a'. by rewrite Hp.
  - apply (directory_nonce s _ d a (nonce_of s a + 1)); [done..|]. by rewrite (im_nonce s d Hd).
Qed.

Lemma registry_signed_meets {A} a k s d (rest : unit -> M A) o :
  inv n s -> implements s d ->
  (forall t, good t (spend_nonce a d) -> meets implements (rest tt e t) (o (spend_nonce a d))) ->
  meets implements
    (bind bump_instance (fun _ => bind (require_auth a) (fun _ => bind (consume_nonce a k) rest)) e s)
    (signed e a k d o).
Proof.
  intros Hinv Hd Hrest. unfold by_signer, bump_instance. run. destruct (is_authorized e a) eqn:Ha; [|by run]. run.
  rewrite <- (im_nonce s d Hd a). unfold check, consume_nonce.
  match goal with |- context [consume_nonce] => fail | |- context [put_inst_live ?l s] => set (s0 := put_inst_live l s) end.
  destruct (check_nonce_run a k s0) as [lv Hlv]. change (nonce_of s0 a) with (nonce_of s a) in Hlv.
  rewrite bind_assoc_run. destruct (Z.eqb_spec k (nonce_of s a)) as [->|Hk].
  - rewrite (bind_run _ _ _ _ _ _ Hlv), bind_assoc_run.
    rewrite (bind_run _ _ _ _ _ _ (arith_run _ _ _ _ (next_in_range s a Hinv))). run_write.
    apply Hrest. by apply (good_nonce a s).
  - by rewrite (bind_err _ _ _ _ _ _ Hlv).
Qed.

Lemma registry_admin_meets {A} a s d (rest : unit -> M A) o :
  implements s d -> meets implements (rest tt e s) o ->
  meets implements (bind (require_admin a) rest e s) (by_admin a d o).
Proof.
  intros Hd Hrest. unfold require_admin. pose proof (im_admin s d Hd) as Ha. unfold admin_of in Ha. run.
  apply meets_guard; [|auto]. by repeat case_bool_decide.
Qed.

Lemma admin_or_oracle_meets {A} a s d (rest : unit -> M A) o :
  implements s d -> meets implements (rest tt e s) o ->
  meets implements (bind (require_admin_or_oracle a) rest e s) (by_admin_or_oracle a d o).
Proof.
  intros Hd Hrest. pose proof (im_admin s d Hd) as Ha. pose proof (im_oracle s d Hd) as Ho.
  unfold require_admin_or_oracle, by_admin_or_oracle, require_admin, attempt, bind, iget, ok_or, fail_if, throw, ret, found, check.
  views. rewrite Ha. rewrite bool_decide_not.
  destruct (bool_decide (a = dr_admin d)); simpl; [done|]. rewrite Ho. destruct (dr_oracle d) as [oc|]; [|done].
  rewrite bool_decide_not. by destruct (bool_decide (a = oc)).
Qed.

Lemma review_meets id required next s d :
  0 <= id < 2 ^ 64 -> implements s d ->
  meets implements (transition id required next e s) (review_spec id required next d).
Proof.
  intros Hid Hd. unfold transition, review_spec. run_read. pose proof (im_project s d Hd id Hid) as Hp.
  unfold project_of in Hp. rewrite Hp. destruct (project_at id d) as [p|] eqn:Hat; [|done]. run.
  apply meets_guard; [by repeat case_bool_decide|]. intros _.
  match goal with |- context [write_persistent ?k ?v e ?t] => destruct (write_persistent_total k v t) as [lv ->] end.
  by apply (directory_set s _ d id p).
Qed.

Lemma available_meets {A} h s d (rest : unit -> M A) o :
  inv n s -> implements s d ->
  (forall t, inv n t -> implements t d -> meets implements (rest tt e t) o) ->
  meets implements (bind (ensure_metadata_hash_available h) rest e s)
    (check (negb (under_hash active_project h d)) RegistryError.ProjectAlreadyExists o).
Proof.
  intros Hinv Hd Hrest. rewrite (hash_taken n s d h Hinv ltac:(lia) Hd).
  assert (Hlive : forall lv, meets implements (rest tt e (put_live lv s)) o).
  { intros lv. apply Hrest; [by apply (registry_inv_same n s)|by apply (directory_same s)]. }
  unfold ensure_metadata_hash_available. rewrite bind_assoc_run. run_read. views.
  destruct (sget (DataKey.ProjectByHash h) (pers s)) as [id|]; [|by run]. rewrite bind_assoc_run. run_read.
  change (pers (put_live l s)) with (pers s).
  destruct (sget (DataKey.Project (project_id_to_bytes id)) (pers s)) as [p|]; [|run; apply (Hlive l0)].
  apply meets_guard; [by rewrite negb_involutive|]. intros _. apply (Hlive l0).
Qed.

(** What a registration writes, once its arguments are accepted. *)
Lemma enter_meets a h nm me co s d :
  inv n s -> implements s d -> is_authorized e a = true ->
  meets implements
    ((let* next := arith U64 (nonce_of s a + 1) in
      write_persistent (DataKey.Nonce a) next ;;
      let* c := read_persistent DataKey.ProjectCount in
      let* new_id := arith U64 (default 0 c + 1) in
      write_persistent DataKey.ProjectCount new_id ;;
      let project := mkProject new_id a h nm ProjectStatus.Pending me co in
      write_persistent (DataKey.Project (project_id_to_bytes new_id)) project ;;
      write_persistent (DataKey.ProjectByHash h) new_id ;;
      let* o := read_persistent (DataKey.OwnerProjects a) in
      write_persistent (DataKey.OwnerProjects a) (default [] o ++ [new_id]) ;;
      ret new_id) e s)%contract
    (Done (add_project (mkProject (Z.of_nat (length (dr_projects d)) + 1) a h nm ProjectStatus.Pending me co)
             (spend_nonce a d))).
Proof.
  intros Hinv Hd Ha. pose proof (inv_count n s Hinv) as Hc. pose proof (im_count s d Hd) as Hlen.
  rewrite (bind_run _ _ _ _ _ _ (arith_run _ _ _ _ (next_in_range s a Hinv))). run_write. run_read. host_cbn.
  rewrite sget_sset_ne by congruence. fold (count_of s).
  assert (Hid : in_range U64 (count_of s + 1) = true) by (apply in_range_spec; simpl; lia).
  rewrite (bind_run _ _ _ _ _ _ (arith_run _ _ _ _ Hid)). run_write. run_write. run_write. run_read. run_write. run.
  rewrite <- Hlen. apply (directory_add s _ d (mkProject (count_of s + 1) a h nm ProjectStatus.Pending me co)
    (nonce_of s a + 1) n); [done|done|lia|done|done| |].
  - unfold added. host_cbn. by rewrite !sget_sset_ne by congruence.
  - by rewrite (im_nonce s d Hd).
Qed.

Lemma register_meets a h nm me co k s d :
  inv n s -> implements s d ->
  meets implements (register_project a h nm me co k e s) (signed e a k d (register_spec a h nm me co)).
Proof.
  intros Hinv Hd. unfold by_signer, register_project, bump_instance. run.
  destruct (is_authorized e a) eqn:Ha; [|by run]. run.
  match goal with |- context [put_inst_live ?l s] => set (s0 := put_inst_live l s) end.
  rewrite <- (im_nonce s d Hd a). unfold check at 1.
  destruct (check_nonce_run a k s0) as [lv Hlv]. change (nonce_of s0 a) with (nonce_of s a) in Hlv.
  destruct (Z.eqb_spec k (nonce_of s a)) as [->|Hk]; [|by rewrite (bind_err _ _ _ _ _ _ Hlv)].
  rewrite (bind_run _ _ _ _ _ _ Hlv). apply meets_guard; [by rewrite negb_involutive|]. intros _.
  change (under_hash active_project h (spend_nonce a d)) with (under_hash active_project h d).
  rewrite (im_nonce s d Hd a). apply available_meets; [by apply (registry_inv_same n s)|by apply (directory_same s)|].
  intros t Ht Htd. rewrite <- (im_nonce t d Htd a). by apply (enter_meets a h nm me co t d).
Qed.

Local Ltac reviewed :=
  intros; apply registry_signed_meets; [done..|]; intros t [_ Ht];
  first [apply registry_admin_meets | apply admin_or_oracle_meets]; [done|];
  try (apply meets_bind; [|by intros ? u ? ?; apply (directory_same u)]); by apply review_meets.

Lemma suspend_meets a id r k s d :
  0 <= id < 2 ^ 64 -> inv n s -> implements s d ->
  meets implements (suspend_project a id r k e s)
    (signed e a k d (fun d => by_admin a d (review_spec id ProjectStatus.Approved ProjectStatus.Inactive d))).
Proof. reviewed. Qed.

Lemma revoke_meets a id r k s d :
  0 <= id < 2 ^ 64 -> inv n s -> implements s d ->
  meets implements (revoke_project a id r k e s)
    (signed e a k d (fun d => by_admin_or_oracle a d (review_spec id ProjectStatus.Approved ProjectStatus.Rejected d))).
Proof. reviewed. Qed.

Lemma approve_meets a id k s d :
  0 <= id < 2 ^ 64 -> inv n s -> implements s d ->
  meets implements (approve_project a id k e s)
    (signed e a k d (fun d => by_admin a d (review_spec id ProjectStatus.Pending ProjectStatus.Approved d))).
Proof. reviewed. Qed.

Lemma reject_meets a id k s d :
  0 <= id < 2 ^ 64 -> inv n s -> implements s d ->
  meets implements (reject_project a id k e s)
    (signed e a k d (fun d => by_admin a d (review_spec id ProjectStatus.Pending ProjectStatus.Rejected d))).
Proof. reviewed. Qed.

Lemma oracle_meets a o k s d :
  inv n s -> implements s d ->
  meets implements (set_oracle_consumer a o k e s) (signed e a k d (fun d => by_admin a d (Done (set_oracle o d)))).
Proof.
  intros Hinv Hd. apply registry_signed_meets; [done..|]. intros t [_ Ht]. apply registry_admin_meets; [done|]. run.
  by apply (directory_oracle t _ (spend_nonce a d) o).
Qed.

Lemma propose_meets a c k s d :
  inv n s -> implements s d ->
  meets implements (propose_admin_transfer a c k e s)
    (signed e a k d (fun d => by_admin a d
      (computed e U64 (timestamp e + ADMIN_TRANSFER_TIMELOCK_SECONDS) (fun t =>
         Done (set_pending (Some (mkPendingAdminChange c t)) d))))).
Proof.
  intros Hinv Hd. apply registry_signed_meets; [done..|]. intros t [_ Ht]. apply registry_admin_meets; [done|]. run.
  apply meets_arith. intros v. run_write.
  apply (directory_pending t _ (spend_nonce a d)); [done|done| |]; intros; host_cbn; by store_simp.
Qed.

Lemma cancel_meets a k s d :
  inv n s -> implements s d ->
  meets implements (cancel_admin_transfer a k e s) (signed e a k d (fun d => by_admin a d (cancel_spec d))).
Proof.
  intros Hinv Hd. apply registry_signed_meets; [done..|]. intros t [_ Ht]. apply registry_admin_meets; [done|]. run.
  unfold cancel_spec. rewrite <- (im_pending _ _ Ht). apply meets_guard; [done|]. intros _. run.
  apply (directory_pending t _ (spend_nonce a d)); [done|done| |]; intros; host_cbn; by store_simp.
Qed.

Lemma accept_meets a k s d :
  inv n s -> implements s d ->
  meets implements (accept_admin_transfer a k e s) (signed e a k d (accept_spec (timestamp e) a)).
Proof.
  intros Hinv Hd. apply registry_signed_meets; [done..|]. intros t [_ Ht]. run_read. unfold accept_spec.
  pose proof (im_admin _ _ Ht) as Ha. pose proof (im_pending _ _ Ht) as Hp. unfold admin_of, pending_of in *.
  rewrite <- Hp. destruct (sget DataKey.PendingAdmin (pers t)) as [c|]; [|done]. run.
  apply meets_guard; [by repeat case_bool_decide|]. intros _. run.
  apply meets_guard; [apply Z.ltb_antisym|]. intros _. run.
  apply (directory_pending (put_inst DataKey.Admin a t) _ (set_admin a (spend_nonce a d)));
    [by apply (directory_admin t)|done| |]; intros; host_cbn; by store_simp.
Qed.

(** Getters end with what they have read. *)
Lemma get_project_meets id s d :
  0 <= id < 2 ^ 64 -> implements s d ->
  meets implements (get_project id e s)
    (find _p := project_at id d else RegistryError.ProjectNotFound ;; Done d).
Proof.
  intros Hid Hd. unfold get_project, bump_instance, read_project. run. run_read. host_cbn.
  fold (project_of s id). rewrite (im_project s d Hd id Hid). destruct (project_at id d); [|done].
  by apply (directory_same s).
Qed.

Lemma get_by_hash_meets h s d :
  inv n s -> implements s d ->
  meets implements (get_project_by_hash h e s)
    (require under_hash (fun _ => true) h d else RegistryError.ProjectNotFound ;; Done d).
Proof.
  intros Hinv Hd. unfold get_project_by_hash, bump_instance, read_project. run. run_read. host_cbn.
  fold (by_hash s h). pose proof (im_hash s d Hd h) as Hh. destruct (by_hash s h) as [id|] eqn:Hby.
  - rewrite (proj1 Hh) by by eexists. run. run_read. host_cbn. fold (project_of s id).
    destruct (inv_hash n s Hinv h id Hby) as (_ & p & Hp & _). rewrite Hp. by apply (directory_same s).
  - destruct (under_hash _ h d); [|done]. by destruct (proj2 Hh eq_refl).
Qed.

Lemma list_meets pg size s d :
  0 <= pg < 2 ^ 32 -> 0 <= size < 2 ^ 32 -> inv n s -> implements s d ->
  meets implements (list_projects pg size e s) (Done d).
Proof.
  intros Hpg Hsize Hinv Hd.
  destruct (list_projects_total n s e pg size) as (s' & -> & Hi & Hp & _); [done|lia|done..|].
  by apply (directory_same s).
Qed.
End handlers.

(** ** The contract implements the machine *)

Ltac ranges := repeat match goal with Hx : in_range _ _ = true |- _ => apply in_range_spec in Hx; cbn [int_lo int_hi] in Hx end.

#[export] Instance registry_implements : Implements implements inv exec directory_spec.
Proof.
  split; [exact registry_inv_exec|exact registry_inv_mono|].
  intros n e c s d Hinv Hn Hd. unfold exec, directory_spec, assert_.
  destruct (well_typed c) eqn:Hc; [|done]. run. destruct c; cbn [dispatch negb]; simpl in Hc; guards; ranges; try apply meets_drop.
  - by apply (register_meets n).
  - apply (suspend_meets n); [done|lia|done..].
  - apply (revoke_meets n); [done|lia|done..].
  - apply (approve_meets n); [done|lia|done..].
  - apply (reject_meets n); [done|lia|done..].
  - by apply (oracle_meets n).
  - by apply (propose_meets n).
  - by apply (cancel_meets n).
  - by apply (accept_meets n).
  - apply get_project_meets; [lia|done].
  - by apply (get_by_hash_meets n).
  - apply (list_meets n); [done|lia|lia|done..].
Qed.

(** C9: The registry refines its directory: whatever calls have been made since its
    deployment (fewer than 2^64 of them), its storage - projects under encoded ids, hash
    index, counter, nonces, pending change - shows exactly the directory the abstract
    machine has reached by the same calls, and the next call ends as the machine says:
    done, refused with the machine's error, or trapped. In particular a hash is refused
    exactly when a pending or approved project of the whole directory was registered
    under it. *)
Theorem registry_refines_directory admin e0 s0 cs e c :
  constructor admin e0 (empty_state tt) = Ok tt s0 -> Z.of_nat (length cs) + 1 < 2 ^ 64 ->
  implements (run_calls exec cs s0) (spec_calls directory_spec cs (empty_directory admin)) /\
  meets implements (exec c e (run_calls exec cs s0))
    (directory_spec e c (spec_calls directory_spec cs (empty_directory admin))).
Proof.
  intros H0 Hn.
  apply (implements_next implements inv exec directory_spec cs e c 0); [|by apply (directory_empty s0 admin e0)|done].
  apply registry_inv_init. by exists e0, admin.
Qed.

(** The sample directory holds two projects; the hash of the approved one is taken, that
    of the rejected one is free again. *)
Example sample_directory :
  let d := spec_calls directory_spec sample_calls (empty_directory (Addr 1)) in
  map pj_status (dr_projects d) = [ProjectStatus.Approved; ProjectStatus.Rejected] /\
  directory_spec (sample_env 9) (CRegister (Addr 3) (sample_hash 7) "mangrove" "VM0033" "KE" 0) d
    = Refused RegistryError.ProjectAlreadyExists /\
  exists d', directory_spec (sample_env 9) (CRegister (Addr 3) (sample_hash 8) "forest" "VM0007" "BR" 0) d = Done d'.
Proof. split_and!; [by vm_compute..|]. eexists. vm_compute. reflexivity. Qed.

(** The sample registry, right after its deployment. *)
Definition sample_fresh : state := commit (constructor (Addr 1) (sample_env 0) (empty_state tt)) (empty_state tt).

Lemma registry_refines_directory_witness :
  let s := run_calls exec sample_calls sample_fresh in
  let d := spec_calls directory_spec sample_calls (empty_directory (Addr 1)) in
  implements s d /\
  meets implements (exec (CRegister (Addr 3) (sample_hash 7) "mangrove" "VM0033" "KE" 0) (sample_env 9) s)
    (directory_spec (sample_env 9) (CRegister (Addr 3) (sample_hash 7) "mangrove" "VM0033" "KE" 0) d).
Proof.
  exact (registry_refines_directory (Addr 1) (sample_env 0) sample_fresh sample_calls (sample_env 9)
           (CRegister (Addr 3) (sample_hash 7) "mangrove" "VM0033" "KE" 0) ltac:(done) ltac:(done)).
Defined.
