(* ===== verification/BondIssuer.v ===== *)
(** * BondIssuer: issuance, subscription, transfer, maturity and redemption

    Model of [src/contracts/bond-issuer/src/lib.rs]. *)

From S2P Require Import Prelude Host Shared.

(** ** Storage and events *)

Definition MAX_SUPPLY : Z := 1000000000000000000.
Definition LEDGER_CLOSE_TIME_SECS : Z := 5.
Definition MAX_PERSISTENT_TTL : Z := 2073600.

Module DataKey.
Inductive DataKey :=
| Admin
| BondConfig (bond_id : Z)
| BondState (bond_id : Z)
| HolderBalance (bond_id : Z) (holder : Address)
| HolderList (bond_id : Z)
| HolderCount (bond_id : Z)
| BondCount
| BondList
| Nonce (addr : Address).
End DataKey.
Abbreviation DataKey := DataKey.DataKey.

#[export] Instance DataKey_eq_dec : EqDecision DataKey.
Proof. solve_decision. Defined.

#[export] Instance DataKey_countable : Countable DataKey.
Proof.
  refine (inj_countable'
    (fun k => match k with
      | DataKey.Admin => (0%N, 0, Addr 0) | DataKey.BondConfig b => (1%N, b, Addr 0)
      | DataKey.BondState b => (2%N, b, Addr 0) | DataKey.HolderBalance b a => (3%N, b, a)
      | DataKey.HolderList b => (4%N, b, Addr 0) | DataKey.HolderCount b => (5%N, b, Addr 0)
      | DataKey.BondCount => (6%N, 0, Addr 0) | DataKey.BondList => (7%N, 0, Addr 0)
      | DataKey.Nonce a => (8%N, 0, a) end)
    (fun x => match x with
      | (0%N, _, _) => DataKey.Admin | (1%N, b, _) => DataKey.BondConfig b
      | (2%N, b, _) => DataKey.BondState b | (3%N, b, a) => DataKey.HolderBalance b a
      | (4%N, b, _) => DataKey.HolderList b | (5%N, b, _) => DataKey.HolderCount b
      | (6%N, _, _) => DataKey.BondCount | (7%N, _, _) => DataKey.BondList
      | (_, _, a) => DataKey.Nonce a end) _).
  by intros [].
Defined.

Record BondState := mkBondState {
  bs_total_subscribed : Z;
  bs_status : BondStatus.BondStatus;
  bs_created_at : Z;
}.

(** The type stored under each key. *)
Definition ty (k : DataKey) : Type :=
  match k with
  | DataKey.Admin => Address
  | DataKey.BondConfig _ => BondConfig
  | DataKey.BondState _ => BondState
  | DataKey.HolderBalance _ _ => Z
  | DataKey.HolderList _ => list Address
  | DataKey.HolderCount _ => Z
  | DataKey.BondCount => Z
  | DataKey.BondList => list Z
  | DataKey.Nonce _ => Z
  end.

Inductive Event :=
| bond_issued (bond_id : Z) (project_id : BytesN)
| subscribed (bond_id : Z) (investor : Address) (amount : Z)
| transferred (bond_id : Z) (from to : Address) (amount : Z)
| redeemed (bond_id : Z) (holder : Address) (amount : Z)
| bond_matured (bond_id : Z).

(** The contract calls no other contract: its world is [unit]. *)
Abbreviation M := (contract DataKey ty BondError.BondError Event unit).
Abbreviation state := (cstate DataKey ty Event unit).

(** ** Helpers *)

Definition require_admin (caller : Address) : M unit :=
  let* o := iget DataKey.Admin in
  let* admin := ok_or o BondError.NotInitialized in
  fail_if (bool_decide (caller <> admin)) BondError.Unauthorized.

(** The nonce prologue every entrypoint starts with. *)
Definition consume_nonce (addr : Address) (nonce : Z) : M unit :=
  let* o := pget (DataKey.Nonce addr) in
  let expected_nonce : Z := default 0 o in
  fail_if (negb (nonce =? expected_nonce)) BondError.InvalidNonce ;;
  let* next := arith U64 (expected_nonce + 1) in
  pset (DataKey.Nonce addr) next.

Definition extend_bond_ttl (bond_id maturity_date : Z) : M unit :=
  let* now := ledger_timestamp in
  let remaining_secs := saturating U64 (maturity_date - now) in
  let remaining_ledgers := remaining_secs / LEDGER_CLOSE_TIME_SECS in
  let extend_to := wrap U32 (Z.min (saturating U64 (remaining_ledgers + 17280)) MAX_PERSISTENT_TTL) in
  let threshold := Z.max (extend_to / 10) 1728 in
  pextend_ttl (DataKey.BondConfig bond_id) threshold extend_to ;;
  pextend_ttl (DataKey.BondState bond_id) threshold extend_to ;;
  bump_if_present (DataKey.HolderList bond_id) threshold extend_to ;;
  bump_if_present (DataKey.HolderCount bond_id) threshold extend_to.

Definition append_holder (bond_id maturity_date : Z) (holder : Address) : M unit :=
  let* o := pget (DataKey.HolderList bond_id) in
  let holders : list Address := default [] o ++ [holder] in
  pset (DataKey.HolderList bond_id) holders ;;
  pset (DataKey.HolderCount bond_id) (Z.of_nat (length holders)) ;;
  extend_bond_ttl bond_id maturity_date.

Definition holder_count_from_persistent (bond_id : Z) : M Z :=
  let* o := pget (DataKey.HolderCount bond_id) in
  match o with
  | Some count => ret (count : Z)
  | None =>
      let* l := pget (DataKey.HolderList bond_id) in
      ret (Z.of_nat (length (default [] l : list Address)))
  end.

Definition extend_bond_list_ttl : M unit :=
  bump_if_present DataKey.BondList (Z.max (MAX_PERSISTENT_TTL / 10) 1728) MAX_PERSISTENT_TTL.

(** ** Entrypoints *)

Definition constructor (admin : Address) : M unit := iset DataKey.Admin admin.

(** The checks of [issue_bond] on the configuration. *)
Definition validate_config (config : BondConfig) : M unit :=
  fail_if (bc_face_value config <=? 0) BondError.ZeroAmount ;;
  fail_if (bc_total_supply config <=? 0) BondError.ZeroAmount ;;
  let* now := ledger_timestamp in
  fail_if (bc_maturity_date config <=? now) BondError.MaturityDateInPast ;;
  fail_if (Nat.eqb (length (bc_coupon_schedule config)) 0) BondError.ZeroAmount ;;
  for_each (fun coupon_date => fail_if (bc_maturity_date config <=? coupon_date) BondError.ZeroAmount)
           (bc_coupon_schedule config).

Definition issue_bond (caller : Address) (config : BondConfig) (nonce : Z) : M Z :=
  require_auth caller ;;
  consume_nonce caller nonce ;;
  require_admin caller ;;
  validate_config config ;;
  let* o := iget DataKey.BondCount in
  let* bond_id := arith U64 (default 0 o + 1) in
  iset DataKey.BondCount bond_id ;;
  pset (DataKey.BondConfig bond_id) config ;;
  let* now := ledger_timestamp in
  pset (DataKey.BondState bond_id) (mkBondState 0 BondStatus.Active now) ;;
  pset (DataKey.HolderList bond_id) [] ;;
  pset (DataKey.HolderCount bond_id) 0 ;;
  extend_bond_ttl bond_id (bc_maturity_date config) ;;
  let* l := pget DataKey.BondList in
  pset DataKey.BondList (default [] l ++ [bond_id]) ;;
  extend_bond_list_ttl ;;
  publish (bond_issued bond_id (bc_project_id config)) ;;
  ret bond_id.

(** Configuration and state of a bond, or [BondNotFound]. *)
Definition load_bond (bond_id : Z) : M (BondConfig * BondState) :=
  let* c := pget (DataKey.BondConfig bond_id) in
  let* config := ok_or c BondError.BondNotFound in
  let* b := pget (DataKey.BondState bond_id) in
  let* st := ok_or b BondError.BondNotFound in
  extend_bond_ttl bond_id (bc_maturity_date config) ;;
  ret (config, st).

Definition subscribe (investor : Address) (bond_id amount nonce : Z) : M unit :=
  require_auth investor ;;
  consume_nonce investor nonce ;;
  fail_if (amount <=? 0) BondError.ZeroAmount ;;
  let* (config, st) := load_bond bond_id in
  fail_if (bool_decide (bs_status st <> BondStatus.Active)) BondError.BondAlreadyMatured ;;
  let* now := ledger_timestamp in
  fail_if (bc_maturity_date config <=? now) BondError.BondAlreadyMatured ;;
  let* new_total := ok_or (checked I128 (bs_total_subscribed st + amount)) BondError.Overflow in
  fail_if (bc_total_supply config <? new_total) BondError.InsufficientSupply ;;
  let* o := pget (DataKey.HolderBalance bond_id investor) in
  let current_balance : Z := default 0 o in
  let* new_balance := ok_or (checked I128 (current_balance + amount)) BondError.Overflow in
  pset (DataKey.HolderBalance bond_id investor) new_balance ;;
  when (current_balance =? 0) (append_holder bond_id (bc_maturity_date config) investor) ;;
  pset (DataKey.BondState bond_id) (mkBondState new_total (bs_status st) (bs_created_at st)) ;;
  extend_bond_ttl bond_id (bc_maturity_date config) ;;
  publish (subscribed bond_id investor amount).

Definition get_nonce (addr : Address) : M Z :=
  let* o := pget (DataKey.Nonce addr) in ret (default 0 o).

Definition transfer (from to : Address) (bond_id amount nonce : Z) : M unit :=
  require_auth from ;;
  consume_nonce from nonce ;;
  fail_if (bool_decide (to = from)) BondError.Unauthorized ;;
  fail_if (amount <=? 0) BondError.ZeroAmount ;;
  let* (config, st) := load_bond bond_id in
  fail_if (bool_decide (bs_status st <> BondStatus.Active)) BondError.BondAlreadyMatured ;;
  let* now := ledger_timestamp in
  fail_if (bc_maturity_date config <=? now) BondError.BondAlreadyMatured ;;
  let* f := pget (DataKey.HolderBalance bond_id from) in
  let from_balance : Z := default 0 f in
  fail_if (from_balance <? amount) BondError.InsufficientBalance ;;
  let* new_from_balance := ok_or (checked I128 (from_balance - amount)) BondError.Overflow in
  pset (DataKey.HolderBalance bond_id from) new_from_balance ;;
  let* t := pget (DataKey.HolderBalance bond_id to) in
  let to_balance : Z := default 0 t in
  let* new_to_balance := ok_or (checked I128 (to_balance + amount)) BondError.Overflow in
  pset (DataKey.HolderBalance bond_id to) new_to_balance ;;
  when (to_balance =? 0) (append_holder bond_id (bc_maturity_date config) to) ;;
  publish (transferred bond_id from to amount).

Definition redeem (holder : Address) (bond_id amount nonce : Z) : M unit :=
  require_auth holder ;;
  consume_nonce holder nonce ;;
  fail_if (amount <=? 0) BondError.ZeroAmount ;;
  let* (config, st) := load_bond bond_id in
  fail_if (bool_decide (bs_status st <> BondStatus.Matured)) BondError.BondAlreadyMatured ;;
  let* o := pget (DataKey.HolderBalance bond_id holder) in
  let current_balance : Z := default 0 o in
  fail_if (current_balance <? amount) BondError.InsufficientBalance ;;
  let* new_balance := ok_or (checked I128 (current_balance - amount)) BondError.Overflow in
  pset (DataKey.HolderBalance bond_id holder) new_balance ;;
  let* new_total := ok_or (checked I128 (bs_total_subscribed st - amount)) BondError.Overflow in
  pset (DataKey.BondState bond_id) (mkBondState new_total (bs_status st) (bs_created_at st)) ;;
  extend_bond_ttl bond_id (bc_maturity_date config) ;;
  publish (redeemed bond_id holder amount).

Definition get_bond (bond_id : Z) : M BondConfig :=
  let* c := pget (DataKey.BondConfig bond_id) in
  let* config := ok_or c BondError.BondNotFound in
  extend_bond_ttl bond_id (bc_maturity_date config) ;;
  ret config.

Definition get_bond_state (bond_id : Z) : M BondState :=
  let* (_, st) := load_bond bond_id in ret st.

Definition get_holder_balance (bond_id : Z) (holder : Address) : M Z :=
  let* o := pget (DataKey.HolderBalance bond_id holder) in ret (default 0 o).

Definition get_holder_list (bond_id : Z) : M (list Address) :=
  let* o := pget (DataKey.HolderList bond_id) in ret (default [] o).

Definition get_holder_count (bond_id : Z) : M Z := holder_count_from_persistent bond_id.

(** [for i in start..end { if let Some(x) = l.get(i) { result.push_back(x) } }],
    after the early return on an empty window: the body both [*_range] getters share. *)
Definition vec_range {A} (l : list A) (start count : Z) : list A :=
  let len := Z.of_nat (length l) in
  if (count =? 0) || (len <=? start) then []
  else
    let end_ := wrap U32 (Z.min (start + count) len) in
    omap (fun i => l !! Z.to_nat i) (seqZ start (end_ - start)).

Definition get_holder_list_range (bond_id start count : Z) : M (list Address) :=
  let* o := pget (DataKey.HolderList bond_id) in
  ret (vec_range (default [] o) start count).

Definition total_supply (bond_id : Z) : M Z :=
  let* c := pget (DataKey.BondConfig bond_id) in
  let* config := ok_or c BondError.BondNotFound in
  extend_bond_ttl bond_id (bc_maturity_date config) ;;
  ret (bc_total_supply config).

Definition total_subscribed (bond_id : Z) : M Z :=
  let* (_, st) := load_bond bond_id in ret (bs_total_subscribed st).

Definition bond_count : M Z :=
  let* o := iget DataKey.BondCount in ret (default 0 o).

Definition get_all_bond_ids : M (list Z) :=
  let* l := pget DataKey.BondList in
  extend_bond_list_ttl ;;
  ret (default [] l).

Definition get_bond_ids_range (start count : Z) : M (list Z) :=
  let* l := pget DataKey.BondList in
  extend_bond_list_ttl ;;
  ret (vec_range (default [] l) start count).

Definition mature_bond (caller : Address) (bond_id nonce : Z) : M unit :=
  require_auth caller ;;
  consume_nonce caller nonce ;;
  require_admin caller ;;
  let* (config, st) := load_bond bond_id in
  fail_if (bool_decide (bs_status st <> BondStatus.Active)) BondError.BondAlreadyMatured ;;
  let* now := ledger_timestamp in
  fail_if (now <? bc_maturity_date config) BondError.NotYetMature ;;
  pset (DataKey.BondState bond_id)
       (mkBondState (bs_total_subscribed st) BondStatus.Matured (bs_created_at st)) ;;
  extend_bond_ttl bond_id (bc_maturity_date config) ;;
  publish (bond_matured bond_id).

(** ** Executions *)

Inductive Call :=
| CIssueBond (caller : Address) (config : BondConfig) (nonce : Z)
| CSubscribe (investor : Address) (bond_id amount nonce : Z)
| CTransfer (from to : Address) (bond_id amount nonce : Z)
| CRedeem (holder : Address) (bond_id amount nonce : Z)
| CMatureBond (caller : Address) (bond_id nonce : Z)
| CGetBond (bond_id : Z)
| CGetBondState (bond_id : Z)
| CTotalSupply (bond_id : Z)
| CTotalSubscribed (bond_id : Z)
| CGetAllBondIds
| CGetBondIdsRange (start count : Z).

Definition exec (c : Call) : M unit :=
  match c with
  | CIssueBond caller config nonce => issue_bond caller config nonce ;; ret tt
  | CSubscribe investor bond_id amount nonce => subscribe investor bond_id amount nonce
  | CTransfer from to bond_id amount nonce => transfer from to bond_id amount nonce
  | CRedeem holder bond_id amount nonce => redeem holder bond_id amount nonce
  | CMatureBond caller bond_id nonce => mature_bond caller bond_id nonce
  | CGetBond bond_id => get_bond bond_id ;; ret tt
  | CGetBondState bond_id => get_bond_state bond_id ;; ret tt
  | CTotalSupply bond_id => total_supply bond_id ;; ret tt
  | CTotalSubscribed bond_id => total_subscribed bond_id ;; ret tt
  | CGetAllBondIds => get_all_bond_ids ;; ret tt
  | CGetBondIdsRange start count => get_bond_ids_range start count ;; ret tt
  end.

(** A freshly deployed contract. *)
Definition deployed (s : state) : Prop :=
  exists e admin, constructor admin e (empty_state tt) = Ok tt s.

Abbreviation reachable := (reach deployed exec).

(** ** Views *)

Definition balance (s : state) (b : Z) (a : Address) : Z :=
  default 0 (sget (DataKey.HolderBalance b a) (pers s)).
Definition nonce_of (s : state) (a : Address) : Z := default 0 (sget (DataKey.Nonce a) (pers s)).
Definition count_of (s : state) : Z := default 0 (sget DataKey.BondCount (inst s)).
Definition holders_of (s : state) (b : Z) : list Address :=
  default [] (sget (DataKey.HolderList b) (pers s)).
Definition config_of (s : state) (b : Z) : option BondConfig := sget (DataKey.BondConfig b) (pers s).
Definition state_of (s : state) (b : Z) : option BondState := sget (DataKey.BondState b) (pers s).

Definition balance_weight (b : Z) (k : DataKey) : ty k -> Z :=
  match k with
  | DataKey.HolderBalance b' _ => fun v => if b' =? b then v else 0
  | _ => fun _ => 0
  end.

(** The sum of all recorded balances of a bond. *)
Definition supply_held (s : state) (b : Z) : Z := ssum (balance_weight b) (pers s).

(** What [append_holder] does to the persistent store. *)
Definition appended (b : Z) (a : Address) (m : store DataKey ty) : store DataKey ty :=
  let l : list Address := default [] (sget (DataKey.HolderList b) m) ++ [a] in
  sset (DataKey.HolderCount b) (Z.of_nat (length l)) (sset (DataKey.HolderList b) l m).

Definition append_if_new (old : Z) (b : Z) (a : Address) (m : store DataKey ty) : store DataKey ty :=
  if old =? 0 then appended b a m else m.

(** ** Specifications of the helpers *)

Lemma bond_consume_nonce_Ok a n e s u s' :
  consume_nonce a n e s = Ok u s' ->
  n = nonce_of s a /\
  exists next l, s' = put_live l (put_pers (DataKey.Nonce a) next s) /\
                 (in_range U64 (n + 1) = true -> next = n + 1).
Proof.
  intros H. unfold consume_nonce in H. inv_ok H.
  match goal with Hn : negb _ = false |- _ => apply negb_false_iff, Z.eqb_eq in Hn; subst n end.
  split; [done|]. eexists _, _. split; [done|]. auto.
Qed.

Lemma bond_require_admin_Ok a e s u s' :
  require_admin a e s = Ok u s' -> sget DataKey.Admin (inst s) = Some a /\ s' = s.
Proof.
  intros H. unfold require_admin in H. inv_ok H.
  match goal with Hb : bool_decide _ = false |- _ => apply bool_decide_eq_false, dec_stable in Hb; subst end.
  done.
Qed.

Lemma extend_bond_ttl_Ok b d e s u s' :
  extend_bond_ttl b d e s = Ok u s' -> exists l, s' = put_live l s.
Proof. intros H. unfold extend_bond_ttl in H. inv_ok H; eexists; done. Qed.

Lemma extend_bond_list_ttl_Ok e s u s' :
  extend_bond_list_ttl e s = Ok u s' -> exists l, s' = put_live l s.
Proof. intros H. unfold extend_bond_list_ttl in H. inv_ok H. by eexists. Qed.

Lemma load_bond_Ok b e s cs s' :
  load_bond b e s = Ok cs s' ->
  exists config st l, cs = (config, st) /\
    config_of s b = Some config /\ state_of s b = Some st /\ s' = put_live l s.
Proof.
  intros H. unfold load_bond in H. inv_ok H.
  match goal with Hx : extend_bond_ttl _ _ _ _ = _ |- _ => apply extend_bond_ttl_Ok in Hx as [l ->] end.
  eauto 10.
Qed.

Lemma append_holder_Ok b d a e s u s' :
  append_holder b d a e s = Ok u s' ->
  exists l, s' = put_live l (with_pers (appended b a (pers s)) s).
Proof.
  intros H. unfold append_holder in H. inv_ok H.
  apply extend_bond_ttl_Ok in H as [l ->]. by eexists.
Qed.

Ltac inv_hook H ::=
  lazymatch type of H with
  | consume_nonce _ _ _ _ = Ok _ _ =>
      let l := fresh "l" in let next := fresh "next" in
      apply bond_consume_nonce_Ok in H as (? & next & l & ? & ?); subst
  | require_admin _ _ _ = Ok _ _ => apply bond_require_admin_Ok in H as [? ?]; subst
  | extend_bond_ttl _ _ _ _ = Ok _ _ =>
      let l := fresh "l" in apply extend_bond_ttl_Ok in H as [l ?]; subst
  | extend_bond_list_ttl _ _ = Ok _ _ =>
      let l := fresh "l" in apply extend_bond_list_ttl_Ok in H as [l ?]; subst
  | load_bond _ _ _ = Ok _ _ =>
      let config := fresh "config" in let st := fresh "st" in let l := fresh "l" in
      apply load_bond_Ok in H as (config & st & l & ? & ? & ? & ?); subst
  | append_holder _ _ _ _ _ = Ok _ _ =>
      let l := fresh "l" in apply append_holder_Ok in H as [l ?]; subst
  end.

Ltac views := unfold config_of, state_of, balance, nonce_of, count_of, holders_of in *.

Ltac settle_if := try (destruct (_ =? 0) eqn:Hz; guards; (done || lia)).

(** ** What a successful call did *)

Lemma subscribe_Ok a b amt n e s u s' :
  subscribe a b amt n e s = Ok u s' ->
  exists config st next,
    is_authorized e a = true /\ n = nonce_of s a /\
    (in_range U64 (n + 1) = true -> next = n + 1) /\
    0 < amt /\ config_of s b = Some config /\ state_of s b = Some st /\
    bs_status st = BondStatus.Active /\ timestamp e < bc_maturity_date config /\
    bs_total_subscribed st + amt <= bc_total_supply config /\
    in_range I128 (bs_total_subscribed st + amt) = true /\
    inst s' = inst s /\ events s' = events s ++ [subscribed b a amt] /\
    pers s' = sset (DataKey.BondState b)
                (mkBondState (bs_total_subscribed st + amt) (bs_status st) (bs_created_at st))
                (append_if_new (balance s b a) b a
                   (sset (DataKey.HolderBalance b a) (balance s b a + amt)
                      (sset (DataKey.Nonce a) next (pers s)))).
Proof.
  intros H. unfold subscribe in H. inv_ok H; guards; views; host_simp;
    (eexists _, _, next; split_and!; eauto; unfold append_if_new); settle_if.
Qed.

Lemma transfer_Ok a t b amt n e s u s' :
  transfer a t b amt n e s = Ok u s' ->
  exists config st next,
    is_authorized e a = true /\ n = nonce_of s a /\
    (in_range U64 (n + 1) = true -> next = n + 1) /\
    t <> a /\ 0 < amt /\ config_of s b = Some config /\ state_of s b = Some st /\
    bs_status st = BondStatus.Active /\ timestamp e < bc_maturity_date config /\
    amt <= balance s b a /\
    inst s' = inst s /\ events s' = events s ++ [transferred b a t amt] /\
    pers s' = append_if_new (balance s b t) b t
                (sset (DataKey.HolderBalance b t) (balance s b t + amt)
                   (sset (DataKey.HolderBalance b a) (balance s b a - amt)
                      (sset (DataKey.Nonce a) next (pers s)))).
Proof.
  intros H. unfold transfer in H. inv_ok H; guards; views; host_simp;
    (eexists _, _, next; split_and!; eauto; unfold append_if_new); settle_if.
Qed.

Lemma redeem_Ok a b amt n e s u s' :
  redeem a b amt n e s = Ok u s' ->
  exists config st next,
    is_authorized e a = true /\ n = nonce_of s a /\
    (in_range U64 (n + 1) = true -> next = n + 1) /\
    0 < amt /\ config_of s b = Some config /\ state_of s b = Some st /\
    bs_status st = BondStatus.Matured /\ amt <= balance s b a /\
    inst s' = inst s /\ events s' = events s ++ [redeemed b a amt] /\
    pers s' = sset (DataKey.BondState b)
                (mkBondState (bs_total_subscribed st - amt) (bs_status st) (bs_created_at st))
                (sset (DataKey.HolderBalance b a) (balance s b a - amt)
                   (sset (DataKey.Nonce a) next (pers s))).
Proof.
  intros H. unfold redeem in H. inv_ok H; guards; views; host_simp.
  eexists _, _, next; split_and!; eauto.
Qed.

Lemma mature_bond_Ok a b n e s u s' :
  mature_bond a b n e s = Ok u s' ->
  exists config st next,
    is_authorized e a = true /\ n = nonce_of s a /\
    (in_range U64 (n + 1) = true -> next = n + 1) /\
    sget DataKey.Admin (inst s) = Some a /\
    config_of s b = Some config /\ state_of s b = Some st /\
    bs_status st = BondStatus.Active /\ bc_maturity_date config <= timestamp e /\
    inst s' = inst s /\ events s' = events s ++ [bond_matured b] /\
    pers s' = sset (DataKey.BondState b)
                (mkBondState (bs_total_subscribed st) BondStatus.Matured (bs_created_at st))
                (sset (DataKey.Nonce a) next (pers s)).
Proof.
  intros H. unfold mature_bond in H. inv_ok H; guards; views; host_simp.
  eexists _, _, next; split_and!; eauto.
Qed.

(** A configuration [issue_bond] accepts at ledger time [now]. *)
Definition valid_config (now : Z) (c : BondConfig) : Prop :=
  0 < bc_face_value c /\ 0 < bc_total_supply c /\ now < bc_maturity_date c /\
  bc_coupon_schedule c <> [] /\ Forall (fun d => d < bc_maturity_date c) (bc_coupon_schedule c).

Lemma validate_config_Ok c e s u s' :
  validate_config c e s = Ok u s' -> s' = s /\ valid_config (timestamp e) c.
Proof.
  intros H. unfold validate_config in H. inv_ok H.
  apply for_each_fail_if_Ok in H as [-> Hall]. guards.
  split; [done|]. split_and!; auto.
  - intros Hnil. by rewrite Hnil in *.
  - eapply List.Forall_impl; [|exact Hall]. intros d Hd. cbn beta in Hd. guards. lia.
Qed.

Lemma issue_bond_Ok a c n e s id s' :
  issue_bond a c n e s = Ok id s' ->
  exists next,
    is_authorized e a = true /\ n = nonce_of s a /\
    (in_range U64 (n + 1) = true -> next = n + 1) /\
    sget DataKey.Admin (inst s) = Some a /\ valid_config (timestamp e) c /\
    (in_range U64 (count_of s + 1) = true -> id = count_of s + 1) /\
    inst s' = sset DataKey.BondCount id (inst s) /\
    events s' = events s ++ [bond_issued id (bc_project_id c)] /\
    pers s' = sset DataKey.BondList (default [] (sget DataKey.BondList (pers s)) ++ [id])
                (sset (DataKey.HolderCount id) 0
                   (sset (DataKey.HolderList id) []
                      (sset (DataKey.BondState id) (mkBondState 0 BondStatus.Active (timestamp e))
                         (sset (DataKey.BondConfig id) c
                            (sset (DataKey.Nonce a) next (pers s)))))).
Proof.
  intros H. unfold issue_bond in H. inv_ok H.
  match goal with Hv : validate_config _ _ _ = _ |- _ => apply validate_config_Ok in Hv as [-> ?] end.
  inv_ok H. views; host_simp. eexists next; split_and!; eauto.
Qed.

(** ** Getters leave the data alone *)

Ltac getter_tac H := inv_ok H; try done.

Lemma get_bond_Ok b e s c s' :
  get_bond b e s = Ok c s' -> config_of s b = Some c /\ same_data s' s.
Proof. intros H. unfold get_bond in H. getter_tac H. Qed.

Lemma get_bond_state_Ok b e s st s' :
  get_bond_state b e s = Ok st s' -> state_of s b = Some st /\ same_data s' s.
Proof. intros H. unfold get_bond_state in H. getter_tac H. Qed.

Lemma total_supply_Ok b e s v s' :
  total_supply b e s = Ok v s' ->
  exists c, config_of s b = Some c /\ v = bc_total_supply c /\ same_data s' s.
Proof. intros H. unfold total_supply in H. getter_tac H. eexists; split_and!; done. Qed.

Lemma total_subscribed_Ok b e s v s' :
  total_subscribed b e s = Ok v s' ->
  exists st, state_of s b = Some st /\ v = bs_total_subscribed st /\ same_data s' s.
Proof. intros H. unfold total_subscribed in H. getter_tac H. eexists; split_and!; done. Qed.

Lemma get_all_bond_ids_Ok e s l s' : get_all_bond_ids e s = Ok l s' -> same_data s' s.
Proof. intros H. unfold get_all_bond_ids in H. getter_tac H. Qed.

Lemma get_bond_ids_range_Ok a b e s l s' : get_bond_ids_range a b e s = Ok l s' -> same_data s' s.
Proof. intros H. unfold get_bond_ids_range in H. getter_tac H. Qed.

(** [HolderCount] is the length of [HolderList], and neither exists without the other. *)
Definition counted (m : store DataKey ty) : Prop :=
  forall b, sget (DataKey.HolderCount b) m =
    (fun l : list Address => Z.of_nat (length l)) <$> (sget (DataKey.HolderList b) m : option (list Address)).

(** ** The invariant of executions

    [n] bounds the number of transactions; below [2^64] of them no counter
    wraps, in either build profile. *)

Record inv (n : Z) (s : state) : Prop := {
  inv_count : 0 <= count_of s <= n;
  inv_config : forall b, is_Some (config_of s b) <-> 1 <= b <= count_of s;
  inv_state : forall b, is_Some (state_of s b) <-> 1 <= b <= count_of s;
  inv_balance : forall b a v, sget (DataKey.HolderBalance b a) (pers s) = Some v ->
                              0 <= v /\ 1 <= b <= count_of s;
  inv_supply : forall b c st, config_of s b = Some c -> state_of s b = Some st ->
                              supply_held s b = bs_total_subscribed st /\
                              bs_total_subscribed st <= bc_total_supply c /\
                              bs_total_subscribed st <= int_hi I128;
  inv_holders : forall b a, 0 < balance s b a -> a ∈ holders_of s b;
  inv_holder_count : counted (pers s);
  inv_bond_list : default [] (sget DataKey.BondList (pers s)) = seqZ 1 (count_of s);
  inv_nonce : forall a, 0 <= nonce_of s a <= n;
}.

(** The invariant only reads the two stores. *)
Lemma bond_inv_same n s t : inst t = inst s -> pers t = pers s -> inv n s -> inv n t.
Proof.
  intros Hi Hp [? ? ? ? ? ? ? ? ?].
  split; unfold count_of, config_of, state_of, supply_held, balance, holders_of, nonce_of in *;
    rewrite ?Hi, ?Hp; auto.
Qed.

Lemma bond_inv_mono n s : inv n s -> inv (n + 1) s.
Proof.
  intros [? ? ? ? ? ? ? ? Hn]. split; auto; [lia|]. intros a. specialize (Hn a). lia.
Qed.

Lemma bond_inv_init s : deployed s -> inv 0 s.
Proof.
  intros (e & admin & H). unfold constructor in H. inv_ok H.
  split; unfold count_of, config_of, state_of, supply_held, balance, holders_of, nonce_of, ssum;
    host_cbn; rewrite ?sget_sset_ne, ?sget_empty by done; simpl; try done;
    intros *; rewrite ?sget_empty; simpl; try done; try lia.
  - split; [by intros [? ?]|intros; lia].
  - split; [by intros [? ?]|intros; lia].
Qed.

Lemma balance_weight_zero b k :
  (forall a, k <> DataKey.HolderBalance b a) -> forall v, balance_weight b k v = 0.
Proof.
  intros Hk v. destruct k; simpl; try done. case_match eqn:Hb; [|done].
  apply Z.eqb_eq in Hb. subst. by edestruct Hk.
Qed.

Ltac weight_zero := apply balance_weight_zero; intros ?; congruence.

Lemma supply_held_sset_ne b k v (m : store DataKey ty) :
  (forall a, k <> DataKey.HolderBalance b a) ->
  ssum (balance_weight b) (sset k v m) = ssum (balance_weight b) m.
Proof. intros. by apply ssum_sset_zero, balance_weight_zero. Qed.

Lemma supply_held_sset b b' a v (m : store DataKey ty) :
  ssum (balance_weight b) (sset (DataKey.HolderBalance b' a) v m) =
  ssum (balance_weight b) m +
  (if b' =? b then v - default 0 (sget (DataKey.HolderBalance b' a) m) else 0).
Proof.
  rewrite ssum_sset. simpl. destruct (sget _ m); simpl; destruct (b' =? b); lia.
Qed.

Lemma supply_held_append o b b' a (m : store DataKey ty) :
  ssum (balance_weight b) (append_if_new o b' a m) = ssum (balance_weight b) m.
Proof.
  unfold append_if_new, appended. destruct (o =? 0); [|done].
  by rewrite !supply_held_sset_ne by (intros; congruence).
Qed.

(** Lookups through [append_if_new]. *)
Lemma sget_append_ne o b a k (m : store DataKey ty) :
  k <> DataKey.HolderList b -> k <> DataKey.HolderCount b ->
  sget k (append_if_new o b a m) = sget k m.
Proof.
  intros. unfold append_if_new, appended. destruct (o =? 0); [|done].
  by rewrite !sget_sset_ne by congruence.
Qed.

Lemma holder_list_append o b a b' (m : store DataKey ty) :
  default [] (sget (DataKey.HolderList b') (append_if_new o b a m)) =
  default [] (sget (DataKey.HolderList b') m) ++ (if (b =? b') && (o =? 0) then [a] else []).
Proof.
  unfold append_if_new, appended. destruct (Z.eqb_spec o 0); rewrite ?andb_false_r, ?app_nil_r; [|done].
  rewrite sget_sset_ne by congruence. destruct (Z.eqb_spec b b') as [->|]; simpl.
  - by rewrite sget_sset_eq.
  - rewrite sget_sset_ne by congruence. by rewrite app_nil_r.
Qed.

Lemma counted_append o b a (m : store DataKey ty) : counted m -> counted (append_if_new o b a m).
Proof.
  intros Hm b'. unfold append_if_new, appended. destruct (o =? 0); [|auto].
  rewrite (sget_sset_ne (DataKey.HolderList b')) by congruence.
  destruct (decide (b = b')) as [->|].
  - by rewrite !sget_sset_eq.
  - rewrite !sget_sset_ne by congruence. apply Hm.
Qed.

Lemma counted_sset_ne k v (m : store DataKey ty) :
  (forall b, k <> DataKey.HolderCount b) -> (forall b, k <> DataKey.HolderList b) ->
  counted m -> counted (sset k v m).
Proof. intros Hc Hl Hm b. rewrite !sget_sset_ne by done. apply Hm. Qed.

#[export] Hint Resolve counted_append : core.
#[export] Hint Extern 1 (counted (sset _ _ _)) => apply counted_sset_ne; [congruence|congruence|] : core.

Create Rewrite HintDb bond.
#[export] Hint Rewrite sget_append_ne using congruence : bond.
#[export] Hint Rewrite holder_list_append supply_held_append supply_held_sset : bond.
#[export] Hint Rewrite supply_held_sset_ne using (intros; congruence) : bond.

Ltac inv_views :=
  unfold count_of, config_of, state_of, supply_held, balance, holders_of, nonce_of in *.

Ltac bond_simp := repeat progress (autorewrite with bond store in *; simpl in *).
Ltac bond_case := store_case; bond_simp.

Lemma default_pos_Some (o : option Z) : 0 < default 0 o -> o = Some (default 0 o).
Proof. destruct o; simpl; [done|lia]. Qed.

Lemma balance_nonneg n s b a : inv n s -> 0 <= balance s b a.
Proof.
  intros Hinv. unfold balance.
  destruct (sget (DataKey.HolderBalance b a) (pers s)) as [v|] eqn:Hv; simpl; [|lia].
  apply (inv_balance n s Hinv) in Hv. tauto.
Qed.

Lemma bond_nonce_step n s a k next a' :
  n + 1 < 2 ^ 64 -> inv n s -> k = nonce_of s a ->
  (in_range U64 (k + 1) = true -> next = k + 1) ->
  0 <= default 0 (sget (DataKey.Nonce a') (sset (DataKey.Nonce a) next (pers s))) <= n + 1.
Proof.
  intros Hn Hinv -> Hnx. pose proof (inv_nonce n s Hinv) as Hno. unfold nonce_of in *.
  bond_case; simpl.
  - specialize (Hno a'). rewrite Hnx; [lia|]. apply in_range_spec; simpl; lia.
  - specialize (Hno a'). lia.
Qed.

Lemma inv_subscribe n a b amt k e s s' :
  n + 1 < 2 ^ 64 -> inv n s -> subscribe a b amt k e s = Ok tt s' -> inv (n + 1) s'.
Proof.
  intros Hn Hinv H. pose proof (balance_nonneg n s b a Hinv) as Hbal.
  apply subscribe_Ok in H as (c&st&next&_&Hk&Hnx&Hamt&Hcb&Hsb&Hact&_&Hcap&Hrg&Hi&_&Hp).
  pose proof (fun a' => bond_nonce_step n s a k next a' Hn Hinv Hk Hnx) as Hno.
  apply in_range_spec in Hrg.
  destruct Hinv as [Hc Hcf Hst Hb Hs Hh Hhc Hbl _].
  split; inv_views; rewrite ?Hi, ?Hp.
  - lia.
  - intros b'. bond_simp. auto.
  - intros b'. bond_simp. bond_case; [|auto]. rewrite <- Hst, Hsb. split; eauto.
  - intros b' a' v. bond_simp. bond_case; [|apply Hb].
    intros [= <-]. rewrite <- Hcf, Hcb. split; [lia|done].
  - intros b' c' st'. bond_simp. intros Hc'. bond_case.
    + intros [= <-]. rewrite Z.eqb_refl. simpl.
      destruct (Hs b' c st Hcb Hsb) as [Heq ?]. simplify_eq. lia.
    + intros Hst'. destruct (Hs b' c' st' Hc' Hst') as [Heq ?].
      destruct (Z.eqb_spec b b'); [congruence|lia].
  - intros b' a'. bond_simp. bond_case.
    + intros _. rewrite Z.eqb_refl. simpl.
      destruct (Z.eqb_spec (default 0 (sget (DataKey.HolderBalance b' a') (pers s))) 0).
      * apply elem_of_app. right. by left.
      * rewrite app_nil_r. apply Hh. lia.
    + intros Hpos. apply elem_of_app. left. auto.
  - auto 10.
  - bond_simp. done.
  - intros a'. bond_simp. apply (Hno a').
Qed.

Lemma inv_transfer n a t b amt k e s s' :
  n + 1 < 2 ^ 64 -> inv n s -> transfer a t b amt k e s = Ok tt s' -> inv (n + 1) s'.
Proof.
  intros Hn Hinv H. pose proof (balance_nonneg n s b t Hinv) as Hbal.
  apply transfer_Ok in H as (c&st&next&_&Hk&Hnx&Hne&Hamt&Hcb&Hsb&Hact&_&Hle&Hi&_&Hp).
  pose proof (fun a' => bond_nonce_step n s a k next a' Hn Hinv Hk Hnx) as Hno.
  destruct Hinv as [Hc Hcf Hst Hb Hs Hh Hhc Hbl _].
  split; inv_views; rewrite ?Hi, ?Hp.
  - lia.
  - intros b'. bond_simp. auto.
  - intros b'. bond_simp. auto.
  - intros b' a' v. bond_simp. bond_case; [|bond_case; [|apply Hb]].
    all: intros [= <-]; rewrite <- Hcf, Hcb; split; [lia|done].
  - intros b' c' st'. bond_simp. intros Hc' Hst'. destruct (Hs b' c' st' Hc' Hst') as [Heq ?].
    destruct (Z.eqb_spec b b'); lia.
  - intros b' a'. bond_simp. bond_case; [|bond_case].
    + intros _. rewrite Z.eqb_refl. simpl.
      destruct (Z.eqb_spec (default 0 (sget (DataKey.HolderBalance b' a') (pers s))) 0).
      * apply elem_of_app. right. by left.
      * rewrite app_nil_r. apply Hh. lia.
    + intros Hpos. apply elem_of_app. left. apply Hh. lia.
    + intros Hpos. apply elem_of_app. left. auto.
  - auto 10.
  - bond_simp. done.
  - intros a'. bond_simp. apply (Hno a').
Qed.

Lemma inv_redeem n a b amt k e s s' :
  n + 1 < 2 ^ 64 -> inv n s -> redeem a b amt k e s = Ok tt s' -> inv (n + 1) s'.
Proof.
  intros Hn Hinv H.
  apply redeem_Ok in H as (c&st&next&_&Hk&Hnx&Hamt&Hcb&Hsb&Hact&Hle&Hi&_&Hp).
  pose proof (fun a' => bond_nonce_step n s a k next a' Hn Hinv Hk Hnx) as Hno.
  destruct Hinv as [Hc Hcf Hst Hb Hs Hh Hhc Hbl _].
  split; inv_views; rewrite ?Hi, ?Hp.
  - lia.
  - intros b'. bond_simp. auto.
  - intros b'. bond_simp. bond_case; [|auto]. rewrite <- Hst, Hsb. split; eauto.
  - intros b' a' v. bond_simp. bond_case; [|apply Hb].
    intros [= <-]. rewrite <- Hcf, Hcb. split; [lia|done].
  - intros b' c' st'. bond_simp. intros Hc'. bond_case.
    + intros [= <-]. rewrite Z.eqb_refl. simpl.
      destruct (Hs b' c st Hcb Hsb) as [Heq ?]. simplify_eq. lia.
    + intros Hst'. destruct (Hs b' c' st' Hc' Hst') as [Heq ?].
      destruct (Z.eqb_spec b b'); [congruence|lia].
  - intros b' a'. bond_simp. bond_case; [|apply Hh]. intros ?. apply Hh. lia.
  - auto 10.
  - bond_simp. done.
  - intros a'. bond_simp. apply (Hno a').
Qed.

Lemma inv_mature n a b k e s s' :
  n + 1 < 2 ^ 64 -> inv n s -> mature_bond a b k e s = Ok tt s' -> inv (n + 1) s'.
Proof.
  intros Hn Hinv H.
  apply mature_bond_Ok in H as (c&st&next&_&Hk&Hnx&_&Hcb&Hsb&Hact&_&Hi&_&Hp).
  pose proof (fun a' => bond_nonce_step n s a k next a' Hn Hinv Hk Hnx) as Hno.
  destruct Hinv as [Hc Hcf Hst Hb Hs Hh Hhc Hbl _].
  split; inv_views; rewrite ?Hi, ?Hp.
  - lia.
  - intros b'. bond_simp. auto.
  - intros b'. bond_simp. bond_case; [|auto]. rewrite <- Hst, Hsb. split; eauto.
  - intros b' a' v. bond_simp. apply Hb.
  - intros b' c' st'. bond_simp. intros Hc'. bond_case; [|auto]. intros [= <-]. simpl. eauto.
  - intros b' a'. bond_simp. apply Hh.
  - auto 10.
  - bond_simp. done.
  - intros a'. bond_simp. apply (Hno a').
Qed.

Lemma inv_issue n a c k e s id s' :
  n + 1 < 2 ^ 64 -> inv n s -> issue_bond a c k e s = Ok id s' -> inv (n + 1) s'.
Proof.
  intros Hn Hinv H.
  apply issue_bond_Ok in H as (next&_&Hk&Hnx&_&Hv&Hid&Hi&_&Hp).
  pose proof (fun a' => bond_nonce_step n s a k next a' Hn Hinv Hk Hnx) as Hno.
  destruct Hinv as [Hc Hcf Hst Hb Hs Hh Hhc Hbl _].
  assert (id = count_of s + 1) as -> by (apply Hid, in_range_spec; simpl; lia). clear Hid.
  destruct Hv as (_&Hsup&_).
  split; inv_views; rewrite ?Hi, ?Hp.
  - bond_simp. lia.
  - intros b'. bond_simp. bond_case; [split; [lia|eauto]|].
    rewrite Hcf. assert (default 0 (sget DataKey.BondCount (inst s)) + 1 <> b') by congruence. lia.
  - intros b'. bond_simp. bond_case; [split; [lia|eauto]|].
    rewrite Hst. assert (default 0 (sget DataKey.BondCount (inst s)) + 1 <> b') by congruence. lia.
  - intros b' a' v. bond_simp. intros Hv. apply Hb in Hv. lia.
  - intros b' c' st'. bond_simp. bond_case.
    + intros [= <-] [= <-]. simpl. split; [|lia]. apply ssum_zero. intros k' v Hkv.
      destruct k'; simpl; try done. apply Hb in Hkv.
      destruct (Z.eqb_spec bond_id (default 0 (sget DataKey.BondCount (inst s)) + 1)); lia.
    + intros. eauto.
  - intros b' a'. bond_simp. intros Hpos. destruct (Hb b' a' _ (default_pos_Some _ Hpos)) as [_ ?].
    rewrite sget_sset_ne by (intros [=]; lia). bond_simp. auto.
  - intros b'. bond_simp. rewrite (sget_sset_ne (DataKey.HolderList b')) by congruence.
    bond_case; [done|]. bond_simp. apply Hhc.
  - bond_simp. rewrite Hbl. rewrite seqZ_app by lia. f_equal.
    rewrite seqZ_cons by lia. simpl. f_equal. lia.
  - intros a'. bond_simp. apply (Hno a').
Qed.

Lemma bond_inv_exec n c e s s' :
  n + 1 < 2 ^ 64 -> inv n s -> exec c e s = Ok tt s' -> inv (n + 1) s'.
Proof.
  intros Hn Hinv H. destruct c; simpl in H;
    try (apply bind_Ok in H as (?&?&H&[_ ->]%ret_Ok)).
  - eauto using inv_issue.
  - eauto using inv_subscribe.
  - eauto using inv_transfer.
  - eauto using inv_redeem.
  - eauto using inv_mature.
  - apply get_bond_Ok in H as [_ (?&?&_)]. eauto using bond_inv_mono, bond_inv_same.
  - apply get_bond_state_Ok in H as [_ (?&?&_)]. eauto using bond_inv_mono, bond_inv_same.
  - apply total_supply_Ok in H as (?&_&_&?&?&_). eauto using bond_inv_mono, bond_inv_same.
  - apply total_subscribed_Ok in H as (?&_&_&?&?&_). eauto using bond_inv_mono, bond_inv_same.
  - apply get_all_bond_ids_Ok in H as (?&?&_). eauto using bond_inv_mono, bond_inv_same.
  - apply get_bond_ids_range_Ok in H as (?&?&_). eauto using bond_inv_mono, bond_inv_same.
Qed.

Lemma bond_reachable_inv n s : reachable n s -> n < 2 ^ 64 -> inv n s.
Proof.
  apply (reach_ind_bounded deployed exec (2 ^ 64) inv).
  - exact bond_inv_init.
  - intros m t t' e c _ Hm. by apply bond_inv_exec.
  - exact bond_inv_mono.
  - intros m t w ? _. by apply (bond_inv_same _ t).
Qed.

Lemma balance_weight_nonneg n s b :
  inv n s -> forall k v, sget k (pers s) = Some v -> 0 <= balance_weight b k v.
Proof.
  intros Hinv k v Hk. destruct k; simpl; try lia.
  apply (inv_balance n s Hinv) in Hk. case_match; lia.
Qed.

Lemma balance_le_supply n s b a : inv n s -> balance s b a <= supply_held s b.
Proof.
  intros Hinv. unfold balance, supply_held.
  destruct (sget (DataKey.HolderBalance b a) (pers s)) as [v|] eqn:Hv; simpl.
  - pose proof (ssum_ge (balance_weight b) _ _ _ (balance_weight_nonneg n s b Hinv) Hv) as Hge.
    simpl in Hge. by rewrite Z.eqb_refl in Hge.
  - apply ssum_nonneg. eauto using balance_weight_nonneg.
Qed.

(** Two different holders together own at most the whole supply. *)
Lemma two_balances_le n s b a t :
  inv n s -> a <> t -> balance s b a + balance s b t <= supply_held s b.
Proof.
  intros Hinv Hne. pose proof (balance_le_supply n s b t Hinv) as Ht. unfold balance, supply_held in *.
  destruct (sget (DataKey.HolderBalance b a) (pers s)) as [v|] eqn:Hv; simpl; [|lia].
  pose proof (ssum_sdel (balance_weight b) (DataKey.HolderBalance b a) (pers s)) as Hd.
  rewrite Hv in Hd. simpl in Hd. rewrite Z.eqb_refl in Hd.
  assert (Hw : forall k w, sget k (sdel (DataKey.HolderBalance b a) (pers s)) = Some w ->
                           0 <= balance_weight b k w).
  { intros k w. store_case; [done|]. by apply balance_weight_nonneg with n. }
  enough (default 0 (sget (DataKey.HolderBalance b t) (pers s)) <=
          ssum (balance_weight b) (sdel (DataKey.HolderBalance b a) (pers s))) by lia.
  destruct (sget (DataKey.HolderBalance b t) (pers s)) as [w|] eqn:Hw'; simpl.
  - rewrite <- (sget_sdel_ne _ (DataKey.HolderBalance b a)) in Hw' by congruence.
    pose proof (ssum_ge (balance_weight b) _ _ _ Hw Hw') as Hge.
    simpl in Hge. by rewrite Z.eqb_refl in Hge.
  - by apply ssum_nonneg.
Qed.

(** ** Forward evaluation *)

Lemma extend_bond_ttl_total b d e s :
  is_Some (config_of s b) -> is_Some (state_of s b) -> only_live (extend_bond_ttl b d) e s.
Proof.
  intros Hc Hs. unfold extend_bond_ttl. apply only_live_timestamp.
  apply only_live_bind; [by apply only_live_pextend|]. intros l.
  apply only_live_bind; [by apply only_live_pextend|]. intros l'.
  apply only_live_bind; intros; apply only_live_bump.
Qed.

Lemma load_bond_total b e s c st :
  config_of s b = Some c -> state_of s b = Some st ->
  exists l, load_bond b e s = Ok (c, st) (put_live l s).
Proof.
  intros Hc Hs. destruct (extend_bond_ttl_total b (bc_maturity_date c) e s) as [l Hl]; eauto.
  exists l. unfold load_bond, config_of, state_of in *. run. by rewrite (bind_run _ _ _ _ _ _ Hl).
Qed.

Lemma append_holder_total b d a e s :
  is_Some (config_of s b) -> is_Some (state_of s b) ->
  exists l, append_holder b d a e s = Ok tt (put_live l (with_pers (appended b a (pers s)) s)).
Proof.
  intros Hc Hs. unfold append_holder. run.
  match goal with |- exists l, extend_bond_ttl _ _ _ ?t = _ =>
    destruct (extend_bond_ttl_total b d e t) as [l ->] end.
  1, 2: by views; host_simp.
  by exists l.
Qed.

Lemma when_append_total old b d a e s :
  is_Some (config_of s b) -> is_Some (state_of s b) ->
  exists l, when (old =? 0) (append_holder b d a) e s =
            Ok tt (put_live l (with_pers (append_if_new old b a (pers s)) s)).
Proof.
  intros Hc Hs. unfold when, append_if_new. destruct (old =? 0).
  - by apply append_holder_total.
  - exists (live s). by destruct s.
Qed.

Lemma consume_nonce_total a n e s :
  n = nonce_of s a -> in_range U64 (n + 1) = true ->
  exists l, consume_nonce a n e s = Ok tt (put_live l (put_pers (DataKey.Nonce a) (n + 1) s)).
Proof.
  intros -> Hr. unfold consume_nonce, nonce_of in *.
  assert (Hn : negb (default 0 (sget (DataKey.Nonce a) (pers s)) =?
                     default 0 (sget (DataKey.Nonce a) (pers s))) = false) by (by rewrite Z.eqb_refl).
  run.
  rewrite (bind_run _ _ _ _ _ _ (arith_run _ _ _ _ Hr)). by eexists.
Qed.

(** The error a [transfer] reports, as a function of the state it starts from. *)
Definition transfer_error (s : state) (now : Z) (from to : Address) (b amount nonce : Z) :
    option BondError.BondError :=
  if negb (nonce =? nonce_of s from) then Some BondError.InvalidNonce
  else if bool_decide (to = from) then Some BondError.Unauthorized
  else if amount <=? 0 then Some BondError.ZeroAmount
  else match config_of s b, state_of s b with
       | Some c, Some st =>
           if bool_decide (bs_status st <> BondStatus.Active) then Some BondError.BondAlreadyMatured
           else if bc_maturity_date c <=? now then Some BondError.BondAlreadyMatured
           else if balance s b from <? amount then Some BondError.InsufficientBalance
           else None
       | _, _ => Some BondError.BondNotFound
       end.

Lemma transfer_no_overflow n s b a t amt st c :
  inv n s -> a <> t -> config_of s b = Some c -> state_of s b = Some st ->
  0 < amt -> amt <= balance s b a ->
  checked I128 (balance s b a - amt) = Some (balance s b a - amt) /\
  checked I128 (balance s b t + amt) = Some (balance s b t + amt).
Proof.
  intros Hinv Hne Hc Hs Hamt Hle.
  pose proof (two_balances_le n s b a t Hinv Hne).
  pose proof (balance_nonneg n s b t Hinv).
  destruct (inv_supply n s Hinv b c st Hc Hs) as (Hsum&_&Hhi). simpl in Hhi.
  split; apply checked_in, in_range_spec; simpl; lia.
Qed.

Lemma nonce_in_range n s a : n + 1 < 2 ^ 64 -> inv n s -> in_range U64 (nonce_of s a + 1) = true.
Proof. intros Hn Hinv. pose proof (inv_nonce n s Hinv a). apply in_range_spec; simpl; lia. Qed.


Lemma consume_nonce_fails a n e s :
  negb (n =? nonce_of s a) = true -> exists s1, consume_nonce a n e s = Err BondError.InvalidNonce s1.
Proof. intros Hn. unfold consume_nonce, nonce_of in *. run. by eexists. Qed.

Lemma load_bond_fails b e s :
  config_of s b = None \/ state_of s b = None ->
  exists s1, load_bond b e s = Err BondError.BondNotFound s1.
Proof.
  unfold load_bond, config_of, state_of. intros Hno. run.
  destruct (sget (DataKey.BondConfig b) (pers s)) as [c|] eqn:Hc; [|run; by eexists].
  destruct Hno as [?|Hst]; [done|]. run. by eexists.
Qed.

(** Nonces do not affect bonds, nor lifetimes anything. *)
Lemma views_after_nonce l a k s b :
  config_of (put_live l (put_pers (DataKey.Nonce a) k s)) b = config_of s b /\
  state_of (put_live l (put_pers (DataKey.Nonce a) k s)) b = state_of s b.
Proof. views. host_simp. done. Qed.

(** In every state that fewer than 2^64 transactions reach, [transfer] signed by
    its sender never traps and never reports [Overflow]: it returns exactly the error
    [transfer_error] predicts from the state, and otherwise succeeds. *)
Theorem transfer_outcome n s e from to b amount nonce :
  reachable n s -> n + 1 < 2 ^ 64 -> is_authorized e from = true ->
  agrees (transfer from to b amount nonce e s) (transfer_error s (timestamp e) from to b amount nonce).
Proof.
  intros Hr Hn Hauth. apply bond_reachable_inv in Hr as Hinv; [|lia].
  unfold transfer_error, transfer. run.
  destruct (negb (nonce =? nonce_of s from)) eqn:Hk.
  { destruct (consume_nonce_fails _ _ e s Hk) as [s1 Hs1]. rewrite (bind_err _ _ _ _ _ _ Hs1).
    by eexists. }
  guards. destruct (consume_nonce_total from nonce e s Hk) as [l Hl].
  { rewrite Hk. by apply (nonce_in_range n). }
  rewrite (bind_run _ _ _ _ _ _ Hl).
  destruct (bool_decide (to = from)) eqn:Hto; [run; by eexists|].
  run. destruct (amount <=? 0) eqn:Hamt; [run; by eexists|]. run.
  destruct (views_after_nonce l from (nonce + 1) s b) as [Hc1 Hs1].
  destruct (config_of s b) as [c|] eqn:Hc; [destruct (state_of s b) as [st|] eqn:Hs|].
  2, 3: destruct (load_bond_fails b e _ (ltac:(rewrite Hc1, Hs1; auto))) as [s1 Hl1];
    rewrite (bind_err _ _ _ _ _ _ Hl1); by eexists.
  destruct (load_bond_total b e _ c st Hc1 Hs1) as [l1 Hl1]. rewrite (bind_run _ _ _ _ _ _ Hl1).
  destruct (bool_decide (bs_status st <> BondStatus.Active)) eqn:Hact; [run; by eexists|].
  run. destruct (bc_maturity_date c <=? timestamp e) eqn:Hmat; [run; by eexists|].
  run. host_cbn. rewrite !sget_sset_ne by done. fold (balance s b from) (balance s b to).
  destruct (balance s b from <? amount) eqn:Hbal; [run; by eexists|].
  guards. destruct (transfer_no_overflow n s b from to amount st c) as [Hsub Hadd]; auto.
  run. host_cbn. rewrite !sget_sset_ne by congruence. fold (balance s b to).
  run.
  match goal with |- agrees (bind (when _ _) _ _ ?t) _ =>
    destruct (when_append_total (balance s b to) b (bc_maturity_date c) to e t) as [l2 Hl2] end.
  1, 2: unfold config_of, state_of in *; host_simp; eauto.
  rewrite (bind_run _ _ _ _ _ _ Hl2). by eexists _, _.
Qed.

(** ** Conservation and life cycle *)

(** C1: In every reachable state (below 2^64 transactions) the recorded balances of a
    bond add up to its [total_subscribed], which stays within the configured supply, and
    every single balance lies between 0 and that total. *)
Theorem supply_conserved n s b c st a :
  reachable n s -> n < 2 ^ 64 -> config_of s b = Some c -> state_of s b = Some st ->
  supply_held s b = bs_total_subscribed st /\
  0 <= balance s b a <= bs_total_subscribed st /\
  bs_total_subscribed st <= bc_total_supply c.
Proof.
  intros Hr Hn Hc Hs. apply bond_reachable_inv in Hr as Hinv; [|done].
  pose proof (balance_nonneg n s b a Hinv). pose proof (balance_le_supply n s b a Hinv).
  destruct (inv_supply n s Hinv b c st Hc Hs) as (?&?&_). lia.
Qed.

(** How one transaction may change a bond whose configuration is [c]. *)
Inductive bond_step (now : Z) (c : BondConfig) : BondState -> BondState -> Prop :=
| step_none st : bond_step now c st st
| step_subscribe st total :
    bs_status st = BondStatus.Active -> now < bc_maturity_date c ->
    bs_total_subscribed st < total <= bc_total_supply c ->
    bond_step now c st (mkBondState total (bs_status st) (bs_created_at st))
| step_mature st :
    bs_status st = BondStatus.Active -> bc_maturity_date c <= now ->
    bond_step now c st (mkBondState (bs_total_subscribed st) BondStatus.Matured (bs_created_at st))
| step_redeem st total :
    bs_status st = BondStatus.Matured -> 0 <= total < bs_total_subscribed st ->
    bond_step now c st (mkBondState total (bs_status st) (bs_created_at st)).

Lemma lifecycle_step n s e call s' b c st :
  inv n s -> n + 1 < 2 ^ 64 -> config_of s b = Some c -> state_of s b = Some st ->
  exec call e s = Ok tt s' ->
  config_of s' b = Some c /\
  exists st', state_of s' b = Some st' /\ bond_step (timestamp e) c st st'.
Proof.
  intros Hinv Hn Hc Hs H.
  assert (Hsame : same_data s' s -> config_of s' b = Some c /\
      exists st', state_of s' b = Some st' /\ bond_step (timestamp e) c st st').
  { intros (_&Hp&_). unfold config_of, state_of in *. rewrite Hp. eauto using step_none. }
  destruct call; simpl in H; try (apply bind_Ok in H as (?&?&H&[_ ->]%ret_Ok)).
  - apply issue_bond_Ok in H as (next&_&_&_&_&_&Hid&_&_&Hp).
    pose proof (inv_count n s Hinv). rewrite Hid in Hp by (apply in_range_spec; simpl; lia).
    assert (1 <= b <= count_of s) by (rewrite <- (inv_config n s Hinv); eauto).
    unfold config_of, state_of in *. rewrite Hp.
    rewrite !sget_sset_ne by (intros [=]; lia). eauto using step_none.
  - apply subscribe_Ok in H as (c'&st'&next&_&_&_&Hamt&Hc'&Hs'&Hact&Hnow&Hcap&_&_&_&Hp).
    unfold config_of, state_of in *. rewrite Hp. bond_simp. split; [done|].
    bond_case; [|eauto using step_none]. eexists; split; [done|]. apply step_subscribe; auto; lia.
  - apply transfer_Ok in H as (c'&st'&next&_&_&_&_&_&_&_&_&_&_&_&_&Hp).
    unfold config_of, state_of in *. rewrite Hp. bond_simp. eauto using step_none.
  - pose proof (balance_le_supply n s bond_id holder Hinv) as Hle.
    apply redeem_Ok in H as (c'&st'&next&_&_&_&Hamt&Hc'&Hs'&Hmat&Hbal&_&_&Hp).
    destruct (inv_supply n s Hinv _ _ _ Hc' Hs') as [Hsum _].
    unfold config_of, state_of in *. rewrite Hp. bond_simp. split; [done|].
    bond_case; [|eauto using step_none]. eexists; split; [done|]. apply step_redeem; auto; lia.
  - apply mature_bond_Ok in H as (c'&st'&next&_&_&_&_&Hc'&Hs'&Hact&Hnow&_&_&Hp).
    unfold config_of, state_of in *. rewrite Hp. bond_simp. split; [done|].
    bond_case; [|eauto using step_none]. eexists; split; [done|]. by apply step_mature.
  - apply get_bond_Ok in H as [_ ?]. auto.
  - apply get_bond_state_Ok in H as [_ ?]. auto.
  - apply total_supply_Ok in H as (?&_&_&?). auto.
  - apply total_subscribed_Ok in H as (?&_&_&?). auto.
  - apply get_all_bond_ids_Ok in H. auto.
  - apply get_bond_ids_range_Ok in H. auto.
Qed.

(** C16: A transaction never changes the configuration of an issued bond, and changes its
    state only along [bond_step]: supply grows only while Active and before maturity,
    maturity happens once and not before the maturity date, supply shrinks only once
    Matured and never below zero. *)
Theorem bond_lifecycle n s e call s' b c st :
  reachable n s -> n + 1 < 2 ^ 64 -> config_of s b = Some c -> state_of s b = Some st ->
  exec call e s = Ok tt s' ->
  config_of s' b = Some c /\
  exists st', state_of s' b = Some st' /\ bond_step (timestamp e) c st st'.
Proof. intros Hr Hn. apply (lifecycle_step n); [|done]. apply bond_reachable_inv; [done|lia]. Qed.

(** ** Replay protection *)

(** Who signs a call, and with which nonce. *)
Definition signed (c : Call) : option (Address * Z) :=
  match c with
  | CIssueBond caller _ nonce => Some (caller, nonce)
  | CSubscribe investor _ _ nonce => Some (investor, nonce)
  | CTransfer from _ _ _ nonce => Some (from, nonce)
  | CRedeem holder _ _ nonce => Some (holder, nonce)
  | CMatureBond caller _ nonce => Some (caller, nonce)
  | _ => None
  end.

Ltac nonce_tac Hp :=
  split; [done|]; eexists; split; [done|]; intros a'; unfold nonce_of; rewrite Hp; bond_simp;
  repeat first [done | case_decide; simplify_eq | bond_case].

(** What any call does to the nonces. *)
Lemma exec_nonce c e s s' :
  exec c e s = Ok tt s' ->
  match signed c with
  | Some (a, k) =>
      k = nonce_of s a /\
      exists next, (in_range U64 (k + 1) = true -> next = k + 1) /\
        forall a', nonce_of s' a' = if decide (a = a') then next else nonce_of s a'
  | None => same_data s' s
  end.
Proof.
  intros H. destruct c; simpl in *; try (apply bind_Ok in H as (?&?&H&[_ ->]%ret_Ok)).
  - apply issue_bond_Ok in H as (next&_&Hk&Hnx&_&_&_&_&_&Hp). nonce_tac Hp.
  - apply subscribe_Ok in H as (?&?&next&_&Hk&Hnx&_&_&_&_&_&_&_&_&_&Hp). nonce_tac Hp.
  - apply transfer_Ok in H as (?&?&next&_&Hk&Hnx&_&_&_&_&_&_&_&_&_&Hp). nonce_tac Hp.
  - apply redeem_Ok in H as (?&?&next&_&Hk&Hnx&_&_&_&_&_&_&_&Hp). nonce_tac Hp.
  - apply mature_bond_Ok in H as (?&?&next&_&Hk&Hnx&_&_&_&_&_&_&_&Hp). nonce_tac Hp.
  - by apply get_bond_Ok in H as [_ ?].
  - by apply get_bond_state_Ok in H as [_ ?].
  - by apply total_supply_Ok in H as (?&_&_&?).
  - by apply total_subscribed_Ok in H as (?&_&_&?).
  - by apply get_all_bond_ids_Ok in H.
  - by apply get_bond_ids_range_Ok in H.
Qed.

(** Nonces never decrease. *)
Lemma nonce_monotone n c e s s' a :
  n + 1 < 2 ^ 64 -> inv n s -> exec c e s = Ok tt s' -> nonce_of s a <= nonce_of s' a.
Proof.
  intros Hn Hinv H. apply exec_nonce in H. destruct (signed c) as [[a' k]|].
  - destruct H as (->&next&Hnx&->). rewrite Hnx by by apply nonce_in_range with n.
    case_decide; subst; lia.
  - unfold nonce_of. destruct H as (_&->&_). lia.
Qed.

(** C21: No replay: once a transaction signed with some nonce has succeeded, no later
    transaction (whatever happens in between) succeeds with the same signer and nonce. *)
Theorem no_replay n s a k e c s1 m s2 e' c' s3 :
  reachable n s -> exec c e s = Ok tt s1 -> signed c = Some (a, k) ->
  reach (eq s1) exec m s2 -> n + 1 + m + 1 < 2 ^ 64 -> signed c' = Some (a, k) ->
  exec c' e' s2 <> Ok tt s3.
Proof.
  intros Hr H1 Hk Hr2 Hm Hk' H3. pose proof (reach_nonneg _ _ _ _ Hr2).
  apply bond_reachable_inv in Hr as Hinv; [|lia].
  pose proof (exec_nonce _ _ _ _ H1) as Hx. rewrite Hk in Hx. destruct Hx as (->&next&Hnx&Hx).
  assert (Hinv2 : inv (n + 1 + m) s2 /\ nonce_of s a < nonce_of s2 a).
  { refine (reach_ind_bounded (eq s1) exec (2 ^ 64 - n - 2)
      (fun m t => inv (n + 1 + m) t /\ nonce_of s a < nonce_of t a) _ _ _ _ m s2 Hr2 ltac:(lia)).
    - intros t <-. rewrite Z.add_0_r. split; [apply (bond_inv_exec n c e s); auto; lia|].
      rewrite Hx, decide_True, Hnx; [lia| |done]. apply (nonce_in_range n); auto. lia.
    - intros i t t' e0 c0 Hi Hlt [Hit Hnt] Hex. split.
      + rewrite Z.add_assoc. eapply bond_inv_exec; [lia|exact Hit|exact Hex].
      + pose proof (nonce_monotone (n + 1 + i) c0 e0 t t' a ltac:(lia) Hit Hex). lia.
    - intros i t [Hit ?]. rewrite Z.add_assoc. auto using bond_inv_mono.
    - intros i t w [Hit ?] _. split; [|done]. by apply (bond_inv_same _ t). }
  destruct Hinv2 as [_ Hlt]. apply exec_nonce in H3. rewrite Hk' in H3. lia.
Qed.

(** ** The holder list and its pages *)

Lemma vec_range_page {A} (l : list A) start count :
  0 <= start -> 0 <= count -> Z.of_nat (length l) <= int_hi U32 ->
  vec_range l start count = page start count l.
Proof.
  intros Hs Hc Hl. unfold vec_range. simpl in Hl.
  destruct (Z.eqb_spec count 0) as [->|Hc0]; [by unfold page|].
  destruct (Z.leb_spec (Z.of_nat (length l)) start) as [Hle|Hlt]; simpl.
  - unfold page. rewrite drop_ge by lia. by rewrite take_nil.
  - rewrite wrap_id by (apply in_range_spec; simpl; lia).
    rewrite seqZ_lookup_page by lia. unfold page.
    destruct (decide (start + count <= Z.of_nat (length l))).
    + do 2 f_equal. lia.
    + rewrite !take_ge by (rewrite length_drop; lia). done.
Qed.

(** In every reachable state, two successive pages of [get_holder_list_range] are the
    page of the combined width, [get_holder_count] is the length of the list, and
    everybody with a positive balance appears on the pages that cover it. *)
Theorem holder_pages_complete n s e b start c1 c2 a :
  reachable n s -> n < 2 ^ 64 -> Z.of_nat (length (holders_of s b)) <= int_hi U32 ->
  0 <= start -> 0 <= c1 -> 0 <= c2 ->
  exists p1 p2 p l,
    get_holder_list_range b start c1 e s = Ok p1 s /\
    get_holder_list_range b (start + c1) c2 e s = Ok p2 s /\
    get_holder_list_range b start (c1 + c2) e s = Ok p s /\ p = p1 ++ p2 /\
    get_holder_count b e s = Ok (Z.of_nat (length l)) s /\
    get_holder_list_range b 0 (Z.of_nat (length l)) e s = Ok l s /\
    (0 < balance s b a -> a ∈ l).
Proof.
  intros Hr Hn Hlen Hs H1 H2. apply bond_reachable_inv in Hr as Hinv; [|done].
  unfold get_holder_list_range, bind, pget, ret, get_holder_count, holder_count_from_persistent.
  fold (holders_of s b). rewrite !vec_range_page by lia.
  eexists _, _, _, (holders_of s b). split_and!; [done..|by apply page_app| |by rewrite vec_range_page, page_all by lia|].
  - unfold bind, pget, holders_of. cbn beta iota. rewrite (inv_holder_count n s Hinv b).
    destruct (sget (DataKey.HolderList b) (pers s)) eqn:Hl; cbn; by rewrite ?Hl.
  - apply (inv_holders n s Hinv).
Qed.

(** ** A concrete execution *)

Definition sample_config : BondConfig :=
  mkBondConfig [1] 100 [10] CreditType.Carbon 20 1000.

Definition sample_start : state := put_inst DataKey.Admin (Addr 1) (empty_state tt).

(** Bond 1 is issued; investors 2 and 3 subscribe 600 and 300; 2 sends 600 to 3. *)
Definition sample_calls : list (Env * Call) :=
  [(sample_env 5, CIssueBond (Addr 1) sample_config 0);
   (sample_env 6, CSubscribe (Addr 2) 1 600 0);
   (sample_env 6, CSubscribe (Addr 3) 1 300 0);
   (sample_env 7, CTransfer (Addr 2) (Addr 3) 1 600 1)].

Definition sample_state : state := run_calls exec sample_calls sample_start.

Lemma sample_start_deployed : deployed sample_start.
Proof. by exists (sample_env 0), (Addr 1). Qed.

Lemma bond_sample_reachable : reachable 4 sample_state.
Proof.
  apply (reach_run_calls deployed exec sample_calls 0). apply reach_init, sample_start_deployed.
Qed.

Example sample_balances :
  (balance sample_state 1 (Addr 2), balance sample_state 1 (Addr 3)) = (0, 900).
Proof. vm_compute. reflexivity. Qed.

Lemma supply_conserved_witness :
  supply_held sample_state 1 = 900 /\
  0 <= balance sample_state 1 (Addr 3) <= 900 /\ 900 <= 1000.
Proof.
  exact (supply_conserved 4 sample_state 1 sample_config (mkBondState 900 BondStatus.Active 5) (Addr 3)
           bond_sample_reachable ltac:(done) ltac:(by vm_compute) ltac:(by vm_compute)).
Defined.

Lemma transfer_outcome_witness :
  agrees (transfer (Addr 3) (Addr 2) 1 901 1 (sample_env 8) sample_state)
         (Some BondError.InsufficientBalance).
Proof.
  exact (transfer_outcome 4 sample_state (sample_env 8) (Addr 3) (Addr 2) 1 901 1
           bond_sample_reachable ltac:(done) ltac:(by vm_compute)).
Defined.

(** The state after the bond matures. *)
Definition sample_matured : state := run_calls exec [(sample_env 20, CMatureBond (Addr 1) 1 1)] sample_state.

Lemma bond_lifecycle_witness :
  config_of sample_matured 1 = Some sample_config /\
  exists st', state_of sample_matured 1 = Some st' /\
    bond_step 20 sample_config (mkBondState 900 BondStatus.Active 5) st'.
Proof.
  exact (bond_lifecycle 4 sample_state (sample_env 20) (CMatureBond (Addr 1) 1 1) sample_matured 1
           sample_config (mkBondState 900 BondStatus.Active 5) bond_sample_reachable ltac:(done)
           ltac:(by vm_compute) ltac:(by vm_compute) ltac:(by apply (commit_is_ok _ sample_state); vm_compute)).
Defined.

Definition sample_sold : state :=
  run_calls exec [(sample_env 8, CTransfer (Addr 3) (Addr 2) 1 100 1)] sample_state.

Lemma no_replay_witness :
  exec (CTransfer (Addr 3) (Addr 2) 1 100 1) (sample_env 9) sample_sold <> Ok tt sample_sold.
Proof.
  exact (no_replay 4 sample_state (Addr 3) 1 (sample_env 8) (CTransfer (Addr 3) (Addr 2) 1 100 1)
           sample_sold 0 sample_sold (sample_env 9) (CTransfer (Addr 3) (Addr 2) 1 100 1) sample_sold
           bond_sample_reachable ltac:(by apply (commit_is_ok _ sample_state); vm_compute) ltac:(done) (reach_init _ _ _ eq_refl)
           ltac:(done) ltac:(done)).
Defined.

Lemma holder_pages_complete_witness :
  exists p1 p2 p l,
    get_holder_list_range 1 0 1 (sample_env 8) sample_state = Ok p1 sample_state /\
    get_holder_list_range 1 1 5 (sample_env 8) sample_state = Ok p2 sample_state /\
    get_holder_list_range 1 0 6 (sample_env 8) sample_state = Ok p sample_state /\ p = p1 ++ p2 /\
    get_holder_count 1 (sample_env 8) sample_state = Ok (Z.of_nat (length l)) sample_state /\
    get_holder_list_range 1 0 (Z.of_nat (length l)) (sample_env 8) sample_state = Ok l sample_state /\
    (0 < balance sample_state 1 (Addr 3) -> Addr 3 ∈ l).
Proof.
  exact (holder_pages_complete 4 sample_state (sample_env 8) 1 0 1 5 (Addr 3) bond_sample_reachable
           ltac:(done) ltac:(by vm_compute) ltac:(done) ltac:(done) ltac:(done)).
Defined.

(** The holder list can name an address twice, and [get_holder_count] then counts it
    twice: investor 2 sells everything to 3 and buys some of it back. *)
Theorem holder_list_duplicates :
  exists n s, reachable n s /\ holders_of s 1 = [Addr 2; Addr 3; Addr 2] /\
    get_holder_count 1 (sample_env 9) s = Ok 3 s.
Proof.
  exists 5, (run_calls exec [(sample_env 8, CTransfer (Addr 3) (Addr 2) 1 100 1)] sample_state).
  split; [|split; by vm_compute].
  apply (reach_run_calls deployed exec [_] 4), bond_sample_reachable.
Qed.
