(* ===== verification/BondLedger.v ===== *)
(** * The bond ledger: what BondIssuer promises, and that it keeps it

    The abstract machine of [bond-issuer]: an administrator, the bonds in order of
    issuance, a balance for every bond and holder, a nonce for every signer.  Holder
    lists, indexes, lifetimes and counters are not part of the promise. *)

From S2P Require Import Prelude Host Shared BondIssuer Spec.
Open Scope spec_scope.

(** ** The machine *)

Record Bond := mkBond {
  bd_config : BondConfig;
  bd_sold : Z;
  bd_status : BondStatus.BondStatus;
  bd_since : Z;
}.

Record Ledger := mkLedger {
  lg_admin : Address;
  lg_bonds : list Bond;                 (* bond 1 first *)
  lg_balance : Z -> Address -> Z;
  lg_nonce : Address -> Z;
}.

Definition fresh_ledger (admin : Address) : Ledger := mkLedger admin [] (fun _ _ => 0) (fun _ => 0).

Definition bond_at (b : Z) (l : Ledger) : option Bond := numbered b (lg_bonds l).

(** Changes of the ledger. *)
Definition spend_nonce (a : Address) (l : Ledger) : Ledger :=
  mkLedger (lg_admin l) (lg_bonds l) (lg_balance l) (next_nonce (lg_nonce l) a).
Definition add_bond (d : Bond) (l : Ledger) : Ledger :=
  mkLedger (lg_admin l) (lg_bonds l ++ [d]) (lg_balance l) (lg_nonce l).
Definition set_bond (b : Z) (d : Bond) (l : Ledger) : Ledger :=
  mkLedger (lg_admin l) (renumber b d (lg_bonds l)) (lg_balance l) (lg_nonce l).
Definition move (b : Z) (a : Address) (v : Z) (l : Ledger) : Ledger :=
  mkLedger (lg_admin l) (lg_bonds l)
    (fun b' a' => if decide ((b, a) = (b', a')) then lg_balance l b a + v else lg_balance l b' a') (lg_nonce l).

Local Abbreviation result := (outcome Ledger BondError.BondError).

Local Abbreviation signed := (by_signer lg_nonce spend_nonce BondError.InvalidNonce).

Definition issue_spec (now : Z) (a : Address) (c : BondConfig) (l : Ledger) : result :=
  require bool_decide (a = lg_admin l) else BondError.Unauthorized ;;
  require 0 <? bc_face_value c else BondError.ZeroAmount ;;
  require 0 <? bc_total_supply c else BondError.ZeroAmount ;;
  require now <? bc_maturity_date c else BondError.MaturityDateInPast ;;
  require bool_decide (bc_coupon_schedule c <> []) else BondError.ZeroAmount ;;
  require forallb (fun d => d <? bc_maturity_date c) (bc_coupon_schedule c) else BondError.ZeroAmount ;;
  Done (add_bond (mkBond c 0 BondStatus.Active now) l).

(** A bond that can still be bought or passed on. *)
Definition open_bond (now b : Z) (l : Ledger) (k : Bond -> result) : result :=
  find d := bond_at b l else BondError.BondNotFound ;;
  require bool_decide (bd_status d = BondStatus.Active) else BondError.BondAlreadyMatured ;;
  require now <? bc_maturity_date (bd_config d) else BondError.BondAlreadyMatured ;;
  k d.

Definition subscribe_spec (now : Z) (a : Address) (b v : Z) (l : Ledger) : result :=
  require 0 <? v else BondError.ZeroAmount ;;
  open_bond now b l (fun d =>
  require bd_sold d + v <=? int_hi I128 else BondError.Overflow ;;
  require bd_sold d + v <=? bc_total_supply (bd_config d) else BondError.InsufficientSupply ;;
  Done (move b a v (set_bond b (mkBond (bd_config d) (bd_sold d + v) (bd_status d) (bd_since d)) l))).

Definition transfer_spec (now : Z) (from to : Address) (b v : Z) (l : Ledger) : result :=
  require bool_decide (to <> from) else BondError.Unauthorized ;;
  require 0 <? v else BondError.ZeroAmount ;;
  open_bond now b l (fun _ =>
  require v <=? lg_balance l b from else BondError.InsufficientBalance ;;
  Done (move b to v (move b from (- v) l))).

Definition redeem_spec (a : Address) (b v : Z) (l : Ledger) : result :=
  require 0 <? v else BondError.ZeroAmount ;;
  find d := bond_at b l else BondError.BondNotFound ;;
  require bool_decide (bd_status d = BondStatus.Matured) else BondError.BondAlreadyMatured ;;
  require v <=? lg_balance l b a else BondError.InsufficientBalance ;;
  Done (move b a (- v) (set_bond b (mkBond (bd_config d) (bd_sold d - v) (bd_status d) (bd_since d)) l)).

Definition mature_spec (now : Z) (a : Address) (b : Z) (l : Ledger) : result :=
  require bool_decide (a = lg_admin l) else BondError.Unauthorized ;;
  find d := bond_at b l else BondError.BondNotFound ;;
  require bool_decide (bd_status d = BondStatus.Active) else BondError.BondAlreadyMatured ;;
  require bc_maturity_date (bd_config d) <=? now else BondError.NotYetMature ;;
  Done (set_bond b (mkBond (bd_config d) (bd_sold d) BondStatus.Matured (bd_since d)) l).

(** Reading finds the bond, or says that there is none. *)
Definition read_spec (b : Z) (l : Ledger) : result :=
  find _d := bond_at b l else BondError.BondNotFound ;; Done l.

Definition ledger_spec (e : Env) (c : Call) (l : Ledger) : result :=
  match c with
  | CIssueBond a config n => signed e a n l (issue_spec (timestamp e) a config)
  | CSubscribe a b v n => signed e a n l (subscribe_spec (timestamp e) a b v)
  | CTransfer from to b v n => signed e from n l (transfer_spec (timestamp e) from to b v)
  | CRedeem a b v n => signed e a n l (redeem_spec a b v)
  | CMatureBond a b n => signed e a n l (mature_spec (timestamp e) a b)
  | CGetBond b | CGetBondState b | CTotalSupply b | CTotalSubscribed b => read_spec b l
  | CGetAllBondIds | CGetBondIdsRange _ _ => Done l
  end.

(** ** The relation *)

Definition stored_state (d : Bond) : BondState := mkBondState (bd_sold d) (bd_status d) (bd_since d).

Record implements (s : state) (l : Ledger) : Prop := {
  im_admin : sget DataKey.Admin (inst s) = Some (lg_admin l);
  im_count : count_of s = Z.of_nat (length (lg_bonds l));
  im_config b : config_of s b = bd_config <$> bond_at b l;
  im_state b : state_of s b = stored_state <$> bond_at b l;
  im_balance b a : balance s b a = lg_balance l b a;
  im_nonce a : nonce_of s a = lg_nonce l a;
}.

(** The relation only reads the two stores. *)
Lemma implements_same s t l : inst t = inst s -> pers t = pers s -> implements s l -> implements t l.
Proof. intros Hi Hp []. split; views; rewrite ?Hi, ?Hp; auto. Qed.

Lemma implements_writes m s t l :
  inst t = inst s -> pers t = m -> implements (with_pers m s) l -> implements t l.
Proof. intros Hi Hp. by apply implements_same. Qed.

(** ** What each write means *)

Lemma implements_nonce s t l a k :
  implements s l -> inst t = inst s -> pers t = sset (DataKey.Nonce a) k (pers s) ->
  k = lg_nonce l a + 1 -> implements t (spend_nonce a l).
Proof.
  intros [] Hi Hp ->. split; views; simpl; rewrite ?Hi, ?Hp; intros; bond_simp; auto.
  unfold next_nonce. store_case; [by rewrite decide_True|]. rewrite decide_False by congruence. auto.
Qed.

Lemma implements_move m s l b a v w :
  implements (with_pers m s) l -> w = lg_balance l b a + v ->
  implements (with_pers (sset (DataKey.HolderBalance b a) w m) s) (move b a v l).
Proof.
  intros [? ? ? ? Hb ?] ->. split; views; host_cbn; simpl; intros; bond_simp; auto.
  store_case; [by rewrite decide_True|]. rewrite decide_False by congruence. auto.
Qed.

(** A balance and a bond are different things. *)
Lemma move_set_bond b a v b' d l : move b a v (set_bond b' d l) = set_bond b' d (move b a v l).
Proof. done. Qed.

Lemma implements_append m s l old b a :
  implements (with_pers m s) l -> implements (with_pers (append_if_new old b a m) s) l.
Proof. intros []. split; views; host_cbn; intros; bond_simp; auto. Qed.

Lemma bond_at_set b b' d l :
  is_Some (bond_at b l) -> bond_at b' (set_bond b d l) = if decide (b = b') then Some d else bond_at b' l.
Proof. apply numbered_renumber. Qed.

Lemma implements_set m s l b d st :
  implements (with_pers m s) l -> bond_at b l = Some d ->
  implements (with_pers (sset (DataKey.BondState b) st m) s)
    (set_bond b (mkBond (bd_config d) (bs_total_subscribed st) (bs_status st) (bs_created_at st)) l).
Proof.
  intros [? ? Hc Hst ? ?] Hd.
  split; views; host_cbn; intros; bond_simp; rewrite ?bond_at_set by eauto; auto.
  - by rewrite length_renumber.
  - rewrite Hc. case_decide; [|done]. subst. by rewrite Hd.
  - store_case; [by rewrite decide_True by done; destruct st|]. rewrite decide_False by congruence. auto.
Qed.

Lemma bond_at_add b d l :
  bond_at b (add_bond d l) = if decide (b = Z.of_nat (length (lg_bonds l)) + 1) then Some d else bond_at b l.
Proof. apply numbered_snoc. Qed.

Lemma implements_add s t l d :
  implements s l -> inst t = sset DataKey.BondCount (count_of s + 1) (inst s) ->
  pers t = sset DataKey.BondList (default [] (sget DataKey.BondList (pers s)) ++ [count_of s + 1])
             (sset (DataKey.HolderCount (count_of s + 1)) 0
                (sset (DataKey.HolderList (count_of s + 1)) []
                   (sset (DataKey.BondState (count_of s + 1)) (stored_state d)
                      (sset (DataKey.BondConfig (count_of s + 1)) (bd_config d) (pers s))))) ->
  implements t (add_bond d l).
Proof.
  intros [Ha Hn Hc Hst ? ?] Hi Hp.
  split; rewrite ?bond_at_add; views; rewrite ?Hi, ?Hp; intros; rewrite ?bond_at_add; bond_simp; auto.
  1: rewrite Hn, length_app; simpl; lia.
  all: rewrite Hn; store_case; [by rewrite decide_True|]; rewrite decide_False by congruence; bond_simp; auto.
Qed.


(** Spending a nonce keeps the invariant. *)
Lemma bond_inv_nonce n s t a next :
  n + 1 < 2 ^ 64 -> inv n s -> next = nonce_of s a + 1 ->
  inst t = inst s -> pers t = sset (DataKey.Nonce a) next (pers s) -> inv (n + 1) t.
Proof.
  intros Hn Hinv Hk Hi Hp.
  pose proof (fun a' => bond_nonce_step n s a (nonce_of s a) next a' Hn Hinv eq_refl (fun _ => Hk)) as Hno.
  destruct Hinv as [Hc Hcf Hst Hb Hs Hh Hhc Hbl _].
  split; inv_views; rewrite ?Hi, ?Hp; intros; bond_simp; eauto; lia.
Qed.

Lemma extend_bond_list_ttl_total e s : only_live extend_bond_list_ttl e s.
Proof. apply only_live_bump. Qed.

(** ** Handler by handler *)

Section handlers.
Context (n : Z) (e : Env) (Hn : n + 1 < 2 ^ 64).

(** What the state after the prologue is good for. *)
Local Abbreviation good s l := (inv (n + 1) s /\ count_of s <= n /\ implements s l).

Lemma signed_meets {A} a k s l (rest : unit -> M A) o :
  inv n s -> implements s l ->
  (forall s1, good s1 (spend_nonce a l) -> meets implements (rest tt e s1) (o (spend_nonce a l))) ->
  meets implements (bind (require_auth a) (fun _ => bind (consume_nonce a k) rest) e s) (signed e a k l o).
Proof.
  intros Hinv Hl Hrest. unfold by_signer. destruct (is_authorized e a) eqn:Ha; [|by run]. run.
  rewrite <- (im_nonce s l Hl a). unfold check. destruct (k =? nonce_of s a) eqn:Hk.
  - apply Z.eqb_eq in Hk. destruct (consume_nonce_total a k e s Hk) as [lv Hlv].
    { rewrite Hk. by apply (nonce_in_range n). }
    rewrite (bind_run _ _ _ _ _ _ Hlv). apply Hrest. split_and!.
    + by apply (bond_inv_nonce n s _ a (k + 1)); subst.
    + apply (inv_count n s Hinv).
    + apply (implements_nonce s _ l a (k + 1)); [done..|]. by rewrite Hk, (im_nonce s l Hl).
  - destruct (consume_nonce_fails a k e s) as [s1 Hs1]; [by rewrite Hk|].
    by rewrite (bind_err _ _ _ _ _ _ Hs1).
Qed.

Lemma admin_meets {A} a s l (rest : unit -> M A) o :
  implements s l -> meets implements (rest tt e s) o ->
  meets implements (bind (require_admin a) rest e s)
    (check (bool_decide (a = lg_admin l)) BondError.Unauthorized o).
Proof.
  intros Hl Hrest. unfold require_admin. pose proof (im_admin s l Hl). run.
  apply meets_guard; [|auto]. case_bool_decide; case_bool_decide; naive_solver.
Qed.

Lemma load_meets {A} b s l (rest : BondConfig * BondState -> M A) o :
  good s l ->
  (forall d s1, good s1 l -> bond_at b l = Some d -> config_of s1 b = Some (bd_config d) ->
     state_of s1 b = Some (stored_state d) ->
     meets implements (rest (bd_config d, stored_state d) e s1) (o d)) ->
  meets implements (bind (load_bond b) rest e s) (found (bond_at b l) BondError.BondNotFound o).
Proof.
  intros (Hinv & Hcn & Hl) Hrest. pose proof (im_config s l Hl b) as Hc. pose proof (im_state s l Hl b) as Hs.
  destruct (bond_at b l) as [d|] eqn:Hd; simpl in *.
  - destruct (load_bond_total b e s _ _ Hc Hs) as [lv Hlv]. rewrite (bind_run _ _ _ _ _ _ Hlv).
    apply Hrest; [split_and!|done..]; [by apply (bond_inv_same _ s)|done|by apply (implements_same s)].
  - destruct (load_bond_fails b e s) as [s1 Hs1]; [by left|]. by rewrite (bind_err _ _ _ _ _ _ Hs1).
Qed.

(** A bond that still trades: loading, the status and the clock. *)
Lemma open_meets {A} b s l (rest : BondConfig -> BondState -> M A) o :
  good s l ->
  (forall d s1, good s1 l -> bond_at b l = Some d -> config_of s1 b = Some (bd_config d) ->
     state_of s1 b = Some (stored_state d) ->
     meets implements (rest (bd_config d) (stored_state d) e s1) (o d)) ->
  meets implements
    (bind (load_bond b) (fun '(c, st) =>
       bind (fail_if (bool_decide (bs_status st <> BondStatus.Active)) BondError.BondAlreadyMatured) (fun _ =>
       bind ledger_timestamp (fun now =>
       bind (fail_if (bc_maturity_date c <=? now) BondError.BondAlreadyMatured) (fun _ => rest c st)))) e s)
    (open_bond (timestamp e) b l o).
Proof.
  intros Hg Hrest. apply load_meets; [done|]. intros d s1 Hg1 Hd Hc Hs.
  apply meets_guard; [by case_bool_decide; case_bool_decide|]. intros _. run.
  apply meets_guard; [by rewrite Z.leb_antisym|]. eauto.
Qed.

(** A guard and the precondition it implements. *)
Local Ltac precond :=
  rewrite ?bind_assoc_run; run;
  first [apply meets_guard | apply meets_guards];
  [first [intros ?; apply Z.leb_antisym | apply Z.leb_antisym | apply Z.ltb_antisym
         | by match goal with |- (length ?l =? 0)%nat = _ => destruct l end
         | by repeat case_bool_decide; try case_match; simplify_eq] | intros ?].

(** From the state a handler ends in to the writes it made from [s]. *)
Local Ltac land s := eapply (implements_writes _ s); [reflexivity|host_cbn; reflexivity|].

(** Calls that succeed whenever the bond exists. *)
Local Ltac known := views; host_simp; bond_simp; eauto.
Local Ltac refresh :=
  lazymatch goal with
  | |- meets _ (bind (extend_bond_ttl ?b ?d) _ _ ?t) _ =>
      let lv := fresh "lv" in let Hlv := fresh "Hlv" in
      destruct (extend_bond_ttl_total b d e t) as [lv Hlv]; [known|known|]; rewrite (bind_run _ _ _ _ _ _ Hlv)
  | |- meets _ (bind (when (?old =? 0) (append_holder ?b ?d ?a)) _ _ ?t) _ =>
      let lv := fresh "lv" in let Hlv := fresh "Hlv" in
      destruct (when_append_total old b d a e t) as [lv Hlv]; [known|known|]; rewrite (bind_run _ _ _ _ _ _ Hlv)
  end; run.

Lemma issue_meets a c k s l :
  inv n s -> implements s l ->
  meets implements (issue_bond a c k e s) (signed e a k l (issue_spec (timestamp e) a c)).
Proof.
  intros Hinv Hl. apply signed_meets; [done..|]. intros s1 (Hinv1 & Hcn & Hl1).
  apply admin_meets; [done|]. unfold validate_config. repeat precond.
  assert (Hid : in_range U64 (count_of s1 + 1) = true).
  { pose proof (inv_count _ s1 Hinv1). apply in_range_spec; simpl; lia. }
  run. fold (count_of s1). rewrite (bind_run _ _ _ _ _ _ (arith_run _ _ _ _ Hid)). run.
  refresh.
  edestruct (extend_bond_list_ttl_total e) as [lv2 Hlv2].
  rewrite (bind_run _ _ _ _ _ _ Hlv2). run.
  apply (implements_add s1 _ _ (mkBond c 0 BondStatus.Active (timestamp e))); [done|by host_simp..].
Qed.

Lemma subscribe_meets a b v k s l :
  inv n s -> implements s l ->
  meets implements (subscribe a b v k e s) (signed e a k l (subscribe_spec (timestamp e) a b v)).
Proof.
  intros Hinv Hl. apply signed_meets; [done..|]. intros s1 Hg. precond.
  apply open_meets; [done|]. intros d s2 (Hinv2 & _ & Hl2) Hd Hc Hs.
  pose proof (balance_nonneg _ s2 b a Hinv2). pose proof (balance_le_supply _ s2 b a Hinv2).
  destruct (inv_supply _ s2 Hinv2 b _ _ Hc Hs) as (Hsum & _ & Hhi). guards. cbn in Hsum, Hhi.
  apply meets_checked; [cbn; lia|]. intros Hov. cbn in Hov. precond.
  cbv zeta. fold (balance s2 b a).
  assert (Hbal : checked I128 (balance s2 b a + v) = Some (balance s2 b a + v)).
  { apply checked_in, in_range_spec. cbn. lia. }
  run. refresh. refresh. cbn.
  land s2. rewrite move_set_bond. apply (implements_set _ _ _ _ d (mkBondState _ _ _)); [|done].
  apply implements_append, implements_move; [|by rewrite (im_balance _ _ Hl2)].
  by apply (implements_same s2).
Qed.

Lemma transfer_meets a b to v k s l :
  inv n s -> implements s l ->
  meets implements (transfer a to b v k e s) (signed e a k l (transfer_spec (timestamp e) a to b v)).
Proof.
  intros Hinv Hl. apply signed_meets; [done..|]. intros s1 Hg. precond. precond.
  apply open_meets; [done|]. intros d s2 (Hinv2 & _ & Hl2) Hd Hc Hs. run. cbv zeta. fold (balance s2 b a).
  rewrite <- (im_balance _ _ Hl2). precond. guards.
  destruct (transfer_no_overflow _ s2 b a to v _ _ Hinv2 ltac:(auto) Hc Hs) as [Hsub Hadd]; [lia..|].
  run. host_cbn. rewrite sget_sset_ne by congruence. fold (balance s2 b to). run. refresh. cbn.
  land s2. apply implements_append, implements_move; [apply implements_move|].
  - by apply (implements_same s2).
  - by rewrite (im_balance _ _ Hl2).
  - rewrite (im_balance _ _ Hl2). simpl. by rewrite decide_False by congruence.
Qed.

Lemma redeem_meets a b v k s l :
  inv n s -> implements s l ->
  meets implements (redeem a b v k e s) (signed e a k l (redeem_spec a b v)).
Proof.
  intros Hinv Hl. apply signed_meets; [done..|]. intros s1 Hg. precond.
  apply load_meets; [done|]. intros d s2 (Hinv2 & _ & Hl2) Hd Hc Hs. precond. run. cbv zeta.
  fold (balance s2 b a). rewrite <- (im_balance _ _ Hl2). precond. guards.
  pose proof (balance_le_supply _ s2 b a Hinv2).
  destruct (inv_supply _ s2 Hinv2 b _ _ Hc Hs) as (Hsum & _ & Hhi). cbn in Hsum, Hhi.
  assert (Hbal : checked I128 (balance s2 b a - v) = Some (balance s2 b a - v)).
  { apply checked_in, in_range_spec. cbn. lia. }
  assert (Hsold : checked I128 (bs_total_subscribed (stored_state d) - v) = Some (bd_sold d - v)).
  { apply checked_in, in_range_spec. cbn. lia. }
  run. refresh. cbn.
  land s2. rewrite move_set_bond. apply (implements_set _ _ _ _ d (mkBondState _ _ _)); [|done].
  apply implements_move; [|by rewrite (im_balance _ _ Hl2)]. by apply (implements_same s2).
Qed.

Lemma mature_meets a b k s l :
  inv n s -> implements s l ->
  meets implements (mature_bond a b k e s) (signed e a k l (mature_spec (timestamp e) a b)).
Proof.
  intros Hinv Hl. apply signed_meets; [done..|]. intros s1 (Hinv1 & Hcn & Hl1).
  apply admin_meets; [done|]. apply load_meets; [done|]. intros d s2 (Hinv2 & _ & Hl2) Hd Hc Hs.
  precond. run. precond. run. refresh. cbn.
  land s2. apply (implements_set _ _ _ _ d (mkBondState _ _ _)); [|done]. by apply (implements_same s2).
Qed.

(** Getters that look a bond up. *)
Lemma read_config_meets {A} b s l (f : BondConfig -> A) :
  implements s l ->
  meets implements
    ((let* c := pget (DataKey.BondConfig b) in
      let* config := ok_or c BondError.BondNotFound in
      extend_bond_ttl b (bc_maturity_date config) ;;
      ret (f config)) e s)%contract (read_spec b l).
Proof.
  intros Hl. pose proof (im_config s l Hl b) as Hc. pose proof (im_state s l Hl b) as Hs. views.
  unfold read_spec. destruct (bond_at b l) as [d|]; simpl in *; run; [|done].
  destruct (extend_bond_ttl_total b (bc_maturity_date (bd_config d)) e s) as [lv Hlv]; [by eexists..|].
  rewrite (bind_run _ _ _ _ _ _ Hlv). by apply (implements_same s).
Qed.

Lemma read_state_meets {A} b s l (k : BondConfig * BondState -> M A) (f : BondState -> A) :
  implements s l -> (forall c st, k (c, st) = ret (f st)) ->
  meets implements (bind (load_bond b) k e s) (read_spec b l).
Proof.
  intros Hl Hk. pose proof (im_config s l Hl b) as Hc. pose proof (im_state s l Hl b) as Hs.
  unfold read_spec. destruct (bond_at b l) as [d|]; simpl in *.
  - destruct (load_bond_total b e s _ _ Hc Hs) as [lv Hlv]. rewrite (bind_run _ _ _ _ _ _ Hlv), Hk.
    by apply (implements_same s).
  - destruct (load_bond_fails b e s) as [s1 Hs1]; [by left|]. by rewrite (bind_err _ _ _ _ _ _ Hs1).
Qed.

Lemma read_list_meets {A} s l (f : option (list Z) -> A) :
  implements s l ->
  meets implements ((let* o := pget DataKey.BondList in extend_bond_list_ttl ;; ret (f o)) e s)%contract (Done l).
Proof.
  intros Hl. run. destruct (extend_bond_list_ttl_total e s) as [lv Hlv].
  rewrite (bind_run _ _ _ _ _ _ Hlv). by apply (implements_same s).
Qed.
End handlers.

(** ** The contract implements the machine *)

#[export] Instance issuer_implements : Implements implements inv exec ledger_spec.
Proof.
  split; [exact bond_inv_exec|exact bond_inv_mono|].
  intros n e c s l Hinv Hn Hl. destruct c; cbn [exec ledger_spec]; try apply meets_drop.
  - by apply (issue_meets n).
  - by apply (subscribe_meets n).
  - by apply (transfer_meets n).
  - by apply (redeem_meets n).
  - by apply (mature_meets n).
  - by apply (read_config_meets _ _ _ _ (fun c => c)).
  - by apply (read_state_meets _ _ _ _ _ (fun st => st)).
  - by apply (read_config_meets _ _ _ _ bc_total_supply).
  - by apply (read_state_meets _ _ _ _ _ bs_total_subscribed).
  - by apply (read_list_meets _ _ _ (default [])).
  - by apply (read_list_meets _ _ _ (fun o => vec_range (default [] o) start count)).
Qed.


(** Bond 1 of the sample execution on the ledger: 900 sold, all of it held by 3, and an
    offer of more than the rest refused. *)
Example sample_ledger :
  let l := spec_calls ledger_spec sample_calls (fresh_ledger (Addr 1)) in
  (bd_sold <$> bond_at 1 l, lg_balance l 1 (Addr 3), lg_nonce l (Addr 2)) = (Some 900, 900, 2) /\
  ledger_spec (sample_env 8) (CSubscribe (Addr 2) 1 101 2) l = Refused BondError.InsufficientSupply.
Proof. vm_compute. done. Qed.

