(* ===== verification/CouponEngine.v ===== *)
(** * CouponEngine: batched distribution of ecological credits, claims and sweeps

    Model of [src/contracts/coupon-engine/src/lib.rs].  Bonds, reports and
    projects are read through the interfaces of [Interfaces.v]. *)

From S2P Require Import Prelude Host Shared Interfaces.

(** ** Storage and events *)

Definition FIXED_POINT : Z := 10000000.
Definition CREDIT_DIVISOR : Z := 1000.
Definition HABITAT_CREDIT_RATE : Z := 1000000.
Definition SPECIES_CREDIT_RATE : Z := 100000.
Definition UNIT_CREDIT_RATE : Z := 1000000.
Definition LEDGERS_PER_DAY : Z := 17280.
Definition PERSISTENT_TTL_THRESHOLD : Z := LEDGERS_PER_DAY * 30.
Definition PERSISTENT_TTL_EXTEND_TO : Z := LEDGERS_PER_DAY * 120.

Module DataKey.
Inductive DataKey :=
| Admin
| PeriodInfo (bond_id : Z) (period_index : Z)
| PeriodCount (bond_id : Z)
| AccruedCredits (bond_id : Z) (holder : Address)
| AccruedCreditsByType (bond_id : Z) (holder : Address) (t : CreditType.CreditType)
| BondProject (bond_id : Z)
| BondCreditType (bond_id : Z)
| UndistributedTotal (bond_id : Z)
| UndistributedByType (bond_id : Z) (t : CreditType.CreditType)
| Precision
| BondIssuerAddress
| OracleConsumerAddress
| ProjectRegistryAddress
| Nonce (addr : Address)
| DeductCaller
| BatchState (bond_id : Z) (period_index : Z)
| DistributionBalance (bond_id : Z) (period_index : Z)
| HolderDistributed (bond_id : Z) (period_index : Z) (holder : Address).
End DataKey.
Abbreviation DataKey := DataKey.DataKey.

#[export] Instance DataKey_eq_dec : EqDecision DataKey.
Proof. solve_decision. Defined.

#[export] Instance DataKey_countable : Countable DataKey.
Proof.
  refine (inj_countable'
    (fun k => match k with
      | DataKey.Admin => (0%N, 0, 0, Addr 0, CreditType.Carbon)
      | DataKey.PeriodInfo b p => (1%N, b, p, Addr 0, CreditType.Carbon)
      | DataKey.PeriodCount b => (2%N, b, 0, Addr 0, CreditType.Carbon)
      | DataKey.AccruedCredits b h => (3%N, b, 0, h, CreditType.Carbon)
      | DataKey.AccruedCreditsByType b h t => (4%N, b, 0, h, t)
      | DataKey.BondProject b => (5%N, b, 0, Addr 0, CreditType.Carbon)
      | DataKey.BondCreditType b => (6%N, b, 0, Addr 0, CreditType.Carbon)
      | DataKey.UndistributedTotal b => (7%N, b, 0, Addr 0, CreditType.Carbon)
      | DataKey.UndistributedByType b t => (8%N, b, 0, Addr 0, t)
      | DataKey.Precision => (9%N, 0, 0, Addr 0, CreditType.Carbon)
      | DataKey.BondIssuerAddress => (10%N, 0, 0, Addr 0, CreditType.Carbon)
      | DataKey.OracleConsumerAddress => (11%N, 0, 0, Addr 0, CreditType.Carbon)
      | DataKey.ProjectRegistryAddress => (12%N, 0, 0, Addr 0, CreditType.Carbon)
      | DataKey.Nonce a => (13%N, 0, 0, a, CreditType.Carbon)
      | DataKey.DeductCaller => (14%N, 0, 0, Addr 0, CreditType.Carbon)
      | DataKey.BatchState b p => (15%N, b, p, Addr 0, CreditType.Carbon)
      | DataKey.DistributionBalance b p => (16%N, b, p, Addr 0, CreditType.Carbon)
      | DataKey.HolderDistributed b p h => (17%N, b, p, h, CreditType.Carbon)
      end)
    (fun x => match x with
      | (0%N, _, _, _, _) => DataKey.Admin
      | (1%N, b, p, _, _) => DataKey.PeriodInfo b p
      | (2%N, b, _, _, _) => DataKey.PeriodCount b
      | (3%N, b, _, h, _) => DataKey.AccruedCredits b h
      | (4%N, b, _, h, t) => DataKey.AccruedCreditsByType b h t
      | (5%N, b, _, _, _) => DataKey.BondProject b
      | (6%N, b, _, _, _) => DataKey.BondCreditType b
      | (7%N, b, _, _, _) => DataKey.UndistributedTotal b
      | (8%N, b, _, _, t) => DataKey.UndistributedByType b t
      | (9%N, _, _, _, _) => DataKey.Precision
      | (10%N, _, _, _, _) => DataKey.BondIssuerAddress
      | (11%N, _, _, _, _) => DataKey.OracleConsumerAddress
      | (12%N, _, _, _, _) => DataKey.ProjectRegistryAddress
      | (13%N, _, _, a, _) => DataKey.Nonce a
      | (14%N, _, _, _, _) => DataKey.DeductCaller
      | (15%N, b, p, _, _) => DataKey.BatchState b p
      | (16%N, b, p, _, _) => DataKey.DistributionBalance b p
      | (_, b, p, h, _) => DataKey.HolderDistributed b p h
      end) _).
  by intros [].
Defined.

Record BatchState := mkBatchState {
  ba_report_id : Z;
  ba_distributed_so_far : Z;
  ba_carbon_distributed_so_far : Z;
  ba_bio_distributed_so_far : Z;
  ba_holder_count_so_far : Z;
  ba_total_credits : Z;
  ba_carbon_total : Z;
  ba_biodiversity_total : Z;
  ba_credits_per_token : Z;
  ba_carbon_per_token : Z;
  ba_biodiversity_per_token : Z;
}.

Record CouponResult := mkCouponResult {
  cr_bond_id : Z;
  cr_period_index : Z;
  cr_total_credits : Z;
  cr_holder_count : Z;
  cr_credits_per_token : Z;
}.

Record SweepReceipt := mkSweepReceipt {
  sr_bond_id : Z;
  sr_destination : Address;
  sr_amount : Z;
  sr_carbon_amount : Z;
  sr_biodiversity_amount : Z;
}.

Definition ty (k : DataKey) : Type :=
  match k with
  | DataKey.Admin | DataKey.BondIssuerAddress | DataKey.OracleConsumerAddress
  | DataKey.ProjectRegistryAddress | DataKey.DeductCaller => Address
  | DataKey.PeriodInfo _ _ => PeriodInfo
  | DataKey.PeriodCount _ => Z
  | DataKey.AccruedCredits _ _ => Z
  | DataKey.AccruedCreditsByType _ _ _ => Z
  | DataKey.BondProject _ => BytesN
  | DataKey.BondCreditType _ => CreditType.CreditType
  | DataKey.UndistributedTotal _ => Z
  | DataKey.UndistributedByType _ _ => Z
  | DataKey.Precision => Z
  | DataKey.Nonce _ => Z
  | DataKey.BatchState _ _ => BatchState
  | DataKey.DistributionBalance _ _ => Z * Z
  | DataKey.HolderDistributed _ _ _ => bool
  end.

Inductive Event :=
| bond_registered (bond_id : Z) (project_id : BytesN)
| coupon_distributed (bond_id period_index total_distributed holder_count : Z)
| credits_claimed_basket (bond_id : Z) (caller : Address) (carbon_amt bio_amt : Z)
| credits_claimed (bond_id : Z) (caller : Address) (accrued : Z)
| undistributed_swept (bond_id : Z) (destination : Address) (combined carbon biodiversity : Z)
| credits_deducted (bond_id : Z) (holder : Address) (amount : Z) (t : CreditType.CreditType).

(** The bucket a credit type is kept in: BlueCarbon shares Carbon's. *)
Definition storage_type (t : CreditType.CreditType) : CreditType.CreditType :=
  match t with CreditType.BlueCarbon => CreditType.Carbon | other => other end.

(** Rust's [/] on signed integers truncates towards zero. *)
Definition compute_biodiversity_credits (metrics : BiodiversityMetrics) : Z :=
  match metrics with
  | Absent => 0
  | Present (habitat, species, units) =>
      Z.quot
        (saturating I128
          (saturating I128
             (saturating I128 (habitat * HABITAT_CREDIT_RATE) +
              saturating I128 (species * SPECIES_CREDIT_RATE)) +
           saturating I128 (units * UNIT_CREDIT_RATE)))
        HABITAT_CREDIT_RATE
  end.

(** ** What a report is worth

    The specification, in whole numbers and without the code's fixed point: a credit per
    thousand units of carbon; a credit per hectare of habitat, one per ten individuals
    counted and one per biodiversity unit, up to what a scaled [i128] can hold. *)

Definition carbon_worth (rep : Report) : Z := rp_carbon_sequestered rep / 1000.

Definition biodiversity_worth (metrics : BiodiversityMetrics) : Z :=
  match metrics with
  | Absent => 0
  | Present (habitat, species, units) => Z.min ((2 ^ 127 - 1) / 1000000) (habitat + species / 10 + units)
  end.

(** For a bond of type [t], by side. *)
Definition worth (t : CreditType.CreditType) (rep : Report) : Z * Z :=
  match t with
  | CreditType.Carbon | CreditType.BlueCarbon => (carbon_worth rep, 0)
  | CreditType.Biodiversity => (0, biodiversity_worth (rp_biodiversity rep))
  | CreditType.Basket => (carbon_worth rep, biodiversity_worth (rp_biodiversity rep))
  end.

(** The saturating arithmetic of the code computes that worth. *)
Lemma compute_biodiversity_worth metrics :
  match metrics with Absent => True | Present (habitat, species, units) => 0 <= habitat /\ 0 <= species /\ 0 <= units end ->
  compute_biodiversity_credits metrics = biodiversity_worth metrics.
Proof.
  destruct metrics as [|[[h sp] u]]; [done|]. intros (Hh&Hs&Hu). unfold compute_biodiversity_credits, biodiversity_worth.
  unfold HABITAT_CREDIT_RATE, SPECIES_CREDIT_RATE, UNIT_CREDIT_RATE.
  replace (saturating I128 _) with (Z.min (2 ^ 127 - 1) (h * 1000000 + sp * 100000 + u * 1000000))
    by (unfold saturating; cbn [int_lo int_hi]; lia).
  rewrite Z.quot_div_nonneg by lia. Z.div_mod_to_equations. lia.
Qed.

Section engine.
Context {W : Type} `{!World W} `{!BondReader W} `{!OracleReader W} `{!RegistryReader W}.
Local Abbreviation M := (contract DataKey ty CouponEngineError.CouponEngineError Event W).
Local Abbreviation state := (cstate DataKey ty Event W).

(** ** Helpers *)

Definition require_admin (caller : Address) : M unit :=
  let* o := iget DataKey.Admin in
  let* admin := ok_or o CouponEngineError.NotInitialized in
  fail_if (bool_decide (caller <> admin)) CouponEngineError.Unauthorized.

Definition extend_ttl (key : DataKey) : M unit :=
  pextend_ttl key PERSISTENT_TTL_THRESHOLD PERSISTENT_TTL_EXTEND_TO.

Definition write (key : DataKey) (value : ty key) : M unit :=
  pset key value ;;
  extend_ttl key.

Definition read_refresh_ttl (key : DataKey) : M (option (ty key)) :=
  let* value := pget key in
  when (bool_decide (is_Some value)) (extend_ttl key) ;;
  ret value.

Definition get_nonce (addr : Address) : M Z :=
  let* o := pget (DataKey.Nonce addr) in ret (default 0 o).

Definition set_nonce (addr : Address) (nonce : Z) : M unit := pset (DataKey.Nonce addr) nonce.

(** The prologue of the signed entrypoints. *)
Definition consume_nonce (caller : Address) (nonce : Z) : M unit :=
  let* expected_nonce := get_nonce caller in
  fail_if (negb (nonce =? expected_nonce)) CouponEngineError.InvalidNonce ;;
  let* next := arith U64 (expected_nonce + 1) in
  set_nonce caller next.

Definition accrue_credits (bond_id : Z) (holder : Address) (t : CreditType.CreditType) (amount : Z) : M unit :=
  let* o := pget (DataKey.AccruedCreditsByType bond_id holder t) in
  let* by_type := ok_or (checked I128 (default 0 o + amount)) CouponEngineError.Overflow in
  write (DataKey.AccruedCreditsByType bond_id holder t) by_type ;;
  let* c := pget (DataKey.AccruedCredits bond_id holder) in
  let* combined := ok_or (checked I128 (default 0 c + amount)) CouponEngineError.Overflow in
  write (DataKey.AccruedCredits bond_id holder) combined.

Definition clear_accrued (bond_id : Z) (holder : Address) (t : CreditType.CreditType) : M unit :=
  write (DataKey.AccruedCreditsByType bond_id holder t) 0.

Definition constructor (admin bond_issuer_address oracle_consumer_address project_registry_address : Address) :
    M unit :=
  iset DataKey.Admin admin ;;
  iset DataKey.BondIssuerAddress bond_issuer_address ;;
  iset DataKey.OracleConsumerAddress oracle_consumer_address ;;
  iset DataKey.ProjectRegistryAddress project_registry_address ;;
  iset DataKey.Precision FIXED_POINT.

Definition register_bond (caller : Address) (bond_id : Z) (project_id : BytesN) (nonce : Z) : M unit :=
  require_auth caller ;;
  consume_nonce caller nonce ;;
  require_admin caller ;;
  iset (DataKey.BondProject bond_id) project_id ;;
  let* i := iget DataKey.BondIssuerAddress in
  let* bond_issuer := ok_or i CouponEngineError.NotInitialized in
  let* config := invoke_contract bond_issuer (call_get_bond bond_issuer bond_id) in
  fail_if (bool_decide (bc_project_id config <> project_id)) CouponEngineError.BondNotFound ;;
  let* r := iget DataKey.ProjectRegistryAddress in
  let* project_registry := ok_or r CouponEngineError.NotInitialized in
  let* status := invoke_contract project_registry (call_status_by_hash project_registry project_id) in
  fail_if (bool_decide (status <> ProjectStatus.Approved)) CouponEngineError.ProjectNotApproved ;;
  iset (DataKey.BondCreditType bond_id) (bc_credit_type config) ;;
  publish (bond_registered bond_id project_id).

(** ** Distribution *)

Definition get_report (report_id : Z) : M Report :=
  let* o := iget DataKey.OracleConsumerAddress in
  let* oracle_consumer := ok_or o CouponEngineError.NotInitialized in
  invoke_contract oracle_consumer (call_get_report oracle_consumer report_id).

(** [if total_subscribed > 0 && total > 0 { total * FIXED_POINT / total_subscribed } else { 0 }] *)
Definition per_token (total total_subscribed : Z) : M Z :=
  if (0 <? total_subscribed) && (0 <? total) then
    let* scaled := arith I128 (total * FIXED_POINT) in
    ret (Z.quot scaled total_subscribed)
  else ret 0.

(** The credits a report is worth for a bond of type [t], split by side. *)
Definition report_totals (t : CreditType.CreditType) (report : Report) : M (Z * Z) :=
  let carbon_total := Z.quot (rp_carbon_sequestered report) CREDIT_DIVISOR in
  match t with
  | CreditType.Carbon | CreditType.BlueCarbon => ret (carbon_total, 0)
  | CreditType.Biodiversity =>
      match rp_biodiversity report with
      | Absent => throw CouponEngineError.InvalidReport
      | metrics => ret (0, compute_biodiversity_credits metrics)
      end
  | CreditType.Basket =>
      match rp_biodiversity report with
      | Absent => throw CouponEngineError.InvalidReport
      | metrics => ret (carbon_total, compute_biodiversity_credits metrics)
      end
  end.

(** The first batch of a period: validate the report and fix the rates. *)
Definition start_batch (bond_id period_index report_id : Z) (project_id : BytesN)
    (credit_type : CreditType.CreditType) : M (BatchState * Z * Z) :=
  let* report := get_report report_id in
  fail_if (bool_decide (rp_status report <> ReportStatus.Verified)) CouponEngineError.ReportNotVerified ;;
  fail_if (bool_decide (rp_project_metadata_hash report <> project_id)) CouponEngineError.BondNotFound ;;
  let* i := iget DataKey.BondIssuerAddress in
  let* bond_issuer := unwrap i in
  let* total_subscribed := invoke_contract bond_issuer (call_total_subscribed bond_issuer bond_id) in
  let* (carbon_total, biodiversity_total) := report_totals credit_type report in
  let* total_credits := ok_or (checked I128 (carbon_total + biodiversity_total)) CouponEngineError.Overflow in
  let* credits_per_token := per_token total_credits total_subscribed in
  let* carbon_per_token := per_token carbon_total total_subscribed in
  let* biodiversity_per_token := per_token biodiversity_total total_subscribed in
  let s := mkBatchState report_id 0 0 0 0 total_credits carbon_total biodiversity_total
             credits_per_token carbon_per_token biodiversity_per_token in
  write (DataKey.BatchState bond_id period_index) s ;;
  write (DataKey.DistributionBalance bond_id period_index) (total_subscribed, 0) ;;
  ret (s, total_subscribed, 0).

(** Resume a stored batch or start the period's first one:
    the state, [total_subscribed] and [processed_balance]. *)
Definition load_batch (bond_id period_index report_id : Z) (project_id : BytesN)
    (credit_type : CreditType.CreditType) : M (BatchState * Z * Z) :=
  let* o := pget (DataKey.BatchState bond_id period_index) in
  match o with
  | Some s =>
      fail_if (negb (ba_report_id s =? report_id)) CouponEngineError.InvalidReport ;;
      let* b := pget (DataKey.DistributionBalance bond_id period_index) in
      let* balance_state := ok_or b CouponEngineError.AccountingMismatch in
      extend_ttl (DataKey.BatchState bond_id period_index) ;;
      extend_ttl (DataKey.DistributionBalance bond_id period_index) ;;
      ret (s, balance_state.1, balance_state.2)
  | None => start_batch bond_id period_index report_id project_id credit_type
  end.

(** The loop's local variables. *)
Record Tally := mkTally {
  ta_processed : Z;     (* processed_balance *)
  ta_total : Z;         (* total_holder_credits *)
  ta_carbon : Z;        (* carbon_holder_credits *)
  ta_bio : Z;           (* biodiversity_holder_credits *)
  ta_count : Z;         (* holder_count *)
}.

(** [rate * balance / FIXED_POINT] *)
Definition share (rate balance : Z) : M Z :=
  let* scaled := arith I128 (rate * balance) in
  ret (Z.quot scaled FIXED_POINT).

(** Credit one side: add to the side's running sum and accrue. *)
Definition credit_side (bond_id : Z) (holder : Address) (t : CreditType.CreditType) (amount : Z)
    (acc : Tally) : M Tally :=
  match t with
  | CreditType.Biodiversity =>
      let* bio := ok_or (checked I128 (ta_bio acc + amount)) CouponEngineError.Overflow in
      accrue_credits bond_id holder CreditType.Biodiversity amount ;;
      ret (mkTally (ta_processed acc) (ta_total acc) (ta_carbon acc) bio (ta_count acc))
  | _ =>
      let* carbon := ok_or (checked I128 (ta_carbon acc + amount)) CouponEngineError.Overflow in
      accrue_credits bond_id holder CreditType.Carbon amount ;;
      ret (mkTally (ta_processed acc) (ta_total acc) carbon (ta_bio acc) (ta_count acc))
  end.

Definition add_total (amount : Z) (acc : Tally) : M Tally :=
  let* total := ok_or (checked I128 (ta_total acc + amount)) CouponEngineError.Overflow in
  ret (mkTally (ta_processed acc) total (ta_carbon acc) (ta_bio acc) (ta_count acc)).

(** [holder_count += 1] *)
Definition count_holder (acc : Tally) : M Tally :=
  let* count := arith U32 (ta_count acc + 1) in
  ret (mkTally (ta_processed acc) (ta_total acc) (ta_carbon acc) (ta_bio acc) count).

(** The arms of [match credit_type] in the loop. *)
Definition pay_single (bond_id : Z) (st : BatchState) (t : CreditType.CreditType)
    (holder : Address) (balance : Z) (acc : Tally) : M Tally :=
  let* holder_credits := share (ba_credits_per_token st) balance in
  if 0 <? holder_credits then
    let* acc1 := add_total holder_credits acc in
    let* acc2 := credit_side bond_id holder t holder_credits acc1 in
    count_holder acc2
  else ret acc.

Definition pay_basket (bond_id : Z) (st : BatchState) (holder : Address) (balance : Z) (acc : Tally) : M Tally :=
  let* carbon_holder := share (ba_carbon_per_token st) balance in
  let* biodiversity_holder := share (ba_biodiversity_per_token st) balance in
  let* holder_credits := ok_or (checked I128 (carbon_holder + biodiversity_holder)) CouponEngineError.Overflow in
  if 0 <? holder_credits then
    let* acc1 := add_total holder_credits acc in
    let* acc2 := (if 0 <? carbon_holder
                  then credit_side bond_id holder CreditType.Carbon carbon_holder acc1 else ret acc1) in
    let* acc3 := (if 0 <? biodiversity_holder
                  then credit_side bond_id holder CreditType.Biodiversity biodiversity_holder acc2
                  else ret acc2) in
    count_holder acc3
  else ret acc.

Definition pay_holder (bond_id : Z) (st : BatchState) (t : CreditType.CreditType)
    (holder : Address) (balance : Z) (acc : Tally) : M Tally :=
  match t with
  | CreditType.Basket => pay_basket bond_id st holder balance acc
  | _ => pay_single bond_id st t holder balance acc
  end.

(** One turn of the loop over [holders]. *)
Definition process_holder (bond_id period_index : Z) (st : BatchState) (total_subscribed : Z)
    (t : CreditType.CreditType) (acc : Tally) (hb : Address * Z) : M Tally :=
  let '(holder, balance) := hb in
  let processed_key := DataKey.HolderDistributed bond_id period_index holder in
  let* done := phas processed_key in
  if done then
    extend_ttl processed_key ;;
    ret acc
  else if 0 <? balance then
    let* processed := ok_or (checked I128 (ta_processed acc + balance)) CouponEngineError.Overflow in
    fail_if (total_subscribed <? processed) CouponEngineError.AccountingMismatch ;;
    let* acc' := pay_holder bond_id st t holder balance
                   (mkTally processed (ta_total acc) (ta_carbon acc) (ta_bio acc) (ta_count acc)) in
    write processed_key true ;;
    ret acc'
  else ret acc.

(** The running sums of the period after this batch. *)
Definition accumulate (st : BatchState) (acc : Tally) : M BatchState :=
  let* distributed := ok_or (checked I128 (ba_distributed_so_far st + ta_total acc)) CouponEngineError.Overflow in
  let* carbon := ok_or (checked I128 (ba_carbon_distributed_so_far st + ta_carbon acc)) CouponEngineError.Overflow in
  let* bio := ok_or (checked I128 (ba_bio_distributed_so_far st + ta_bio acc)) CouponEngineError.Overflow in
  let* count := arith U32 (ba_holder_count_so_far st + ta_count acc) in
  ret (mkBatchState (ba_report_id st) distributed carbon bio count
         (ba_total_credits st) (ba_carbon_total st) (ba_biodiversity_total st)
         (ba_credits_per_token st) (ba_carbon_per_token st) (ba_biodiversity_per_token st)).

(** [if amount > 0 { total += amount }] on an undistributed-dust entry. *)
Definition add_undistributed (bond_id amount : Z) : M unit :=
  when (0 <? amount)
    (let* o := pget (DataKey.UndistributedTotal bond_id) in
     let* new_total := ok_or (checked I128 (default 0 o + amount)) CouponEngineError.Overflow in
     write (DataKey.UndistributedTotal bond_id) new_total).

Definition add_undistributed_by_type (bond_id : Z) (t : CreditType.CreditType) (amount : Z) : M unit :=
  when (0 <? amount)
    (let* o := pget (DataKey.UndistributedByType bond_id t) in
     let* new_total := ok_or (checked I128 (default 0 o + amount)) CouponEngineError.Overflow in
     write (DataKey.UndistributedByType bond_id t) new_total).

(** The last batch of a period. *)
Definition finalise (bond_id period_index report_id : Z) (st : BatchState)
    (total_subscribed processed_balance : Z) : M CouponResult :=
  fail_if (negb (processed_balance =? total_subscribed)) CouponEngineError.AccountingMismatch ;;
  let* report := get_report report_id in
  let total_distributed := ba_distributed_so_far st in
  let* undistributed := ok_or (checked I128 (ba_total_credits st - total_distributed))
                              CouponEngineError.AccountingMismatch in
  let* carbon_undistributed := ok_or (checked I128 (ba_carbon_total st - ba_carbon_distributed_so_far st))
                                     CouponEngineError.AccountingMismatch in
  let* biodiversity_undistributed := ok_or (checked I128 (ba_biodiversity_total st - ba_bio_distributed_so_far st))
                                           CouponEngineError.AccountingMismatch in
  write (DataKey.PeriodInfo bond_id period_index)
    (mkPeriodInfo period_index (rp_period_start report) (rp_period_end report)
       total_distributed true report_id undistributed) ;;
  add_undistributed bond_id undistributed ;;
  add_undistributed_by_type bond_id CreditType.Carbon carbon_undistributed ;;
  add_undistributed_by_type bond_id CreditType.Biodiversity biodiversity_undistributed ;;
  let* c := pget (DataKey.PeriodCount bond_id) in
  let* count := arith U32 (default 0 c + 1) in
  write (DataKey.PeriodCount bond_id) count ;;
  premove (DataKey.BatchState bond_id period_index) ;;
  premove (DataKey.DistributionBalance bond_id period_index) ;;
  publish (coupon_distributed bond_id period_index total_distributed (ba_holder_count_so_far st)) ;;
  ret (mkCouponResult bond_id period_index total_distributed (ba_holder_count_so_far st)
         (ba_credits_per_token st)).

Definition distribute_coupon (caller : Address) (bond_id period_index : Z) (holders : list (Address * Z))
    (report_id nonce : Z) (is_final_batch : bool) : M CouponResult :=
  require_auth caller ;;
  consume_nonce caller nonce ;;
  require_admin caller ;;
  let* existing := pget (DataKey.PeriodInfo bond_id period_index) in
  fail_if (match existing with Some info => pi_distributed info | None => false end)
          CouponEngineError.PeriodAlreadyDistributed ;;
  let* p := iget (DataKey.BondProject bond_id) in
  let* project_id := ok_or p CouponEngineError.BondNotFound in
  let* c := iget (DataKey.BondCreditType bond_id) in
  let* credit_type := ok_or c CouponEngineError.BondNotFound in
  let* (st, total_subscribed, processed) := load_batch bond_id period_index report_id project_id credit_type in
  let* acc := mfold (process_holder bond_id period_index st total_subscribed credit_type)
                    (mkTally processed 0 0 0 0) holders in
  let* st' := accumulate st acc in
  write (DataKey.BatchState bond_id period_index) st' ;;
  write (DataKey.DistributionBalance bond_id period_index) (total_subscribed, ta_processed acc) ;;
  if is_final_batch then
    finalise bond_id period_index report_id st' total_subscribed (ta_processed acc)
  else
    ret (mkCouponResult bond_id period_index (ba_distributed_so_far st') (ba_holder_count_so_far st')
           (ba_credits_per_token st')).

(** ** Balances, claims and sweeps *)

Definition accrued_credits (bond_id : Z) (holder : Address) : M Z :=
  let* o := read_refresh_ttl (DataKey.AccruedCredits bond_id holder) in ret (default 0 o).

Definition accrued_credits_by_type (bond_id : Z) (holder : Address) (t : CreditType.CreditType) : M Z :=
  let* o := read_refresh_ttl (DataKey.AccruedCreditsByType bond_id holder (storage_type t)) in
  ret (default 0 o).

Definition get_bond_credit_type (bond_id : Z) : M CreditType.CreditType :=
  let* o := iget (DataKey.BondCreditType bond_id) in
  ok_or o CouponEngineError.BondNotFound.

(** Read the per-type balances and check them against the combined one. *)
Definition claim_breakdown (caller : Address) (bond_id accrued : Z)
    (credit_type : option CreditType.CreditType) : M (Z * Z) :=
  match credit_type with
  | Some CreditType.Carbon | Some CreditType.BlueCarbon =>
      let* carbon_amt := accrued_credits_by_type bond_id caller CreditType.Carbon in
      fail_if (negb (carbon_amt =? accrued)) CouponEngineError.AccountingMismatch ;;
      ret (carbon_amt, 0)
  | Some CreditType.Biodiversity =>
      let* bio_amt := accrued_credits_by_type bond_id caller CreditType.Biodiversity in
      fail_if (negb (bio_amt =? accrued)) CouponEngineError.AccountingMismatch ;;
      ret (0, bio_amt)
  | Some CreditType.Basket =>
      let* carbon_amt := accrued_credits_by_type bond_id caller CreditType.Carbon in
      let* bio_amt := accrued_credits_by_type bond_id caller CreditType.Biodiversity in
      let* sum := ok_or (checked I128 (carbon_amt + bio_amt)) CouponEngineError.Overflow in
      fail_if (negb (sum =? accrued)) CouponEngineError.AccountingMismatch ;;
      ret (carbon_amt, bio_amt)
  | None => throw CouponEngineError.AccountingMismatch
  end.

(** Zero the per-type balances of a claim. *)
Definition claim_clear (caller : Address) (bond_id : Z) (credit_type : option CreditType.CreditType) : M unit :=
  match credit_type with
  | Some CreditType.Carbon | Some CreditType.BlueCarbon => clear_accrued bond_id caller CreditType.Carbon
  | Some CreditType.Biodiversity => clear_accrued bond_id caller CreditType.Biodiversity
  | Some CreditType.Basket =>
      clear_accrued bond_id caller CreditType.Carbon ;;
      clear_accrued bond_id caller CreditType.Biodiversity
  | None => panic
  end.

Definition claim_credits (caller : Address) (bond_id nonce : Z) : M Z :=
  require_auth caller ;;
  consume_nonce caller nonce ;;
  let* o := pget (DataKey.AccruedCredits bond_id caller) in
  let accrued : Z := default 0 o in
  let* credit_type := iget (DataKey.BondCreditType bond_id) in
  let* (carbon_amt, bio_amt) :=
    (if 0 <? accrued then
       let* amts := claim_breakdown caller bond_id accrued credit_type in
       write (DataKey.AccruedCredits bond_id caller) 0 ;;
       claim_clear caller bond_id credit_type ;;
       ret amts
     else ret (0, 0)) in
  match credit_type with
  | Some CreditType.Basket => publish (credits_claimed_basket bond_id caller carbon_amt bio_amt)
  | _ => publish (credits_claimed bond_id caller accrued)
  end ;;
  ret accrued.

Definition get_period_info (bond_id period_index : Z) : M PeriodInfo :=
  let* o := read_refresh_ttl (DataKey.PeriodInfo bond_id period_index) in
  ok_or o CouponEngineError.PeriodNotFound.

Definition push_period (bond_id : Z) (result : list PeriodInfo) (i : Z) : M (list PeriodInfo) :=
  let* o := pget (DataKey.PeriodInfo bond_id i) in
  ret (match o with Some info => result ++ [info] | None => result end).

Definition get_period_info_range (bond_id start count : Z) : M (list PeriodInfo) :=
  let* o := pget (DataKey.PeriodCount bond_id) in
  let total : Z := default 0 o in
  if (count =? 0) || (total <=? start) then ret []
  else
    let end_ := wrap U32 (Z.min (start + count) total) in
    mfold (push_period bond_id) [] (seqZ start (end_ - start)).

Definition get_period_count (bond_id : Z) : M Z :=
  let* o := read_refresh_ttl (DataKey.PeriodCount bond_id) in ret (default 0 o).

Definition get_undistributed_total (bond_id : Z) : M Z :=
  let* o := read_refresh_ttl (DataKey.UndistributedTotal bond_id) in ret (default 0 o).

Definition get_undistributed_by_type (bond_id : Z) (t : CreditType.CreditType) : M Z :=
  let* o := read_refresh_ttl (DataKey.UndistributedByType bond_id (storage_type t)) in ret (default 0 o).

(** Zero the dust of a bond and credit it to [destination]. *)
Definition move_dust (bond_id : Z) (destination : Address) (carbon biodiversity : Z) : M unit :=
  write (DataKey.UndistributedTotal bond_id) 0 ;;
  write (DataKey.UndistributedByType bond_id CreditType.Carbon) 0 ;;
  write (DataKey.UndistributedByType bond_id CreditType.Biodiversity) 0 ;;
  when (0 <? carbon) (accrue_credits bond_id destination CreditType.Carbon carbon) ;;
  when (0 <? biodiversity) (accrue_credits bond_id destination CreditType.Biodiversity biodiversity).

Definition sweep_undistributed (caller : Address) (bond_id : Z) (destination : Address) (nonce : Z) :
    M SweepReceipt :=
  require_auth caller ;;
  consume_nonce caller nonce ;;
  require_admin caller ;;
  let* u := pget (DataKey.UndistributedTotal bond_id) in
  let combined : Z := default 0 u in
  let* c := pget (DataKey.UndistributedByType bond_id CreditType.Carbon) in
  let carbon : Z := default 0 c in
  let* b := pget (DataKey.UndistributedByType bond_id CreditType.Biodiversity) in
  let biodiversity : Z := default 0 b in
  let* sum := ok_or (checked I128 (carbon + biodiversity)) CouponEngineError.Overflow in
  fail_if (negb (sum =? combined)) CouponEngineError.AccountingMismatch ;;
  if combined =? 0 then ret (mkSweepReceipt bond_id destination 0 0 0)
  else
    move_dust bond_id destination carbon biodiversity ;;
    publish (undistributed_swept bond_id destination combined carbon biodiversity) ;;
    ret (mkSweepReceipt bond_id destination combined carbon biodiversity).

Definition register_deduct_caller (caller deduct_caller : Address) (nonce : Z) : M unit :=
  require_auth caller ;;
  consume_nonce caller nonce ;;
  require_admin caller ;;
  iset DataKey.DeductCaller deduct_caller.

Definition deduct_credits (bond_id : Z) (holder : Address) (amount : Z) (t : CreditType.CreditType) : M Z :=
  let* o := iget DataKey.DeductCaller in
  let* authorized := ok_or o CouponEngineError.Unauthorized in
  require_auth authorized ;;
  fail_if (amount <=? 0) CouponEngineError.ZeroAmount ;;
  let* c := pget (DataKey.AccruedCredits bond_id holder) in
  let combined : Z := default 0 c in
  fail_if (combined <? amount) CouponEngineError.Overflow ;;
  let* b := pget (DataKey.AccruedCreditsByType bond_id holder (storage_type t)) in
  let by_type : Z := default 0 b in
  fail_if (by_type <? amount) CouponEngineError.Overflow ;;
  let* combined' := arith I128 (combined - amount) in
  write (DataKey.AccruedCredits bond_id holder) combined' ;;
  let* by_type' := arith I128 (by_type - amount) in
  write (DataKey.AccruedCreditsByType bond_id holder (storage_type t)) by_type' ;;
  publish (credits_deducted bond_id holder amount t) ;;
  ret combined'.

(** ** Executions *)

(** The transactions that write data, and two of the getters that refresh lifetimes (the
    others are of the same two shapes). *)
Inductive Call :=
| CRegisterBond (caller : Address) (bond_id : Z) (project_id : BytesN) (nonce : Z)
| CDistribute (caller : Address) (bond_id period_index : Z) (holders : list (Address * Z))
    (report_id nonce : Z) (is_final_batch : bool)
| CClaim (caller : Address) (bond_id nonce : Z)
| CSweep (caller : Address) (bond_id : Z) (destination : Address) (nonce : Z)
| CRegisterDeductCaller (caller deduct_caller : Address) (nonce : Z)
| CDeduct (bond_id : Z) (holder : Address) (amount : Z) (t : CreditType.CreditType)
| CAccrued (bond_id : Z) (holder : Address)
| CGetPeriodInfo (bond_id period_index : Z).

Definition exec (c : Call) : M unit :=
  match c with
  | CRegisterBond a b p n => register_bond a b p n
  | CDistribute a b p h r n f => distribute_coupon a b p h r n f ;; ret tt
  | CClaim a b n => claim_credits a b n ;; ret tt
  | CSweep a b d n => sweep_undistributed a b d n ;; ret tt
  | CRegisterDeductCaller a d n => register_deduct_caller a d n
  | CDeduct b h v t => deduct_credits b h v t ;; ret tt
  | CAccrued b h => accrued_credits b h ;; ret tt
  | CGetPeriodInfo b p => get_period_info b p ;; ret tt
  end.

Definition deployed (s : state) : Prop :=
  exists e admin issuer oracle registry w, constructor admin issuer oracle registry e (empty_state w) = Ok tt s.
End engine.

(** ** Views *)

Section views.
Context {W : Type}.
Implicit Types (s : cstate DataKey ty Event W).

Definition accrued (s : cstate DataKey ty Event W) (b : Z) (h : Address) : Z :=
  default 0 (sget (DataKey.AccruedCredits b h) (pers s)).
Definition by_type (s : cstate DataKey ty Event W) (b : Z) (h : Address) (t : CreditType.CreditType) : Z :=
  default 0 (sget (DataKey.AccruedCreditsByType b h t) (pers s)).
Definition dust (s : cstate DataKey ty Event W) (b : Z) : Z :=
  default 0 (sget (DataKey.UndistributedTotal b) (pers s)).
Definition dust_by_type (s : cstate DataKey ty Event W) (b : Z) (t : CreditType.CreditType) : Z :=
  default 0 (sget (DataKey.UndistributedByType b t) (pers s)).
Definition nonce_of (s : cstate DataKey ty Event W) (a : Address) : Z :=
  default 0 (sget (DataKey.Nonce a) (pers s)).
Definition period_of (s : cstate DataKey ty Event W) (b p : Z) : option PeriodInfo :=
  sget (DataKey.PeriodInfo b p) (pers s).
Definition batch_of (s : cstate DataKey ty Event W) (b p : Z) : option BatchState :=
  sget (DataKey.BatchState b p) (pers s).
Definition snapshot_of (s : cstate DataKey ty Event W) (b p : Z) : option (Z * Z) :=
  sget (DataKey.DistributionBalance b p) (pers s).
Definition paid_flag (s : cstate DataKey ty Event W) (b p : Z) (h : Address) : Prop :=
  is_Some (sget (DataKey.HolderDistributed b p h) (pers s)).
Definition type_of (s : cstate DataKey ty Event W) (b : Z) : option CreditType.CreditType :=
  sget (DataKey.BondCreditType b) (inst s).
End views.

Ltac views := unfold accrued, by_type, dust, dust_by_type, nonce_of, period_of, batch_of,
  snapshot_of, paid_flag, type_of in *.

(** What [accrue_credits] does to the persistent store. *)
Definition accrue (b : Z) (h : Address) (t : CreditType.CreditType) (amount : Z)
    (m : store DataKey ty) : store DataKey ty :=
  sset (DataKey.AccruedCredits b h) (default 0 (sget (DataKey.AccruedCredits b h) m) + amount)
    (sset (DataKey.AccruedCreditsByType b h t)
          (default 0 (sget (DataKey.AccruedCreditsByType b h t) m) + amount) m).

Definition accrue_if (b : Z) (h : Address) (t : CreditType.CreditType) (amount : Z)
    (m : store DataKey ty) : store DataKey ty :=
  if 0 <? amount then accrue b h t amount m else m.

(** Stored balances fit their type. *)
Definition acc_range (m : store DataKey ty) : Prop :=
  forall b h, default 0 (sget (DataKey.AccruedCredits b h) m) <= int_hi I128.

Lemma acc_range_sset_ne k v m : (forall b h, k <> DataKey.AccruedCredits b h) -> acc_range m -> acc_range (sset k v m).
Proof. intros Hk Hm b h. rewrite sget_sset_ne by done. apply Hm. Qed.

Lemma acc_range_sset b h v m : v <= int_hi I128 -> acc_range m -> acc_range (sset (DataKey.AccruedCredits b h) v m).
Proof. intros Hv Hm b' h'. store_case; [done|apply Hm]. Qed.

Lemma acc_range_accrue b h t v m :
  in_range I128 (default 0 (sget (DataKey.AccruedCredits b h) m) + v) = true ->
  acc_range m -> acc_range (accrue b h t v m).
Proof.
  intros [_ Hv]%in_range_spec Hm. by apply acc_range_sset, acc_range_sset_ne.
Qed.

(** Both sides of a payment. *)
Definition credit (b : Z) (h : Address) (c d : Z) (m : store DataKey ty) : store DataKey ty :=
  accrue_if b h CreditType.Biodiversity d (accrue_if b h CreditType.Carbon c m).

Section specs.
Context {W : Type} `{!World W} `{!BondReader W} `{!OracleReader W} `{!RegistryReader W}.
Local Abbreviation M := (contract DataKey ty CouponEngineError.CouponEngineError Event W).
Local Abbreviation state := (cstate DataKey ty Event W).
Implicit Types (s : state) (e : Env).

(** ** Specifications of the helpers *)

Lemma coupon_require_admin_Ok a e s u s' :
  require_admin a e s = Ok u s' -> sget DataKey.Admin (inst s) = Some a /\ s' = s.
Proof. intros H. unfold require_admin in H. inv_ok H. guards. by subst. Qed.

Lemma coupon_write_Ok k v e s u s' :
  write k v e s = Ok u s' -> exists l, s' = put_live l (put_pers k v s).
Proof. intros H. unfold write, extend_ttl in H. inv_ok H. by eexists. Qed.

Lemma coupon_extend_ttl_Ok k e s u s' : extend_ttl k e s = Ok u s' -> exists l, s' = put_live l s.
Proof. intros H. unfold extend_ttl in H. inv_ok H. by eexists. Qed.

Lemma read_refresh_ttl_Ok k e s o s' :
  read_refresh_ttl k e s = Ok o s' -> o = sget k (pers s) /\ exists l, s' = put_live l s.
Proof.
  intros H. unfold read_refresh_ttl, extend_ttl in H. inv_ok H.
  - split; [done|]. by eexists.
  - split; [done|]. exists (live s). by destruct s.
Qed.

Lemma coupon_consume_nonce_Ok a n e s u s' :
  consume_nonce a n e s = Ok u s' ->
  n = nonce_of s a /\
  exists next l, s' = put_live l (put_pers (DataKey.Nonce a) next s) /\
                 (in_range U64 (n + 1) = true -> next = n + 1).
Proof.
  intros H. unfold consume_nonce, get_nonce, set_nonce in H. inv_ok H. guards. subst.
  split; [done|]. by eexists _, _.
Qed.

Lemma accrue_credits_Ok b h t v e s u s' :
  accrue_credits b h t v e s = Ok u s' ->
  exists l, s' = put_live l (with_pers (accrue b h t v (pers s)) s) /\ (acc_range (pers s) -> acc_range (pers s')).
Proof.
  intros H. unfold accrue_credits in H. inv_ok H.
  repeat match goal with Hw : write _ _ _ _ = _ |- _ => apply coupon_write_Ok in Hw as [? ->] end.
  guards. host_cbn. rewrite sget_sset_ne in * by congruence. eexists. split; [done|].
  by apply acc_range_accrue.
Qed.

(** The report [rep] is the one the configured oracle has under the id [r]. *)
Definition fetched s (r : Z) (rep : Report) : Prop :=
  exists o, sget DataKey.OracleConsumerAddress (inst s) = Some o /\ report_record (world s) o r = Some rep.

Lemma get_report_Ok r e s rep s' :
  get_report r e s = Ok rep s' ->
  exists w, (report_nonneg rep /\ fetched s r rep) /\ wstep (world s) w /\ s' = put_world w s.
Proof.
  intros H. unfold get_report in H. inv_ok H.
  match goal with Hc : call_get_report _ _ _ _ = _ |- _ => apply call_get_report_spec in Hc as [[? ?] ?%wquiet_step] end.
  eexists. split_and!; [done|by eexists|done|done].
Qed.
End specs.

Ltac inv_hook H ::=
  lazymatch type of H with
  | require_admin _ _ _ = Ok _ _ => apply coupon_require_admin_Ok in H as [? ?]; subst
  | write _ _ _ _ = Ok _ _ => let l := fresh "l" in apply coupon_write_Ok in H as [l ?]; subst
  | extend_ttl _ _ _ = Ok _ _ => let l := fresh "l" in apply coupon_extend_ttl_Ok in H as [l ?]; subst
  | read_refresh_ttl _ _ _ = Ok _ _ =>
      let l := fresh "l" in apply read_refresh_ttl_Ok in H as (?&l&?); subst
  | consume_nonce _ _ _ _ = Ok _ _ =>
      let l := fresh "l" in let next := fresh "next" in
      apply coupon_consume_nonce_Ok in H as (?&next&l&?&?); subst
  | accrue_credits _ _ _ _ _ _ = Ok _ _ =>
      let l := fresh "l" in apply accrue_credits_Ok in H as (l&?&?); subst
  | get_report _ _ _ = Ok _ _ =>
      let w := fresh "w" in apply get_report_Ok in H as (w&[? ?]&?&?); subst
  end.

Section payments.
Context {W : Type} `{!World W} `{!BondReader W} `{!OracleReader W} `{!RegistryReader W}.
Local Abbreviation state := (cstate DataKey ty Event W).
Implicit Types (s : state) (e : Env).

(** ** What a turn of the distribution loop did *)

Lemma share_Ok rate bal e s v s' :
  @share W rate bal e s = Ok v s' ->
  s' = s /\ (in_range I128 (rate * bal) = true -> v = Z.quot (rate * bal) FIXED_POINT).
Proof.
  intros H. unfold share in H. inv_ok H. split; [done|]. intros Hr.
  match goal with Hx : in_range I128 (rate * bal) = true -> _ |- _ => by rewrite Hx end.
Qed.

(** The tally after a payment of [c] carbon and [d] biodiversity credits. *)
Definition paid_tally (acc : Tally) (total c d : Z) (acc' : Tally) : Prop :=
  ta_processed acc' = ta_processed acc /\ ta_total acc' = ta_total acc + total /\
  ta_carbon acc' = ta_carbon acc + c /\ ta_bio acc' = ta_bio acc + d.

(** Which sides a bond of type [t] earns. *)
Definition has_side (t : CreditType.CreditType) (side : CreditType.CreditType) : bool :=
  match t, side with
  | CreditType.Carbon, CreditType.Carbon | CreditType.BlueCarbon, CreditType.Carbon
  | CreditType.Biodiversity, CreditType.Biodiversity
  | CreditType.Basket, CreditType.Carbon | CreditType.Basket, CreditType.Biodiversity => true
  | _, _ => false
  end.

(** The shares of a balance, when no product leaves the width. *)
Definition exact_share (st : BatchState) (t : CreditType.CreditType) (bal : Z) : Z * Z :=
  match t with
  | CreditType.Carbon | CreditType.BlueCarbon => (Z.quot (ba_credits_per_token st * bal) FIXED_POINT, 0)
  | CreditType.Biodiversity => (0, Z.quot (ba_credits_per_token st * bal) FIXED_POINT)
  | CreditType.Basket => (Z.quot (ba_carbon_per_token st * bal) FIXED_POINT,
                          Z.quot (ba_biodiversity_per_token st * bal) FIXED_POINT)
  end.

(** The products of the loop stay in the width. *)
Definition products_fit (st : BatchState) (bal : Z) : Prop :=
  0 <= ba_credits_per_token st * bal <= int_hi I128 /\
  0 <= ba_carbon_per_token st * bal <= int_hi I128 /\
  0 <= ba_biodiversity_per_token st * bal <= int_hi I128.

(** The result of [pay_holder]: [c] and [d] credits on the two sides. *)
Definition payment (b : Z) (st : BatchState) (t : CreditType.CreditType) (h : Address) (bal : Z)
    (acc acc' : Tally) s s' : Prop :=
  exists total c d l,
    0 <= c /\ 0 <= d /\ (has_side t CreditType.Carbon = false -> c = 0) /\
    (has_side t CreditType.Biodiversity = false -> d = 0) /\
    paid_tally acc total c d acc' /\
    (products_fit st bal -> total = c + d /\ (c, d) = exact_share st t bal) /\
    s' = put_live l (with_pers (credit b h c d (pers s)) s) /\
    (acc_range (pers s) -> acc_range (pers s')).

Lemma credit_zero b h m : credit b h 0 0 m = m.
Proof. done. Qed.

Lemma put_same s : s = put_live (live s) (with_pers (pers s) s).
Proof. by destruct s. Qed.

Lemma fit_share rate bal : 0 <= rate * bal <= int_hi I128 ->
  in_range I128 (rate * bal) = true /\ 0 <= Z.quot (rate * bal) FIXED_POINT.
Proof.
  intros Hr. split; [apply in_range_spec; pose proof (int_lo_hi I128); lia|].
  apply Z.quot_pos; [lia|done].
Qed.

Lemma pay_single_Ok b st t h bal acc e s acc' s' :
  t <> CreditType.Basket -> pay_single b st t h bal acc e s = Ok acc' s' -> payment b st t h bal acc acc' s s'.
Proof.
  intros Ht H. unfold pay_single in H. apply bind_Ok in H as (v&s1&[-> Hv]%share_Ok&H).
  assert (Hfit : products_fit st bal -> v = Z.quot (ba_credits_per_token st * bal) FIXED_POINT /\ 0 <= v).
  { intros [Hp _]. apply fit_share in Hp as [Hr ?]. rewrite Hv; done. }
  destruct (Z.ltb_spec 0 v) as [Hpos|Hneg].
  - unfold add_total, credit_side, count_holder in H.
    destruct t; try done; inv_ok H; guards; unfold payment, paid_tally;
      [exists v, v, 0|exists v, 0, v|exists v, v, 0]; eexists; simpl;
      (split_and!; try done; try lia;
       [intros Hf; destruct (Hfit Hf) as [-> _]; by rewrite ?Z.add_0_r|]);
      unfold credit, accrue_if; simpl; destruct (Z.ltb_spec 0 v); done || lia.
  - apply (ret_Ok acc acc' e) in H as [-> ->].
    exists 0, 0, 0, (live s). unfold paid_tally. split_and!; try done; try lia.
    + intros Hf. destruct (Hfit Hf) as [Hq ?]. assert (v = 0) as -> by lia.
      split; [done|]. by destruct t; try done; simpl; rewrite <- Hq.
    + by rewrite credit_zero, <- put_same.
Qed.

Lemma credit_side_Ok b h side amount acc e s acc' s' :
  side = CreditType.Carbon \/ side = CreditType.Biodiversity ->
  credit_side b h side amount acc e s = Ok acc' s' ->
  exists l, s' = put_live l (with_pers (accrue b h side amount (pers s)) s) /\
    (acc_range (pers s) -> acc_range (pers s')) /\
    paid_tally acc 0 (if decide (side = CreditType.Carbon) then amount else 0)
                     (if decide (side = CreditType.Carbon) then 0 else amount) acc'.
Proof.
  intros Hside H. unfold credit_side in H.
  destruct Hside as [->| ->]; inv_ok H; guards; unfold paid_tally; simpl;
    eexists; split_and!; try done; simpl; lia.
Qed.

Lemma credit_side_if_Ok b h side amount acc e s acc' s' :
  side = CreditType.Carbon \/ side = CreditType.Biodiversity ->
  (if 0 <? amount then credit_side b h side amount acc else ret acc) e s = Ok acc' s' ->
  exists l, s' = put_live l (with_pers (accrue_if b h side amount (pers s)) s) /\
    (acc_range (pers s) -> acc_range (pers s')) /\
    paid_tally acc 0 (if decide (side = CreditType.Carbon) then Z.max 0 amount else 0)
                     (if decide (side = CreditType.Carbon) then 0 else Z.max 0 amount) acc'.
Proof.
  intros Hside H. unfold accrue_if. destruct (Z.ltb_spec 0 amount).
  - rewrite !Z.max_r by lia. by apply (credit_side_Ok _ _ _ _ _ _ _ _ _ Hside) in H.
  - apply (ret_Ok acc acc' e) in H as [-> ->]. exists (live s). split_and!; [apply put_same|done|..];
    unfold paid_tally; repeat case_decide; lia.
Qed.

Lemma accrue_if_max b h t v m : accrue_if b h t (Z.max 0 v) m = accrue_if b h t v m.
Proof.
  unfold accrue_if. destruct (Z.ltb_spec 0 v).
  - rewrite Z.max_r by lia. by destruct (Z.ltb_spec 0 v); [|lia].
  - by rewrite Z.max_l by lia.
Qed.

Lemma credit_max b h c d m : credit b h (Z.max 0 c) (Z.max 0 d) m = credit b h c d m.
Proof. unfold credit. by rewrite !accrue_if_max. Qed.

Lemma pay_basket_Ok b st h bal acc e s acc' s' :
  pay_basket b st h bal acc e s = Ok acc' s' -> payment b st CreditType.Basket h bal acc acc' s s'.
Proof.
  intros H. unfold pay_basket in H.
  apply bind_Ok in H as (c&s1&[-> Hc]%share_Ok&H). apply bind_Ok in H as (d&s1&[-> Hd]%share_Ok&H).
  apply bind_Ok in H as (v&s1&Hv&H). inv_ok Hv. guards.
  assert (Hfit : products_fit st bal -> (c, d) = exact_share st CreditType.Basket bal /\ 0 <= c /\ 0 <= d).
  { intros (_&Hp&Hq). apply fit_share in Hp as [Hr ?], Hq as [Hr' ?]. by rewrite Hc, Hd. }
  destruct (Z.ltb_spec 0 (c + d)) as [Hpos|Hneg].
  - apply bind_Ok in H as (acc1&s1&Ha&H). unfold add_total in Ha. inv_ok Ha. guards.
    apply bind_Ok in H as (acc2&s2&(l2&->&Hr2&Hp2)%credit_side_if_Ok&H); [|auto].
    apply bind_Ok in H as (acc3&s3&(l3&->&Hr3&Hp3)%credit_side_if_Ok&H); [|auto].
    unfold count_holder in H. inv_ok H. unfold paid_tally in Hp2, Hp3. simpl in Hp2, Hp3.
    exists (c + d), (Z.max 0 c), (Z.max 0 d), l3. split_and!; try done; try lia.
    + unfold paid_tally. simpl. lia.
    + intros Hf. destruct (Hfit Hf) as (Hx&?&?). rewrite !Z.max_r by lia. split; [lia|done].
    + by rewrite credit_max.
    + simpl in *. auto.
  - apply (ret_Ok acc acc' e) in H as [-> ->].
    exists 0, 0, 0, (live s). unfold paid_tally. split_and!; try done; try lia.
    + intros Hf. destruct (Hfit Hf) as (Hq&?&?). assert (c = 0) as -> by lia. assert (d = 0) as -> by lia. done.
    + by rewrite credit_zero, <- put_same.
Qed.

Lemma pay_holder_Ok b st t h bal acc e s acc' s' :
  pay_holder b st t h bal acc e s = Ok acc' s' -> payment b st t h bal acc acc' s s'.
Proof.
  intros H. unfold pay_holder in H. destruct t; (by apply pay_basket_Ok in H) || (by apply pay_single_Ok in H).
Qed.

(** A turn of the loop: skip the holders that were paid before and those without a
    balance; pay the others once and mark them. *)
Lemma process_holder_Ok b p st total t acc h bal e s acc' s' :
  process_holder b p st total t acc (h, bal) e s = Ok acc' s' ->
  (acc' = acc /\ exists l, s' = put_live l s) \/
  (~ paid_flag s b p h /\ 0 < bal /\ ta_processed acc + bal <= total /\
   exists sum c d l,
     0 <= c /\ 0 <= d /\ (has_side t CreditType.Carbon = false -> c = 0) /\
     (has_side t CreditType.Biodiversity = false -> d = 0) /\
     ta_processed acc' = ta_processed acc + bal /\ ta_total acc' = ta_total acc + sum /\
     ta_carbon acc' = ta_carbon acc + c /\ ta_bio acc' = ta_bio acc + d /\
     (products_fit st bal -> sum = c + d /\ (c, d) = exact_share st t bal) /\
     s' = put_live l (with_pers (sset (DataKey.HolderDistributed b p h) true (credit b h c d (pers s))) s) /\
     (acc_range (pers s) -> acc_range (pers s'))).
Proof.
  intros H. unfold process_holder in H. apply bind_Ok in H as (done_&s1&[-> ->]%phas_Ok&H).
  unfold paid_flag. case_bool_decide as Hflag.
  { left. inv_ok H. split; [done|by eexists]. }
  destruct (Z.ltb_spec 0 bal) as [Hbal|Hbal].
  2: { left. apply (ret_Ok acc acc' e) in H as [-> ->]. split; [done|]. exists (live s). by destruct s. }
  right. apply bind_Ok in H as (pr&s1&Hpr&H). inv_ok Hpr. guards.
  apply bind_Ok in H as ([]&s1&[Hle ->]%fail_if_Ok&H). guards.
  apply bind_Ok in H as (acc1&s1&Hpay&H).
  apply pay_holder_Ok in Hpay as (sum&c&d&l&?&?&?&?&(Hp1&Hp2&Hp3&Hp4)&?&->&Hrg).
  inv_ok H. split_and!; try done. exists sum, c, d. eexists. split_and!; try done.
  intros Hr. apply acc_range_sset_ne; [done|]. by apply Hrg.
Qed.
End payments.

(** ** Sums over holders *)

Definition accrued_weight (b : Z) (k : DataKey) : ty k -> Z :=
  match k with
  | DataKey.AccruedCredits b' _ => fun v => if b' =? b then v else 0
  | _ => fun _ => 0
  end.

(** All credits of bond [b] in the hands of holders. *)
Definition held_in (m : store DataKey ty) (b : Z) : Z := ssum (accrued_weight b) m.

Lemma held_frame b k v (m : store DataKey ty) :
  (forall h, k <> DataKey.AccruedCredits b h) -> held_in (sset k v m) b = held_in m b.
Proof.
  intros Hk. apply ssum_sset_zero. intros w. destruct k; simpl; try done.
  case_match eqn:Hb; [|done]. apply Z.eqb_eq in Hb. subst. by edestruct Hk.
Qed.

Lemma held_sset b b' h v (m : store DataKey ty) :
  held_in (sset (DataKey.AccruedCredits b' h) v m) b =
  held_in m b + (if b' =? b then v - default 0 (sget (DataKey.AccruedCredits b' h) m) else 0).
Proof.
  unfold held_in. rewrite ssum_sset. simpl.
  destruct (sget (DataKey.AccruedCredits b' h) m); simpl; destruct (b' =? b); lia.
Qed.

Lemma accrue_accrued b h t v b' h' m :
  default 0 (sget (DataKey.AccruedCredits b' h') (accrue b h t v m)) =
  default 0 (sget (DataKey.AccruedCredits b' h') m) + (if decide (b = b' /\ h = h') then v else 0).
Proof.
  unfold accrue. store_case.
  - rewrite decide_True by done. done.
  - rewrite sget_sset_ne by congruence. rewrite decide_False by (intuition congruence). lia.
Qed.

Lemma accrue_by_type b h t v b' h' t' m :
  default 0 (sget (DataKey.AccruedCreditsByType b' h' t') (accrue b h t v m)) =
  default 0 (sget (DataKey.AccruedCreditsByType b' h' t') m) +
    (if decide (b = b' /\ h = h' /\ t = t') then v else 0).
Proof.
  unfold accrue. rewrite sget_sset_ne by congruence. store_case.
  - rewrite decide_True by done. done.
  - rewrite decide_False by (intuition congruence). lia.
Qed.

Lemma accrue_frame b h t v k m :
  k <> DataKey.AccruedCredits b h -> k <> DataKey.AccruedCreditsByType b h t ->
  sget k (accrue b h t v m) = sget k m.
Proof. intros. unfold accrue. by rewrite !sget_sset_ne by congruence. Qed.

Lemma accrue_held b b' h t v m :
  held_in (accrue b h t v m) b' = held_in m b' + (if b =? b' then v else 0).
Proof.
  unfold accrue. rewrite held_sset, held_frame by congruence. rewrite sget_sset_ne by congruence.
  destruct (b =? b'); lia.
Qed.

Section credit.
Context (b : Z) (h : Address) (c d : Z) (Hc : 0 <= c) (Hd : 0 <= d) (m : store DataKey ty).

Ltac credit_tac L := unfold credit, accrue_if;
  destruct (Z.ltb_spec 0 c), (Z.ltb_spec 0 d); rewrite ?L; try lia.

Lemma credit_accrued b' h' :
  default 0 (sget (DataKey.AccruedCredits b' h') (credit b h c d m)) =
  default 0 (sget (DataKey.AccruedCredits b' h') m) + (if decide (b = b' /\ h = h') then c + d else 0).
Proof. credit_tac accrue_accrued; case_decide; lia. Qed.

Lemma credit_by_type b' h' t' :
  default 0 (sget (DataKey.AccruedCreditsByType b' h' t') (credit b h c d m)) =
  default 0 (sget (DataKey.AccruedCreditsByType b' h' t') m) +
    (if decide (b = b' /\ h = h') then
       match t' with CreditType.Carbon => c | CreditType.Biodiversity => d | _ => 0 end else 0).
Proof. credit_tac accrue_by_type; repeat case_decide; destruct t'; intuition (congruence || lia). Qed.

Lemma credit_frame k :
  k <> DataKey.AccruedCredits b h -> (forall t, k <> DataKey.AccruedCreditsByType b h t) ->
  sget k (credit b h c d m) = sget k m.
Proof. intros. credit_tac accrue_frame; done. Qed.

Lemma credit_held b' : held_in (credit b h c d m) b' = held_in m b' + (if b =? b' then c + d else 0).
Proof. credit_tac accrue_held; destruct (b =? b'); lia. Qed.
End credit.

Section loop.
Context {W : Type} `{!World W} `{!BondReader W} `{!OracleReader W} `{!RegistryReader W}.
Local Abbreviation state := (cstate DataKey ty Event W).
Implicit Types (s : state) (e : Env).

(** ** What a batch did *)

Definition held s (b : Z) : Z := held_in (pers s) b.

Record batch (b p : Z) (t : CreditType.CreditType) (s0 : state) (a0 : Tally) (s : state) (a : Tally) : Prop := {
  bt_inst : inst s = inst s0;
  bt_world : world s = world s0;
  bt_frame : forall key, (forall h, key <> DataKey.AccruedCredits b h) ->
    (forall h t, key <> DataKey.AccruedCreditsByType b h t) ->
    (forall h, key <> DataKey.HolderDistributed b p h) -> sget key (pers s) = sget key (pers s0);
  bt_flag : forall h, paid_flag s0 b p h ->
    paid_flag s b p h /\ accrued s b h = accrued s0 b h;
  bt_new : forall h, accrued s b h <> accrued s0 b h -> paid_flag s b p h;
  bt_split : forall h, accrued s b h - accrued s0 b h =
    (by_type s b h CreditType.Carbon - by_type s0 b h CreditType.Carbon) +
    (by_type s b h CreditType.Biodiversity - by_type s0 b h CreditType.Biodiversity);
  bt_grow : forall h side, by_type s0 b h side <= by_type s b h side;
  bt_side : forall h side, has_side t side = false -> by_type s b h side = by_type s0 b h side;
  bt_sum : forall b', held s b' - held s0 b' =
    if decide (b = b') then (ta_carbon a - ta_carbon a0) + (ta_bio a - ta_bio a0) else 0;
  bt_carbon : ta_carbon a0 <= ta_carbon a /\
    (has_side t CreditType.Carbon = false -> ta_carbon a = ta_carbon a0);
  bt_bio : ta_bio a0 <= ta_bio a /\
    (has_side t CreditType.Biodiversity = false -> ta_bio a = ta_bio a0);
  bt_range : acc_range (pers s0) -> acc_range (pers s);
}.

Lemma batch_refl b p t s0 a0 s : same_data s s0 -> batch b p t s0 a0 s a0.
Proof.
  intros (Hi&Hp&_&Hw). split; unfold held; views; rewrite ?Hp; try done; try lia; intros; try case_decide; lia || done.
Qed.

(** One turn of the loop extends a batch. *)
Lemma batch_step b p t st total s0 a0 s a h bal e s' a' :
  batch b p t s0 a0 s a -> process_holder b p st total t a (h, bal) e s = Ok a' s' ->
  batch b p t s0 a0 s' a'.
Proof.
  intros [Hi Hw Hfr Hfl Hn Hsp Hg Hsi Hsum [Hc Hc'] [Hb Hb'] Hrg] H.
  apply process_holder_Ok in H as [(->&l&->)|(Hno&_&_&sum&c&d&l&Hc0&Hd0&Hcs&Hds&_&_&Hac&Hab&_&->&Hrg')];
    [by split|].
  assert (Hacc : forall h', default 0 (sget (DataKey.AccruedCredits b h')
      (sset (DataKey.HolderDistributed b p h) true (credit b h c d (pers s)))) =
      accrued s b h' + (if decide (h = h') then c + d else 0)).
  { intros h'. rewrite sget_sset_ne, credit_accrued by congruence. unfold accrued.
    f_equal. repeat case_decide; tauto. }
  assert (Hbt : forall h' x, default 0 (sget (DataKey.AccruedCreditsByType b h' x)
      (sset (DataKey.HolderDistributed b p h) true (credit b h c d (pers s)))) =
      by_type s b h' x + (if decide (h = h') then
        match x with CreditType.Carbon => c | CreditType.Biodiversity => d | _ => 0 end else 0)).
  { intros h' x. rewrite sget_sset_ne, credit_by_type by congruence. unfold by_type.
    f_equal. repeat case_decide; tauto. }
  split; try done.
  - intros key H1 H2 H3. host_cbn. rewrite sget_sset_ne, credit_frame by auto. by apply Hfr.
  - intros h' Hf. destruct (Hfl h' Hf) as [Hf' Heq]. unfold paid_flag in *. unfold accrued at 1. host_cbn.
    rewrite Hacc, Heq. destruct (decide (h = h')) as [->|]; [exfalso; by apply Hno|].
    rewrite sget_sset_ne by (by intros [= ?]). rewrite credit_frame by done. split; [done|lia].
  - intros h' Hne. unfold paid_flag in *. unfold accrued at 1 in Hne. host_cbn. rewrite Hacc in Hne.
    destruct (decide (h = h')) as [->|]; [rewrite sget_sset_eq; eauto|].
    rewrite sget_sset_ne by (by intros [= ?]). rewrite credit_frame by done. apply Hn. lia.
  - intros h'. unfold accrued at 1, by_type at 1 3. host_cbn. rewrite Hacc, !Hbt. specialize (Hsp h').
    case_decide; lia.
  - intros h' x. unfold by_type at 2. host_cbn. rewrite Hbt. specialize (Hg h' x).
    case_decide; destruct x; lia.
  - intros h' x Hx. unfold by_type at 1. host_cbn. rewrite Hbt, Hsi by done.
    case_decide; destruct x; try lia; rewrite ?Hcs, ?Hds by done; lia.
  - intros b'. specialize (Hsum b'). unfold held in *. host_cbn.
    rewrite held_frame, credit_held by congruence. destruct (Z.eqb_spec b b'); case_decide; lia.
  - split; [lia|]. intros Hx. rewrite Hac, Hcs by done. rewrite Hc' by done. lia.
  - split; [lia|]. intros Hx. rewrite Hab, Hds by done. rewrite Hb' by done. lia.
  - auto.
Qed.

Lemma batch_loop b p t st total holders s0 a0 e s a :
  mfold (process_holder b p st total t) a0 holders e s0 = Ok a s -> batch b p t s0 a0 s a.
Proof.
  apply (mfold_Ok_ind (fun a s => batch b p t s0 a0 s a)); [|by apply batch_refl].
  intros acc [h bal] s1 acc' s1' Hb Hp. by eapply batch_step.
Qed.
End loop.

(** ** Rates and shares *)

(** The per-token rate of each side of a bond of type [t]. *)
Definition carbon_rate (st : BatchState) (t : CreditType.CreditType) : Z :=
  match t with
  | CreditType.Carbon | CreditType.BlueCarbon => ba_credits_per_token st
  | CreditType.Biodiversity => 0
  | CreditType.Basket => ba_carbon_per_token st
  end.
Definition bio_rate (st : BatchState) (t : CreditType.CreditType) : Z :=
  match t with
  | CreditType.Carbon | CreditType.BlueCarbon => 0
  | CreditType.Biodiversity => ba_credits_per_token st
  | CreditType.Basket => ba_biodiversity_per_token st
  end.

(** [rate] is what [per_token] computes when nothing overflows. *)
Definition rate_of (total subscribed rate : Z) : Prop :=
  if (0 <? subscribed) && (0 <? total)
  then rate = Z.quot (total * FIXED_POINT) subscribed /\ total * FIXED_POINT <= int_hi I128
  else rate = 0.

Lemma rate_of_bound total subscribed rate :
  0 <= total -> 0 <= subscribed -> rate_of total subscribed rate ->
  0 <= rate /\ rate * subscribed <= total * FIXED_POINT.
Proof.
  unfold rate_of, FIXED_POINT. intros Ht Hs.
  destruct (Z.ltb_spec 0 subscribed), (Z.ltb_spec 0 total); simpl; intros Hr; [|nia..].
  destruct Hr as [-> _]. rewrite Z.quot_div_nonneg by lia.
  pose proof (Z.mul_div_le (total * 10000000) subscribed ltac:(lia)).
  split; [apply Z.div_pos; lia|lia].
Qed.

Lemma rate_of_fit total subscribed rate bal :
  0 <= total -> 0 <= bal <= subscribed -> rate_of total subscribed rate ->
  0 <= rate * bal <= int_hi I128.
Proof.
  intros Ht Hb Hr. destruct (rate_of_bound total subscribed rate) as [? Hle]; [lia..|done|].
  unfold rate_of in Hr. destruct (Z.ltb_spec 0 subscribed), (Z.ltb_spec 0 total); simpl in Hr;
    [destruct Hr as [_ ?]|subst; cbn [int_hi]; lia..].
  split; [apply Z.mul_nonneg_nonneg; lia|].
  transitivity (rate * subscribed); [apply Z.mul_le_mono_nonneg_l; lia|]. cbn [int_hi]. lia.
Qed.

Lemma quot_share_bound rate bal : 0 <= rate * bal ->
  Z.quot (rate * bal) FIXED_POINT * FIXED_POINT <= rate * bal.
Proof.
  intros. unfold FIXED_POINT. rewrite Z.quot_div_nonneg by lia.
  pose proof (Z.mul_div_le (rate * bal) 10000000 ltac:(lia)). lia.
Qed.

(** The parts of a batch's state that never change, and their relations. *)
Record batch_terms (t : CreditType.CreditType) (st : BatchState) : Prop := {
  bm_carbon : 0 <= ba_carbon_total st /\ (has_side t CreditType.Carbon = false -> ba_carbon_total st = 0);
  bm_bio : 0 <= ba_biodiversity_total st /\
    (has_side t CreditType.Biodiversity = false -> ba_biodiversity_total st = 0);
  bm_total : ba_total_credits st = ba_carbon_total st + ba_biodiversity_total st;
}.

(** The rates are the exact quotients. *)
Definition batch_rates (st : BatchState) (subscribed : Z) : Prop :=
  rate_of (ba_total_credits st) subscribed (ba_credits_per_token st) /\
  rate_of (ba_carbon_total st) subscribed (ba_carbon_per_token st) /\
  rate_of (ba_biodiversity_total st) subscribed (ba_biodiversity_per_token st).

Lemma rates_fit t st subscribed bal :
  batch_terms t st -> batch_rates st subscribed -> 0 <= bal <= subscribed -> products_fit st bal.
Proof.
  intros [[Hc _] [Hd _] Ht] (H1&H2&H3) Hb. split; [|split].
  - apply (rate_of_fit (ba_total_credits st) subscribed _ _ ltac:(lia) Hb H1).
  - apply (rate_of_fit _ subscribed _ _ Hc Hb H2).
  - apply (rate_of_fit _ subscribed _ _ Hd Hb H3).
Qed.

(** No side can be paid more than its total. *)
Lemma side_bounds t st subscribed :
  batch_terms t st -> batch_rates st subscribed -> 0 <= subscribed ->
  (0 <= carbon_rate st t /\ carbon_rate st t * subscribed <= ba_carbon_total st * FIXED_POINT) /\
  (0 <= bio_rate st t /\ bio_rate st t * subscribed <= ba_biodiversity_total st * FIXED_POINT).
Proof.
  intros [[Hc Hc0] [Hb Hb0] Ht] (H1&H2&H3) Hs.
  apply rate_of_bound in H1, H2, H3; [|lia..].
  unfold carbon_rate, bio_rate, FIXED_POINT in *.
  destruct t; simpl in *; try specialize (Hc0 eq_refl); try specialize (Hb0 eq_refl); split; split; lia.
Qed.

(** What the loop did to the sums, when no product left the width. *)
Record exact_batch (t : CreditType.CreditType) (st : BatchState) (subscribed : Z) (a0 a : Tally) : Prop := {
  eb_processed : ta_processed a0 <= ta_processed a <= Z.max subscribed (ta_processed a0);
  eb_total : ta_total a - ta_total a0 = (ta_carbon a - ta_carbon a0) + (ta_bio a - ta_bio a0);
  eb_carbon : (ta_carbon a - ta_carbon a0) * FIXED_POINT <=
              carbon_rate st t * (ta_processed a - ta_processed a0);
  eb_bio : (ta_bio a - ta_bio a0) * FIXED_POINT <=
           bio_rate st t * (ta_processed a - ta_processed a0);
}.

Lemma exact_share_bound t st bal :
  products_fit st bal ->
  (exact_share st t bal).1 * FIXED_POINT <= carbon_rate st t * bal /\
  (exact_share st t bal).2 * FIXED_POINT <= bio_rate st t * bal.
Proof.
  intros (H1&H2&H3). unfold exact_share, carbon_rate, bio_rate.
  destruct t; cbn [fst snd]; split; try apply quot_share_bound; lia.
Qed.

Section exact.
Context {W : Type} `{!World W} `{!BondReader W} `{!OracleReader W} `{!RegistryReader W}.
Local Abbreviation state := (cstate DataKey ty Event W).
Implicit Types (s : state) (e : Env).

Lemma exact_batch_step b p t st subscribed a0 a h bal e s s' a' :
  batch_terms t st -> batch_rates st subscribed -> 0 <= ta_processed a0 ->
  exact_batch t st subscribed a0 a ->
  process_holder b p st subscribed t a (h, bal) e s = Ok a' s' ->
  exact_batch t st subscribed a0 a'.
Proof.
  intros Htm Hrt H0 [[Hp Hp'] Ht Hc Hb] H.
  apply process_holder_Ok in H as [(->&l&->)|(_&Hbal&Hle&sum&c&d&l&_&_&_&_&Hpr&Htot&Hac&Hab&Hex&_&_)];
    [by split|].
  pose proof (rates_fit t st subscribed bal Htm Hrt ltac:(lia)) as Hfit.
  destruct (Hex Hfit) as [-> Heq]. pose proof (exact_share_bound t st bal Hfit) as [Hx Hy].
  rewrite <- Heq in Hx, Hy. simpl in Hx, Hy. split; rewrite ?Hpr, ?Htot, ?Hac, ?Hab; lia.
Qed.

Lemma exact_batch_loop b p t st subscribed holders a0 e s0 s a :
  batch_terms t st -> batch_rates st subscribed -> 0 <= ta_processed a0 ->
  mfold (process_holder b p st subscribed t) a0 holders e s0 = Ok a s ->
  exact_batch t st subscribed a0 a.
Proof.
  intros Htm Hrt H0. apply (mfold_Ok_ind (fun a _ => exact_batch t st subscribed a0 a)).
  - intros acc [h bal] s1 acc' s1' Hb Hp. by eapply exact_batch_step.
  - split; lia.
Qed.

(** ** Loading, accumulating and closing a batch *)

Lemma compute_biodiversity_nonneg m :
  match m with Absent => True | Present (h, sp, u) => 0 <= h /\ 0 <= sp /\ 0 <= u end ->
  0 <= compute_biodiversity_credits m.
Proof.
  destruct m as [|[[h sp] u]]; simpl; [lia|]. intros (?&?&?).
  assert (Hs : forall z, 0 <= z -> 0 <= saturating I128 z).
  { intros z Hz. unfold saturating. pose proof (int_lo_hi I128). lia. }
  unfold HABITAT_CREDIT_RATE, SPECIES_CREDIT_RATE, UNIT_CREDIT_RATE. apply Z.quot_pos; [|lia].
  apply Hs. pose proof (Hs (h * 1000000)). pose proof (Hs (sp * 100000)). pose proof (Hs (u * 1000000)).
  apply Z.add_nonneg_nonneg; [apply Hs; lia|lia].
Qed.

Lemma report_totals_Ok t rep e s cb s' :
  @report_totals W t rep e s = Ok cb s' -> report_nonneg rep ->
  s' = s /\ 0 <= cb.1 /\ 0 <= cb.2 /\
  (has_side t CreditType.Carbon = false -> cb.1 = 0) /\
  (has_side t CreditType.Biodiversity = false -> cb.2 = 0).
Proof.
  intros H [Hc Hm]. unfold report_totals, CREDIT_DIVISOR in H.
  assert (0 <= Z.quot (rp_carbon_sequestered rep) 1000) by (apply Z.quot_pos; lia).
  apply compute_biodiversity_nonneg in Hm.
  destruct t, (rp_biodiversity rep) eqn:Hr; inv_ok H; simpl; split_and!; try done.
Qed.

Lemma per_token_Ok total sub e s r s' :
  @per_token W total sub e s = Ok r s' -> s' = s /\ (overflow_checks e = true -> rate_of total sub r).
Proof.
  intros H. unfold per_token, rate_of in *. destruct (_ && _); inv_ok H; [|done].
  split; [done|]. intros Hov. match goal with Hx : overflow_checks e = true -> _ = _ |- _ => rewrite Hx in * by done end.
  match goal with Hx : in_range I128 _ = true |- _ => apply in_range_spec in Hx end. split; [done|lia].
Qed.

(** A batch as [start_batch] creates it. *)
Definition new_batch (t : CreditType.CreditType) (r : Z) (st : BatchState) : Prop :=
  ba_report_id st = r /\ ba_distributed_so_far st = 0 /\ ba_carbon_distributed_so_far st = 0 /\
  ba_bio_distributed_so_far st = 0 /\ batch_terms t st.

Lemma report_totals_worth t rep e s cb s' :
  @report_totals W t rep e s = Ok cb s' -> report_nonneg rep -> cb = worth t rep.
Proof.
  intros H [Hc Hb]. assert (Hcarbon : Z.quot (rp_carbon_sequestered rep) CREDIT_DIVISOR = carbon_worth rep)
    by (by apply Z.quot_div_nonneg).
  unfold report_totals, worth in *. rewrite Hcarbon in H.
  destruct t, (rp_biodiversity rep) eqn:Hm; inv_ok H; rewrite ?compute_biodiversity_worth; unfold biodiversity_worth; rewrite ?Hm; done.
Qed.

(** The batch [st] was set up from a verified report of the bond's project. *)
Definition sourced s (b r : Z) (t : CreditType.CreditType) (st : BatchState) : Prop :=
  exists rep pid, fetched s r rep /\ rp_status rep = ReportStatus.Verified /\
    sget (DataKey.BondProject b) (inst s) = Some pid /\ rp_project_metadata_hash rep = pid /\
    (ba_carbon_total st, ba_biodiversity_total st) = worth t rep.

(** How [load_batch] gets the batch [st] with snapshot [(sub, pr)]. *)
Definition loaded (b p r : Z) (t : CreditType.CreditType) (e : Env) s (st : BatchState) (sub pr : Z) s1 : Prop :=
  inst s1 = inst s /\ wstep (world s) (world s1) /\
  ((batch_of s b p = Some st /\ ba_report_id st = r /\ snapshot_of s b p = Some (sub, pr) /\ pers s1 = pers s) \/
   (batch_of s b p = None /\ (new_batch t r st /\ sourced s b r t st) /\ pr = 0 /\ (overflow_checks e = true -> batch_rates st sub) /\
    pers s1 = sset (DataKey.DistributionBalance b p) (sub, 0) (sset (DataKey.BatchState b p) st (pers s)))).

Lemma start_batch_Ok b p r pid t e s x s1 :
  start_batch b p r pid t e s = Ok x s1 -> batch_of s b p = None -> sget (DataKey.BondProject b) (inst s) = Some pid ->
  loaded b p r t e s x.1.1 x.1.2 x.2 s1.
Proof.
  intros H Hnone Hpid. unfold start_batch in H.
  apply bind_Ok in H as (rep&s2&(w&[Hrep Hfe]&Hw&->)%get_report_Ok&H).
  apply bind_Ok in H as ([]&s2&[Hver ->]%fail_if_Ok&H).
  apply bind_Ok in H as ([]&s2&[Hhash ->]%fail_if_Ok&H). guards.
  apply bind_Ok in H as (i&s2&[-> ->]%iget_Ok&H).
  apply bind_Ok in H as (iss&s2&[_ ->]%unwrap_Ok&H).
  apply bind_Ok in H as (sub&s2&(w2&Hw2&->)%invoke_Ok&H). apply call_total_subscribed_spec, wquiet_step in Hw2.
  apply bind_Ok in H as (cb&s2&Hcb&H). pose proof (report_totals_worth _ _ _ _ _ _ Hcb Hrep) as Hworth.
  apply report_totals_Ok in Hcb as (->&Hc&Hb&Hc0&Hb0); [|done].
  destruct cb as [ct bt]. simpl in Hc, Hb, Hc0, Hb0.
  apply bind_Ok in H as (total&s2&[Htot ->]%ok_or_Ok&H). guards.
  apply bind_Ok in H as (cpt&s2&[-> Hr1]%per_token_Ok&H).
  apply bind_Ok in H as (ccpt&s2&[-> Hr2]%per_token_Ok&H).
  apply bind_Ok in H as (bpt&s2&[-> Hr3]%per_token_Ok&H).
  inv_ok H. unfold loaded. host_cbn. cbn [fst snd]. split_and!; [done|by etransitivity|].
  right. split_and!; try done; [by eexists rep, _; split_and!|].
  intros Hov. unfold batch_rates. simpl. auto.
Qed.

Lemma load_batch_Ok b p r pid t e s x s1 :
  load_batch b p r pid t e s = Ok x s1 -> sget (DataKey.BondProject b) (inst s) = Some pid ->
  loaded b p r t e s x.1.1 x.1.2 x.2 s1.
Proof.
  intros H Hpid. unfold load_batch in H. apply bind_Ok in H as (o&s2&[-> ->]%pget_Ok&H).
  destruct (sget (DataKey.BatchState b p) (pers s)) as [st|] eqn:Hst.
  - inv_ok H. guards. unfold loaded. host_cbn. cbn [fst snd]. split_and!; [done..|].
    left. unfold batch_of, snapshot_of. split_and!; [done|lia| |done].
    match goal with Hx : sget _ _ = Some ?y |- _ => by destruct y end.
  - by apply start_batch_Ok in H.
Qed.

Definition accumulated (st : BatchState) (a : Tally) (st' : BatchState) : Prop :=
  ba_report_id st' = ba_report_id st /\
  ba_distributed_so_far st' = ba_distributed_so_far st + ta_total a /\
  ba_carbon_distributed_so_far st' = ba_carbon_distributed_so_far st + ta_carbon a /\
  ba_bio_distributed_so_far st' = ba_bio_distributed_so_far st + ta_bio a /\
  ba_total_credits st' = ba_total_credits st /\ ba_carbon_total st' = ba_carbon_total st /\
  ba_biodiversity_total st' = ba_biodiversity_total st /\
  ba_credits_per_token st' = ba_credits_per_token st /\
  ba_carbon_per_token st' = ba_carbon_per_token st /\
  ba_biodiversity_per_token st' = ba_biodiversity_per_token st.

Lemma accumulate_Ok st a e s st' s' :
  @accumulate W st a e s = Ok st' s' -> accumulated st a st' /\ s' = s.
Proof. intros H. unfold accumulate in H. inv_ok H. guards. unfold accumulated. simpl. by split_and!. Qed.
End exact.

(** What closing a period adds to the dust entries. *)
Definition add_dust (b v : Z) (m : store DataKey ty) : store DataKey ty :=
  if 0 <? v then sset (DataKey.UndistributedTotal b) (default 0 (sget (DataKey.UndistributedTotal b) m) + v) m
  else m.
Definition add_dust_by (b : Z) (t : CreditType.CreditType) (v : Z) (m : store DataKey ty) : store DataKey ty :=
  if 0 <? v then sset (DataKey.UndistributedByType b t)
                   (default 0 (sget (DataKey.UndistributedByType b t) m) + v) m
  else m.

(** The store after [finalise]. *)
Definition closed (b p : Z) (info : PeriodInfo) (und cu bu count : Z) (m : store DataKey ty) : store DataKey ty :=
  sdel (DataKey.DistributionBalance b p) (sdel (DataKey.BatchState b p)
    (sset (DataKey.PeriodCount b) count
      (add_dust_by b CreditType.Biodiversity bu (add_dust_by b CreditType.Carbon cu (add_dust b und
        (sset (DataKey.PeriodInfo b p) info m)))))).

Section finalise.
Context {W : Type} `{!World W} `{!BondReader W} `{!OracleReader W} `{!RegistryReader W}.
Local Abbreviation state := (cstate DataKey ty Event W).
Implicit Types (s : state) (e : Env).

Lemma add_undistributed_Ok b v e s u s' :
  @add_undistributed W b v e s = Ok u s' -> exists l, s' = put_live l (with_pers (add_dust b v (pers s)) s).
Proof.
  intros H. unfold add_undistributed, add_dust in *. inv_ok H; guards.
  - destruct (Z.ltb_spec 0 v); [|lia]. by eexists.
  - destruct (Z.ltb_spec 0 v); [lia|]. eexists (live s). by destruct s.
Qed.

Lemma add_undistributed_by_Ok b t v e s u s' :
  @add_undistributed_by_type W b t v e s = Ok u s' ->
  exists l, s' = put_live l (with_pers (add_dust_by b t v (pers s)) s).
Proof.
  intros H. unfold add_undistributed_by_type, add_dust_by in *. inv_ok H; guards.
  - destruct (Z.ltb_spec 0 v); [|lia]. by eexists.
  - destruct (Z.ltb_spec 0 v); [lia|]. eexists (live s). by destruct s.
Qed.

(** The dates of [info] are those of the verified report [r], if the oracle has it. *)
Definition dated s (r : Z) (info : PeriodInfo) : Prop := forall rep,
  fetched s r rep -> rp_status rep = ReportStatus.Verified ->
  pi_start_time info = rp_period_start rep /\ pi_end_time info = rp_period_end rep.

Lemma dated_before s (t : state) r info :
  inst t = inst s -> wstep (world s) (world t) -> dated t r info -> dated s r info.
Proof.
  intros Hi Hw Ht rep (o&Ho&Hr) Hv. apply Ht; [|done]. exists o. rewrite Hi. split; [done|]. by eapply report_record_stable.
Qed.

Lemma finalise_Ok b p r st sub pr e s res s' :
  finalise b p r st sub pr e s = Ok res s' ->
  pr = sub /\ inst s' = inst s /\ wstep (world s) (world s') /\
  exists info count,
    pi_distributed info = true /\ pi_report_id info = r /\
    pi_total_credits_earned info = ba_distributed_so_far st /\
    pi_undistributed info = ba_total_credits st - ba_distributed_so_far st /\ dated s r info /\
    pers s' = closed b p info (pi_undistributed info)
                (ba_carbon_total st - ba_carbon_distributed_so_far st)
                (ba_biodiversity_total st - ba_bio_distributed_so_far st) count (pers s).
Proof.
  intros H. unfold finalise in H.
  apply bind_Ok in H as ([]&s1&[Hpr ->]%fail_if_Ok&H).
  apply bind_Ok in H as (rep&s2&(w&[_ (o&Ho&Hrep)]&Hw&->)%get_report_Ok&H).
  apply bind_Ok in H as (und&s2&[Hund ->]%ok_or_Ok&H).
  apply bind_Ok in H as (cu&s2&[Hcu ->]%ok_or_Ok&H).
  apply bind_Ok in H as (bu&s2&[Hbu ->]%ok_or_Ok&H). guards.
  apply bind_Ok in H as ([]&s2&[l2 ->]%coupon_write_Ok&H).
  apply bind_Ok in H as ([]&s3&[l3 ->]%add_undistributed_Ok&H).
  apply bind_Ok in H as ([]&s4&[l4 ->]%add_undistributed_by_Ok&H).
  apply bind_Ok in H as ([]&s5&[l5 ->]%add_undistributed_by_Ok&H).
  inv_ok H. host_cbn. split_and!; [done..|].
  eexists (mkPeriodInfo p (rp_period_start rep) (rp_period_end rep) (ba_distributed_so_far st) true r
            (ba_total_credits st - ba_distributed_so_far st)), _. split_and!; try done.
  intros rep' (o'&Ho'&Hrep') _. rewrite Ho in Ho'. injection Ho' as <-. rewrite Hrep in Hrep'. by injection Hrep' as <-.
Qed.
End finalise.

(** ** Frames: the keys that carry payments *)

Definition pay_key (k : DataKey) : bool :=
  match k with
  | DataKey.AccruedCredits _ _ | DataKey.AccruedCreditsByType _ _ _ | DataKey.HolderDistributed _ _ _ => true
  | _ => false
  end.

Lemma held_sset_frame b k v (m : store DataKey ty) : pay_key k = false -> held_in (sset k v m) b = held_in m b.
Proof. intros Hk. apply held_frame. intros h ->. done. Qed.

Lemma held_sdel_frame b k (m : store DataKey ty) : pay_key k = false -> held_in (sdel k m) b = held_in m b.
Proof.
  intros Hk. unfold held_in. rewrite ssum_sdel. destruct k; try done; simpl; destruct (sget _ m); simpl; lia.
Qed.

Lemma sget_sset_frame k k' v (m : store DataKey ty) :
  pay_key k = true -> pay_key k' = false -> sget k (sset k' v m) = sget k m.
Proof. intros ??. apply sget_sset_ne. intros ->. congruence. Qed.

Lemma sget_sdel_frame k k' (m : store DataKey ty) :
  pay_key k = true -> pay_key k' = false -> sget k (sdel k' m) = sget k m.
Proof. intros ??. apply sget_sdel_ne. intros ->. congruence. Qed.

Lemma add_dust_frame b v k m : k <> DataKey.UndistributedTotal b -> sget k (add_dust b v m) = sget k m.
Proof. intros. unfold add_dust. destruct (_ <? _); [|done]. by rewrite sget_sset_ne. Qed.

Lemma add_dust_by_frame b t v k m : k <> DataKey.UndistributedByType b t -> sget k (add_dust_by b t v m) = sget k m.
Proof. intros. unfold add_dust_by. destruct (_ <? _); [|done]. by rewrite sget_sset_ne. Qed.

Lemma add_dust_held b v b' m : held_in (add_dust b v m) b' = held_in m b'.
Proof. unfold add_dust. destruct (_ <? _); [|done]. by rewrite held_sset_frame. Qed.

Lemma add_dust_by_held b t v b' m : held_in (add_dust_by b t v m) b' = held_in m b'.
Proof. unfold add_dust_by. destruct (_ <? _); [|done]. by rewrite held_sset_frame. Qed.

(** The period keys that closing a period writes. *)
Definition period_key (b p : Z) (k : DataKey) : Prop :=
  k = DataKey.DistributionBalance b p \/ k = DataKey.BatchState b p \/ k = DataKey.PeriodCount b \/
  k = DataKey.UndistributedTotal b \/ (exists t, k = DataKey.UndistributedByType b t) \/
  k = DataKey.PeriodInfo b p.

Lemma closed_frame b p info und cu bu count k m :
  ~ period_key b p k -> sget k (closed b p info und cu bu count m) = sget k m.
Proof.
  intros Hk. unfold closed.
  rewrite !sget_sdel_ne, sget_sset_ne, !add_dust_by_frame, add_dust_frame, sget_sset_ne;
    [done|intros ?; subst; apply Hk; unfold period_key; eauto 10..].
Qed.

Lemma closed_held b p info und cu bu count b' m :
  held_in (closed b p info und cu bu count m) b' = held_in m b'.
Proof.
  unfold closed. by rewrite !held_sdel_frame, held_sset_frame, !add_dust_by_held, add_dust_held, held_sset_frame.
Qed.

Lemma closed_dust b p info und cu bu count b' m :
  default 0 (sget (DataKey.UndistributedTotal b') (closed b p info und cu bu count m)) =
  default 0 (sget (DataKey.UndistributedTotal b') m) + (if decide (b = b') then Z.max 0 und else 0).
Proof.
  unfold closed. rewrite !sget_sdel_ne, sget_sset_ne, !add_dust_by_frame by congruence.
  unfold add_dust. destruct (Z.ltb_spec 0 und), (decide (b = b')) as [->|Hb];
    rewrite ?sget_sset_eq, ?sget_sset_ne by congruence; simpl; lia.
Qed.

Lemma add_dust_by_get b t v b' t' m :
  default 0 (sget (DataKey.UndistributedByType b' t') (add_dust_by b t v m)) =
  default 0 (sget (DataKey.UndistributedByType b' t') m) +
    (if decide (b = b' /\ t = t') then Z.max 0 v else 0).
Proof.
  unfold add_dust_by. destruct (Z.ltb_spec 0 v); [store_case|].
  - rewrite decide_True by done. simpl. lia.
  - rewrite decide_False by (intuition congruence). lia.
  - case_decide; lia.
Qed.

Lemma closed_dust_by b p info und cu bu count b' t m :
  default 0 (sget (DataKey.UndistributedByType b' t) (closed b p info und cu bu count m)) =
  default 0 (sget (DataKey.UndistributedByType b' t) m) +
    (if decide (b = b') then
       match t with CreditType.Carbon => Z.max 0 cu | CreditType.Biodiversity => Z.max 0 bu | _ => 0 end
     else 0).
Proof.
  unfold closed. rewrite !sget_sdel_ne, sget_sset_ne, !add_dust_by_get, add_dust_frame by congruence.
  rewrite sget_sset_ne by congruence.
  destruct (decide (b = b')) as [->|]; destruct t; repeat case_decide; intuition (congruence || lia).
Qed.

Section distribute.
Context {W : Type} `{!World W} `{!BondReader W} `{!OracleReader W} `{!RegistryReader W}.
Local Abbreviation state := (cstate DataKey ty Event W).
Implicit Types (s : state) (e : Env).

(** The signer [a] used the nonce [n] it had to use; [next] is the one stored. *)
Definition signed_by (e : Env) s (a : Address) (n next : Z) : Prop :=
  is_authorized e a = true /\ n = nonce_of s a /\ (in_range U64 (n + 1) = true -> next = n + 1).

(** The state after the prologue. *)
Definition after_nonce (a : Address) (next : Z) s s0 : Prop :=
  inst s0 = inst s /\ world s0 = world s /\ pers s0 = sset (DataKey.Nonce a) next (pers s).

(** What [distribute_coupon] leaves behind; [Q] holds of the record of a closed period. *)
Definition settled (Q : PeriodInfo -> Prop) (b p r : Z) (final : bool) (st' : BatchState) (sub processed : Z) (m m' : store DataKey ty) : Prop :=
  let stored := sset (DataKey.DistributionBalance b p) (sub, processed) (sset (DataKey.BatchState b p) st' m) in
  if final then
    processed = sub /\ exists info count,
      pi_distributed info = true /\ pi_report_id info = r /\
      pi_total_credits_earned info = ba_distributed_so_far st' /\
      pi_undistributed info = ba_total_credits st' - ba_distributed_so_far st' /\ Q info /\
      m' = closed b p info (pi_undistributed info)
             (ba_carbon_total st' - ba_carbon_distributed_so_far st')
             (ba_biodiversity_total st' - ba_bio_distributed_so_far st') count stored
  else m' = stored.

Lemma distribute_Ok a b p holders r n f e s res s' :
  distribute_coupon a b p holders r n f e s = Ok res s' ->
  exists next t st sub pr s0 s1 s2 acc st',
    signed_by e s a n next /\ sget DataKey.Admin (inst s) = Some a /\
    (forall info, period_of s b p = Some info -> pi_distributed info = false) /\
    type_of s b = Some t /\ after_nonce a next s s0 /\ loaded b p r t e s0 st sub pr s1 /\
    mfold (process_holder b p st sub t) (mkTally pr 0 0 0 0) holders e s1 = Ok acc s2 /\
    accumulated st acc st' /\
    inst s' = inst s /\ wstep (world s) (world s') /\
    settled (dated s r) b p r f st' sub (ta_processed acc) (pers s2) (pers s').
Proof.
  intros H. unfold distribute_coupon in H.
  apply bind_Ok in H as ([]&s0&[Hauth ->]%require_auth_Ok&H).
  apply bind_Ok in H as ([]&s0&(Hn&next&l&->&Hnx)%coupon_consume_nonce_Ok&H).
  set (s0 := put_live l (put_pers (DataKey.Nonce a) next s)) in *.
  apply bind_Ok in H as ([]&s1&[Hadm ->]%coupon_require_admin_Ok&H).
  apply bind_Ok in H as (ex&s1&[-> ->]%pget_Ok&H).
  apply bind_Ok in H as ([]&s1&[Hex ->]%fail_if_Ok&H).
  apply bind_Ok in H as (pj&s1&[-> ->]%iget_Ok&H).
  apply bind_Ok in H as (pid&s1&[Hpid ->]%ok_or_Ok&H).
  apply bind_Ok in H as (ct&s1&[-> ->]%iget_Ok&H).
  apply bind_Ok in H as (t&s1&[Ht ->]%ok_or_Ok&H).
  apply bind_Ok in H as ([[st sub] pr]&s1&Hl%load_batch_Ok&H); [|done]. cbn [fst snd] in Hl.
  apply bind_Ok in H as (acc&s2&Hloop&H).
  apply bind_Ok in H as (st'&s3&[Hacc ->]%accumulate_Ok&H).
  apply bind_Ok in H as ([]&s3&[l3 ->]%coupon_write_Ok&H).
  apply bind_Ok in H as ([]&s4&[l4 ->]%coupon_write_Ok&H).
  pose proof (batch_loop _ _ _ _ _ _ _ _ _ _ _ Hloop) as Hb.
  exists next, t, st, sub, pr, s0, s1, s2, acc, st'.
  assert (Hi2 : inst s2 = inst s) by (rewrite (bt_inst _ _ _ _ _ _ _ Hb); apply Hl).
  assert (Hw2 : wstep (world s) (world s2)) by (rewrite (bt_world _ _ _ _ _ _ _ Hb); apply Hl).
  assert (Hopen : forall info, period_of s b p = Some info -> pi_distributed info = false).
  { intros info Hinfo. unfold period_of in Hinfo. subst s0. host_cbn.
    rewrite sget_sset_ne in Hex by congruence. by rewrite Hinfo in Hex. }
  enough (inst s' = inst s /\ wstep (world s) (world s') /\
    settled (dated s r) b p r f st' sub (ta_processed acc) (pers s2) (pers s')) as (?&?&?).
  { split_and!; done. }
  destruct f.
  - apply finalise_Ok in H as (Hpr&Hi&Hw&info&count&?&?&?&?&Hdt&Hp). host_cbn. rewrite Hi.
    split_and!; [done|by etransitivity|]. split; [done|]. exists info, count. split_and!; try done.
    by eapply dated_before; [..|exact Hdt].
  - apply (ret_Ok _ res e) in H as [_ ->]. by split_and!.
Qed.

(** ** Payments of a call, seen on the balances *)

Record pay_effect (b p : Z) (t : CreditType.CreditType) s s' (c d : Z) : Prop := {
  pe_other : forall b' h, b' <> b ->
    accrued s' b' h = accrued s b' h /\ forall x, by_type s' b' h x = by_type s b' h x;
  pe_flag : forall h, paid_flag s b p h -> accrued s' b h = accrued s b h;
  pe_flag_keep : forall b' p' h, paid_flag s b' p' h -> paid_flag s' b' p' h;
  pe_new : forall h, accrued s' b h <> accrued s b h -> paid_flag s' b p h;
  pe_split : forall h, accrued s' b h - accrued s b h =
    (by_type s' b h CreditType.Carbon - by_type s b h CreditType.Carbon) +
    (by_type s' b h CreditType.Biodiversity - by_type s b h CreditType.Biodiversity);
  pe_grow : forall h x, by_type s b h x <= by_type s' b h x;
  pe_side : forall h x, has_side t x = false -> by_type s' b h x = by_type s b h x;
  pe_range : acc_range (pers s) -> acc_range (pers s');
  pe_held : forall b', held s' b' = held s b' + (if decide (b = b') then c + d else 0);
}.

(** The pay keys of a state are those of another. *)
Definition same_pay s s' : Prop :=
  (forall k, pay_key k = true -> sget k (pers s') = sget k (pers s)) /\ forall b, held s' b = held s b.

Lemma after_nonce_pay a next s s0 : after_nonce a next s s0 -> same_pay s s0.
Proof.
  intros (_&_&Hp). unfold same_pay, held. rewrite Hp. split.
  - intros k Hk. by rewrite sget_sset_frame.
  - intros b. by rewrite held_sset_frame.
Qed.

Lemma loaded_pay b p r t e s st sub pr s1 : loaded b p r t e s st sub pr s1 -> same_pay s s1.
Proof.
  intros (_&_&[(_&_&_&Hp)|(_&_&_&_&Hp)]); unfold same_pay, held; rewrite Hp; [done|].
  split; intros; by rewrite ?sget_sset_frame, ?held_sset_frame.
Qed.

Lemma settled_pay Q b p r f st' sub pr s s' : settled Q b p r f st' sub pr (pers s) (pers s') -> same_pay s s'.
Proof.
  unfold settled, same_pay, held. destruct f.
  - intros (_&info&count&_&_&_&_&_&->). split.
    + intros k Hk. rewrite closed_frame.
      * by rewrite !sget_sset_frame.
      * unfold period_key. intros [->|[->|[->|[->|[[t' ->]| ->]]]]]; done.
    + intros b'. by rewrite closed_held, !held_sset_frame.
  - intros ->. split; intros; by rewrite ?sget_sset_frame, ?held_sset_frame.
Qed.

Lemma same_pay_trans s s1 s2 : same_pay s s1 -> same_pay s1 s2 -> same_pay s s2.
Proof. intros [H1 H2] [H3 H4]. split; intros; [rewrite H3, H1 by done|rewrite H4, H2]; done. Qed.

(** A batch framed by steps that do not touch payments. *)
Lemma batch_pay_effect b p t s s1 a0 s2 a s' :
  same_pay s s1 -> batch b p t s1 a0 s2 a -> same_pay s2 s' ->
  pay_effect b p t s s' (ta_carbon a - ta_carbon a0) (ta_bio a - ta_bio a0).
Proof.
  intros [Hp1 Hh1] [_ _ Hfr Hfl Hnew Hsp Hg Hsi Hsum _ _ Hrg] [Hp2 Hh2].
  assert (Hacc1 : forall b' h, accrued s1 b' h = accrued s b' h) by (intros; unfold accrued; by rewrite Hp1).
  assert (Hacc2 : forall b' h, accrued s' b' h = accrued s2 b' h) by (intros; unfold accrued; by rewrite Hp2).
  assert (Hbt1 : forall b' h x, by_type s1 b' h x = by_type s b' h x) by (intros; unfold by_type; by rewrite Hp1).
  assert (Hbt2 : forall b' h x, by_type s' b' h x = by_type s2 b' h x) by (intros; unfold by_type; by rewrite Hp2).
  assert (Hf1 : forall b' p' h, paid_flag s1 b' p' h <-> paid_flag s b' p' h) by (intros; unfold paid_flag; by rewrite Hp1).
  assert (Hf2 : forall b' p' h, paid_flag s' b' p' h <-> paid_flag s2 b' p' h) by (intros; unfold paid_flag; by rewrite Hp2).
  split.
  - intros b' h Hb'. rewrite Hacc2, <- Hacc1. split; [|intros x; rewrite Hbt2, <- Hbt1].
    + unfold accrued. by rewrite Hfr by congruence.
    + unfold by_type. by rewrite Hfr by congruence.
  - intros h Hf. rewrite Hacc2, <- Hacc1. by apply Hfl, Hf1.
  - intros b' p' h Hf. apply Hf2. apply Hf1 in Hf.
    destruct (decide (b' = b /\ p' = p)) as [[-> ->]|Hne]; [by apply Hfl|].
    unfold paid_flag in *. rewrite Hfr; [done|congruence..|]. intros h' [= -> -> _]. tauto.
  - intros h. rewrite Hf2, Hacc2, <- Hacc1. apply Hnew.
  - intros h. rewrite !Hbt2, !Hacc2, <- !Hbt1, <- Hacc1. apply Hsp.
  - intros h x. rewrite Hbt2, <- Hbt1. apply Hg.
  - intros h x Hx. rewrite Hbt2, <- Hbt1. by apply Hsi.
  - intros Hr b' h. rewrite Hp2 by done. apply Hrg. intros b1 h1. rewrite Hp1 by done. apply Hr.
  - intros b'. rewrite Hh2, <- Hh1. specialize (Hsum b'). case_decide; lia.
Qed.
End distribute.

(** What a claim does to the per-type entries. *)
Definition cleared (t : CreditType.CreditType) (b : Z) (h : Address) (m : store DataKey ty) : store DataKey ty :=
  match t with
  | CreditType.Carbon | CreditType.BlueCarbon => sset (DataKey.AccruedCreditsByType b h CreditType.Carbon) 0 m
  | CreditType.Biodiversity => sset (DataKey.AccruedCreditsByType b h CreditType.Biodiversity) 0 m
  | CreditType.Basket =>
      sset (DataKey.AccruedCreditsByType b h CreditType.Biodiversity) 0
        (sset (DataKey.AccruedCreditsByType b h CreditType.Carbon) 0 m)
  end.

(** What a sweep does to the dust entries. *)
Definition swept (b : Z) (m : store DataKey ty) : store DataKey ty :=
  sset (DataKey.UndistributedByType b CreditType.Biodiversity) 0
    (sset (DataKey.UndistributedByType b CreditType.Carbon) 0
      (sset (DataKey.UndistributedTotal b) 0 m)).

Section operations.
Context {W : Type} `{!World W} `{!BondReader W} `{!OracleReader W} `{!RegistryReader W}.
Local Abbreviation state := (cstate DataKey ty Event W).
Implicit Types (s : state) (e : Env).

(** The credits a bond of type [t] keeps for a holder. *)
Definition by_sides s (b : Z) (h : Address) (t : CreditType.CreditType) : Z :=
  (if has_side t CreditType.Carbon then by_type s b h CreditType.Carbon else 0) +
  (if has_side t CreditType.Biodiversity then by_type s b h CreditType.Biodiversity else 0).

Lemma register_bond_Ok a b pid n e s u s' :
  register_bond a b pid n e s = Ok u s' ->
  exists next iss c, signed_by e s a n next /\ sget DataKey.Admin (inst s) = Some a /\
    sget DataKey.BondIssuerAddress (inst s) = Some iss /\
    bond_config (world s') iss b = Some c /\ bc_project_id c = pid /\
    wstep (world s) (world s') /\
    inst s' = sset (DataKey.BondCreditType b) (bc_credit_type c) (sset (DataKey.BondProject b) pid (inst s)) /\
    pers s' = sset (DataKey.Nonce a) next (pers s).
Proof.
  intros H. unfold register_bond in H. inv_ok H. guards. host_simp.
  repeat match goal with
  | Hc : call_get_bond _ _ _ _ = _ |- _ => apply call_get_bond_spec in Hc as [? ?%wquiet_step]
  | Hc : call_status_by_hash _ _ _ _ = _ |- _ => apply call_status_by_hash_spec, wquiet_step in Hc
  end.
  match goal with Hc : bond_config _ ?i _ = Some ?c |- _ => exists next, i, c end.
  unfold signed_by, nonce_of. split_and!; try done.
  - eapply bond_config_stable; [|done]. by etransitivity.
  - by etransitivity.
Qed.

Lemma accrued_by_type_Ok b h t e s v s' :
  accrued_credits_by_type b h t e s = Ok v s' -> v = by_type s b h (storage_type t) /\ exists l, s' = put_live l s.
Proof. intros H. unfold accrued_credits_by_type in H. inv_ok H. split; [done|by eexists]. Qed.

Lemma claim_breakdown_Ok a b v ct e s x s' :
  claim_breakdown a b v ct e s = Ok x s' ->
  exists t l, ct = Some t /\ s' = put_live l s /\ by_sides s b a t = v.
Proof.
  intros H. unfold claim_breakdown in H. destruct ct as [t|]; [|by inv_ok H].
  destruct t; repeat match type of H with
    | bind (accrued_credits_by_type _ _ _) _ _ _ = _ =>
        let l := fresh "l" in apply bind_Ok in H as (?&?&(->&l&->)%accrued_by_type_Ok&H)
    end; inv_ok H; guards; eexists _, _; (split_and!; [done|done|]);
    unfold by_sides; cbn [has_side storage_type] in *; unfold by_type in *; host_cbn; lia.
Qed.

Lemma claim_clear_Ok a b t e s u s' :
  claim_clear a b (Some t) e s = Ok u s' ->
  exists l, s' = put_live l (with_pers (cleared t b a (pers s)) s).
Proof. intros H. unfold claim_clear, clear_accrued in H. destruct t; inv_ok H; by eexists. Qed.

Lemma claim_Ok a b n e s v s' :
  claim_credits a b n e s = Ok v s' ->
  v = accrued s b a /\ inst s' = inst s /\ world s' = world s /\
  exists next, signed_by e s a n next /\
    ((v <= 0 /\ pers s' = sset (DataKey.Nonce a) next (pers s)) \/
     (exists t, 0 < v /\ type_of s b = Some t /\ by_sides s b a t = v /\
        pers s' = cleared t b a (sset (DataKey.AccruedCredits b a) 0 (sset (DataKey.Nonce a) next (pers s))))).
Proof.
  intros H. unfold claim_credits in H.
  apply bind_Ok in H as ([]&s1&[Hauth ->]%require_auth_Ok&H).
  apply bind_Ok in H as ([]&s1&(Hn&next&l&->&Hnx)%coupon_consume_nonce_Ok&H).
  apply bind_Ok in H as (o&s1&[-> ->]%pget_Ok&H). apply bind_Ok in H as (ct&s1&[-> ->]%iget_Ok&H).
  cbn zeta in H. host_cbn. rewrite sget_sset_ne in H by congruence. fold (accrued s b a) in H.
  apply bind_Ok in H as ([ca ba]&s1&Hbody&H).
  assert (Hfin : v = accrued s b a /\ inst s' = inst s1 /\ world s' = world s1 /\ pers s' = pers s1).
  { destruct (sget (DataKey.BondCreditType b) (inst s)) as [[]|]; inv_ok H; done. }
  clear H. destruct Hfin as (->&->&->&->).
  assert (Hsig : signed_by e s a n next) by by split.
  destruct (Z.ltb_spec 0 (accrued s b a)) as [Hpos|Hneg].
  - apply bind_Ok in Hbody as (amts&s2&(t&l2&Hct&->&Hsum)%claim_breakdown_Ok&H).
    apply bind_Ok in H as ([]&s2&[l3 ->]%coupon_write_Ok&H). rewrite Hct in H.
    apply bind_Ok in H as ([]&s2&[l4 ->]%claim_clear_Ok&H). apply (ret_Ok amts _ e) in H as [_ ->].
    split_and!; [done..|]. exists next. split; [done|]. right. exists t. split_and!; try done.
    rewrite <- Hsum. unfold by_sides, by_type. host_cbn. by rewrite !sget_sset_ne by congruence.
  - apply (ret_Ok _ (ca, ba) e) in Hbody as [_ ->]. split_and!; [done..|].
    exists next. split; [done|]. left. done.
Qed.

Lemma when_accrue_Ok b h t v e s u s' :
  when (0 <? v) (accrue_credits b h t v) e s = Ok u s' ->
  exists l, s' = put_live l (with_pers (accrue_if b h t v (pers s)) s) /\
    (acc_range (pers s) -> acc_range (pers s')).
Proof.
  unfold when, accrue_if. destruct (0 <? v); intros H.
  - by apply accrue_credits_Ok in H.
  - apply (ret_Ok _ u e) in H as [_ ->]. exists (live s). by destruct s.
Qed.

Lemma move_dust_Ok b dst c d e s u s' :
  move_dust b dst c d e s = Ok u s' ->
  exists l, s' = put_live l (with_pers (credit b dst c d (swept b (pers s))) s) /\
    (acc_range (pers s) -> acc_range (pers s')).
Proof.
  intros H. unfold move_dust in H.
  apply bind_Ok in H as ([]&s1&[l1 ->]%coupon_write_Ok&H).
  apply bind_Ok in H as ([]&s1&[l2 ->]%coupon_write_Ok&H).
  apply bind_Ok in H as ([]&s1&[l3 ->]%coupon_write_Ok&H).
  assert (Hsw : acc_range (pers s) -> acc_range (swept b (pers s))).
  { intros Hr. unfold swept. by do 3 (apply acc_range_sset_ne; [done|]). }
  apply bind_Ok in H as ([]&s1&(l4&->&Hr1)%when_accrue_Ok&(l5&->&Hr2)%when_accrue_Ok).
  exists l5. split; [done|]. auto.
Qed.

Lemma sweep_Ok a b dst n e s rc s' :
  sweep_undistributed a b dst n e s = Ok rc s' ->
  exists next, signed_by e s a n next /\ sget DataKey.Admin (inst s) = Some a /\
    inst s' = inst s /\ world s' = world s /\
    dust s b = dust_by_type s b CreditType.Carbon + dust_by_type s b CreditType.Biodiversity /\
    sr_amount rc = dust s b /\ sr_destination rc = dst /\
    ((dust s b = 0 /\ pers s' = sset (DataKey.Nonce a) next (pers s)) \/
     (dust s b <> 0 /\
      pers s' = credit b dst (dust_by_type s b CreditType.Carbon) (dust_by_type s b CreditType.Biodiversity)
                  (swept b (sset (DataKey.Nonce a) next (pers s))) /\
      (acc_range (pers s) -> acc_range (pers s')))).
Proof.
  intros H. unfold sweep_undistributed in H.
  apply bind_Ok in H as ([]&s1&[Hauth ->]%require_auth_Ok&H).
  apply bind_Ok in H as ([]&s1&(Hn&next&l&->&Hnx)%coupon_consume_nonce_Ok&H).
  apply bind_Ok in H as ([]&s1&[Hadm ->]%coupon_require_admin_Ok&H).
  apply bind_Ok in H as (o1&s1&[-> ->]%pget_Ok&H). apply bind_Ok in H as (o2&s1&[-> ->]%pget_Ok&H).
  apply bind_Ok in H as (o3&s1&[-> ->]%pget_Ok&H). cbn zeta in H. host_cbn.
  rewrite !sget_sset_ne in H by congruence.
  fold (dust s b) (dust_by_type s b CreditType.Carbon) (dust_by_type s b CreditType.Biodiversity) in H.
  apply bind_Ok in H as (sum&s1&[Hsum ->]%ok_or_Ok&H). guards.
  apply bind_Ok in H as ([]&s1&[Heq ->]%fail_if_Ok&H). guards.
  exists next. split; [by split|]. split; [done|].
  destruct (Z.eqb_spec (dust s b) 0) as [Hz|Hnz].
  - apply (ret_Ok _ rc e) in H as [-> ->]. split_and!; try done. by left.
  - apply bind_Ok in H as ([]&s1&(l1&->&Hrg)%move_dust_Ok&H). inv_ok H. host_cbn.
    split_and!; try done. right. split_and!; [done..|]. intros Hr. apply Hrg.
    by apply acc_range_sset_ne.
Qed.

Lemma register_deduct_Ok a d n e s u s' :
  @register_deduct_caller W a d n e s = Ok u s' ->
  exists next, signed_by e s a n next /\ sget DataKey.Admin (inst s) = Some a /\ world s' = world s /\
    inst s' = sset DataKey.DeductCaller d (inst s) /\ pers s' = sset (DataKey.Nonce a) next (pers s).
Proof.
  intros H. unfold register_deduct_caller in H. inv_ok H. host_cbn. eexists. by split_and!.
Qed.

Lemma deduct_Ok b h amt t e s v s' :
  deduct_credits b h amt t e s = Ok v s' -> acc_range (pers s) ->
  (forall x, by_type s b h x <= int_hi I128) ->
  exists d, sget DataKey.DeductCaller (inst s) = Some d /\ is_authorized e d = true /\
    0 < amt /\ amt <= accrued s b h /\ amt <= by_type s b h (storage_type t) /\
    v = accrued s b h - amt /\ inst s' = inst s /\ world s' = world s /\
    events s' = events s ++ [credits_deducted b h amt t] /\
    pers s' = sset (DataKey.AccruedCreditsByType b h (storage_type t)) (by_type s b h (storage_type t) - amt)
                (sset (DataKey.AccruedCredits b h) (accrued s b h - amt) (pers s)).
Proof.
  intros H Hr Hb. unfold deduct_credits in H. inv_ok H. guards. host_cbn.
  specialize (Hr b h). specialize (Hb (storage_type t)). unfold accrued, by_type in *.
  repeat match goal with
  | Hx : in_range I128 ?z = true -> _ = ?z |- _ =>
      rewrite Hx in * by (apply in_range_spec; cbn [int_lo int_hi] in *; lia); clear Hx
  end.
  eexists. split_and!; eauto; lia.
Qed.
End operations.

Section views_of_distribution.
Context {W : Type} `{!World W} `{!BondReader W} `{!OracleReader W} `{!RegistryReader W}.
Local Abbreviation state := (cstate DataKey ty Event W).
Implicit Types (s : state) (e : Env).

(** Where the batch of a distribution call comes from. *)
Definition batch_source (b p r : Z) (t : CreditType.CreditType) (e : Env) s (st : BatchState) (sub pr : Z) : Prop :=
  (batch_of s b p = Some st /\ ba_report_id st = r /\ snapshot_of s b p = Some (sub, pr)) \/
  (batch_of s b p = None /\ (new_batch t r st /\ sourced s b r t st) /\ pr = 0 /\ (overflow_checks e = true -> batch_rates st sub)).

(** How the call leaves the period. *)
Definition period_outcome (b p r : Z) (final : bool) s s' (st' : BatchState) (sub processed : Z) : Prop :=
  if final then
    processed = sub /\ batch_of s' b p = None /\ snapshot_of s' b p = None /\
    (exists info, period_of s' b p = Some info /\ pi_distributed info = true /\ pi_report_id info = r /\
       pi_total_credits_earned info = ba_distributed_so_far st' /\
       pi_undistributed info = ba_total_credits st' - ba_distributed_so_far st' /\ dated s r info) /\
    dust s' b = dust s b + Z.max 0 (ba_total_credits st' - ba_distributed_so_far st') /\
    (forall x, dust_by_type s' b x = dust_by_type s b x +
       match x with
       | CreditType.Carbon => Z.max 0 (ba_carbon_total st' - ba_carbon_distributed_so_far st')
       | CreditType.Biodiversity => Z.max 0 (ba_biodiversity_total st' - ba_bio_distributed_so_far st')
       | _ => 0
       end)
  else
    batch_of s' b p = Some st' /\ snapshot_of s' b p = Some (sub, processed) /\
    period_of s' b p = period_of s b p /\
    dust s' b = dust s b /\ forall x, dust_by_type s' b x = dust_by_type s b x.

(** Everything a distribution call did, on the views. *)
Record dist_view (a : Address) (b p r n : Z) (f : bool) (e : Env) s s' (next : Z) (t : CreditType.CreditType)
    (st st' : BatchState) (sub pr : Z) (acc : Tally) : Prop := {
  dv_signed : signed_by e s a n next;
  dv_admin : sget DataKey.Admin (inst s) = Some a;
  dv_open : forall info, period_of s b p = Some info -> pi_distributed info = false;
  dv_type : type_of s b = Some t;
  dv_inst : inst s' = inst s;
  dv_world : wstep (world s) (world s');
  dv_nonce : forall a', nonce_of s' a' = if decide (a = a') then next else nonce_of s a';
  dv_pay : pay_effect b p t s s' (ta_carbon acc) (ta_bio acc);
  dv_sides : 0 <= ta_carbon acc /\ 0 <= ta_bio acc /\
    (has_side t CreditType.Carbon = false -> ta_carbon acc = 0) /\
    (has_side t CreditType.Biodiversity = false -> ta_bio acc = 0);
  dv_source : batch_source b p r t e s st sub pr;
  dv_accumulated : accumulated st acc st';
  dv_exact : batch_terms t st -> batch_rates st sub -> 0 <= pr ->
    exact_batch t st sub (mkTally pr 0 0 0 0) acc;
  dv_outcome : period_outcome b p r f s s' st' sub (ta_processed acc);
  dv_other : forall b' p', (b', p') <> (b, p) ->
    batch_of s' b' p' = batch_of s b' p' /\ snapshot_of s' b' p' = snapshot_of s b' p' /\
    period_of s' b' p' = period_of s b' p';
  dv_other_dust : forall b', b' <> b ->
    dust s' b' = dust s b' /\ forall x, dust_by_type s' b' x = dust_by_type s b' x;
}.

(** Keys of periods and dust, through the prologue, the loading and the loop. *)
Lemma loop_frame a b p r t e s s0 s1 s2 next st sub pr acc a0 k :
  after_nonce a next s s0 -> loaded b p r t e s0 st sub pr s1 -> batch b p t s1 a0 s2 acc ->
  pay_key k = false -> (forall a, k <> DataKey.Nonce a) ->
  k <> DataKey.BatchState b p -> k <> DataKey.DistributionBalance b p ->
  sget k (pers s2) = sget k (pers s).
Proof.
  intros (_&_&Hp0) (_&_&Hl) Hb Hk Hn H1 H2.
  rewrite (bt_frame _ _ _ _ _ _ _ Hb) by (intros; intros ->; done).
  destruct Hl as [(_&_&_&->)|(_&_&_&_&->)]; rewrite ?sget_sset_ne, Hp0, sget_sset_ne by congruence; done.
Qed.

Lemma settled_frame Q b p r f st' sub pr m m' k :
  settled Q b p r f st' sub pr m m' -> ~ period_key b p k -> sget k m' = sget k m.
Proof.
  intros Hs Hk. unfold settled in Hs.
  assert (k <> DataKey.BatchState b p /\ k <> DataKey.DistributionBalance b p) as [H1 H2].
  { split; intros ->; apply Hk; unfold period_key; auto. }
  destruct f.
  - destruct Hs as (_&info&count&_&_&_&_&_&->). rewrite closed_frame by done. by rewrite !sget_sset_ne by congruence.
  - rewrite Hs. by rewrite !sget_sset_ne by congruence.
Qed.

Lemma settled_outcome b p r f st' sub pr s s2 s' :
  settled (dated s r) b p r f st' sub pr (pers s2) (pers s') ->
  (forall k, pay_key k = false -> (forall a, k <> DataKey.Nonce a) ->
     k <> DataKey.BatchState b p -> k <> DataKey.DistributionBalance b p ->
     sget k (pers s2) = sget k (pers s)) ->
  period_outcome b p r f s s' st' sub pr.
Proof.
  intros Hs Hfr. unfold settled, period_outcome in *.
  assert (Hd : dust s2 b = dust s b) by (unfold dust; by rewrite Hfr by done).
  assert (Hdt : forall x, dust_by_type s2 b x = dust_by_type s b x) by (intros; unfold dust_by_type; by rewrite Hfr by done).
  assert (Hp : period_of s2 b p = period_of s b p) by (unfold period_of; by rewrite Hfr by done).
  destruct f.
  - destruct Hs as (->&info&count&?&?&?&Hu&?&Hm). views. rewrite Hm.
    assert (Hpi : forall und cu bu m, sget (DataKey.PeriodInfo b p) (closed b p info und cu bu count m) = Some info).
    { intros. unfold closed. by rewrite !sget_sdel_ne, sget_sset_ne, !add_dust_by_frame, add_dust_frame, sget_sset_eq by congruence. }
    split_and!; [done|..].
    + unfold closed. rewrite sget_sdel_ne by congruence. by rewrite sget_sdel_eq.
    + unfold closed. by rewrite sget_sdel_eq.
    + exists info. by rewrite Hpi.
    + rewrite closed_dust, decide_True, !sget_sset_ne by congruence. by rewrite Hd, <- Hu.
    + intros x. rewrite closed_dust_by, decide_True, !sget_sset_ne by congruence. by rewrite Hdt.
  - views. rewrite Hs. rewrite sget_sset_eq.
    rewrite !(sget_sset_ne _ (DataKey.DistributionBalance b p)) by congruence. rewrite sget_sset_eq.
    rewrite !(sget_sset_ne _ (DataKey.BatchState b p)) by congruence. rewrite Hp, Hd.
    split_and!; try done. intros x. rewrite <- Hdt. by rewrite !sget_sset_ne by congruence.
Qed.

Lemma distribute_view a b p holders r n f e s res s' :
  distribute_coupon a b p holders r n f e s = Ok res s' ->
  exists next t st st' sub pr acc, dist_view a b p r n f e s s' next t st st' sub pr acc.
Proof.
  intros (next&t&st&sub&pr&s0&s1&s2&acc&st'&Hsig&Hadm&Hopen&Ht&Hn&Hl&Hloop&Hacc&Hi&Hw&Hset)%distribute_Ok.
  pose proof (batch_loop _ _ _ _ _ _ _ _ _ _ _ Hloop) as Hb.
  pose proof (fun k => loop_frame a b p r t e s s0 s1 s2 next st sub pr acc _ k Hn Hl Hb) as Hfr.
  pose proof (fun k => settled_frame _ b p r f st' sub _ _ _ k Hset) as Hsf.
  assert (Hpay : pay_effect b p t s s' (ta_carbon acc) (ta_bio acc)).
  { replace (ta_carbon acc) with (ta_carbon acc - 0) by lia. replace (ta_bio acc) with (ta_bio acc - 0) by lia.
    refine (batch_pay_effect b p t s s1 _ s2 acc s' _ Hb _).
    - eapply same_pay_trans; [by eapply after_nonce_pay|by eapply loaded_pay].
    - by eapply settled_pay. }
  assert (Hsrc : batch_source b p r t e s st sub pr).
  { destruct Hn as (Hi0&Hw0&Hp0). unfold batch_source, batch_of, snapshot_of.
    destruct Hl as (_&_&[(H1&H2&H3&_)|(H1&H2&H3&H4&_)]); unfold batch_of, snapshot_of in *;
      rewrite Hp0, sget_sset_ne in H1 by congruence; [left|right].
    2: { unfold sourced, fetched in *. rewrite Hi0, Hw0 in H2. done. }
    rewrite Hp0, sget_sset_ne in H3 by congruence. done. }
  exists next, t, st, st', sub, pr, acc. split; try done.
  - intros a'. unfold nonce_of. rewrite Hsf.
    2: { unfold period_key. intros [?|[?|[?|[?|[[??]|?]]]]]; done. }
    rewrite (bt_frame _ _ _ _ _ _ _ Hb) by done. destruct Hn as (_&_&Hp0).
    assert (Hs1 : sget (DataKey.Nonce a') (pers s1) = sget (DataKey.Nonce a') (pers s0)).
    { destruct Hl as (_&_&[(_&_&_&->)|(_&_&_&_&->)]); by rewrite ?sget_sset_ne by congruence. }
    rewrite Hs1, Hp0. case_decide as Ha; [subst; by rewrite sget_sset_eq|by rewrite sget_sset_ne by congruence].
  - destruct (bt_carbon _ _ _ _ _ _ _ Hb), (bt_bio _ _ _ _ _ _ _ Hb). by split_and!.
  - intros. eapply exact_batch_loop; eauto.
  - eapply settled_outcome; [done|]. intros. by apply Hfr.
  - intros b' p' Hne. views. rewrite !Hsf; [|unfold period_key; intros [?|[?|[?|[?|[[??]|?]]]]]; congruence..].
    assert (Hs1 : forall k, k = DataKey.BatchState b' p' \/ k = DataKey.DistributionBalance b' p' \/
        k = DataKey.PeriodInfo b' p' -> sget k (pers s2) = sget k (pers s)).
    { intros k Hk. apply Hfr; destruct Hk as [->|[->| ->]]; congruence || done. }
    rewrite !Hs1 by auto. done.
  - intros b' Hne. views. split; [|intros x]; rewrite Hsf, Hfr; try done;
      unfold period_key; intros [?|[?|[?|[?|[[??]|?]]]]]; congruence.
Qed.
End views_of_distribution.

Section invariant.
Context {W : Type} `{!World W} `{!BondReader W} `{!OracleReader W} `{!RegistryReader W}.
Local Abbreviation state := (cstate DataKey ty Event W).
Implicit Types (s : state) (e : Env).

(** ** The invariant of executions, in either build profile *)

(** No side that the registered type does not have. *)
Definition lacks s (b : Z) (x : CreditType.CreditType) : Prop :=
  forall t, type_of s b = Some t -> has_side t x = false.

Record inv (n : Z) (s : state) : Prop := {
  inv_split : forall b h, accrued s b h =
    by_type s b h CreditType.Carbon + by_type s b h CreditType.Biodiversity;
  inv_nonneg : forall b h x, 0 <= by_type s b h x;
  inv_range : acc_range (pers s);
  inv_dust : forall b, 0 <= dust s b /\ forall x, 0 <= dust_by_type s b x;
  inv_type : forall b t, type_of s b = Some t -> exists iss c,
    sget DataKey.BondIssuerAddress (inst s) = Some iss /\
    bond_config (world s) iss b = Some c /\ bc_credit_type c = t;
  inv_sides : forall b x, lacks s b x -> (forall h, by_type s b h x = 0) /\ dust_by_type s b x = 0;
  inv_batch : forall b p st, batch_of s b p = Some st -> exists t, type_of s b = Some t /\ batch_terms t st /\
    0 <= ba_carbon_distributed_so_far st /\ 0 <= ba_bio_distributed_so_far st /\
    (has_side t CreditType.Carbon = false -> ba_carbon_distributed_so_far st = 0) /\
    (has_side t CreditType.Biodiversity = false -> ba_bio_distributed_so_far st = 0);
  inv_nonce : forall a, 0 <= nonce_of s a <= n;
}.

(** The invariant depends on storage, and on the world only up to its steps. *)
Lemma coupon_inv_same n s t :
  inst t = inst s -> pers t = pers s -> wstep (world s) (world t) -> inv n s -> inv n t.
Proof.
  intros Hi Hp Hw [? ? ? ? Hty ? ? ?]. unfold acc_range, lacks in *. split; unfold lacks; views; rewrite ?Hi, ?Hp; auto.
  intros b ty0 Ht. destruct (Hty b ty0 Ht) as (iss&c&?&?&?).
  exists iss, c. split_and!; [done| |done]. by eapply bond_config_stable.
Qed.

Lemma coupon_inv_mono n s : inv n s -> inv (n + 1) s.
Proof. intros [? ? ? ? ? ? ? Hn]. split; auto. intros a. specialize (Hn a). lia. Qed.

Lemma coupon_inv_init s : deployed s -> inv 0 s.
Proof.
  intros (e&admin&issuer&oracle&registry&w&H). unfold constructor in H. inv_ok H.
  split; unfold acc_range, lacks; views; host_cbn; intros *; rewrite ?sget_empty; simpl; try done; try lia.
  rewrite !sget_sset_ne, sget_empty by congruence. done.
Qed.

(** An operation that only moves nonces and instance entries other than types. *)
Lemma coupon_nonce_step e n s a k next a' :
  n + 1 < 2 ^ 64 -> inv n s -> signed_by e s a k next ->
  0 <= (if decide (a = a') then next else nonce_of s a') <= n + 1.
Proof.
  intros Hn Hinv (_&->&Hnx). pose proof (inv_nonce n s Hinv a) as Ha. pose proof (inv_nonce n s Hinv a') as Ha'.
  case_decide; [|lia]. rewrite Hnx; [lia|]. apply in_range_spec; cbn [int_lo int_hi]; lia.
Qed.

Lemma after_nonce_get (a a' : Address) (next : Z) (m : store DataKey ty) :
  default 0 (sget (DataKey.Nonce a') (sset (DataKey.Nonce a) next m)) =
  if decide (a = a') then next else default 0 (sget (DataKey.Nonce a') m).
Proof. case_decide; subst; by store_simp. Qed.

Lemma coupon_inv_register n a b pid k e s u s' :
  n + 1 < 2 ^ 64 -> inv n s -> register_bond a b pid k e s = Ok u s' -> inv (n + 1) s'.
Proof.
  intros Hn Hinv H. apply register_bond_Ok in H as (next&iss&c&Hsig&_&Hiss&Hc&_&Hw&Hi&Hp).
  pose proof (fun a' => coupon_nonce_step e n s a k next a' Hn Hinv Hsig) as Hno.
  destruct Hinv as [Hsp Hnn Hr Hd Hty Hsi Hba _].
  assert (Htype : forall b', type_of s' b' = if decide (b = b') then Some (bc_credit_type c) else type_of s b').
  { intros b'. unfold type_of. rewrite Hi. case_decide; subst; by store_simp. }
  assert (Hmono : forall b' t, type_of s b' = Some t -> type_of s' b' = Some t).
  { intros b' t Ht. rewrite Htype. case_decide; [subst b'|done].
    destruct (Hty b t Ht) as (iss'&c'&Hiss'&Hc'&<-). simplify_eq.
    apply (bond_config_stable _ (world s')) in Hc'; [|done]. congruence. }
  assert (Hkeep : forall key, (forall a, key <> DataKey.Nonce a) -> sget key (pers s') = sget key (pers s)).
  { intros key Hk. rewrite Hp. by rewrite sget_sset_ne. }
  split.
  - intros b' h. unfold accrued, by_type. rewrite !Hkeep by done. apply Hsp.
  - intros b' h x. unfold by_type. rewrite !Hkeep by done. apply Hnn.
  - intros b' h. rewrite Hkeep by done. apply Hr.
  - intros b'. unfold dust, dust_by_type. setoid_rewrite Hkeep; [apply Hd|done..].
  - intros b' t. rewrite Htype. case_decide.
    + intros [= <-]. subst b'. exists iss, c. split_and!; [|done|done]. rewrite Hi. by store_simp.
    + intros Ht. destruct (Hty b' t Ht) as (iss'&c'&?&?&?). exists iss', c'. split_and!; [|by eapply bond_config_stable|done].
      rewrite Hi. by store_simp.
  - intros b' x Hl. unfold by_type, dust_by_type. setoid_rewrite Hkeep; [|done..]. apply Hsi. intros t Ht. by apply Hl, Hmono.
  - intros b' p st. unfold batch_of. rewrite Hkeep by done. intros Hst. destruct (Hba b' p st Hst) as (t&Ht&?).
    exists t. split; [by apply Hmono|done].
  - intros a'. unfold nonce_of. rewrite Hp, after_nonce_get. apply Hno.
Qed.

(** A distribution keeps a stored batch consistent with the bond's type. *)
Lemma batch_terms_accumulated t st acc st' :
  accumulated st acc st' -> batch_terms t st -> batch_terms t st'.
Proof. intros (_&_&_&_&H1&H2&H3&_) [? ? ?]. split; rewrite ?H1, ?H2, ?H3; done. Qed.

Lemma source_terms n b p r t e s st sub pr :
  inv n s -> type_of s b = Some t -> batch_source b p r t e s st sub pr ->
  batch_terms t st /\ 0 <= ba_carbon_distributed_so_far st /\ 0 <= ba_bio_distributed_so_far st /\
  (has_side t CreditType.Carbon = false -> ba_carbon_distributed_so_far st = 0) /\
  (has_side t CreditType.Biodiversity = false -> ba_bio_distributed_so_far st = 0).
Proof.
  intros Hinv Ht [(Hb&_&_)|(_&[(_&_&Hc&Hd&Htm) _]&_)].
  - destruct (inv_batch n s Hinv b p st Hb) as (t'&Ht'&?). rewrite Ht in Ht'. by simplify_eq.
  - rewrite Hc, Hd. by split_and!.
Qed.

Lemma inv_distribute n a b p holders r k f e s res s' :
  n + 1 < 2 ^ 64 -> inv n s -> distribute_coupon a b p holders r k f e s = Ok res s' -> inv (n + 1) s'.
Proof.
  intros Hn Hinv H. apply distribute_view in H as (next&t&st&st'&sub&pr&acc&[Hsig _ _ Ht Hi Hw Hno Hpay Hsides Hsrc Hacc _ Hout Hoth Hod]).
  pose proof (fun a' => coupon_nonce_step e n s a k next a' Hn Hinv Hsig) as Hnn'.
  destruct (source_terms _ _ _ _ _ _ _ _ _ _ Hinv Ht Hsrc) as (Htm&Hc0&Hd0&Hcz&Hdz).
  destruct Hsides as (Ha1&Ha2&Ha3&Ha4). pose proof Hacc as (_&_&Hcd&Hbd&_&Hct&Hbt&_).
  destruct Hinv as [Hsp Hnn Hr Hd Hty Hsi Hba _]. destruct Hpay as [Hpo _ _ _ Hps Hpg Hpz Hpr _].
  assert (Htype : forall b', type_of s' b' = type_of s b') by (intros; unfold type_of; by rewrite Hi).
  assert (Hdust : 0 <= dust s' b /\ (forall x, 0 <= dust_by_type s' b x) /\
     forall x, has_side t x = false -> dust_by_type s b x = 0 -> dust_by_type s' b x = 0).
  { destruct (Hd b) as [Hdb Hdx]. destruct Htm as [[Hct0 Hctz] [Hbt0 Hbtz] _]. unfold period_outcome in Hout. destruct f.
    - destruct Hout as (_&_&_&_&->&Hby). split_and!; [lia| |].
      + intros x. rewrite Hby. specialize (Hdx x). destruct x; lia.
      + intros x Hx Hz. rewrite Hby, Hz, Hcd, Hbd, Hct, Hbt. destruct x; try done;
          rewrite ?Hctz, ?Hcz, ?Ha3, ?Hbtz, ?Hdz, ?Ha4 by done; lia.
    - destruct Hout as (_&_&_&->&Hby). split_and!; [lia| |]; intros x; rewrite Hby; auto. }
  destruct Hdust as (Hdu1&Hdu2&Hdu3).
  split.
  - intros b' h. destruct (decide (b' = b)) as [->|Hne].
    + specialize (Hps h). specialize (Hsp b h). lia.
    + destruct (Hpo b' h Hne) as [-> Hx]. rewrite !Hx. apply Hsp.
  - intros b' h x. destruct (decide (b' = b)) as [->|Hne].
    + specialize (Hpg h x). specialize (Hnn b h x). lia.
    + destruct (Hpo b' h Hne) as [_ ->]. apply Hnn.
  - auto.
  - intros b'. destruct (decide (b' = b)) as [->|Hne]; [done|].
    destruct (Hod b' Hne) as [-> Hx]. setoid_rewrite Hx. apply Hd.
  - intros b' t' Ht'. rewrite Htype in Ht'. rewrite Hi. destruct (Hty b' t' Ht') as (iss&c&?&?&?).
    exists iss, c. split_and!; [done|by eapply bond_config_stable|done].
  - intros b' x Hl. assert (Hl' : lacks s b' x) by (intros t' Ht'; apply Hl; by rewrite Htype).
    destruct (Hsi b' x Hl') as [Hz Hz']. destruct (decide (b' = b)) as [->|Hne].
    + specialize (Hl' t Ht). split; [|by apply Hdu3]. intros h. rewrite Hpz by done. apply Hz.
    + destruct (Hod b' Hne) as [_ ->]. split; [|done]. intros h. destruct (Hpo b' h Hne) as [_ ->]. apply Hz.
  - intros b' p' st0 Hst0. destruct (decide ((b', p') = (b, p))) as [[= -> ->]|Hne].
    + exists t. rewrite Htype. split; [done|]. assert (st0 = st') as ->.
      { unfold period_outcome in Hout. destruct f; [by destruct Hout as (_&?&_); congruence|].
        destruct Hout as (?&_). congruence. }
      split; [by eapply batch_terms_accumulated|]. rewrite Hcd, Hbd. split_and!; try lia; intros; 
        rewrite ?Hcz, ?Ha3, ?Hdz, ?Ha4 by done; lia.
    + destruct (Hoth b' p' Hne) as (Heq&_&_). rewrite Heq in Hst0. rewrite Htype. eauto.
  - intros a'. rewrite Hno. apply Hnn'.
Qed.
End invariant.

(** Keys that differ in their arguments. *)
Ltac key_ne := let Hk := fresh in intros Hk; first [discriminate Hk | injection Hk; intros; subst; tauto].

Section preservation.
Context {W : Type} `{!World W} `{!BondReader W} `{!OracleReader W} `{!RegistryReader W}.
Local Abbreviation state := (cstate DataKey ty Event W).
Implicit Types (s : state) (e : Env).

(** Entries of the bond's batches and dust, and the world, are as before. *)
Lemma inv_balances n s s' :
  inv n s -> inst s' = inst s -> wstep (world s) (world s') ->
  (forall b h, accrued s' b h = by_type s' b h CreditType.Carbon + by_type s' b h CreditType.Biodiversity) ->
  (forall b h x, 0 <= by_type s' b h x) -> acc_range (pers s') ->
  (forall b, 0 <= dust s' b /\ forall x, 0 <= dust_by_type s' b x) ->
  (forall b x, lacks s b x -> (forall h, by_type s' b h x = 0) /\ dust_by_type s' b x = 0) ->
  (forall b p, batch_of s' b p = batch_of s b p) ->
  (forall a, 0 <= nonce_of s' a <= n + 1) -> inv (n + 1) s'.
Proof.
  intros [_ _ _ _ Hty _ Hba _] Hi Hw H1 H2 H3 H4 H5 H6 H7.
  assert (Htype : forall b, type_of s' b = type_of s b) by (intros; unfold type_of; by rewrite Hi).
  split; try done.
  - intros b t Ht. rewrite Htype in Ht. rewrite Hi. destruct (Hty b t Ht) as (iss&c&?&?&?).
    exists iss, c. split_and!; [done|by eapply bond_config_stable|done].
  - intros b x Hl. apply H5. intros t Ht. apply Hl. by rewrite Htype.
  - intros b p st Hst. rewrite H6 in Hst. rewrite Htype. eauto.
Qed.

(** Lookups in a cleared store. *)
Lemma cleared_by_type t b h b' h' x m :
  default 0 (sget (DataKey.AccruedCreditsByType b' h' x) (cleared t b h m)) =
  if decide (b = b' /\ h = h') then if has_side t x then 0 else default 0 (sget (DataKey.AccruedCreditsByType b' h' x) m)
  else default 0 (sget (DataKey.AccruedCreditsByType b' h' x) m).
Proof.
  case_decide as Hd.
  - destruct Hd as [-> ->]. unfold cleared. destruct t, x; simpl; by store_simp.
  - unfold cleared. destruct t; rewrite ?sget_sset_ne by key_ne; done.
Qed.

Lemma cleared_frame t b h k m :
  (forall x, k <> DataKey.AccruedCreditsByType b h x) -> sget k (cleared t b h m) = sget k m.
Proof. intros Hk. unfold cleared. destruct t; by rewrite ?sget_sset_ne by congruence. Qed.

(** A call that only consumed a nonce. *)
Lemma inv_nonce_only n s s' a next :
  inv n s -> inst s' = inst s -> world s' = world s -> pers s' = sset (DataKey.Nonce a) next (pers s) ->
  (forall a', 0 <= (if decide (a = a') then next else nonce_of s a') <= n + 1) -> inv (n + 1) s'.
Proof.
  intros Hinv Hi Hw Hp Hno. pose proof Hinv as [Hsp Hnn Hr Hd _ Hsi _ _].
  assert (Hfr : forall key, (forall a, key <> DataKey.Nonce a) -> sget key (pers s') = sget key (pers s)).
  { intros key Hk. rewrite Hp. by rewrite sget_sset_ne. }
  assert (Hbt : forall b h x, by_type s' b h x = by_type s b h x) by (intros; unfold by_type; by rewrite Hfr).
  assert (Hdt : forall b x, dust_by_type s' b x = dust_by_type s b x) by (intros; unfold dust_by_type; by rewrite Hfr).
  apply (inv_balances n s); rewrite ?Hi, ?Hw; try done.
  - intros b h. rewrite !Hbt, <- Hsp. unfold accrued. by rewrite Hfr.
  - intros b h x. by rewrite Hbt.
  - intros b h. by rewrite Hfr.
  - intros b. destruct (Hd b) as [Hd1 Hd2]. split; [|intros x; by rewrite Hdt].
    unfold dust in *. by rewrite Hfr.
  - intros b x Hl. destruct (Hsi b x Hl) as [Hz1 Hz2]. split; [intros h; by rewrite Hbt|by rewrite Hdt].
  - intros b p. unfold batch_of. by rewrite Hfr.
  - intros a'. unfold nonce_of. rewrite Hp, after_nonce_get. apply Hno.
Qed.

Lemma inv_claim n a b k e s v s' :
  n + 1 < 2 ^ 64 -> inv n s -> claim_credits a b k e s = Ok v s' -> inv (n + 1) s'.
Proof.
  intros Hn Hinv H. apply claim_Ok in H as (->&Hi&Hw&next&Hsig&Hcase).
  pose proof (fun a' => coupon_nonce_step e n s a k next a' Hn Hinv Hsig) as Hno.
  assert (Hkeep : forall key, pay_key key = false -> (forall a, key <> DataKey.Nonce a) ->
    sget key (pers s') = sget key (pers s)).
  { intros key Hk Hk'. destruct Hcase as [[_ ->]|(t&_&_&_&->)];
      [by rewrite sget_sset_ne|].
    rewrite cleared_frame by (intros x ->; done).
    rewrite !sget_sset_ne; [done|done|intros <-; done]. }
  assert (Hnon : forall a', nonce_of s' a' = if decide (a = a') then next else nonce_of s a').
  { intros a'. unfold nonce_of. destruct Hcase as [[_ ->]|(t&_&_&_&->)];
      [by rewrite after_nonce_get|]. by rewrite cleared_frame, sget_sset_ne, after_nonce_get by congruence. }
  pose proof Hinv as [Hsp Hnn Hr Hd _ Hsi _ _].
  assert (Hbt : forall b' h x, by_type s' b' h x = by_type s b' h x \/ by_type s' b' h x = 0).
  { intros b' h x. unfold by_type. destruct Hcase as [[_ ->]|(t&_&_&_&->)]; rewrite ?cleared_by_type;
      rewrite !sget_sset_ne by congruence; repeat case_match; auto. }
  apply (inv_balances n s); try done.
  - by rewrite Hw.
  - intros b' h. destruct Hcase as [[_ Hp]|(t&Hpos&Ht&Hsum&Hp)]; unfold accrued, by_type; rewrite Hp.
    { rewrite !sget_sset_ne by congruence. apply Hsp. }
    rewrite !cleared_by_type, cleared_frame by congruence. rewrite !(sget_sset_ne (DataKey.AccruedCreditsByType _ _ _)) by congruence.
    destruct (decide (b = b' /\ a = h)) as [[<- <-]|Hne].
    + rewrite sget_sset_eq. simpl.
      assert (Hz : forall x, has_side t x = false -> default 0 (sget (DataKey.AccruedCreditsByType b a x) (pers s)) = 0).
      { intros x Hx. apply (Hsi b x). intros t' Ht'. congruence. }
      destruct (has_side t CreditType.Carbon) eqn:?, (has_side t CreditType.Biodiversity) eqn:?; rewrite ?Hz by done; done.
    + rewrite !sget_sset_ne by key_ne. apply Hsp.
  - intros b' h x. destruct (Hbt b' h x) as [-> | ->]; [apply Hnn|lia].
  - intros b' h. destruct Hcase as [[_ ->]|(t&_&_&_&->)]; [by apply acc_range_sset_ne|].
    rewrite cleared_frame by done. revert b' h. apply acc_range_sset; [done|]. by apply acc_range_sset_ne.
  - intros b'. destruct (Hd b') as [Hd1 Hd2]. unfold dust, dust_by_type in *.
    split; [|intros x]; rewrite Hkeep by done; [exact Hd1|exact (Hd2 x)].
  - intros b' x Hl. destruct (Hsi b' x Hl) as [Hz Hz']. split.
    + intros h. destruct (Hbt b' h x) as [-> | ->]; auto.
    + unfold dust_by_type. by rewrite Hkeep.
  - intros b' p. unfold batch_of. by rewrite Hkeep.
  - intros a'. rewrite Hnon. apply Hno.
Qed.

Lemma swept_frame b k m :
  k <> DataKey.UndistributedTotal b -> (forall x, k <> DataKey.UndistributedByType b x) ->
  sget k (swept b m) = sget k m.
Proof. intros. unfold swept. by rewrite !sget_sset_ne by congruence. Qed.

Lemma swept_held b b' m : held_in (swept b m) b' = held_in m b'.
Proof. unfold swept. by rewrite !held_sset_frame. Qed.

Lemma swept_dust b b' m :
  default 0 (sget (DataKey.UndistributedTotal b') (swept b m)) =
  if decide (b = b') then 0 else default 0 (sget (DataKey.UndistributedTotal b') m).
Proof. unfold swept. rewrite !sget_sset_ne by congruence. case_decide; subst; by store_simp. Qed.

Lemma swept_dust_by b b' x m :
  default 0 (sget (DataKey.UndistributedByType b' x) (swept b m)) =
  if decide (b = b') then
    match x with CreditType.Carbon | CreditType.Biodiversity => 0
    | _ => default 0 (sget (DataKey.UndistributedByType b' x) m) end
  else default 0 (sget (DataKey.UndistributedByType b' x) m).
Proof. unfold swept. case_decide; subst; [destruct x|]; by store_simp. Qed.

Lemma inv_sweep n a b dst k e s rc s' :
  n + 1 < 2 ^ 64 -> inv n s -> sweep_undistributed a b dst k e s = Ok rc s' -> inv (n + 1) s'.
Proof.
  intros Hn Hinv H. apply sweep_Ok in H as (next&Hsig&_&Hi&Hw&Hsum&_&_&Hcase).
  pose proof (fun a' => coupon_nonce_step e n s a k next a' Hn Hinv Hsig) as Hno.
  pose proof Hinv as [Hsp Hnn Hr Hd _ Hsi _ _].
  destruct Hcase as [[_ Hp]|(_&Hp&Hrg)].
  - by apply (inv_nonce_only n s s' a next).
  - destruct (Hd b) as [_ Hdb]. pose proof (Hdb CreditType.Carbon) as Hc. pose proof (Hdb CreditType.Biodiversity) as Hb.
    set (c := dust_by_type s b CreditType.Carbon) in *. set (d := dust_by_type s b CreditType.Biodiversity) in *.
    assert (Hbt : forall b' h x, by_type s' b' h x = by_type s b' h x + (if decide (b = b' /\ dst = h) then
        match x with CreditType.Carbon => c | CreditType.Biodiversity => d | _ => 0 end else 0)).
    { intros b' h x. unfold by_type. rewrite Hp, credit_by_type, swept_frame by done. by rewrite sget_sset_ne. }
    assert (Hfr : forall key, (forall b h, key <> DataKey.AccruedCredits b h) ->
        (forall b h x, key <> DataKey.AccruedCreditsByType b h x) ->
        sget key (pers s') = sget key (swept b (sset (DataKey.Nonce a) next (pers s)))).
    { intros key H1 H2. rewrite Hp. by apply credit_frame. }
    apply (inv_balances n s); rewrite ?Hi, ?Hw; try done.
    + intros b' h. rewrite !Hbt. unfold accrued. rewrite Hp, credit_accrued, swept_frame, sget_sset_ne by done.
      specialize (Hsp b' h). unfold accrued in Hsp. case_decide; lia.
    + intros b' h x. rewrite Hbt. specialize (Hnn b' h x). repeat case_match; lia.
    + auto.
    + intros b'. destruct (Hd b') as [Hd1 Hd2]. unfold dust, dust_by_type in *. split; [|intros x; specialize (Hd2 x)];
        rewrite Hfr, ?swept_dust, ?swept_dust_by by done; rewrite sget_sset_ne by done; repeat case_match; lia.
    + intros b' x Hl. destruct (Hsi b' x Hl) as [Hz Hz']. split.
      * intros h. rewrite Hbt, Hz. case_decide as He; [|done]. destruct He as [-> ->].
        unfold c, d. destruct x; simpl; by rewrite ?Hz'.
      * unfold dust_by_type in *. rewrite Hfr, swept_dust_by, !sget_sset_ne by done. repeat case_match; done.
    + intros b' p. unfold batch_of. rewrite Hfr, swept_frame by done. by rewrite sget_sset_ne.
    + intros a'. unfold nonce_of. rewrite Hfr, swept_frame, after_nonce_get by done. apply Hno.
Qed.

Lemma by_type_le_accrued n s b h x : inv n s -> by_type s b h x <= accrued s b h.
Proof.
  intros Hinv. rewrite (inv_split n s Hinv b h).
  pose proof (inv_nonneg n s Hinv b h CreditType.Carbon).
  pose proof (inv_nonneg n s Hinv b h CreditType.Biodiversity).
  assert (Hz : forall y, (forall t, has_side t y = false) -> by_type s b h y = 0).
  { intros y Hy. apply (inv_sides n s Hinv b y). intros t _. apply Hy. }
  destruct x; [lia|lia|rewrite Hz; [lia|by intros []]..].
Qed.

Lemma inv_deduct n b h amt t e s v s' :
  inv n s -> deduct_credits b h amt t e s = Ok v s' -> inv (n + 1) s'.
Proof.
  intros Hinv H. apply deduct_Ok in H as (d&_&_&Hpos&Hle&Hle'&_&Hi&Hw&_&Hp).
  2: apply (inv_range n s Hinv).
  2: { intros x. etransitivity; [by apply by_type_le_accrued with n|]. apply (inv_range n s Hinv). }
  pose proof Hinv as [Hsp Hnn Hr Hd _ Hsi _ Hno].
  assert (Hx : storage_type t = CreditType.Carbon \/ storage_type t = CreditType.Biodiversity).
  { destruct t; simpl in *; auto; exfalso.
    destruct (Hsi b CreditType.Basket) as [Hz _]; [by intros []|]. rewrite Hz in Hle'. lia. }
  assert (Hbt : forall b' h' x, by_type s' b' h' x = by_type s b' h' x -
      (if decide (b = b' /\ h = h' /\ storage_type t = x) then amt else 0)).
  { intros b' h' x. unfold by_type at 1. rewrite Hp. store_case.
    - rewrite decide_True by done. done.
    - rewrite decide_False by (intuition congruence). rewrite sget_sset_ne by congruence. unfold by_type. lia. }
  assert (Hac : forall b' h', accrued s' b' h' = accrued s b' h' - (if decide (b = b' /\ h = h') then amt else 0)).
  { intros b' h'. unfold accrued at 1. rewrite Hp, sget_sset_ne by congruence. store_case.
    - rewrite decide_True by done. done.
    - rewrite decide_False by (intuition congruence). unfold accrued. lia. }
  assert (Hfr : forall key, pay_key key = false -> sget key (pers s') = sget key (pers s)).
  { intros key Hk. rewrite Hp. rewrite !sget_sset_ne by (intros <-; done). done. }
  apply (inv_balances n s); rewrite ?Hi, ?Hw; try done.
  - intros b' h'. rewrite Hac, !Hbt. specialize (Hsp b' h').
    destruct Hx as [-> | ->]; repeat case_decide; intuition (congruence || lia).
  - intros b' h' x. rewrite Hbt. specialize (Hnn b' h' x). case_decide as He; [destruct He as (<-&<-&<-)|]; lia.
  - intros b' h'. fold (accrued s' b' h'). rewrite Hac. specialize (Hr b' h'). fold (accrued s b' h') in Hr.
    case_decide; lia.
  - intros b'. destruct (Hd b') as [Hd1 Hd2]. unfold dust, dust_by_type in *.
    split; [|intros x]; rewrite Hfr by done; [exact Hd1|exact (Hd2 x)].
  - intros b' x Hl. destruct (Hsi b' x Hl) as [Hz Hz']. split.
    + intros h'. rewrite Hbt, Hz. case_decide as He; [|lia]. destruct He as (<-&<-&<-). rewrite Hz in Hle'. lia.
    + unfold dust_by_type. by rewrite Hfr.
  - intros b' p. unfold batch_of. by rewrite Hfr.
  - intros a'. unfold nonce_of. rewrite Hfr by done. specialize (Hno a'). unfold nonce_of in Hno. lia.
Qed.

Lemma inv_register_deduct n a d k e s u s' :
  n + 1 < 2 ^ 64 -> inv n s -> @register_deduct_caller W a d k e s = Ok u s' -> inv (n + 1) s'.
Proof.
  intros Hn Hinv H. apply register_deduct_Ok in H as (next&Hsig&_&Hw&Hi&Hp).
  pose proof (fun a' => coupon_nonce_step e n s a k next a' Hn Hinv Hsig) as Hno.
  refine (inv_nonce_only n (put_inst DataKey.DeductCaller d s) s' a next _ Hi Hw Hp Hno).
  assert (Ht : forall b, type_of (put_inst DataKey.DeductCaller d s) b = type_of s b).
  { intros b. unfold type_of. host_cbn. by rewrite sget_sset_ne. }
  destruct Hinv as [H1 H2 H3 H4 Hty Hsi Hba H5]. split; [exact H1|exact H2|exact H3|exact H4| | | |exact H5].
  - intros b t. rewrite Ht. intros (iss&c&?&?&?)%Hty. exists iss, c. host_cbn. by rewrite sget_sset_ne.
  - intros b x Hl. apply (Hsi b x). intros t. rewrite <- Ht. apply Hl.
  - intros b p st Hst. rewrite Ht. by apply (Hba b p st).
Qed.

Lemma coupon_inv_exec n c e s s' :
  n + 1 < 2 ^ 64 -> inv n s -> exec c e s = Ok tt s' -> inv (n + 1) s'.
Proof.
  intros Hn Hinv H. destruct c; simpl in H; try (apply bind_Ok in H as (?&?&H&[_ ->]%ret_Ok)).
  - by eapply coupon_inv_register.
  - by eapply inv_distribute.
  - by eapply inv_claim.
  - by eapply inv_sweep.
  - by eapply inv_register_deduct.
  - by eapply inv_deduct.
  - unfold accrued_credits in H. inv_ok H. apply coupon_inv_mono. by apply (coupon_inv_same n s); [..|reflexivity|].
  - unfold get_period_info in H. inv_ok H. apply coupon_inv_mono. by apply (coupon_inv_same n s); [..|reflexivity|].
Qed.

Lemma coupon_world_step c e s s' : exec c e s = Ok tt s' -> wstep (world s) (world s').
Proof.
  intros H. destruct c; simpl in H; try (apply bind_Ok in H as (?&?&H&[_ ->]%ret_Ok)).
  - by apply register_bond_Ok in H as (next&iss&c&_&_&_&_&_&Hw&_).
  - apply distribute_view in H as (next&t&st&st'&sub&pr&acc&Hv). apply (dv_world _ _ _ _ _ _ _ _ _ _ _ _ _ _ _ _ Hv).
  - apply claim_Ok in H as (_&_&->&_). done.
  - apply sweep_Ok in H as (next&_&_&_&->&_). done.
  - apply register_deduct_Ok in H as (next&_&_&->&_). done.
  - unfold deduct_credits in H. inv_ok H. done.
  - unfold accrued_credits in H. inv_ok H. done.
  - unfold get_period_info in H. inv_ok H. done.
Qed.

Lemma coupon_reachable_inv n s : reach deployed exec n s -> n < 2 ^ 64 -> inv n s.
Proof.
  apply (reach_ind_bounded deployed exec (2 ^ 64) inv).
  - exact coupon_inv_init.
  - intros m t t' e c _ Hm. by apply coupon_inv_exec.
  - exact coupon_inv_mono.
  - intros m t w ? ?. by apply (coupon_inv_same _ t).
Qed.
End preservation.

Section persistence.
Context {W : Type} `{!World W} `{!BondReader W} `{!OracleReader W} `{!RegistryReader W}.
Local Abbreviation state := (cstate DataKey ty Event W).
Implicit Types (s : state) (e : Env).

(** ** What never goes away *)

(** Marks of paid holders and records of closed periods. *)
Definition lasting s (k : DataKey) : Prop :=
  match k with
  | DataKey.HolderDistributed _ _ _ => is_Some (sget k (pers s))
  | DataKey.PeriodInfo b p => exists info, period_of s b p = Some info /\ pi_distributed info = true
  | _ => False
  end.

Lemma lasting_frame s s' k :
  sget k (pers s') = sget k (pers s) -> lasting s k -> lasting s' k /\ sget k (pers s') = sget k (pers s).
Proof. intros Hk Hl. split; [|done]. destruct k; simpl in *; try done; unfold period_of in *; by rewrite Hk. Qed.

Lemma lasting_distribute a b p holders r n f e s res s' k :
  distribute_coupon a b p holders r n f e s = Ok res s' -> lasting s k ->
  lasting s' k /\ match k with DataKey.PeriodInfo _ _ => sget k (pers s') = sget k (pers s) | _ => True end.
Proof.
  intros H Hk. apply distribute_view in H as (next&t&st&st'&sub&pr&acc&[_ _ Hopen _ _ _ _ Hpay _ _ _ _ _ Hoth _]).
  destruct k; simpl in Hk; try done.
  - destruct Hk as (info&Hinfo&Hd). destruct (decide ((bond_id, period_index) = (b, p))) as [[= -> ->]|Hne].
    + by rewrite (Hopen info Hinfo) in Hd.
    + destruct (Hoth _ _ Hne) as (_&_&Heq). unfold period_of in *. split; [|done]. simpl.
      exists info. unfold period_of. by rewrite Heq.
  - split; [|done]. by apply (pe_flag_keep _ _ _ _ _ _ _ Hpay).
Qed.

Lemma credit_lasting b h c d k m : (forall b h, k <> DataKey.AccruedCredits b h) ->
  (forall b h x, k <> DataKey.AccruedCreditsByType b h x) -> sget k (credit b h c d m) = sget k m.
Proof. intros H1 H2. unfold credit, accrue_if. repeat case_match; by rewrite ?accrue_frame. Qed.

(** No call erases a mark or changes the record of a closed period. *)
Lemma exec_lasting c e s s' k :
  exec c e s = Ok tt s' -> lasting s k ->
  lasting s' k /\ match k with DataKey.PeriodInfo _ _ => sget k (pers s') = sget k (pers s) | _ => True end.
Proof.
  intros H Hk.
  assert (Hfr : sget k (pers s') = sget k (pers s) -> lasting s' k /\
      match k with DataKey.PeriodInfo _ _ => sget k (pers s') = sget k (pers s) | _ => True end).
  { intros Heq. destruct (lasting_frame s s' k Heq Hk). split; [done|]. by destruct k. }
  assert (H1 : (forall b h, k <> DataKey.AccruedCredits b h) /\ (forall b h x, k <> DataKey.AccruedCreditsByType b h x) /\
    (forall a, k <> DataKey.Nonce a) /\ (forall b, k <> DataKey.UndistributedTotal b) /\
    (forall b x, k <> DataKey.UndistributedByType b x)) by (destruct k; done).
  destruct H1 as (H1&H2&H3&H4&H5).
  destruct c; simpl in H; try (apply bind_Ok in H as (?&?&H&[_ ->]%ret_Ok)).
  - apply register_bond_Ok in H as (next&iss&c&_&_&_&_&_&_&_&Hp). apply Hfr. rewrite Hp. by rewrite sget_sset_ne.
  - by eapply lasting_distribute.
  - apply claim_Ok in H as (_&_&_&next&_&[[_ Hp]|(t&_&_&_&Hp)]); apply Hfr; rewrite Hp.
    + by rewrite sget_sset_ne.
    + by rewrite cleared_frame, !sget_sset_ne.
  - apply sweep_Ok in H as (next&_&_&_&_&_&_&_&[[_ Hp]|(_&Hp&_)]); apply Hfr; rewrite Hp.
    + by rewrite sget_sset_ne.
    + by rewrite credit_lasting, swept_frame, sget_sset_ne.
  - apply register_deduct_Ok in H as (next&_&_&_&_&Hp). apply Hfr. rewrite Hp. by rewrite sget_sset_ne.
  - unfold deduct_credits in H. inv_ok H. host_cbn. apply Hfr. by rewrite !sget_sset_ne.
  - unfold accrued_credits in H. inv_ok H. by apply Hfr.
  - unfold get_period_info in H. inv_ok H. by apply Hfr.
Qed.

Lemma reach_lasting s m s2 k :
  reach (eq s) exec m s2 -> lasting s k ->
  lasting s2 k /\ match k with DataKey.PeriodInfo _ _ => sget k (pers s2) = sget k (pers s) | _ => True end.
Proof.
  intros Hr Hk. induction Hr as [t <-|m t e c Ht [IH1 IH2]|m t w Ht [IH1 IH2] _].
  - split; [done|]. by destruct k.
  - destruct (exec c e t) as [[] t'| |] eqn:Hex; simpl; [|done..].
    destruct (exec_lasting _ _ _ _ _ Hex IH1) as [? Heq]. split; [done|].
    destruct k; try done. by rewrite Heq.
  - split; [|by destruct k]. by destruct k.
Qed.

(** C23: A holder is paid at most once per period: when a distribution call has credited
    somebody for a period, no later call, after whatever transactions in between, credits
    that holder for the same period again. *)
Theorem paid_once s a b p holders r n f e res s1 h m s2 a' holders' r' n' f' e' res' s3 :
  distribute_coupon a b p holders r n f e s = Ok res s1 -> accrued s1 b h <> accrued s b h ->
  reach (eq s1) exec m s2 ->
  distribute_coupon a' b p holders' r' n' f' e' s2 = Ok res' s3 ->
  accrued s3 b h = accrued s2 b h.
Proof.
  intros (next&t&st&st'&sub&pr&acc&Hv)%distribute_view Hne Hr (next'&t'&st1&st1'&sub'&pr'&acc'&Hv')%distribute_view.
  pose proof (pe_new _ _ _ _ _ _ _ (dv_pay _ _ _ _ _ _ _ _ _ _ _ _ _ _ _ _ Hv) h Hne) as Hflag.
  destruct (reach_lasting s1 m s2 (DataKey.HolderDistributed b p h) Hr Hflag) as [Hflag2 _].
  exact (pe_flag _ _ _ _ _ _ _ (dv_pay _ _ _ _ _ _ _ _ _ _ _ _ _ _ _ _ Hv') h Hflag2).
Qed.

(** A period is closed at most once: after a final batch has succeeded, its record
    never changes and no later distribution call for that period succeeds. *)
Theorem period_closed_once s a b p holders r n e res s1 m s2 a' holders' r' n' f' e' res' s3 :
  distribute_coupon a b p holders r n true e s = Ok res s1 ->
  reach (eq s1) exec m s2 ->
  period_of s2 b p = period_of s1 b p /\
  distribute_coupon a' b p holders' r' n' f' e' s2 <> Ok res' s3.
Proof.
  intros (next&t&st&st'&sub&pr&acc&Hv)%distribute_view Hr.
  destruct (dv_outcome _ _ _ _ _ _ _ _ _ _ _ _ _ _ _ _ Hv) as (_&_&_&(info&Hinfo&Hd&_)&_).
  assert (Hl : lasting s1 (DataKey.PeriodInfo b p)) by (by exists info).
  destruct (reach_lasting s1 m s2 _ Hr Hl) as [_ Heq]. split; [exact Heq|].
  intros (next'&t'&st1&st1'&sub'&pr'&acc'&Hv')%distribute_view.
  assert (Hinfo2 : period_of s2 b p = Some info) by (unfold period_of in *; by rewrite Heq).
  by rewrite (dv_open _ _ _ _ _ _ _ _ _ _ _ _ _ _ _ _ Hv' info Hinfo2) in Hd.
Qed.

(** C29: In every reachable state a holder's combined balance is the sum of the Carbon and
    Biodiversity buckets, no balance is negative, a bond only uses the buckets of its
    registered type, and the Basket and BlueCarbon buckets stay empty. *)
Theorem balances_consistent n s b h x :
  reach deployed exec n s -> n < 2 ^ 64 ->
  accrued s b h = by_type s b h CreditType.Carbon + by_type s b h CreditType.Biodiversity /\
  0 <= by_type s b h x <= accrued s b h /\ 0 <= dust s b /\ 0 <= dust_by_type s b x /\
  (lacks s b x -> by_type s b h x = 0 /\ dust_by_type s b x = 0) /\
  by_type s b h CreditType.Basket = 0 /\ by_type s b h CreditType.BlueCarbon = 0.
Proof.
  intros Hr Hn. apply coupon_reachable_inv in Hr as Hinv; [|done].
  pose proof (by_type_le_accrued n s b h x Hinv). pose proof (inv_nonneg n s Hinv b h x).
  destruct (inv_dust n s Hinv b) as [Hd1 Hd2]. specialize (Hd2 x).
  split_and!; try done.
  - apply (inv_split n s Hinv).
  - intros Hl. destruct (inv_sides n s Hinv b x Hl). auto.
  - destruct (inv_sides n s Hinv b CreditType.Basket) as [Hz _]; [by intros []|exact (Hz h)].
  - destruct (inv_sides n s Hinv b CreditType.BlueCarbon) as [Hz _]; [by intros []|exact (Hz h)].
Qed.
End persistence.

Section claims.
Context {W : Type} `{!World W} `{!BondReader W} `{!OracleReader W} `{!RegistryReader W}.
Local Abbreviation state := (cstate DataKey ty Event W).
Implicit Types (s : state) (e : Env).

(** ** Claims never fail *)

Lemma write_total k v e s : exists l, @write W k v e s = Ok tt (put_live l (put_pers k v s)).
Proof.
  unfold write, extend_ttl. run.
  match goal with |- exists l, pextend_ttl _ ?t ?x _ ?s0 = _ =>
    destruct (only_live_pextend (E := CouponEngineError.CouponEngineError) k t x e s0) as [l Hl] end.
  { host_cbn. rewrite sget_sset_eq. eauto. }
  rewrite Hl. by eexists.
Qed.

Lemma read_by_type_total b h t e s :
  exists l, @accrued_credits_by_type W b h t e s = Ok (by_type s b h (storage_type t)) (put_live l s).
Proof.
  unfold accrued_credits_by_type, read_refresh_ttl, extend_ttl. run.
  destruct (sget (DataKey.AccruedCreditsByType b h (storage_type t)) (pers s)) as [v|] eqn:Hv.
  - rewrite bool_decide_true by eauto. unfold when.
    match goal with |- context [pextend_ttl ?k ?t ?x] =>
      destruct (only_live_pextend (E := CouponEngineError.CouponEngineError) k t x e s) as [l Hl]; [eauto|] end.
    rewrite (bind_run _ _ _ _ _ _ Hl). exists l. unfold by_type. by rewrite Hv.
  - exists (live s). unfold by_type. rewrite Hv. by destruct s.
Qed.

Lemma consume_total a n e s :
  n = nonce_of s a -> in_range U64 (n + 1) = true ->
  exists l, consume_nonce a n e s = Ok tt (put_live l (put_pers (DataKey.Nonce a) (n + 1) s)).
Proof.
  intros -> Hr. unfold consume_nonce, get_nonce, set_nonce, nonce_of in *. run.
  rewrite Z.eqb_refl. simpl negb. run. rewrite (bind_run _ _ _ _ _ _ (arith_run _ _ _ _ Hr)).
  by eexists.
Qed.

(** The sides of the registered type hold the whole balance. *)
Lemma by_sides_accrued n s b h t : inv n s -> type_of s b = Some t -> by_sides s b h t = accrued s b h.
Proof.
  intros Hinv Ht. rewrite (inv_split n s Hinv b h). unfold by_sides.
  assert (Hz : forall x, has_side t x = false -> by_type s b h x = 0).
  { intros x Hx. apply (inv_sides n s Hinv b x). intros t' Ht'. congruence. }
  destruct (has_side t CreditType.Carbon) eqn:?, (has_side t CreditType.Biodiversity) eqn:?;
    rewrite ?(Hz CreditType.Carbon), ?(Hz CreditType.Biodiversity) by done; lia.
Qed.

Lemma claim_breakdown_total a b t v e s :
  by_sides s b a t = v -> in_range I128 v = true ->
  exists x l, claim_breakdown a b v (Some t) e s = Ok x (put_live l s).
Proof.
  intros Hv Hr. unfold claim_breakdown, by_sides in *.
  destruct (read_by_type_total b a CreditType.Carbon e s) as [l Hl].
  destruct (read_by_type_total b a CreditType.Biodiversity e s) as [l2 Hl2].
  destruct (read_by_type_total b a CreditType.Biodiversity e (put_live l s)) as [l3 Hl3].
  change (by_type (put_live l s) b a) with (by_type s b a) in Hl3. cbn [storage_type] in *.
  destruct t; cbn [has_side] in Hv; rewrite ?Z.add_0_r, ?Z.add_0_l in Hv.
  - rewrite (bind_run _ _ _ _ _ _ Hl), Hv, Z.eqb_refl. by eexists _, _.
  - rewrite (bind_run _ _ _ _ _ _ Hl2), Hv, Z.eqb_refl. by eexists _, _.
  - rewrite (bind_run _ _ _ _ _ _ Hl), (bind_run _ _ _ _ _ _ Hl3), Hv.
    rewrite (bind_run _ _ _ _ _ _ (ok_or_run _ _ _ _ _ (checked_in I128 _ Hr))), Z.eqb_refl. by eexists _, _.
  - rewrite (bind_run _ _ _ _ _ _ Hl), Hv, Z.eqb_refl. by eexists _, _.
Qed.

Lemma claim_clear_total a b t e s :
  exists l, @claim_clear W a b (Some t) e s = Ok tt (put_live l (with_pers (cleared t b a (pers s)) s)).
Proof.
  unfold claim_clear, clear_accrued. destruct t; try apply write_total.
  destruct (write_total (DataKey.AccruedCreditsByType b a CreditType.Carbon) 0 e s) as [l Hl].
  rewrite (bind_run _ _ _ _ _ _ Hl).
  destruct (write_total (DataKey.AccruedCreditsByType b a CreditType.Biodiversity) 0 e
              (put_live l (put_pers (DataKey.AccruedCreditsByType b a CreditType.Carbon) 0 s))) as [l2 ->].
  by eexists.
Qed.

(** A claim empties the claimed balance and no other. *)
Lemma claim_effect n s a b k e v s' :
  inv n s -> claim_credits a b k e s = Ok v s' ->
  v = accrued s b a /\ accrued s' b a = 0 /\ (forall x, by_type s' b a x = 0) /\
  forall b' h', (b', h') <> (b, a) -> accrued s' b' h' = accrued s b' h'.
Proof.
  intros Hinv (->&_&_&next&_&[[Hz Hp]|(t&Hpos&Ht&Hsum&Hp)])%claim_Ok; (split; [done|]).
  - assert (Ha : forall b' h', accrued s' b' h' = accrued s b' h').
    { intros. unfold accrued. rewrite Hp. by rewrite sget_sset_ne. }
    assert (Hx : forall x, 0 <= by_type s b a x <= accrued s b a).
    { intros x. split; [apply (inv_nonneg n s Hinv)|by apply by_type_le_accrued with n]. }
    split_and!; [rewrite Ha; specialize (Hx CreditType.Carbon); lia| |done].
    intros x. specialize (Hx x). unfold by_type in *. rewrite Hp, sget_sset_ne by done. lia.
  - split_and!.
    + unfold accrued. rewrite Hp, cleared_frame by done. by rewrite sget_sset_eq.
    + intros x. unfold by_type. rewrite Hp, cleared_by_type, decide_True by done.
      destruct (has_side t x) eqn:Hx; [done|]. rewrite !sget_sset_ne by done.
      apply (inv_sides n s Hinv b x). intros t' Ht'. congruence.
    + intros b' h' Hne. unfold accrued. rewrite Hp, cleared_frame by done.
      rewrite !sget_sset_ne by (key_ne || (intros [=]; congruence)). done.
Qed.

(** C28: In every reachable state a signed claim succeeds, whatever the type of the bond:
    it returns exactly the accrued balance and empties it and its buckets, leaves every
    other balance alone, and so never reports [AccountingMismatch]. *)
Theorem claim_pays_out n s a b e :
  reach deployed exec n s -> n + 1 < 2 ^ 64 -> is_authorized e a = true ->
  exists s', claim_credits a b (nonce_of s a) e s = Ok (accrued s b a) s' /\
    accrued s' b a = 0 /\ (forall x, by_type s' b a x = 0) /\
    forall b' h', (b', h') <> (b, a) -> accrued s' b' h' = accrued s b' h'.
Proof.
  intros Hr Hn Hauth. apply coupon_reachable_inv in Hr as Hinv; [|lia].
  pose proof (inv_nonce n s Hinv a) as Hna. pose proof (inv_range n s Hinv b a) as Hra. fold (accrued s b a) in Hra.
  assert (Hok : exists s', claim_credits a b (nonce_of s a) e s = Ok (accrued s b a) s').
  { unfold claim_credits. run.
    destruct (consume_total a (nonce_of s a) e s eq_refl) as [l Hl];
      [apply in_range_spec; cbn [int_lo int_hi]; lia|].
    rewrite (bind_run _ _ _ _ _ _ Hl). clear Hl. run. host_cbn. cbn zeta. rewrite sget_sset_ne by done.
    fold (accrued s b a) (type_of s b). destruct (Z.ltb_spec 0 (accrued s b a)) as [Hpos|Hneg].
    - destruct (type_of s b) as [t|] eqn:Ht.
      2: { exfalso. rewrite (inv_split n s Hinv b a) in Hpos.
           rewrite (proj1 (inv_sides n s Hinv b CreditType.Carbon ltac:(intros ? Hx; congruence)) a) in Hpos.
           rewrite (proj1 (inv_sides n s Hinv b CreditType.Biodiversity ltac:(intros ? Hx; congruence)) a) in Hpos. lia. }
      edestruct (claim_breakdown_total a b t (accrued s b a)) as (x&l2&Hl2);
        [|apply in_range_spec; pose proof (int_lo_hi I128); lia|rewrite bind_assoc_run, (bind_run _ _ _ _ _ _ Hl2)].
      { etransitivity; [|by apply (by_sides_accrued n s)]. unfold by_sides, by_type. host_cbn. by rewrite !sget_sset_ne. }
      edestruct (write_total (DataKey.AccruedCredits b a) 0) as [l3 Hl3].
      rewrite bind_assoc_run, (bind_run _ _ _ _ _ _ Hl3).
      edestruct (claim_clear_total a b t) as [l4 Hl4].
      rewrite bind_assoc_run, (bind_run _ _ _ _ _ _ Hl4). destruct x, t; by eexists.
    - destruct (type_of s b) as [[]|]; by eexists. }
  destruct Hok as [s' Hs']. exists s'. split; [done|].
  destruct (claim_effect n s a b _ e _ s' Hinv Hs') as (_&H1&H2&H3). done.
Qed.
End claims.

(** ** Builds that keep overflow checks

    [rate * balance] and [total * FIXED_POINT] are plain products.  Where the
    build keeps overflow checks they are exact or the call traps, and the sums
    of a distribution add up. *)

Section checked_build.
Context {W : Type} `{!World W} `{!BondReader W} `{!OracleReader W} `{!RegistryReader W}.
Local Abbreviation M := (contract DataKey ty CouponEngineError.CouponEngineError Event W).
Local Abbreviation state := (cstate DataKey ty Event W).
Implicit Types (s : state) (e : Env).

(** Calls executed by such a build. *)
Definition exec_checked (c : Call) : M unit := fun e s => if overflow_checks e then exec c e s else Trap.

Lemma exec_checked_Ok c e s u s' :
  exec_checked c e s = Ok u s' -> overflow_checks e = true /\ exec c e s = Ok u s'.
Proof. unfold exec_checked. by destruct (overflow_checks e). Qed.

(** The sums of a running batch. *)
Record progress (t : CreditType.CreditType) (st : BatchState) (sub pr : Z) : Prop := {
  pg_rates : batch_rates st sub;
  pg_processed : 0 <= pr /\ (pr = 0 \/ pr <= sub);
  pg_total : ba_distributed_so_far st = ba_carbon_distributed_so_far st + ba_bio_distributed_so_far st;
  pg_carbon : ba_carbon_distributed_so_far st * FIXED_POINT <= carbon_rate st t * pr;
  pg_bio : ba_bio_distributed_so_far st * FIXED_POINT <= bio_rate st t * pr;
}.

Record cinv (n : Z) (s : state) : Prop := {
  ci_inv : inv n s;
  ci_dust : forall b, dust s b = dust_by_type s b CreditType.Carbon + dust_by_type s b CreditType.Biodiversity;
  ci_batch : forall b p st, batch_of s b p = Some st ->
    exists t sub pr, type_of s b = Some t /\ snapshot_of s b p = Some (sub, pr) /\ progress t st sub pr;
}.

Lemma new_progress t r st sub : new_batch t r st -> batch_rates st sub -> progress t st sub 0.
Proof. intros (_&H1&H2&H3&_) Hr. split; [done|lia|lia|rewrite H2; lia|rewrite H3; lia]. Qed.

Lemma source_progress n b p r t e s st sub pr :
  cinv n s -> overflow_checks e = true -> type_of s b = Some t ->
  batch_source b p r t e s st sub pr -> progress t st sub pr.
Proof.
  intros Hinv Hov Ht [(Hb&_&Hs)|(_&[Hnew _]&->&Hr)]; [|by eapply new_progress; auto].
  destruct (ci_batch n s Hinv b p st Hb) as (t'&sub'&pr'&Ht'&Hs'&Hp). congruence.
Qed.

Lemma accumulated_rates st acc st' t :
  accumulated st acc st' ->
  carbon_rate st' t = carbon_rate st t /\ bio_rate st' t = bio_rate st t /\
  (forall sub, batch_rates st sub -> batch_rates st' sub).
Proof.
  intros (_&_&_&_&H1&H2&H3&H4&H5&H6). unfold carbon_rate, bio_rate, batch_rates.
  rewrite H1, H2, H3, H4, H5, H6. done.
Qed.

Lemma accumulated_progress t st sub pr acc st' :
  progress t st sub pr -> accumulated st acc st' ->
  exact_batch t st sub (mkTally pr 0 0 0 0) acc -> progress t st' sub (ta_processed acc).
Proof.
  intros [Hr [Hp Hp'] Ht Hc Hb] Hacc [[He He'] Het Hec Heb]. simpl in *.
  destruct (accumulated_rates _ _ _ t Hacc) as (Hcr&Hbr&Hrr). destruct Hacc as (_&Hd&Hcd&Hbd&_).
  split; rewrite ?Hcr, ?Hbr, ?Hd, ?Hcd, ?Hbd; try lia; auto.
Qed.

(** At the end of a period nothing was paid beyond the totals. *)
Lemma progress_complete t st sub :
  batch_terms t st -> progress t st sub sub ->
  ba_carbon_distributed_so_far st <= ba_carbon_total st /\
  ba_bio_distributed_so_far st <= ba_biodiversity_total st /\
  ba_distributed_so_far st <= ba_total_credits st.
Proof.
  intros Htm [Hr [Hp _] Ht Hc Hb]. destruct (side_bounds t st sub Htm Hr Hp) as [[_ H1] [_ H2]].
  pose proof (bm_total t st Htm). unfold FIXED_POINT in *. lia.
Qed.

(** Everything the conservation proofs need to know about a distribution call. *)
Lemma checked_distribution n a b p holders r k f e s res s' :
  cinv n s -> overflow_checks e = true -> distribute_coupon a b p holders r k f e s = Ok res s' ->
  exists next t st st' sub pr acc, dist_view a b p r k f e s s' next t st st' sub pr acc /\
    batch_terms t st' /\ progress t st' sub (ta_processed acc) /\
    ba_distributed_so_far st' = ba_distributed_so_far st + (ta_carbon acc + ta_bio acc).
Proof.
  intros Hinv Hov (next&t&st&st'&sub&pr&acc&Hv)%distribute_view.
  exists next, t, st, st', sub, pr, acc. split; [done|].
  destruct Hv as [_ _ _ Ht _ _ _ _ _ Hsrc Hacc Hex _ _ _].
  pose proof (source_progress _ _ _ _ _ _ _ _ _ _ Hinv Hov Ht Hsrc) as Hpr.
  destruct (source_terms n b p r t e s st sub pr (ci_inv n s Hinv) Ht Hsrc) as (Htm&_).
  specialize (Hex Htm (pg_rates _ _ _ _ Hpr) (proj1 (pg_processed _ _ _ _ Hpr))).
  split; [by eapply batch_terms_accumulated|]. split; [by eapply accumulated_progress|].
  destruct Hacc as (_&->&_). pose proof (eb_total _ _ _ _ _ Hex) as Het. simpl in Het. lia.
Qed.

Lemma cinv_distribute n a b p holders r k f e s res s' :
  n + 1 < 2 ^ 64 -> cinv n s -> overflow_checks e = true ->
  distribute_coupon a b p holders r k f e s = Ok res s' -> cinv (n + 1) s'.
Proof.
  intros Hn Hinv Hov H.
  destruct (checked_distribution _ _ _ _ _ _ _ _ _ _ _ _ Hinv Hov H) as (next&t&st&st'&sub&pr&acc&Hv&Htm&Hpg&_).
  destruct Hv as [_ _ _ Ht Hi _ _ _ _ _ _ _ Hout Hoth Hod].
  assert (Htype : forall b', type_of s' b' = type_of s b') by (intros; unfold type_of; by rewrite Hi).
  split; [by eapply inv_distribute; [..|exact H]; [|apply (ci_inv n s Hinv)]| |].
  - intros b'. destruct (decide (b' = b)) as [->|Hne].
    2: { destruct (Hod b' Hne) as [-> Hx]. rewrite !Hx. apply (ci_dust n s Hinv). }
    pose proof (ci_dust n s Hinv b) as Hd. unfold period_outcome in Hout. destruct f.
    + destruct Hout as (Hpr&_&_&_&->&Hx). rewrite !Hx. rewrite Hpr in Hpg.
      destruct (progress_complete _ _ _ Htm Hpg) as (?&?&?). pose proof (bm_total _ _ Htm).
      pose proof (pg_total _ _ _ _ Hpg). lia.
    + destruct Hout as (_&_&_&->&Hx). rewrite !Hx. done.
  - intros b' p' st0 Hst0. rewrite Htype. destruct (decide ((b', p') = (b, p))) as [[= -> ->]|Hne].
    + unfold period_outcome in Hout. destruct f; [destruct Hout as (_&Hnone&_); congruence|].
      destruct Hout as (Hb&Hs&_). exists t, sub, (ta_processed acc). assert (st0 = st') as -> by congruence. done.
    + destruct (Hoth b' p' Hne) as (Heq&Heq'&_). rewrite Heq in Hst0. rewrite Heq'.
      apply (ci_batch n s Hinv b' p' st0 Hst0).
Qed.

(** ** The other calls *)

(** Keys that only distributions and sweeps write. *)
Definition period_state (k : DataKey) : bool :=
  match k with
  | DataKey.BatchState _ _ | DataKey.DistributionBalance _ _ | DataKey.PeriodInfo _ _
  | DataKey.UndistributedTotal _ | DataKey.UndistributedByType _ _ => true
  | _ => false
  end.

Definition is_distribution (c : Call) : bool := match c with CDistribute _ _ _ _ _ _ _ => true | _ => false end.
Definition is_sweep (c : Call) : bool := match c with CSweep _ _ _ _ => true | _ => false end.

Lemma exec_period_state c e s s' k :
  exec c e s = Ok tt s' -> is_distribution c = false -> is_sweep c = false -> period_state k = true ->
  sget k (pers s') = sget k (pers s).
Proof.
  intros H Hd Hs Hk.
  assert (H1 : forall a, k <> DataKey.Nonce a) by (intros a ->; done).
  assert (H2 : forall b h, k <> DataKey.AccruedCredits b h) by (intros b h ->; done).
  assert (H3 : forall b h x, k <> DataKey.AccruedCreditsByType b h x) by (intros b h x ->; done).
  destruct c; try done; simpl in H; try (apply bind_Ok in H as (?&?&H&[_ ->]%ret_Ok)).
  - apply register_bond_Ok in H as (next&iss&c&_&_&_&_&_&_&_&->). by rewrite sget_sset_ne.
  - apply claim_Ok in H as (_&_&_&next&_&[[_ ->]|(t&_&_&_&->)]); rewrite ?cleared_frame by done;
      by rewrite !sget_sset_ne by done.
  - apply register_deduct_Ok in H as (next&_&_&_&_&->). by rewrite sget_sset_ne.
  - unfold deduct_credits in H. inv_ok H. host_cbn. by rewrite !sget_sset_ne by done.
  - unfold accrued_credits in H. by inv_ok H.
  - unfold get_period_info in H. by inv_ok H.
Qed.

Lemma sweep_batches a b dst k e s rc s' key :
  sweep_undistributed a b dst k e s = Ok rc s' ->
  (exists b' p, key = DataKey.BatchState b' p \/ key = DataKey.DistributionBalance b' p \/ key = DataKey.PeriodInfo b' p) ->
  sget key (pers s') = sget key (pers s).
Proof.
  intros (next&_&_&_&_&_&_&_&[[_ Hp]|(_&Hp&_)])%sweep_Ok (b'&p&Hk); rewrite Hp.
  - destruct Hk as [-> |[-> | ->]]; by rewrite sget_sset_ne.
  - destruct Hk as [-> |[-> | ->]]; by rewrite credit_lasting, swept_frame, sget_sset_ne.
Qed.

(** Types only appear: a call does not change the type of a bond that has one. *)
Lemma exec_type n c e s s' b t :
  inv n s -> exec c e s = Ok tt s' -> type_of s b = Some t -> type_of s' b = Some t.
Proof.
  intros Hinv H Ht.
  assert (Hsame : inst s' = inst s -> type_of s' b = Some t) by (intros Hi; unfold type_of in *; by rewrite Hi).
  destruct c; simpl in H; try (apply bind_Ok in H as (?&?&H&[_ ->]%ret_Ok)).
  - apply register_bond_Ok in H as (next&iss&c&_&_&Hiss&Hc&_&Hw&Hi&_).
    unfold type_of. rewrite Hi. store_case; [|rewrite sget_sset_ne by congruence; exact Ht].
    destruct (inv_type n s Hinv b t Ht) as (iss'&c'&Hiss'&Hc'&<-). rewrite Hiss in Hiss'. injection Hiss' as <-.
    apply (bond_config_stable _ (world s')) in Hc'; [|done]. rewrite Hc in Hc'. by injection Hc' as <-.
  - apply distribute_view in H as (next&t'&st&st'&sub&pr&acc&Hv). apply Hsame, (dv_inst _ _ _ _ _ _ _ _ _ _ _ _ _ _ _ _ Hv).
  - apply claim_Ok in H as (_&Hi&_). auto.
  - apply sweep_Ok in H as (next&_&_&Hi&_). auto.
  - apply register_deduct_Ok in H as (next&_&_&_&Hi&_). unfold type_of. rewrite Hi. by rewrite sget_sset_ne.
  - unfold deduct_credits in H. inv_ok H. done.
  - unfold accrued_credits in H. inv_ok H. done.
  - unfold get_period_info in H. inv_ok H. done.
Qed.

Lemma cinv_batches n c e s s' :
  cinv n s -> exec c e s = Ok tt s' ->
  (forall b p, batch_of s' b p = batch_of s b p /\ snapshot_of s' b p = snapshot_of s b p) ->
  forall b p st, batch_of s' b p = Some st ->
    exists t sub pr, type_of s' b = Some t /\ snapshot_of s' b p = Some (sub, pr) /\ progress t st sub pr.
Proof.
  intros Hinv H Hsame b p st Hst. destruct (Hsame b p) as [Hb Hs]. rewrite Hb in Hst. rewrite Hs.
  destruct (ci_batch n s Hinv b p st Hst) as (t&sub&pr&Ht&?&?). exists t, sub, pr.
  split; [|done]. by apply (exec_type n c e s s' b t (ci_inv n s Hinv) H).
Qed.

(** The dust entries after a sweep. *)
Lemma sweep_dust a b dst k e s rc s' :
  sweep_undistributed a b dst k e s = Ok rc s' ->
  (forall b', dust s' b' = if decide (b = b') then 0 else dust s b') /\
  dust s b = dust_by_type s b CreditType.Carbon + dust_by_type s b CreditType.Biodiversity /\
  (forall b' x, b <> b' -> dust_by_type s' b' x = dust_by_type s b' x) /\
  dust_by_type s' b CreditType.Carbon + dust_by_type s' b CreditType.Biodiversity = 0.
Proof.
  intros (next&_&_&_&_&Hsum&_&_&[[Hz Hp]|(_&Hp&_)])%sweep_Ok.
  - assert (Hd : forall b', dust s' b' = dust s b') by (intros; unfold dust; rewrite Hp; by rewrite sget_sset_ne).
    assert (Hx : forall b' x, dust_by_type s' b' x = dust_by_type s b' x) by (intros; unfold dust_by_type; rewrite Hp; by rewrite sget_sset_ne).
    split_and!; [|done|by intros|rewrite !Hx; lia]. intros b'. rewrite Hd. case_decide; by subst.
  - assert (Hx : forall b' x, dust_by_type s' b' x = default 0 (sget (DataKey.UndistributedByType b' x)
                   (swept b (sset (DataKey.Nonce a) next (pers s))))).
    { intros. unfold dust_by_type. rewrite Hp. by rewrite credit_lasting. }
    split_and!; [|done| |].
    + intros b'. unfold dust at 1. rewrite Hp, credit_lasting, swept_dust by done. case_decide; [done|].
      by rewrite sget_sset_ne.
    + intros b' x Hne. rewrite Hx, swept_dust_by, decide_False by done. by rewrite sget_sset_ne.
    + rewrite !Hx, !swept_dust_by, !decide_True by done. done.
Qed.

Lemma cinv_exec n c e s s' :
  n + 1 < 2 ^ 64 -> cinv n s -> exec_checked c e s = Ok tt s' -> cinv (n + 1) s'.
Proof.
  intros Hn Hinv [Hov H]%exec_checked_Ok. pose proof (coupon_inv_exec n c e s s' Hn (ci_inv n s Hinv) H) as Hinv'.
  destruct (is_distribution c) eqn:Hdist; [|destruct (is_sweep c) eqn:Hsw].
  - destruct c; try done. simpl in H. apply bind_Ok in H as (?&?&H&[_ ->]%ret_Ok). by eapply cinv_distribute.
  - split; [done| |apply (cinv_batches n c e s s' Hinv H)].
    + destruct c; try done. simpl in H. apply bind_Ok in H as (?&?&H&[_ ->]%ret_Ok).
      destruct (sweep_dust _ _ _ _ _ _ _ _ H) as (Hd&_&Hx&Hz). intros b. rewrite Hd. case_decide as He.
      * subst b. by rewrite Hz.
      * rewrite !Hx by done. apply (ci_dust n s Hinv).
    + destruct c; try done. simpl in H. apply bind_Ok in H as (?&?&H&[_ ->]%ret_Ok).
      intros b p. split.
      * apply (sweep_batches _ _ _ _ _ _ _ _ (DataKey.BatchState b p) H). eauto.
      * apply (sweep_batches _ _ _ _ _ _ _ _ (DataKey.DistributionBalance b p) H). eauto.
  - assert (Hfr : forall k, period_state k = true -> sget k (pers s') = sget k (pers s)).
    { intros k Hk. by apply (exec_period_state c e). }
    split; [done| |apply (cinv_batches n c e s s' Hinv H)].
    + intros b. unfold dust, dust_by_type. rewrite !Hfr by done. apply (ci_dust n s Hinv).
    + intros b p. unfold batch_of, snapshot_of. by rewrite !Hfr.
Qed.

Lemma reachable_cinv n s : reach deployed exec_checked n s -> n < 2 ^ 64 -> cinv n s.
Proof.
  apply (reach_ind_bounded deployed exec_checked (2 ^ 64) cinv).
  - intros t Ht. split; [by apply coupon_inv_init|..]; destruct Ht as (e&admin&issuer&oracle&registry&w&H);
      unfold constructor in H; inv_ok H.
    + intros b. unfold dust, dust_by_type, empty_state. host_cbn. by rewrite !sget_empty.
    + intros b p st. unfold batch_of, empty_state. host_cbn. by rewrite sget_empty.
  - intros m t t' e c _ Hm. by apply cinv_exec.
  - intros m t [? ? ?]. split; [by apply coupon_inv_mono|done..].
  - intros m t w [H1 H2 H3] Hw. split; [by apply (coupon_inv_same m t)|exact H2|exact H3].
Qed.

(** ** Conservation of credits *)

Definition open_weight (b : Z) (k : DataKey) : ty k -> Z :=
  match k with
  | DataKey.BatchState b' _ => fun st => if b' =? b then ba_distributed_so_far st else 0
  | _ => fun _ => 0
  end.

(** What the open periods of a bond have paid so far. *)
Definition in_progress s (b : Z) : Z := ssum (open_weight b) (pers s).

(** The credits that closed periods have issued for a bond and that have not been
    claimed or retired: held by holders or kept as dust. *)
Definition issued s (b : Z) : Z := held s b + dust s b - in_progress s b.

(** What a call adds to [issued], by the records it leaves. *)
Definition recorded_flow (c : Call) s s' (b : Z) : Z :=
  match c with
  | CDistribute _ b' p _ _ _ true =>
      if decide (b' = b) then
        match period_of s' b p with
        | Some info => pi_total_credits_earned info + pi_undistributed info
        | None => 0
        end
      else 0
  | CClaim a b' _ => if decide (b' = b) then - accrued s b a else 0
  | CDeduct b' _ amt _ => if decide (b' = b) then - amt else 0
  | _ => 0
  end.

Lemma in_progress_same s s' b :
  (forall b p, batch_of s' b p = batch_of s b p) -> in_progress s' b = in_progress s b.
Proof.
  intros Hb. unfold in_progress. apply ssum_ext. intros k. destruct k; try (by destruct (sget _ _), (sget _ _)).
  pose proof (Hb bond_id period_index) as Hk. unfold batch_of in Hk. by rewrite Hk.
Qed.

Lemma in_progress_update s s' b p b0 :
  (forall b' p', (b', p') <> (b, p) -> batch_of s' b' p' = batch_of s b' p') ->
  in_progress s' b0 = in_progress s b0 +
    (if decide (b = b0) then from_option ba_distributed_so_far 0 (batch_of s' b p) -
                             from_option ba_distributed_so_far 0 (batch_of s b p) else 0).
Proof.
  intros Hb. unfold in_progress. rewrite (ssum_update (open_weight b0) (DataKey.BatchState b p) (pers s) (pers s')).
  - fold (batch_of s b p) (batch_of s' b p). unfold batch_of.
    destruct (sget (DataKey.BatchState b p) (pers s)), (sget (DataKey.BatchState b p) (pers s')); simpl;
      destruct (Z.eqb_spec b b0); case_decide; lia.
  - intros k Hk. destruct k; try (by destruct (sget _ _), (sget _ _)).
    assert (Hx : batch_of s' bond_id period_index = batch_of s bond_id period_index) by (apply Hb; congruence).
    unfold batch_of in Hx. by rewrite Hx.
Qed.

(** States whose balances differ for one holder only. *)
Lemma held_one s (s' : state) b h :
  (forall b' h', (b', h') <> (b, h) -> accrued s' b' h' = accrued s b' h') ->
  forall b', held s' b' = held s b' + (if b =? b' then accrued s' b h - accrued s b h else 0).
Proof.
  intros Hoth b'. unfold held, held_in. rewrite (ssum_update _ (DataKey.AccruedCredits b h) (pers s) (pers s')).
  - simpl. unfold accrued.
    destruct (sget (DataKey.AccruedCredits b h) (pers s)), (sget (DataKey.AccruedCredits b h) (pers s')); simpl;
      destruct (b =? b'); lia.
  - intros j Hj. assert (Hz : (forall b1 h1, j <> DataKey.AccruedCredits b1 h1) \/ exists b1 h1, j = DataKey.AccruedCredits b1 h1)
      by (destruct j; by eauto).
    destruct Hz as [Hz|(b1&h1&->)].
    + assert (Hw : forall v, accrued_weight b' j v = 0) by (intros v; destruct j; try done; by edestruct Hz).
      unfold oweight. destruct (sget j (pers s)), (sget j (pers s')); by rewrite ?Hw.
    + specialize (Hoth b1 h1). unfold accrued in Hoth. simpl.
      assert (Hne : (b1, h1) <> (b, h)) by congruence. specialize (Hoth Hne).
      destruct (sget (DataKey.AccruedCredits b1 h1) (pers s)), (sget (DataKey.AccruedCredits b1 h1) (pers s')); simpl in *;
        destruct (b1 =? b'); congruence.
Qed.

Lemma held_cleared t b h b' m : held_in (cleared t b h m) b' = held_in m b'.
Proof. unfold cleared. destruct t; by rewrite !held_frame by congruence. Qed.

(** The effect of each call on the balances held. *)
Lemma exec_held n c e s s' b :
  cinv n s -> exec c e s = Ok tt s' -> is_distribution c = false ->
  held s' b + dust s' b = held s b + dust s b + recorded_flow c s s' b.
Proof.
  intros Hinv H Hd. pose proof (ci_inv n s Hinv) as Hi.
  assert (Hdust : is_sweep c = false -> dust s' b = dust s b).
  { intros Hs. unfold dust. by rewrite (exec_period_state c e s s'). }
  destruct c; try done; simpl in H; try (apply bind_Ok in H as (?&?&H&[_ ->]%ret_Ok)); cbn [recorded_flow].
  - apply register_bond_Ok in H as (next&iss&c&_&_&_&_&_&_&_&Hp). rewrite Hdust by done.
    unfold held. rewrite Hp, held_sset_frame by done. lia.
  - apply claim_Ok in H as (->&_&_&next&_&Hcase). rewrite Hdust by done. unfold held.
    destruct Hcase as [[Hz Hp]|(t&_&_&_&Hp)]; rewrite Hp.
    + rewrite held_sset_frame by done.
      assert (accrued s bond_id caller = 0) by (pose proof (by_type_le_accrued n s bond_id caller CreditType.Carbon Hi);
        pose proof (inv_nonneg n s Hi bond_id caller CreditType.Carbon); lia).
      case_decide; subst; lia.
    + rewrite held_cleared, held_sset, held_sset_frame, sget_sset_ne by done. unfold accrued.
      destruct (Z.eqb_spec bond_id b); case_decide; subst; try lia; done.
  - destruct (sweep_dust _ _ _ _ _ _ _ _ H) as (Hd'&Hsum&_&_). rewrite Hd'.
    pose proof (inv_dust n s Hi bond_id) as [_ Hnn].
    apply sweep_Ok in H as (next&_&_&_&_&_&_&_&[[Hz Hp]|(_&Hp&_)]); unfold held; rewrite Hp.
    + rewrite held_sset_frame by done. case_decide; subst; lia.
    + rewrite credit_held, swept_held, held_sset_frame by (done || apply Hnn).
      destruct (Z.eqb_spec bond_id b); case_decide; subst; lia.
  - apply register_deduct_Ok in H as (next&_&_&_&_&Hp). rewrite Hdust by done.
    unfold held. rewrite Hp, held_sset_frame by done. lia.
  - apply deduct_Ok in H as (d&_&_&_&_&_&_&_&_&_&Hp); [|apply (inv_range n s Hi)|].
    2: { intros y. etransitivity; [by apply by_type_le_accrued with n|]. apply (inv_range n s Hi). }
    rewrite Hdust by done. unfold held. rewrite Hp, held_frame, held_sset by congruence.
    fold (accrued s bond_id holder). destruct (Z.eqb_spec bond_id b); case_decide; subst; lia.
  - unfold accrued_credits in H. inv_ok H. unfold held. host_cbn. rewrite Hdust by done. lia.
  - unfold get_period_info in H. inv_ok H. unfold held. host_cbn. rewrite Hdust by done. lia.
Qed.

(** Credits are conserved, by the records. *)
Lemma issued_recorded n s e c s' b :
  reach deployed exec_checked n s -> n + 1 < 2 ^ 64 -> exec_checked c e s = Ok tt s' ->
  issued s' b = issued s b + recorded_flow c s s' b.
Proof.
  intros Hr Hn [Hov H]%exec_checked_Ok. apply reachable_cinv in Hr as Hinv; [|lia]. unfold issued.
  destruct (is_distribution c) eqn:Hdist.
  - destruct c as [|a b' p holders r k f| | | | | |]; try done.
    simpl in H. apply bind_Ok in H as (res&s1&H&[_ ->]%(ret_Ok tt tt e)).
    destruct (checked_distribution _ _ _ _ _ _ _ _ _ _ _ _ Hinv Hov H) as (next&t&st&st'&sub&pr&acc&Hv&Htm&Hpg&Hd).
    destruct Hv as [_ _ _ _ _ _ _ Hpay _ Hsrc _ _ Hout Hoth Hod].
    rewrite (pe_held _ _ _ _ _ _ _ Hpay b), (in_progress_update s s1 b' p b) by (intros; by apply Hoth).
    assert (Hbefore : from_option ba_distributed_so_far 0 (batch_of s b' p) = ba_distributed_so_far st).
    { destruct Hsrc as [(->&_)|(->&[(_&Hz&_) _]&_)]; [done|]. by rewrite Hz. }
    cbn [recorded_flow]. rewrite Hbefore. destruct (decide (b' = b)) as [->|Hne].
    2: { destruct (Hod b) as [-> _]; [congruence|]. destruct f; lia. }
    unfold period_outcome in Hout. destruct f.
    + destruct Hout as (Heq&->&_&(info&->&_&_&->&->&_)&->&_). rewrite Heq in Hpg.
      destruct (progress_complete _ _ _ Htm Hpg) as (_&_&?). simpl. lia.
    + destruct Hout as (->&_&_&->&_). simpl. lia.
  - rewrite (in_progress_same s s').
    + pose proof (exec_held n c e s s' b Hinv H Hdist). lia.
    + intros b' p. destruct (is_sweep c) eqn:Hsw.
      * destruct c; try done. simpl in H. apply bind_Ok in H as (?&?&H&[_ ->]%ret_Ok).
        apply (sweep_batches _ _ _ _ _ _ _ _ (DataKey.BatchState b' p) H). eauto.
      * unfold batch_of. by rewrite (exec_period_state c e s s').
Qed.

(** Period [p] was closed, on report [r]. *)
Definition closed_as s (b p r : Z) (info : PeriodInfo) : Prop :=
  period_of s b p = Some info /\ pi_distributed info = true /\ pi_report_id info = r.

(** What period [p] of bond [b] has paid so far: the running sum while its batches are
    under way, the credits on record once it is closed. *)
Definition paid s (b p : Z) : Z :=
  match batch_of s b p, period_of s b p with
  | Some st, _ => ba_distributed_so_far st
  | None, Some info => if pi_distributed info then pi_total_credits_earned info else 0
  | None, None => 0
  end.

(** A running batch has paid at most its totals. *)
Lemma progress_within t st sub pr :
  batch_terms t st -> progress t st sub pr -> ba_distributed_so_far st <= ba_total_credits st.
Proof.
  intros Htm [Hr [Hp Hle] Ht Hc Hb]. pose proof Htm as [[Hct _] [Hbt _] Htot]. unfold FIXED_POINT in *.
  destruct Hle as [->|Hle]; [lia|].
  destruct (side_bounds t st sub Htm Hr ltac:(lia)) as [[H1 H2] [H3 H4]]. unfold FIXED_POINT in *. nia.
Qed.

(** What a distribution call pays, and what the records say of it. *)
Lemma distribution_paid n s e a b p holders r k f res s' :
  cinv n s -> overflow_checks e = true -> distribute_coupon a b p holders r k f e s = Ok res s' ->
  0 <= paid s b p <= paid s' b p /\ held s' b = held s b + (paid s' b p - paid s b p) /\
  if f then exists info, closed_as s' b p r info /\ pi_total_credits_earned info = paid s' b p /\
    0 <= pi_undistributed info /\ dust s' b = dust s b + pi_undistributed info
  else exists st', batch_of s' b p = Some st' /\ ba_report_id st' = r /\
    paid s' b p <= ba_carbon_total st' + ba_biodiversity_total st' /\ dust s' b = dust s b.
Proof.
  intros Hinv Hov H.
  destruct (checked_distribution _ _ _ _ _ _ _ _ _ _ _ _ Hinv Hov H) as (next&t&st&st'&sub&pr&acc&Hv&Htm&Hpg&Hd).
  destruct Hv as [_ _ Hopen Ht _ _ _ Hpay (Ha&Hb&_) Hsrc Hacc _ Hout _ _].
  destruct (source_terms n b p r t e s st sub pr (ci_inv n s Hinv) Ht Hsrc) as (_&Hc0&Hb0&_).
  pose proof (source_progress _ _ _ _ _ _ _ _ _ _ Hinv Hov Ht Hsrc) as [_ _ Hsum _ _].
  assert (Hbefore : paid s b p = ba_distributed_so_far st).
  { unfold paid. destruct Hsrc as [(->&_)|(->&[(_&->&_) _]&_)]; [done|].
    destruct (period_of s b p) as [info|] eqn:Hi; [by rewrite (Hopen info)|done]. }
  assert (Hafter : paid s' b p = ba_distributed_so_far st').
  { unfold paid. unfold period_outcome in Hout. destruct f.
    - destruct Hout as (_&->&_&(info&->&->&_&->&_)&_). done.
    - destruct Hout as (->&_). done. }
  assert (Hrid : ba_report_id st' = r).
  { destruct Hacc as (->&_). by destruct Hsrc as [(_&?&_)|(_&[(?&_) _]&_)]. }
  rewrite Hbefore, Hafter, Hd. rewrite (pe_held _ _ _ _ _ _ _ Hpay b), decide_True by done.
  split_and!; [lia|lia|lia|]. pose proof (progress_within _ _ _ _ Htm Hpg) as Hle. pose proof (bm_total _ _ Htm) as Htot.
  unfold period_outcome in Hout. destruct f.
  - destruct Hout as (_&_&_&(info&Hi&Hdi&Hr&He&Hu&_)&Hdu&_). exists info. split; [done|]. lia.
  - destruct Hout as (Hst&_&_&Hdu&_). exists st'. split_and!; [done|done|lia|done].
Qed.
End checked_build.

(** ** A concrete execution

    The other contracts as constants: bond 1 is a Basket bond of which 300 units are
    subscribed; report 9 measures 5,000,000 units of carbon and some biodiversity. *)

Definition sample_config : BondConfig := mkBondConfig [7] 100 [10] CreditType.Basket 50 1000.

Definition sample_report (r : Z) : Report :=
  mkReport r (Addr 30) 1 [7] 10 19 5000000 (Present (10, 20, 30)) "" [8] ReportStatus.Verified 20 21.

#[local] Instance sample_bonds : BondReader unit.
Proof.
  refine {| bond_config := fun _ _ _ => Some sample_config;
            call_get_bond := fun _ _ _ w => EOk sample_config w;
            call_total_subscribed := fun _ _ _ w => EOk 300 w;
            call_get_holder_balance := fun _ _ _ _ w => EOk 100 w |}.
  - by intros ? ? ? ? ? ? [= <- <-].
  - by intros ? ? ? ? ? ? [= _ <-].
  - by intros ? ? ? ? ? ? ? [= _ <-].
  - done.
Defined.

#[local] Instance sample_oracle : OracleReader unit.
Proof.
  refine {| report_record := fun _ _ r => Some (sample_report r);
            call_get_report := fun _ r _ w => EOk (sample_report r) w |}; [|done].
  intros ? ? ? ? ? ? [= <- <-]. split; [|done]. split; [by vm_compute|done].
Defined.

#[local] Instance sample_registry : RegistryReader unit.
Proof.
  refine {| call_status_by_hash := fun _ _ _ w => EOk ProjectStatus.Approved w |}.
  by intros ? ? ? ? ? ? [= _ <-].
Defined.

Definition sample_start : cstate DataKey ty Event unit :=
  commit (constructor (Addr 1) (Addr 11) (Addr 12) (Addr 13) (sample_env 0) (empty_state tt)) (empty_state tt).

Lemma coupon_start_deployed : deployed sample_start.
Proof.
  exists (sample_env 0), (Addr 1), (Addr 11), (Addr 12), (Addr 13), tt. exact eq_refl.
Qed.

(** Bond 1 is registered and the first batch of period 0 pays investor 2, who holds 200. *)
Definition sample_calls : list (Env * Call) :=
  [(checked_env 20, CRegisterBond (Addr 1) 1 [7] 0);
   (checked_env 22, CDistribute (Addr 1) 1 0 [(Addr 2, 200)] 9 1 false)].

Definition sample_open : cstate DataKey ty Event unit := run_calls exec sample_calls sample_start.

(** The last batch, which pays investor 3 and names investor 2 again. *)
Definition sample_last : Call := CDistribute (Addr 1) 1 0 [(Addr 2, 200); (Addr 3, 100)] 9 2 true.

Definition sample_closed : cstate DataKey ty Event unit :=
  run_calls exec [(checked_env 23, sample_last)] sample_open.

Lemma coupon_sample_reachable : reach deployed exec 2 sample_open.
Proof. apply (reach_run_calls deployed exec sample_calls 0). apply reach_init, coupon_start_deployed. Qed.

(** A run whose builds all keep overflow checks. *)
Lemma run_checked `{!World W, !BondReader W, !OracleReader W, !RegistryReader W} cs (s : cstate DataKey ty Event W) :
  Forall (fun ec => overflow_checks ec.1 = true) cs -> run_calls exec_checked cs s = run_calls exec cs s.
Proof.
  intros Hcs. revert s. induction Hcs as [|[e c] cs He _ IH]; intros s; [done|].
  simpl in *. rewrite IH. unfold exec_checked. by rewrite He.
Qed.

Lemma coupon_sample_checked : reach deployed exec_checked 2 sample_open.
Proof.
  unfold sample_open. rewrite <- run_checked by (by repeat constructor).
  apply (reach_run_calls deployed exec_checked sample_calls 0). apply reach_init, coupon_start_deployed.
Qed.

Example sample_credits :
  (accrued sample_closed 1 (Addr 2), by_type sample_closed 1 (Addr 2) CreditType.Carbon,
   accrued sample_closed 1 (Addr 3), dust sample_closed 1) = (3361, 3333, 1680, 1).
Proof. vm_compute. reflexivity. Qed.

Definition sample_registered : cstate DataKey ty Event unit :=
  run_calls exec [(checked_env 20, CRegisterBond (Addr 1) 1 [7] 0)] sample_start.

Definition sample_first : cstate DataKey ty Event unit :=
  commit (distribute_coupon (Addr 1) 1 0 [(Addr 2, 200)] 9 1 false (checked_env 22) sample_registered)
         sample_registered.

(** The last batch names investor 2 again, to no effect. *)
Definition sample_second : cstate DataKey ty Event unit :=
  commit (distribute_coupon (Addr 1) 1 0 [(Addr 2, 200); (Addr 3, 100)] 9 2 true (checked_env 23) sample_first)
         sample_first.

Lemma paid_once_witness : accrued sample_second 1 (Addr 2) = accrued sample_first 1 (Addr 2).
Proof.
  refine (paid_once sample_registered
           (Addr 1) 1 0 [(Addr 2, 200)] 9 1 false (checked_env 22) (mkCouponResult 1 0 3361 1 168066666)
           sample_first (Addr 2) 0 sample_first (Addr 1) [(Addr 2, 200); (Addr 3, 100)] 9 2 true (checked_env 23)
           (mkCouponResult 1 0 5041 2 168066666) sample_second _ _ _ _).
  - by apply run_value; [vm_compute|].
  - by vm_compute.
  - by apply reach_init.
  - by apply run_value; [vm_compute|].
Defined.

Definition sample_again : cstate DataKey ty Event unit :=
  commit (distribute_coupon (Addr 1) 1 0 [] 9 3 true (checked_env 24) sample_second) sample_second.

Lemma period_closed_once_witness :
  period_of sample_second 1 0 = period_of sample_second 1 0 /\
  distribute_coupon (Addr 1) 1 0 [] 9 3 true (checked_env 24) sample_second <>
    Ok (mkCouponResult 1 0 0 0 0) sample_again.
Proof.
  refine (period_closed_once sample_first (Addr 1) 1 0 [(Addr 2, 200); (Addr 3, 100)] 9 2 (checked_env 23)
            (mkCouponResult 1 0 5041 2 168066666) sample_second 0 sample_second (Addr 1) [] 9 3 true
            (checked_env 24) (mkCouponResult 1 0 0 0 0) sample_again _ _).
  - by apply run_value; [vm_compute|].
  - by apply reach_init.
Defined.

Lemma balances_consistent_witness :
  accrued sample_open 1 (Addr 2) =
    by_type sample_open 1 (Addr 2) CreditType.Carbon + by_type sample_open 1 (Addr 2) CreditType.Biodiversity /\
  0 <= by_type sample_open 1 (Addr 2) CreditType.Carbon <= accrued sample_open 1 (Addr 2) /\
  0 <= dust sample_open 1 /\ 0 <= dust_by_type sample_open 1 CreditType.Carbon /\
  (lacks sample_open 1 CreditType.Carbon ->
    by_type sample_open 1 (Addr 2) CreditType.Carbon = 0 /\ dust_by_type sample_open 1 CreditType.Carbon = 0) /\
  by_type sample_open 1 (Addr 2) CreditType.Basket = 0 /\
  by_type sample_open 1 (Addr 2) CreditType.BlueCarbon = 0.
Proof.
  exact (balances_consistent 2 sample_open 1 (Addr 2) CreditType.Carbon coupon_sample_reachable ltac:(done)).
Defined.

Lemma claim_pays_out_witness :
  exists s', claim_credits (Addr 2) 1 (nonce_of sample_open (Addr 2)) (sample_env 30) sample_open =
      Ok (accrued sample_open 1 (Addr 2)) s' /\
    accrued s' 1 (Addr 2) = 0 /\ (forall x, by_type s' 1 (Addr 2) x = 0) /\
    forall b' h', (b', h') <> (1, Addr 2) -> accrued s' b' h' = accrued sample_open b' h'.
Proof.
  exact (claim_pays_out 2 sample_open (Addr 2) 1 (sample_env 30) coupon_sample_reachable
           ltac:(done) ltac:(by vm_compute)).
Defined.

(** The same report, distributed again as period 1. *)
Definition reuse_calls : list (Env * Call) :=
  sample_calls ++ [(checked_env 23, sample_last);
                   (checked_env 24, CDistribute (Addr 1) 1 1 [(Addr 2, 200); (Addr 3, 100)] 9 3 true)].

(** One verified report can be distributed as several periods: nothing marks it as
    used, so the credits of report 9 are issued twice, as periods 0 and 1 of bond 1
    (the error [AlreadyProcessed] exists but is never returned). *)
Theorem report_distributed_twice :
  exists n s i0 i1, reach deployed exec n s /\
    period_of s 1 0 = Some i0 /\ period_of s 1 1 = Some i1 /\
    pi_report_id i0 = pi_report_id i1 /\ pi_total_credits_earned i0 = 5041 /\ pi_total_credits_earned i1 = 5041 /\
    accrued s 1 (Addr 2) = 6722.
Proof.
  exists 4, (run_calls exec reuse_calls sample_start).
  exists (mkPeriodInfo 0 10 19 5041 true 9 1), (mkPeriodInfo 1 10 19 5041 true 9 1).
  split; [|split_and!; by vm_compute].
  apply (reach_run_calls deployed exec reuse_calls 0), reach_init, coupon_start_deployed.
Qed.
