(* ===== verification/Provenance.v ===== *)
(** * Provenance: where the credits of a closed period come from

    Coupon-engine distributes in batches, over several transactions, during which the
    oracle, the bond issuer and the registry also move.  This file follows the report
    from the call that starts a batch to the record of the closed period, and says what
    a period issues and pays in terms of what the report is worth, against the interfaces
    of [Interfaces.v]. *)

From S2P Require Import Prelude Host Shared Interfaces CouponEngine.

Section provenance.
Context {W : Type} `{!World W} `{!BondReader W} `{!OracleReader W} `{!RegistryReader W}.
Local Abbreviation state := (cstate DataKey ty Event W).
Implicit Types (s : state) (e : Env).

(** The report [r] the configured oracle holds is verified, is about the project of the
    bond, and is worth [cs] under the bond's terms. *)
Record warrants s (b r : Z) (cs : Z * Z) (o iss : Address) (rep : Report) (c : BondConfig) : Prop := {
  wa_oracle : sget DataKey.OracleConsumerAddress (inst s) = Some o;
  wa_report : report_record (world s) o r = Some rep;
  wa_verified : rp_status rep = ReportStatus.Verified;
  wa_issuer : sget DataKey.BondIssuerAddress (inst s) = Some iss;
  wa_config : bond_config (world s) iss b = Some c;
  wa_project : rp_project_metadata_hash rep = bc_project_id c;
  wa_worth : cs = worth (bc_credit_type c) rep;
}.

Definition warranted s (b r : Z) (cs : Z * Z) : Prop := exists o iss rep c, warrants s b r cs o iss rep c.

(** The addresses the constructor stores. *)
Definition same_addresses s (t : state) : Prop :=
  sget DataKey.OracleConsumerAddress (inst t) = sget DataKey.OracleConsumerAddress (inst s) /\
  sget DataKey.BondIssuerAddress (inst t) = sget DataKey.BondIssuerAddress (inst s).

Lemma exec_addresses c e s s' : exec c e s = Ok tt s' -> same_addresses s s'.
Proof.
  intros H. assert (Hsame : inst s' = inst s -> same_addresses s s') by (intros Hi; unfold same_addresses; by rewrite Hi).
  destruct c; simpl in H; try (apply bind_Ok in H as (?&?&H&[_ ->]%ret_Ok)).
  - apply register_bond_Ok in H as (next&iss&c&_&_&_&_&_&_&Hi&_). unfold same_addresses. by rewrite Hi, !sget_sset_ne.
  - apply distribute_view in H as (next&t&st&st'&sub&pr&acc&Hv). apply Hsame, (dv_inst _ _ _ _ _ _ _ _ _ _ _ _ _ _ _ _ Hv).
  - apply claim_Ok in H as (_&Hi&_). auto.
  - apply sweep_Ok in H as (next&_&_&Hi&_). auto.
  - apply register_deduct_Ok in H as (next&_&_&_&Hi&_). unfold same_addresses. by rewrite Hi, !sget_sset_ne.
  - unfold deduct_credits in H. by inv_ok H.
  - unfold accrued_credits in H. by inv_ok H.
  - unfold get_period_info in H. by inv_ok H.
Qed.

(** A warrant, once given, holds for ever. *)
Lemma warranted_stable s (t : state) b r cs :
  same_addresses s t -> wstep (world s) (world t) -> warranted s b r cs -> warranted t b r cs.
Proof.
  intros [Ho Hb] Hw (o&iss&rep&c&[? ? Hv ? ? ? ?]). exists o, iss, rep, c.
  split; [by rewrite Ho|by eapply report_record_stable|done|by rewrite Hb|by eapply bond_config_stable|done|done].
Qed.

(** So do the dates of a warranted report. *)
Lemma warranted_dated s (t : state) b r cs info :
  same_addresses s t -> wstep (world s) (world t) -> warranted s b r cs -> dated s r info -> dated t r info.
Proof.
  intros [Ho _] Hw (o&iss&rep&c&[Hwo Hr Hv _ _ _ _]) Hd rep' (o'&Ho'&Hr') _.
  rewrite Ho, Hwo in Ho'. injection Ho' as <-. pose proof (report_record_stable _ _ _ _ _ Hw Hr Hv) as Hr2.
  rewrite Hr2 in Hr'. injection Hr' as <-. apply Hd; [by exists o|done].
Qed.

(** A project registered for a bond is the project of the bond, and the type on record
    the type of the bond. *)
Definition on_record s (b : Z) (pid : BytesN) : Prop :=
  exists iss c, sget DataKey.BondIssuerAddress (inst s) = Some iss /\ bond_config (world s) iss b = Some c /\
    bc_project_id c = pid /\ type_of s b = Some (bc_credit_type c).

Lemma on_record_stable s (t : state) b pid :
  same_addresses s t -> wstep (world s) (world t) -> type_of t b = type_of s b -> on_record s b pid -> on_record t b pid.
Proof.
  intros [_ Ha] Hw Ht (iss&c&?&?&?&?). exists iss, c. rewrite Ha, Ht. split_and!; try done. by eapply bond_config_stable.
Qed.

(** ** The invariant *)

Definition closed_with s (b p : Z) (info : PeriodInfo) : Prop :=
  period_of s b p = Some info /\ pi_distributed info = true.

(** The credits of a closed period, issued and left over, are those of a warrant, and its
    dates are those of the report. *)
Definition backed s (b : Z) (info : PeriodInfo) : Prop := exists cs,
  warranted s b (pi_report_id info) cs /\ pi_total_credits_earned info + pi_undistributed info = cs.1 + cs.2 /\
  dated s (pi_report_id info) info.

Record pinv s : Prop := {
  pv_project : forall b pid, sget (DataKey.BondProject b) (inst s) = Some pid -> on_record s b pid;
  pv_batch : forall b p st, batch_of s b p = Some st ->
    warranted s b (ba_report_id st) (ba_carbon_total st, ba_biodiversity_total st);
  pv_period : forall b p info, closed_with s b p info -> backed s b info;
}.

Lemma backed_stable s (t : state) b info :
  same_addresses s t -> wstep (world s) (world t) -> backed s b info -> backed t b info.
Proof.
  intros Ha Hw (cs&Hc&Heq&Hd). exists cs. split; [by eapply warranted_stable|]. split; [done|].
  eapply warranted_dated; [..|exact Hd]; done.
Qed.

(** Calls that leave batches and periods alone. *)
Lemma pinv_frame s s' :
  same_addresses s s' -> wstep (world s) (world s') ->
  (forall b pid, sget (DataKey.BondProject b) (inst s') = Some pid -> on_record s' b pid) ->
  (forall b p, batch_of s' b p = batch_of s b p /\ period_of s' b p = period_of s b p) -> pinv s -> pinv s'.
Proof.
  intros Ha Hw Hproj Hsame [_ Hb Hp]. split; [done| |].
  - intros b p st Hst. rewrite (proj1 (Hsame b p)) in Hst. eapply warranted_stable; eauto.
  - intros b p info [Hi Hd]. rewrite (proj2 (Hsame b p)) in Hi. eapply backed_stable; [done..|]. by eapply Hp.
Qed.

(** The batch of a distribution call has a warrant, found before or just now. *)
Lemma source_warranted s b p r t e st sub pr :
  pinv s -> type_of s b = Some t -> batch_source b p r t e s st sub pr ->
  ba_report_id st = r /\ warranted s b r (ba_carbon_total st, ba_biodiversity_total st).
Proof.
  intros [Hproj Hb _] Ht [(Hst&<-&_)|(_&[(Hr&_) (rep&pid&(o&Ho&Hrep)&Hver&Hpid&Hhash&Hworth)]&_)]; [split; eauto|].
  split; [done|]. destruct (Hproj b pid Hpid) as (iss&c&Hiss&Hc&Hbc&Hty). exists o, iss, rep, c.
  split; try done; [by rewrite Hhash|]. rewrite Ht in Hty. injection Hty as ->. done.
Qed.

Lemma pinv_distribute n s a b p holders r k f e res s' :
  inv n s -> pinv s -> distribute_coupon a b p holders r k f e s = Ok res s' -> pinv s'.
Proof.
  intros Hinv Hpinv (next&t&st&st'&sub&pr&acc&[_ _ _ Ht Hi Hw _ _ _ Hsrc Hacc _ Hout Hoth _])%distribute_view.
  assert (Ha : same_addresses s s') by (unfold same_addresses; by rewrite Hi).
  destruct (source_warranted _ _ _ _ _ _ _ _ _ Hpinv Ht Hsrc) as [Hrid Hwar].
  destruct (source_terms _ _ _ _ _ _ _ _ _ _ Hinv Ht Hsrc) as [Htm _].
  pose proof Hacc as (Hrid'&_&_&_&Htot&Hct&Hbt&_). destruct Hpinv as [Hproj Hb Hp].
  pose proof (warranted_stable s s' _ _ _ Ha Hw Hwar) as Hwar'. split.
  - intros b' pid Hpid. rewrite Hi in Hpid. apply (on_record_stable s); [done|done|unfold type_of; by rewrite Hi|auto].
  - intros b' p' st0 Hst0. destruct (decide ((b', p') = (b, p))) as [[= -> ->]|Hne].
    + unfold period_outcome in Hout. destruct f; [destruct Hout as (_&Hnone&_); congruence|].
      destruct Hout as (Hst&_). assert (st0 = st') as -> by congruence. by rewrite Hrid', Hrid, Hct, Hbt.
    + destruct (Hoth _ _ Hne) as (Heq&_). rewrite Heq in Hst0. eapply warranted_stable; eauto.
  - intros b' p' info [Hinfo Hd]. destruct (decide ((b', p') = (b, p))) as [[= -> ->]|Hne].
    + unfold period_outcome in Hout. destruct f.
      * destruct Hout as (_&_&_&(info'&Hinfo'&_&Hr&He&Hu&Hdt)&_). assert (info = info') as -> by congruence.
        eexists. rewrite Hr. split; [exact Hwar'|]. split; [|by eapply warranted_dated].
        rewrite He, Hu, Htot, (bm_total _ _ Htm). simpl. lia.
      * destruct Hout as (_&_&Heq&_). eapply backed_stable; [done..|]. apply (Hp b p). by rewrite Heq in Hinfo.
    + destruct (Hoth _ _ Hne) as (_&_&Heq). eapply backed_stable; [done..|]. apply (Hp b' p'). by rewrite Heq in Hinfo.
Qed.

Lemma exec_projects c e s s' b pid :
  pinv s -> exec c e s = Ok tt s' -> is_distribution c = false ->
  sget (DataKey.BondProject b) (inst s') = Some pid -> on_record s' b pid.
Proof.
  intros Hpinv H Hd Hpid. pose proof (exec_addresses _ _ _ _ H) as Ha. pose proof (coupon_world_step _ _ _ _ H) as Hw.
  assert (Hsame : sget (DataKey.BondProject b) (inst s') = sget (DataKey.BondProject b) (inst s) ->
      type_of s' b = type_of s b -> on_record s' b pid).
  { intros Hp Ht. rewrite Hp in Hpid. apply (on_record_stable s); [done..|]. by apply (pv_project s Hpinv). }
  destruct c; try done; simpl in H; try (apply bind_Ok in H as (?&?&H&[_ ->]%ret_Ok)).
  - apply register_bond_Ok in H as (next&iss&c&_&_&Hiss&Hc&Hbc&_&Hi&_). rewrite Hi in Hpid.
    destruct (decide (bond_id = b)) as [->|Hne].
    + rewrite sget_sset_ne, sget_sset_eq in Hpid by done. injection Hpid as <-. exists iss, c.
      rewrite (proj2 Ha). split_and!; [done|done|done|]. unfold type_of. by rewrite Hi, sget_sset_eq.
    + apply Hsame; unfold type_of; rewrite Hi; by rewrite !sget_sset_ne by congruence.
  - apply claim_Ok in H as (_&Hi&_). apply Hsame; unfold type_of; by rewrite Hi.
  - apply sweep_Ok in H as (next&_&_&Hi&_). apply Hsame; unfold type_of; by rewrite Hi.
  - apply register_deduct_Ok in H as (next&_&_&_&Hi&_). apply Hsame; unfold type_of; by rewrite Hi, sget_sset_ne.
  - unfold deduct_credits in H. inv_ok H. by apply Hsame.
  - unfold accrued_credits in H. inv_ok H. by apply Hsame.
  - unfold get_period_info in H. inv_ok H. by apply Hsame.
Qed.

Lemma pinv_exec n c e s s' : inv n s -> pinv s -> exec c e s = Ok tt s' -> pinv s'.
Proof.
  intros Hinv Hpinv H. destruct (is_distribution c) eqn:Hdist.
  - destruct c; try done. simpl in H. apply bind_Ok in H as (?&?&H&[_ ->]%ret_Ok). by eapply pinv_distribute.
  - apply (pinv_frame s); [by eapply exec_addresses|by eapply coupon_world_step| | |done].
    + intros b pid. by apply (exec_projects c e s).
    + intros b p. destruct (is_sweep c) eqn:Hsw.
      * destruct c; try done. simpl in H. apply bind_Ok in H as (?&?&H&[_ ->]%ret_Ok). split.
        -- apply (sweep_batches _ _ _ _ _ _ _ _ (DataKey.BatchState b p) H). eauto.
        -- apply (sweep_batches _ _ _ _ _ _ _ _ (DataKey.PeriodInfo b p) H). eauto.
      * unfold batch_of, period_of. by rewrite !(exec_period_state c e s s').
Qed.

Lemma pinv_init s : deployed s -> pinv s.
Proof.
  intros (e&admin&issuer&oracle&registry&w&H). unfold constructor in H. inv_ok H.
  split; unfold closed_with; views; host_cbn; intros *; rewrite ?sget_empty; [|done|by intros []].
  intros Hx. rewrite !sget_sset_ne in Hx by congruence. unfold empty_state in Hx. host_cbn.
  by rewrite sget_empty in Hx.
Qed.

(** Nothing but the world moves. *)
Lemma pinv_move s (t : state) :
  inst t = inst s -> pers t = pers s -> wstep (world s) (world t) -> pinv s -> pinv t.
Proof.
  intros Hi Hp Hw Hpinv. assert (Ha : same_addresses s t) by (unfold same_addresses; by rewrite Hi).
  apply (pinv_frame s); [done|done| |unfold batch_of, period_of; by rewrite Hp|done].
  intros b pid Hpid. rewrite Hi in Hpid. apply (on_record_stable s); [done|done|unfold type_of; by rewrite Hi|].
  by apply (pv_project s Hpinv).
Qed.

Lemma reachable_pinv n s : reach deployed exec n s -> n < 2 ^ 64 -> pinv s.
Proof.
  intros Hr Hn. enough (inv n s /\ pinv s) by tauto. revert n s Hr Hn.
  apply (reach_ind_bounded deployed exec (2 ^ 64) (fun n s => inv n s /\ pinv s)).
  - intros s Hs. split; [by apply coupon_inv_init|by apply pinv_init].
  - intros m t t' e c _ Hm [Hi Hp] He. split; [by eapply coupon_inv_exec|by eapply pinv_exec].
  - intros m t [? ?]. split; [by apply coupon_inv_mono|done].
  - intros m t w [? Hp] Hw. split; [by apply (coupon_inv_same m t)|].
    by apply (pinv_move t).
Qed.

Lemma period_backed s b p info :
  pinv s -> period_of s b p = Some info -> pi_distributed info = true ->
  exists o iss rep c,
    sget DataKey.OracleConsumerAddress (inst s) = Some o /\
    report_record (world s) o (pi_report_id info) = Some rep /\ rp_status rep = ReportStatus.Verified /\
    sget DataKey.BondIssuerAddress (inst s) = Some iss /\ bond_config (world s) iss b = Some c /\
    rp_project_metadata_hash rep = bc_project_id c /\
    pi_total_credits_earned info + pi_undistributed info
      = (worth (bc_credit_type c) rep).1 + (worth (bc_credit_type c) rep).2 /\
    pi_start_time info = rp_period_start rep /\ pi_end_time info = rp_period_end rep.
Proof.
  intros Hp Hi Hd. destruct (pv_period s Hp b p info (conj Hi Hd)) as (cs&(o&iss&rep&c&[]) & Heq & Hdt). subst cs.
  destruct (Hdt rep) as [? ?]; [by exists o|done|]. exists o, iss, rep, c. by split_and!.
Qed.

(** C4: credits come from verified reports only: whatever happened on the protocol, the
    record of a closed period names a report that the oracle still holds as verified, that
    report is about the project the bond was issued for, and the credits given out for the
    period, together with the undistributed remainder, are exactly what its measurements
    are worth under the bond's credit type - a credit per thousand units of carbon, with
    no conversion factor, whatever the methodology (the README and the methodology
    document multiply by one); the dates of the period are those of the report. *)
Theorem credits_from_verified_reports n s b p info :
  reach deployed exec n s -> n < 2 ^ 64 -> period_of s b p = Some info -> pi_distributed info = true ->
  exists o iss rep c,
    sget DataKey.OracleConsumerAddress (inst s) = Some o /\
    report_record (world s) o (pi_report_id info) = Some rep /\ rp_status rep = ReportStatus.Verified /\
    sget DataKey.BondIssuerAddress (inst s) = Some iss /\ bond_config (world s) iss b = Some c /\
    rp_project_metadata_hash rep = bc_project_id c /\
    pi_total_credits_earned info + pi_undistributed info
      = (worth (bc_credit_type c) rep).1 + (worth (bc_credit_type c) rep).2 /\
    pi_start_time info = rp_period_start rep /\ pi_end_time info = rp_period_end rep.
Proof. intros Hr Hn. apply period_backed. by eapply reachable_pinv. Qed.

(** ** What a period issues and pays *)

(** The credits [v] that report [r] is worth for bond [b]: the oracle holds the report as
    verified, it is about the project of the bond, and [v] is its worth, both sides
    together, under the credit type the bond was issued with. *)
Definition credits_of s (b r v : Z) : Prop := exists cs, warranted s b r cs /\ v = cs.1 + cs.2.

Lemma reachable_checked_pinv n s : reach deployed exec_checked n s -> n < 2 ^ 64 -> cinv n s /\ pinv s.
Proof.
  intros Hr Hn. split; [by apply reachable_cinv|]. enough (inv n s /\ pinv s) by tauto. revert n s Hr Hn.
  apply (reach_ind_bounded deployed exec_checked (2 ^ 64) (fun n s => inv n s /\ pinv s)).
  - intros s Hs. split; [by apply coupon_inv_init|by apply pinv_init].
  - intros m t t' e c _ Hm [Hi Hp] [_ He]%exec_checked_Ok. split; [by eapply coupon_inv_exec|by eapply pinv_exec].
  - intros m t [? ?]. split; [by apply coupon_inv_mono|done].
  - intros m t w [? Hp] Hw. split; [by apply (coupon_inv_same m t)|by apply (pinv_move t)].
Qed.

(** What the record of a closed period adds up to. *)
Lemma closed_credits s b p r info :
  pinv s -> closed_as s b p r info -> credits_of s b r (pi_total_credits_earned info + pi_undistributed info).
Proof.
  intros Hp (Hi&Hd&<-). destruct (pv_period s Hp b p info (conj Hi Hd)) as (cs&Hw&Heq&_). by exists cs.
Qed.

(** What a call adds to the credits issued for bond [b]: a closing distribution the worth
    of its report, a claim and a retirement minus their amount, any other call nothing. *)
Definition credit_flow (c : Call) s s' (b v : Z) : Prop :=
  match c with
  | CDistribute _ b' _ _ r _ true => if decide (b' = b) then credits_of s' b r v else v = 0
  | CClaim a b' _ => v = if decide (b' = b) then - accrued s b a else 0
  | CDeduct b' _ amt _ => v = if decide (b' = b) then - amt else 0
  | _ => v = 0
  end.

(** C22: Credits are conserved: in a build with overflow checks, a transaction changes the
    credits issued for a bond (held, plus undistributed dust, less what unfinished
    distributions have paid) only by closing a period, which adds exactly what its report
    is worth - the verified report that the oracle holds about the project of the bond,
    valued from its measurements by [worth] - or by a claim or a retirement, which remove
    exactly their amount. *)
Theorem credits_conserved n s e c s' b :
  reach deployed exec_checked n s -> n + 1 < 2 ^ 64 -> exec_checked c e s = Ok tt s' ->
  exists v, credit_flow c s s' b v /\ issued s' b = issued s b + v.
Proof.
  intros Hr Hn He. exists (recorded_flow c s s' b). split; [|by eapply issued_recorded].
  apply (reach_call deployed exec_checked n s e c) in Hr. rewrite He in Hr. simpl in Hr.
  destruct (reachable_checked_pinv _ _ Hr Hn) as [_ Hp]. apply exec_checked_Ok in He as [_ He].
  destruct c as [|a b' p holders r k [|]| | | | | |]; try done. simpl. case_decide as Hb; [subst b'|done].
  simpl in He. apply bind_Ok in He as (res&s1&He&[_ ->]%(ret_Ok tt tt e)).
  apply distribute_view in He as (next&t&st&st'&sub&pr&acc&Hv).
  destruct (dv_outcome _ _ _ _ _ _ _ _ _ _ _ _ _ _ _ _ Hv) as (_&_&_&(info&Hi&Hd&Hrid&_)&_). rewrite Hi.
  by apply (closed_credits s1 b p r info).
Qed.

(** C30: In a build with overflow checks no period ever pays more than its report is worth:
    whether or not it closes the period, a distribution raises the balances of the bond's
    holders by what it adds to the period's payments, and these never exceed the worth of
    the report, valued from its measurements; a closing call records what was paid and
    leaves exactly the rest of the worth as dust; and the dust of the bond is the sum of
    its two buckets, the condition a sweep checks. *)
Theorem period_within_report n s e a b p holders r k f res s' :
  reach deployed exec_checked n s -> n + 1 < 2 ^ 64 -> overflow_checks e = true ->
  distribute_coupon a b p holders r k f e s = Ok res s' ->
  held s' b = held s b + (paid s' b p - paid s b p) /\ 0 <= paid s b p <= paid s' b p /\
  (exists v, credits_of s' b r v /\ paid s' b p <= v /\
    if f then dust s' b = dust s b + (v - paid s' b p) /\ exists info, closed_as s' b p r info /\
           pi_total_credits_earned info = paid s' b p /\ pi_undistributed info = v - paid s' b p
    else dust s' b = dust s b) /\
  dust s' b = dust_by_type s' b CreditType.Carbon + dust_by_type s' b CreditType.Biodiversity.
Proof.
  intros Hr Hn Hov H. destruct (reachable_checked_pinv n s Hr ltac:(lia)) as [Hc Hp].
  pose proof (cinv_distribute _ _ _ _ _ _ _ _ _ _ _ _ Hn Hc Hov H) as Hc'.
  pose proof (pinv_distribute _ _ _ _ _ _ _ _ _ _ _ _ (ci_inv n s Hc) Hp H) as Hp'.
  destruct (distribution_paid _ _ _ _ _ _ _ _ _ _ _ _ Hc Hov H) as (Hle&Hheld&Hf).
  split; [done|]. split; [done|]. split; [|apply (ci_dust _ _ Hc')]. destruct f.
  - destruct Hf as (info&Hcl&He&Hu&Hd). exists (pi_total_credits_earned info + pi_undistributed info).
    split; [by apply (closed_credits s' b p)|]. split; [lia|]. split; [lia|].
    exists info. split; [done|]. lia.
  - destruct Hf as (st&Hst&Hrid&Hpd&Hd). exists (ba_carbon_total st + ba_biodiversity_total st).
    split; [|done]. eexists. rewrite <- Hrid. split; [by apply (pv_batch s' Hp' b p)|done].
Qed.
End provenance.

(** ** A concrete execution: the closed period of the sample run *)

#[local] Existing Instances sample_bonds sample_oracle sample_registry.

Lemma provenance_closed_reachable : reach deployed exec 3 sample_closed.
Proof. apply (reach_run_calls deployed exec [(checked_env 23, sample_last)] 2 sample_open), coupon_sample_reachable. Qed.

(** Report 9 is worth 5000 credits of carbon and 42 of biodiversity. *)
Lemma credits_from_verified_reports_witness :
  exists o iss rep c,
    sget DataKey.OracleConsumerAddress (inst sample_closed) = Some o /\
    report_record (world sample_closed) o 9 = Some rep /\ rp_status rep = ReportStatus.Verified /\
    sget DataKey.BondIssuerAddress (inst sample_closed) = Some iss /\
    bond_config (world sample_closed) iss 1 = Some c /\ rp_project_metadata_hash rep = bc_project_id c /\
    5041 + 1 = (worth (bc_credit_type c) rep).1 + (worth (bc_credit_type c) rep).2 /\
    10 = rp_period_start rep /\ 19 = rp_period_end rep.
Proof.
  refine (credits_from_verified_reports 3 sample_closed 1 0 (mkPeriodInfo 0 10 19 5041 true 9 1)
            provenance_closed_reachable eq_refl _ eq_refl).
  vm_compute. reflexivity.
Defined.

Definition sample_done : cstate DataKey ty Event unit :=
  commit (exec_checked sample_last (checked_env 23) sample_open) sample_open.

(** The closing call issues the credits report 9 is worth. *)
Lemma credits_conserved_witness :
  exists v, credits_of sample_done 1 9 v /\ issued sample_done 1 = issued sample_open 1 + v.
Proof.
  exact (credits_conserved 2 sample_open (checked_env 23) sample_last sample_done 1 coupon_sample_checked
           ltac:(done) ltac:(by apply (commit_is_ok _ sample_open); vm_compute)).
Defined.

Definition sample_finished : cstate DataKey ty Event unit :=
  commit (distribute_coupon (Addr 1) 1 0 [(Addr 2, 200); (Addr 3, 100)] 9 2 true (checked_env 23) sample_open)
         sample_open.

Lemma period_within_report_witness :
  paid sample_open 1 0 = 3361 /\ paid sample_finished 1 0 = 5041 /\
  exists v, credits_of sample_finished 1 9 v /\ 5041 <= v /\ dust sample_finished 1 = dust sample_open 1 + (v - 5041).
Proof.
  assert (H1 : paid sample_open 1 0 = 3361) by (vm_compute; reflexivity).
  assert (H2 : paid sample_finished 1 0 = 5041) by (vm_compute; reflexivity).
  split; [exact H1|]. split; [exact H2|].
  destruct (period_within_report 2 sample_open (checked_env 23) (Addr 1) 1 0 [(Addr 2, 200); (Addr 3, 100)] 9 2 true
            (mkCouponResult 1 0 5041 2 168066666) sample_finished coupon_sample_checked ltac:(done) ltac:(done)
            ltac:(by apply run_value; [vm_compute|])) as (_&_&(v&Hv&Hle&Hd&_)&_).
  rewrite H2 in Hle, Hd. exists v. exact (conj Hv (conj Hle Hd)).
Defined.
