(* ===== verification/Calendar.v ===== *)
(** * The proleptic Gregorian calendar

    The reference the contract's year computation is checked against: years by
    their lengths, counted day by day from 1970-01-01. *)

From S2P Require Import Prelude.

Definition leap (y : Z) : bool := (y mod 4 =? 0) && (negb (y mod 100 =? 0) || (y mod 400 =? 0)).

Definition year_length (y : Z) : Z := if leap y then 366 else 365.

(** Days from 1970-01-01 to the first day of year 1970 + [n]. *)
Fixpoint days_to (n : nat) : Z :=
  match n with
  | O => 0
  | S n' => days_to n' + year_length (1970 + Z.of_nat n')
  end.

(** The same number in closed form, for any year. *)
Definition new_year (y : Z) : Z :=
  365 * (y - 1970) + (y - 1) / 4 - (y - 1) / 100 + (y - 1) / 400 - 477.

(** Day [d] since 1970-01-01 falls in year [y]. *)
Definition in_year (d y : Z) : Prop := new_year y <= d < new_year (y + 1).

Lemma div_pred y k : 0 < k -> (y - 1) / k = y / k - (if y mod k =? 0 then 1 else 0).
Proof.
  intros Hk. pose proof (Z.div_mod y k ltac:(lia)) as Hy. pose proof (Z.mod_pos_bound y k Hk).
  destruct (Z.eqb_spec (y mod k) 0) as [Hz|Hz].
  - symmetry. apply Z.div_unique with (k - 1); lia.
  - symmetry. apply Z.div_unique with (y mod k - 1); lia.
Qed.

Lemma mod_400_100 y : y mod 400 = 0 -> y mod 100 = 0.
Proof. intros. Z.to_euclidean_division_equations. lia. Qed.

Lemma mod_100_4 y : y mod 100 = 0 -> y mod 4 = 0.
Proof. intros. Z.to_euclidean_division_equations. lia. Qed.

Lemma new_year_succ y : new_year (y + 1) = new_year y + year_length y.
Proof.
  unfold new_year, year_length, leap. replace (y + 1 - 1) with y by lia. rewrite !div_pred by lia.
  destruct (Z.eqb_spec (y mod 400) 0) as [H400|H400]; [apply mod_400_100 in H400 as H100|];
    destruct (Z.eqb_spec (y mod 100) 0) as [H100'|H100']; try (apply mod_100_4 in H100' as H4);
    destruct (Z.eqb_spec (y mod 4) 0) as [H4'|H4']; simpl; lia.
Qed.

Lemma days_to_new_year n : days_to n = new_year (1970 + Z.of_nat n).
Proof.
  induction n as [|n IH]; [done|]. simpl days_to. rewrite IH.
  replace (1970 + Z.of_nat (S n)) with (1970 + Z.of_nat n + 1) by lia.
  by rewrite new_year_succ.
Qed.

(** The calendar repeats every 400 years, which are 146,097 days. *)
Lemma new_year_cycle y k : new_year (y + 400 * k) = new_year y + 146097 * k.
Proof.
  unfold new_year. replace (y + 400 * k - 1) with (y - 1 + 400 * k) by lia.
  replace ((y - 1 + 400 * k) / 4) with ((y - 1) / 4 + 100 * k)
    by (rewrite <- Z.div_add by lia; f_equal; lia).
  replace ((y - 1 + 400 * k) / 100) with ((y - 1) / 100 + 4 * k)
    by (rewrite <- Z.div_add by lia; f_equal; lia).
  replace ((y - 1 + 400 * k) / 400) with ((y - 1) / 400 + k)
    by (rewrite <- Z.div_add by lia; f_equal; lia).
  lia.
Qed.

Lemma in_year_cycle d y k : in_year d y -> in_year (d + 146097 * k) (y + 400 * k).
Proof.
  unfold in_year. replace (y + 400 * k + 1) with (y + 1 + 400 * k) by lia.
  rewrite !new_year_cycle. lia.
Qed.

Lemma year_length_pos y : 0 < year_length y.
Proof. unfold year_length. destruct (leap y); lia. Qed.

Lemma new_year_mono x y : x <= y -> new_year x <= new_year y.
Proof.
  intros Hxy. replace y with (x + (y - x)) by lia. assert (0 <= y - x) as Hn by lia.
  revert Hn. generalize (y - x). apply natlike_ind; [by rewrite Z.add_0_r|].
  intros n Hn IH. replace (x + Z.succ n) with (x + n + 1) by lia. rewrite new_year_succ.
  pose proof (year_length_pos (x + n)). lia.
Qed.

(** A day falls in one year only. *)
Lemma in_year_unique d x y : in_year d x -> in_year d y -> x = y.
Proof.
  unfold in_year. intros Hx Hy. destruct (Z.lt_trichotomy x y) as [Hlt|[?|Hlt]]; [|done|].
  - pose proof (new_year_mono (x + 1) y). lia.
  - pose proof (new_year_mono (y + 1) x). lia.
Qed.

(** Every day from 1970-01-01 on falls in some year, counted by [days_to]. *)
Lemma in_year_days_to d y :
  0 <= d -> in_year d y -> exists n, y = 1970 + Z.of_nat n /\ days_to n <= d < days_to (S n).
Proof.
  intros Hd [Hlo Hhi]. assert (1970 <= y) as Hy.
  { destruct (decide (1970 <= y)); [done|]. pose proof (new_year_mono (y + 1) 1970 ltac:(lia)) as Hm.
    change (new_year 1970) with 0 in Hm. lia. }
  exists (Z.to_nat (y - 1970)). rewrite !days_to_new_year, Nat2Z.inj_succ, !Z2Nat.id by lia.
  replace (1970 + Z.succ (y - 1970)) with (y + 1) by lia.
  replace (1970 + (y - 1970)) with y by lia. done.
Qed.

(** ** Years that start on the first of March

    Year [y] of the 400-year cycle starts on day [march y] of the cycle. *)

Definition march (y : Z) : Z := 365 * y + y / 4 - y / 100 + y / 400.

(** The day of the cycle, less its leap days. *)
Definition common_days (d : Z) : Z := d - d / 1460 + d / 36524 - d / 146096.

Lemma common_days_step d : common_days d <= common_days (d + 1).
Proof.
  unfold common_days. replace (d / 1460) with ((d + 1 - 1) / 1460) by (f_equal; lia).
  replace (d / 36524) with ((d + 1 - 1) / 36524) by (f_equal; lia).
  replace (d / 146096) with ((d + 1 - 1) / 146096) by (f_equal; lia).
  rewrite !div_pred by lia.
  destruct (Z.eqb_spec ((d + 1) mod 146096) 0) as [H1|];
    destruct (Z.eqb_spec ((d + 1) mod 36524) 0) as [|H2];
    destruct (Z.eqb_spec ((d + 1) mod 1460) 0); try lia;
    exfalso; apply H2; Z.to_euclidean_division_equations; lia.
Qed.

Lemma common_days_mono c d : c <= d -> common_days c <= common_days d.
Proof.
  intros Hcd. replace d with (c + (d - c)) by lia. assert (0 <= d - c) as Hn by lia.
  revert Hn. generalize (d - c). apply natlike_ind; [by rewrite Z.add_0_r|].
  intros n Hn IH. replace (c + Z.succ n) with (c + n + 1) by lia.
  pose proof (common_days_step (c + n)). lia.
Qed.

(** At the first and the last day of each of the 400 years the quotient is the year. *)
Lemma march_ends :
  forallb (fun y => (common_days (march y) / 365 =? y) && (common_days (march (y + 1) - 1) / 365 =? y))
          (seqZ 0 400) = true.
Proof. vm_compute. reflexivity. Qed.

Lemma march_year d y : 0 <= y < 400 -> march y <= d < march (y + 1) -> common_days d / 365 = y.
Proof.
  intros Hy Hd. pose proof march_ends as Hends. rewrite forallb_forall in Hends.
  specialize (Hends y). rewrite <- list_elem_of_In, elem_of_seqZ in Hends.
  apply andb_true_iff in Hends as [H1%Z.eqb_eq H2%Z.eqb_eq]; [|lia].
  pose proof (common_days_mono (march y) d ltac:(lia)) as Hlo.
  pose proof (common_days_mono d (march (y + 1) - 1) ltac:(lia)) as Hhi.
  apply (Z.div_le_mono _ _ 365) in Hlo, Hhi; lia.
Qed.

Lemma march_total d : 0 <= d < 146097 -> exists y, 0 <= y < 400 /\ march y <= d < march (y + 1).
Proof.
  intros Hd. assert (forall n, 0 <= n -> d < march n -> exists y, 0 <= y < n /\ march y <= d < march (y + 1)) as Hn.
  { apply (natlike_ind (fun n => d < march n -> exists y, 0 <= y < n /\ march y <= d < march (y + 1))).
    - intros. exfalso. change (march 0) with 0 in *. lia.
    - intros n H0 IH Hlt. destruct (decide (d < march n)) as [Hd'|Hd'].
      + destruct (IH Hd') as (y&?&?). exists y. split; [lia|done].
      + exists n. split; [lia|]. replace (n + 1) with (Z.succ n) by lia. lia. }
  apply Hn; [lia|]. change (march 400) with 146097. lia.
Qed.

(** January and February belong to the next calendar year: from day 306 on. *)
Lemma march_january y : 0 <= y < 400 -> new_year (y + 1) = march y + 306 - 719468.
Proof. intros. unfold new_year, march. replace (y + 1 - 1) with y by lia. lia. Qed.
