(* ===== verification/CreditRetirement.v ===== *)
(** * CreditRetirement: permanent retirement of credits and their certificates

    Model of [src/contracts/credit-retirement/src/lib.rs].  Bonds and credit
    balances are reached through the interfaces of [Interfaces.v].  The contract
    is specified as an append-only ledger: a state refines a list of records,
    and every counter, index and total it stores is a function of that list. *)

From S2P Require Import Prelude Host Shared Interfaces Calendar.

(** ** Storage and events *)

Definition LEDGERS_PER_DAY : Z := 17280.
Definition RETIREMENT_TTL_THRESHOLD : Z := LEDGERS_PER_DAY * 30.
Definition RETIREMENT_TTL_EXTEND_TO : Z := LEDGERS_PER_DAY * 120.
Definition SECONDS_PER_DAY : Z := 86400.

Module DataKey.
Inductive DataKey :=
| Admin
| Retirement (id : Z)
| RetirementCount
| HolderRetirements (holder : Address)
| BondHolderRetirements (bond_id : Z) (holder : Address)
| RetiredCredits (holder : Address)
| RetiredPerBond (bond_id : Z) (holder : Address)
| RetiredByType (holder : Address) (t : CreditType.CreditType)
| BondIssuerAddress
| CouponEngineAddress
| Nonce (addr : Address).
End DataKey.
Abbreviation DataKey := DataKey.DataKey.

#[export] Instance DataKey_eq_dec : EqDecision DataKey.
Proof. solve_decision. Defined.

#[export] Instance DataKey_countable : Countable DataKey.
Proof.
  refine (inj_countable'
    (fun k => match k with
      | DataKey.Admin => (0%N, 0, Addr 0, CreditType.Carbon)
      | DataKey.Retirement i => (1%N, i, Addr 0, CreditType.Carbon)
      | DataKey.RetirementCount => (2%N, 0, Addr 0, CreditType.Carbon)
      | DataKey.HolderRetirements h => (3%N, 0, h, CreditType.Carbon)
      | DataKey.BondHolderRetirements b h => (4%N, b, h, CreditType.Carbon)
      | DataKey.RetiredCredits h => (5%N, 0, h, CreditType.Carbon)
      | DataKey.RetiredPerBond b h => (6%N, b, h, CreditType.Carbon)
      | DataKey.RetiredByType h t => (7%N, 0, h, t)
      | DataKey.BondIssuerAddress => (8%N, 0, Addr 0, CreditType.Carbon)
      | DataKey.CouponEngineAddress => (9%N, 0, Addr 0, CreditType.Carbon)
      | DataKey.Nonce a => (10%N, 0, a, CreditType.Carbon)
      end)
    (fun x => match x with
      | (0%N, _, _, _) => DataKey.Admin
      | (1%N, i, _, _) => DataKey.Retirement i
      | (2%N, _, _, _) => DataKey.RetirementCount
      | (3%N, _, h, _) => DataKey.HolderRetirements h
      | (4%N, b, h, _) => DataKey.BondHolderRetirements b h
      | (5%N, _, h, _) => DataKey.RetiredCredits h
      | (6%N, b, h, _) => DataKey.RetiredPerBond b h
      | (7%N, _, h, t) => DataKey.RetiredByType h t
      | (8%N, _, _, _) => DataKey.BondIssuerAddress
      | (9%N, _, _, _) => DataKey.CouponEngineAddress
      | (_, _, a, _) => DataKey.Nonce a
      end) _).
  by intros [].
Defined.

Record RetirementRecord := mkRetirementRecord {
  rr_id : Z;
  rr_holder : Address;
  rr_bond_id : Z;
  rr_project_id : BytesN;
  rr_period_index : Z;
  rr_report_id : Z;
  rr_vintage_year : Z;
  rr_vintage_period_start : Z;
  rr_vintage_period_end : Z;
  rr_amount : Z;
  rr_credit_type : CreditType.CreditType;
  rr_retired_at : Z;
  rr_certificate_ipfs_hash : BytesN;
}.

Record RetirementCertificate := mkRetirementCertificate {
  ct_record_id : Z;
  ct_holder : Address;
  ct_bond_id : Z;
  ct_project_id : BytesN;
  ct_period_index : Z;
  ct_report_id : Z;
  ct_vintage_year : Z;
  ct_vintage_period_start : Z;
  ct_vintage_period_end : Z;
  ct_amount : Z;
  ct_credit_type : CreditType.CreditType;
  ct_retired_at : Z;
  ct_certificate_hash : BytesN;
}.

Definition ty (k : DataKey) : Type :=
  match k with
  | DataKey.Admin | DataKey.BondIssuerAddress | DataKey.CouponEngineAddress => Address
  | DataKey.Retirement _ => RetirementRecord
  | DataKey.RetirementCount => Z
  | DataKey.HolderRetirements _ => list Z
  | DataKey.BondHolderRetirements _ _ => list Z
  | DataKey.RetiredCredits _ => Z
  | DataKey.RetiredPerBond _ _ => Z
  | DataKey.RetiredByType _ _ => Z
  | DataKey.Nonce _ => Z
  end.

Inductive Event :=
| CreditsRetired (holder : Address) (certificate : RetirementCertificate).

(** ** Pure helpers *)

(** [timestamp] is a [u64], so the day count is below 2^48: the cast to [i64] is
    exact, every intermediate [i64] value is in range, and both divisions
    ([div_euclid], and [/] on numbers that are not negative) are [Z.div]. *)
Definition year_from_timestamp (timestamp : Z) : Z :=
  let days := timestamp / SECONDS_PER_DAY in
  let shifted := days + 719468 in
  let era := shifted / 146097 in
  let day_of_era := shifted mod 146097 in
  let year_of_era :=
    (day_of_era - day_of_era / 1460 + day_of_era / 36524 - day_of_era / 146096) / 365 in
  let year := year_of_era + era * 400 in
  let day_of_year := day_of_era - (365 * year_of_era + year_of_era / 4 - year_of_era / 100) in
  let shifted_month := (5 * day_of_year + 2) / 153 in
  let month := if shifted_month <? 10 then shifted_month + 3 else shifted_month - 9 in
  let year := if month <=? 2 then year + 1 else year in
  wrap U32 year.

Definition is_compatible_credit_type (bond_type supplied : CreditType.CreditType) : bool :=
  match bond_type, supplied with
  | (CreditType.Carbon | CreditType.BlueCarbon), (CreditType.Carbon | CreditType.BlueCarbon) => true
  | CreditType.Biodiversity, CreditType.Biodiversity => true
  | CreditType.Basket, (CreditType.Carbon | CreditType.BlueCarbon | CreditType.Biodiversity) => true
  | _, _ => false
  end.

Definition certificate_from_record (record : RetirementRecord) : RetirementCertificate :=
  mkRetirementCertificate (rr_id record) (rr_holder record) (rr_bond_id record) (rr_project_id record)
    (rr_period_index record) (rr_report_id record) (rr_vintage_year record)
    (rr_vintage_period_start record) (rr_vintage_period_end record) (rr_amount record)
    (rr_credit_type record) (rr_retired_at record) (rr_certificate_ipfs_hash record).

Section retirement.
Context {W : Type} `{!World W} `{!BondReader W} `{!CreditSource W}.
Local Abbreviation M := (contract DataKey ty CreditError.CreditError Event W).
Local Abbreviation state := (cstate DataKey ty Event W).

(** ** Storage helpers *)

Definition get_nonce (addr : Address) : M Z :=
  let* o := pget (DataKey.Nonce addr) in ret (default 0 o).

Definition set_nonce (addr : Address) (nonce : Z) : M unit := pset (DataKey.Nonce addr) nonce.

Definition extend_ttl (key : DataKey) : M unit :=
  pextend_ttl key RETIREMENT_TTL_THRESHOLD RETIREMENT_TTL_EXTEND_TO.

(** Entries written before the move to persistent storage are in the instance entry. *)
Definition read (key : DataKey) : M (option (ty key)) :=
  let* o := pget key in
  match o with
  | Some value => ret (Some value)
  | None => iget key
  end.

Definition write (key : DataKey) (value : ty key) : M unit :=
  pset key value ;;
  extend_ttl key.

Definition get_retirement_count : M Z :=
  let* o := pget DataKey.RetirementCount in
  match o with
  | Some count => ret count
  | None =>
      let* l := iget DataKey.RetirementCount in
      let legacy : Z := default 0 l in
      write DataKey.RetirementCount legacy ;;
      ret legacy
  end.

Definition set_retirement_count (value : Z) : M unit := write DataKey.RetirementCount value.

Definition constructor (admin bond_issuer_address coupon_engine_address : Address) : M unit :=
  iset DataKey.Admin admin ;;
  iset DataKey.BondIssuerAddress bond_issuer_address ;;
  iset DataKey.CouponEngineAddress coupon_engine_address.

(** ** Retirement *)

Definition consume_nonce (caller : Address) (nonce : Z) : M unit :=
  let* expected_nonce := get_nonce caller in
  fail_if (negb (nonce =? expected_nonce)) CreditError.InvalidNonce ;;
  let* next := arith U64 (expected_nonce + 1) in
  set_nonce caller next.

(** The holder still holds the bond, and the project and the type claimed are the bond's. *)
Definition validate_bond (holder : Address) (bond_id : Z) (project_id : BytesN)
    (credit_type : CreditType.CreditType) : M unit :=
  let* i := iget DataKey.BondIssuerAddress in
  let* bond_issuer := ok_or i CreditError.NotInitialized in
  let* balance := invoke_contract bond_issuer (call_get_holder_balance bond_issuer bond_id holder) in
  fail_if (balance <=? 0) CreditError.NotAHolder ;;
  let* config := invoke_contract bond_issuer (call_get_bond bond_issuer bond_id) in
  fail_if (bool_decide (bc_project_id config <> project_id)) CreditError.ProjectMismatch ;;
  fail_if (negb (is_compatible_credit_type (bc_credit_type config) credit_type))
          CreditError.InvalidCreditType.

(** Read the balance and the period, then deduct the amount on the engine. *)
Definition take_credits (holder : Address) (bond_id period_index amount : Z)
    (credit_type : CreditType.CreditType) : M PeriodInfo :=
  let* c := iget DataKey.CouponEngineAddress in
  let* coupon_engine := ok_or c CreditError.NotInitialized in
  let* accrued := invoke_contract coupon_engine (call_accrued_credits coupon_engine bond_id holder) in
  let* p := try_invoke_contract coupon_engine (call_get_period_info coupon_engine bond_id period_index) in
  let* period := (match p with inl period => ret period | inr _ => throw CreditError.PeriodNotFound end) in
  fail_if (negb (pi_distributed period)) CreditError.PeriodNotDistributed ;;
  fail_if (accrued <? amount) CreditError.InsufficientCredits ;;
  let* deducted := try_invoke_contract coupon_engine
                     (call_deduct_credits coupon_engine bond_id holder amount credit_type) in
  match deducted with inl _ => ret tt | inr _ => throw CreditError.InsufficientCredits end ;;
  ret period.

(** Append an id to an index entry. *)
Definition push_id (ids : option (list Z)) (id : Z) : list Z := default [] ids ++ [id].

(** Record the retirement: counters, certificate, indices. *)
Definition record_retirement (holder : Address) (bond_id : Z) (project_id : BytesN)
    (period_index amount : Z) (credit_type : CreditType.CreditType) (certificate_hash : BytesN)
    (period : PeriodInfo) : M Z :=
  let* a := read (DataKey.RetiredPerBond bond_id holder) in
  let* per_bond := arith I128 (default 0 a + amount) in
  write (DataKey.RetiredPerBond bond_id holder) per_bond ;;
  let* count := get_retirement_count in
  let* retirement_id := arith U64 (count + 1) in
  set_retirement_count retirement_id ;;
  let* now := ledger_timestamp in
  let record := mkRetirementRecord retirement_id holder bond_id project_id period_index
                  (pi_report_id period) (year_from_timestamp (pi_end_time period))
                  (pi_start_time period) (pi_end_time period) amount credit_type now certificate_hash in
  write (DataKey.Retirement retirement_id) record ;;
  let* r := read (DataKey.RetiredCredits holder) in
  let* new_total := ok_or (checked I128 (default 0 r + amount)) CreditError.Overflow in
  write (DataKey.RetiredCredits holder) new_total ;;
  let* hr := read (DataKey.HolderRetirements holder) in
  write (DataKey.HolderRetirements holder) (push_id hr retirement_id) ;;
  let* br := read (DataKey.BondHolderRetirements bond_id holder) in
  write (DataKey.BondHolderRetirements bond_id holder) (push_id br retirement_id) ;;
  iextend_ttl RETIREMENT_TTL_THRESHOLD RETIREMENT_TTL_EXTEND_TO ;;
  publish (CreditsRetired holder (certificate_from_record record)) ;;
  ret retirement_id.

Definition retire_credits (holder : Address) (bond_id : Z) (project_id : BytesN)
    (period_index amount : Z) (credit_type : CreditType.CreditType) (certificate_hash : BytesN)
    (nonce : Z) : M Z :=
  require_auth holder ;;
  consume_nonce holder nonce ;;
  fail_if (amount <=? 0) CreditError.InsufficientCredits ;;
  fail_if (all_zero certificate_hash) CreditError.InvalidCertificate ;;
  validate_bond holder bond_id project_id credit_type ;;
  let* period := take_credits holder bond_id period_index amount credit_type in
  record_retirement holder bond_id project_id period_index amount credit_type certificate_hash period.

(** ** Getters *)

Definition get_retirement_record (retirement_id : Z) : M RetirementRecord :=
  let* o := read (DataKey.Retirement retirement_id) in
  ok_or o CreditError.RetirementNotFound.

Definition get_retirement_certificate (retirement_id : Z) : M RetirementCertificate :=
  let* o := read (DataKey.Retirement retirement_id) in
  let* record := ok_or o CreditError.RetirementNotFound in
  ret (certificate_from_record record).

Definition get_bond_retirements (bond_id : Z) (holder : Address) : M (list Z) :=
  let* o := read (DataKey.BondHolderRetirements bond_id holder) in ret (default [] o).

Definition push_certificate (certificates : list RetirementCertificate) (id : Z) :
    M (list RetirementCertificate) :=
  let* o := read (DataKey.Retirement id) in
  ret (match o with
       | Some record => certificates ++ [certificate_from_record record]
       | None => certificates
       end).

Definition get_bond_certificates (bond_id : Z) (holder : Address) : M (list RetirementCertificate) :=
  let* o := read (DataKey.BondHolderRetirements bond_id holder) in
  mfold push_certificate [] (default [] o).

Definition extend_retirement_ttl (retirement_id : Z) : M unit :=
  let* o := read (DataKey.Retirement retirement_id) in
  let* record := ok_or o CreditError.RetirementNotFound in
  let* present := phas (DataKey.Retirement retirement_id) in
  (if negb present then write (DataKey.Retirement retirement_id) record
   else extend_ttl (DataKey.Retirement retirement_id)) ;;
  extend_ttl (DataKey.HolderRetirements (rr_holder record)) ;;
  extend_ttl (DataKey.BondHolderRetirements (rr_bond_id record) (rr_holder record)) ;;
  let* counted := phas DataKey.RetirementCount in
  when counted (extend_ttl DataKey.RetirementCount).

Definition get_holder_retirements (holder : Address) : M (list Z) :=
  let* o := read (DataKey.HolderRetirements holder) in ret (default [] o).

Definition get_total_retired (holder : Address) : M Z :=
  let* o := read (DataKey.RetiredCredits holder) in ret (default 0 o).

Definition total_retirements : M Z := get_retirement_count.

Definition get_retired_by_type (holder : Address) (t : CreditType.CreditType) : M Z :=
  let* o := read (DataKey.RetiredByType holder t) in ret (default 0 o).

(** ** Executions *)

(** The transactions that can write. *)
Inductive Call :=
| CRetire (holder : Address) (bond_id : Z) (project_id : BytesN) (period_index amount : Z)
    (t : CreditType.CreditType) (certificate_hash : BytesN) (nonce : Z)
| CExtendTtl (retirement_id : Z)
| CTotalRetirements.

Definition exec (c : Call) : M unit :=
  match c with
  | CRetire h b p i v t c n => retire_credits h b p i v t c n ;; ret tt
  | CExtendTtl i => extend_retirement_ttl i
  | CTotalRetirements => total_retirements ;; ret tt
  end.

Definition deployed (s : state) : Prop :=
  exists e admin issuer engine w, constructor admin issuer engine e (empty_state w) = Ok tt s.

End retirement.

(** ** The vintage year *)

(** [year_from_timestamp] before its final cast, on a day of the 400-year era that starts
    on 0000-03-01. *)
Definition year_of_era_day (day_of_era : Z) : Z :=
  let year_of_era := common_days day_of_era / 365 in
  let day_of_year := day_of_era - (365 * year_of_era + year_of_era / 4 - year_of_era / 100) in
  let shifted_month := (5 * day_of_year + 2) / 153 in
  let month := if shifted_month <? 10 then shifted_month + 3 else shifted_month - 9 in
  if month <=? 2 then year_of_era + 1 else year_of_era.

Lemma year_of_era_day_correct d : 0 <= d < 146097 -> in_year (d - 719468) (year_of_era_day d).
Proof.
  intros Hd. destruct (march_total d Hd) as (y&Hy&Hm). unfold year_of_era_day. cbv zeta.
  rewrite (march_year d y Hy Hm). replace (365 * y + y / 4 - y / 100) with (march y)
    by (unfold march; rewrite (Z.div_small y 400) by lia; lia).
  assert (Hlen : march (y + 1) <= march y + 366).
  { unfold march. Z.to_euclidean_division_equations. lia. }
  pose proof (march_january y Hy) as Hjan.
  assert (Hend : march (y + 1) - 719468 <= new_year (y + 1 + 1)).
  { rewrite new_year_succ, Hjan. pose proof (march_january y Hy).
    destruct (decide (y = 399)) as [->|]; [by vm_compute|].
    pose proof (march_january (y + 1) ltac:(lia)) as Hj2. rewrite new_year_succ in Hj2. lia. }
  assert (Hbeg : new_year y <= march y - 719468).
  { destruct (decide (y = 0)) as [->|]; [by vm_compute|].
    pose proof (march_january (y - 1) ltac:(lia)) as Hj2. replace (y - 1 + 1) with y in Hj2 by lia.
    assert (march (y - 1) + 365 <= march y) by (unfold march; Z.to_euclidean_division_equations; lia). lia. }
  set (doy := d - march y). assert (Hdoy : 0 <= doy < 366) by lia.
  assert (Hsplit : (5 * doy + 2) / 153 < 10 <-> doy < 306) by (Z.to_euclidean_division_equations; lia).
  destruct (Z.ltb_spec ((5 * doy + 2) / 153) 10) as [Hs|Hs];
    match goal with |- context [?a <=? 2] => destruct (Z.leb_spec a 2) as [Hm2|Hm2] end;
    unfold in_year; try (split; lia);
    exfalso; Z.to_euclidean_division_equations; lia.
Qed.

(** C27: The vintage year is right: for every timestamp, [year_from_timestamp] is the
    Gregorian year the timestamp's day falls in, counted year by year from 1970 with the
    leap-year rule; the cast to 32 bits changes it only from the year 2^32 on. *)
Theorem vintage_year_correct t :
  0 <= t ->
  exists n, days_to n <= t / SECONDS_PER_DAY < days_to (S n) /\
    year_from_timestamp t = wrap U32 (1970 + Z.of_nat n).
Proof.
  intros Ht. unfold year_from_timestamp. cbv zeta.
  assert (0 <= t / SECONDS_PER_DAY) as Hpos by (apply Z.div_pos; unfold SECONDS_PER_DAY; lia).
  generalize dependent (t / SECONDS_PER_DAY). intros days Hpos.
  set (doe := (days + 719468) mod 146097). set (era := (days + 719468) / 146097).
  assert (Hdoe : 0 <= doe < 146097) by (apply Z.mod_pos_bound; lia).
  assert (Hdays : doe - 719468 + 146097 * era = days)
    by (pose proof (Z.div_mod (days + 719468) 146097 ltac:(lia)); unfold doe, era; lia).
  pose proof (in_year_cycle _ _ era (year_of_era_day_correct doe Hdoe)) as Hyear.
  rewrite Hdays in Hyear. destruct (in_year_days_to days _ Hpos Hyear) as (n&Hy&Hn).
  exists n. split; [done|]. rewrite <- Hy. f_equal. unfold year_of_era_day, common_days. cbv zeta.
  case_match; lia.
Qed.

Lemma vintage_year_correct_witness :
  exists n, days_to n <= 1709164800 / SECONDS_PER_DAY < days_to (S n) /\
    year_from_timestamp 1709164800 = wrap U32 (1970 + Z.of_nat n).
Proof. apply (vintage_year_correct 1709164800). lia. Defined.

Example vintage_years :
  map year_from_timestamp [0; 31535999; 31536000; 951782400; 1709164800; 1735689599; 1735689600] =
  [1970; 1970; 1971; 2000; 2024; 2024; 2025].
Proof. vm_compute. reflexivity. Qed.

(** ** The ledger

    [look] is what the contract reads at a key, whichever storage holds it. *)

Section views.
Context {W : Type}.
Implicit Types s : cstate DataKey ty Event W.

Definition look (k : DataKey) s : option (ty k) :=
  match sget k (pers s) with Some v => Some v | None => sget k (inst s) end.

Definition count_of s : Z := default 0 (look DataKey.RetirementCount s).
Definition record_of s (id : Z) : option RetirementRecord := look (DataKey.Retirement id) s.
Definition holder_ids s (h : Address) : list Z := default [] (look (DataKey.HolderRetirements h) s).
Definition bond_ids s (b : Z) (h : Address) : list Z :=
  default [] (look (DataKey.BondHolderRetirements b h) s).
Definition retired s (h : Address) : Z := default 0 (look (DataKey.RetiredCredits h) s).
Definition retired_per_bond s (b : Z) (h : Address) : Z :=
  default 0 (look (DataKey.RetiredPerBond b h) s).
End views.

(** The retirements of a holder, and those on one bond, in the order they happened. *)
Definition of_holder (h : Address) (l : list RetirementRecord) : list RetirementRecord :=
  filter (fun r => rr_holder r = h) l.
Definition of_bond (b : Z) (h : Address) (l : list RetirementRecord) : list RetirementRecord :=
  filter (fun r => rr_bond_id r = b /\ rr_holder r = h) l.

Definition total_amount (l : list RetirementRecord) : Z := foldr (fun r acc => rr_amount r + acc) 0 l.

(** The abstraction: the state stores the ledger [l]. *)
Record refines {W} (s : cstate DataKey ty Event W) (l : list RetirementRecord) : Prop := {
  rf_count : count_of s = Z.of_nat (length l);
  rf_record : forall id, record_of s id = if 1 <=? id then l !! Z.to_nat (id - 1) else None;
  rf_ids : forall i r, l !! i = Some r -> rr_id r = Z.of_nat i + 1 /\ 0 < rr_amount r;
  rf_holder : forall h, holder_ids s h = rr_id <$> of_holder h l;
  rf_bond : forall b h, bond_ids s b h = rr_id <$> of_bond b h l;
  rf_retired : forall h, retired s h = total_amount (of_holder h l);
  rf_per_bond : forall b h, retired_per_bond s b h = total_amount (of_bond b h l);
  rf_range : forall h, total_amount (of_holder h l) <= int_hi I128;
}.

(** *** Sums over the ledger *)

Lemma total_amount_app l k : total_amount (l ++ k) = total_amount l + total_amount k.
Proof. induction l as [|r l IH]; simpl; lia. Qed.

Lemma of_holder_snoc h l r :
  of_holder h (l ++ [r]) = of_holder h l ++ (if decide (rr_holder r = h) then [r] else []).
Proof. unfold of_holder. rewrite list.filter_app. f_equal; by rewrite filter_cons, filter_nil. Qed.

Lemma of_bond_snoc b h l r :
  of_bond b h (l ++ [r]) =
  of_bond b h l ++ (if decide (rr_bond_id r = b /\ rr_holder r = h) then [r] else []).
Proof. unfold of_bond. rewrite list.filter_app. f_equal; by rewrite filter_cons, filter_nil. Qed.

Lemma of_bond_holder b h l : of_bond b h l = of_bond b h (of_holder h l).
Proof.
  unfold of_bond, of_holder. rewrite list_filter_filter. apply list_filter_iff. intros r. tauto.
Qed.

(** Filtering positive amounts lowers the sum. *)
Lemma total_filter (P : RetirementRecord -> Prop) `{!forall r, Decision (P r)} l :
  Forall (fun r => 0 < rr_amount r) l -> 0 <= total_amount (filter P l) <= total_amount l.
Proof.
  induction 1 as [|r l Hr _ IH]; [done|]. rewrite filter_cons. case_decide; simpl in *; lia.
Qed.

Lemma refines_positive {W} (s : cstate DataKey ty Event W) l :
  refines s l -> Forall (fun r => 0 < rr_amount r) l.
Proof. intros Hrf. apply Forall_lookup. intros i r Hi. apply (rf_ids s l Hrf i r Hi). Qed.

(** What is retired on one bond is part of what is retired. *)
Lemma per_bond_le {W} (s : cstate DataKey ty Event W) l b h :
  refines s l -> 0 <= total_amount (of_bond b h l) <= total_amount (of_holder h l).
Proof.
  intros Hrf. rewrite of_bond_holder. apply total_filter.
  by apply filter_Forall, refines_positive with s.
Qed.

Section specs.
Context {W : Type} `{!World W} `{!BondReader W} `{!CreditSource W}.
Local Abbreviation M := (contract DataKey ty CreditError.CreditError Event W).
Local Abbreviation state := (cstate DataKey ty Event W).
Implicit Types (s : state) (e : Env).

(** *** What the helpers do *)

Lemma credit_extend_Ok k e s u s' : extend_ttl k e s = Ok u s' -> exists l, s' = put_live l s.
Proof. apply pextend_Ok. Qed.

Lemma credit_write_Ok k v e s u s' :
  @write W k v e s = Ok u s' -> exists l, s' = put_live l (put_pers k v s).
Proof. unfold write, extend_ttl. intros H. inv_ok H. by eexists. Qed.

Lemma credit_write_total k v e s : exists l, @write W k v e s = Ok tt (put_live l (put_pers k v s)).
Proof.
  unfold write, extend_ttl. run.
  match goal with |- exists l, pextend_ttl _ ?t ?x _ ?s0 = _ =>
    destruct (only_live_pextend (E := CreditError.CreditError) k t x e s0) as [l Hl] end.
  { host_cbn. rewrite sget_sset_eq. eauto. }
  rewrite Hl. by eexists.
Qed.

Lemma read_run k e s : @read W k e s = Ok (look k s) s.
Proof. unfold read, look. run. by destruct (sget k (pers s)). Qed.

Lemma read_Ok k e s o s' : @read W k e s = Ok o s' -> o = look k s /\ s' = s.
Proof. rewrite read_run. by intros [= <- <-]. Qed.

Lemma credit_consume_nonce_Ok a n e s u s' :
  consume_nonce a n e s = Ok u s' ->
  n = default 0 (sget (DataKey.Nonce a) (pers s)) /\
  exists next l, s' = put_live l (put_pers (DataKey.Nonce a) next s).
Proof.
  unfold consume_nonce, get_nonce, set_nonce. intros H. inv_ok H. guards. split; [done|]. by eexists _, _.
Qed.

Lemma count_Ok e s c s' :
  @get_retirement_count W e s = Ok c s' ->
  c = count_of s /\
  exists l, s' = put_live l s \/ s' = put_live l (put_pers DataKey.RetirementCount c s) .
Proof.
  unfold get_retirement_count, count_of, look. intros (o&s1&[-> ->]%pget_Ok&H)%bind_Ok.
  destruct (sget DataKey.RetirementCount (pers s)) as [c0|].
  - apply ret_Ok in H as [-> ->]. split; [done|]. exists (live s). left. by destruct s.
  - apply bind_Ok in H as (o&s1&[-> ->]%iget_Ok&H).
    apply bind_Ok in H as (?&s2&[l ->]%credit_write_Ok&[-> ->]%ret_Ok). split; [done|]. exists l. by right.
Qed.
End specs.

(** The helper specifications, for [inv_ok]. *)
Ltac inv_hook H ::=
  lazymatch type of H with
  | read _ _ _ = Ok _ _ => apply read_Ok in H as [? ?]; subst
  | write _ _ _ _ = Ok _ _ => apply credit_write_Ok in H as [? ?]; subst
  | extend_ttl _ _ _ = Ok _ _ => apply credit_extend_Ok in H as [? ?]; subst
  end.

(** *** Lookups in transformed states *)

Section look.
Context {W : Type}.
Implicit Types s : cstate DataKey ty Event W.

Lemma look_put_live k l s : look k (put_live l s) = look k s.
Proof. done. Qed.
Lemma look_put_inst_live k z s : look k (put_inst_live z s) = look k s.
Proof. done. Qed.
Lemma look_log k ev s : look k (log ev s) = look k s.
Proof. done. Qed.
Lemma look_put_world k w s : look k (put_world w s) = look k s.
Proof. done. Qed.
Lemma look_put_pers_eq k v s : look k (put_pers k v s) = Some v.
Proof. unfold look. host_cbn. by rewrite sget_sset_eq. Qed.
Lemma look_put_pers_ne k k' v s : k' <> k -> look k (put_pers k' v s) = look k s.
Proof. intros. unfold look. host_cbn. by rewrite sget_sset_ne. Qed.
End look.

Create Rewrite HintDb look.
#[export] Hint Rewrite @look_put_live @look_put_inst_live @look_log @look_put_world @look_put_pers_eq : look.
#[export] Hint Rewrite @look_put_pers_ne using congruence : look.

(** Two states that store the same ledger. *)
Record same_ledger {W} (s s' : cstate DataKey ty Event W) : Prop := {
  sl_count : count_of s' = count_of s;
  sl_record : forall id, record_of s' id = record_of s id;
  sl_holder : forall h, holder_ids s' h = holder_ids s h;
  sl_bond : forall b h, bond_ids s' b h = bond_ids s b h;
  sl_retired : forall h, retired s' h = retired s h;
  sl_per_bond : forall b h, retired_per_bond s' b h = retired_per_bond s b h;
}.

#[export] Instance same_ledger_equivalence W : Equivalence (@same_ledger W).
Proof.
  split; [by split|intros s t []; by split; intros|].
  intros s t u [] []. split; intros; congruence.
Qed.

#[export] Instance refines_proper W : Proper (same_ledger ==> eq ==> iff) (@refines W).
Proof.
  enough (Hw : forall s s' l, same_ledger s s' -> @refines W s l -> refines s' l).
  { intros s s' Hs l ? <-. split; apply Hw; [done|by symmetry]. }
  intros s s' l [Hc Hr Hh Hb Ht Hp] [? ? ? ? ? ? ? ?].
  split; intros; rewrite ?Hc, ?Hr, ?Hh, ?Hb, ?Ht, ?Hp; auto.
Qed.

Ltac same_ledger_tac :=
  split; intros; unfold count_of, record_of, holder_ids, bond_ids, retired, retired_per_bond;
  autorewrite with look; try done.

Section steps.
Context {W : Type} `{!World W} `{!BondReader W} `{!CreditSource W}.
Local Abbreviation M := (contract DataKey ty CreditError.CreditError Event W).
Local Abbreviation state := (cstate DataKey ty Event W).
Implicit Types (s : state) (e : Env).

(** Writes outside the ledger. *)
Definition ledger_key (k : DataKey) : bool :=
  match k with
  | DataKey.Retirement _ | DataKey.RetirementCount | DataKey.HolderRetirements _
  | DataKey.BondHolderRetirements _ _ | DataKey.RetiredCredits _ | DataKey.RetiredPerBond _ _ => true
  | _ => false
  end.

Lemma same_ledger_put k v s : ledger_key k = false -> same_ledger s (put_pers k v s).
Proof.
  intros Hk. assert (Hl : forall j, ledger_key j = true -> look j (put_pers k v s) = look j s).
  { intros j Hj. apply look_put_pers_ne. intros ->. congruence. }
  same_ledger_tac; by rewrite Hl.
Qed.

Lemma same_ledger_nonce a n e s u s' : consume_nonce a n e s = Ok u s' -> same_ledger s s'.
Proof.
  intros (_&next&l&->)%credit_consume_nonce_Ok.
  transitivity (put_pers (DataKey.Nonce a) next s); [by apply same_ledger_put|same_ledger_tac].
Qed.

Lemma same_ledger_count e s c s' :
  @get_retirement_count W e s = Ok c s' -> c = count_of s /\ same_ledger s s'.
Proof.
  intros (->&l&[->| ->])%count_Ok; (split; [done|]); [same_ledger_tac|].
  split; intros; unfold count_of at 1, record_of, holder_ids, bond_ids, retired, retired_per_bond;
    by autorewrite with look.
Qed.

(** The record a successful retirement appends. *)
Definition new_record (h : Address) (b : Z) (pid : BytesN) (p amt : Z) (t : CreditType.CreditType)
    (cert : BytesN) (period : PeriodInfo) (now : Z) (id : Z) : RetirementRecord :=
  mkRetirementRecord id h b pid p (pi_report_id period) (year_from_timestamp (pi_end_time period))
    (pi_start_time period) (pi_end_time period) amt t now cert.

(** What [record_retirement] leaves at each ledger key. *)
Record recorded (h : Address) (b amt : Z) (r : RetirementRecord) s s' : Prop := {
  rd_count : count_of s' = rr_id r;
  rd_record : forall id, record_of s' id = if id =? rr_id r then Some r else record_of s id;
  rd_holder : forall h', holder_ids s' h' = holder_ids s h' ++ (if decide (h = h') then [rr_id r] else []);
  rd_bond : forall b' h', bond_ids s' b' h' =
    bond_ids s b' h' ++ (if decide (b = b' /\ h = h') then [rr_id r] else []);
  rd_retired : forall h', retired s' h' = retired s h' + (if decide (h = h') then amt else 0);
  rd_per_bond : forall b' h', (b', h') <> (b, h) -> retired_per_bond s' b' h' = retired_per_bond s b' h';
}.

Lemma record_retirement_Ok h b pid p amt t cert period e s id s' :
  record_retirement h b pid p amt t cert period e s = Ok id s' ->
  recorded h b amt (new_record h b pid p amt t cert period (timestamp e) id) s s' /\
  (in_range U64 (count_of s + 1) = true -> id = count_of s + 1) /\
  (in_range I128 (retired_per_bond s b h + amt) = true ->
     retired_per_bond s' b h = retired_per_bond s b h + amt) /\
  in_range I128 (retired s h + amt) = true /\ world s' = world s /\ inst s' = inst s /\
  events s' = events s ++ [CreditsRetired h (certificate_from_record
                             (new_record h b pid p amt t cert period (timestamp e) id))].
Proof.
  unfold record_retirement, set_retirement_count. intros H.
  apply bind_Ok in H as (o&s1&[-> ->]%read_Ok&H).
  apply bind_Ok in H as (pb&s1&(->&_&Hpb&_)%arith_Ok&H).
  apply bind_Ok in H as (?&s1&[l1 ->]%credit_write_Ok&H).
  apply bind_Ok in H as (c&s2&(->&l2&Hs2)%count_Ok&H).
  apply bind_Ok in H as (i&s3&(->&_&Hid&_)%arith_Ok&H).
  inv_ok H. guards. simplify_eq.
  assert (Hcount : count_of (put_live l1 (put_pers (DataKey.RetiredPerBond b h) pb s)) = count_of s)
    by (unfold count_of; by autorewrite with look).
  rewrite Hcount in *.
  destruct Hs2 as [-> | ->]; (split_and!; [|done| | |done..]).
  all: try (unfold retired_per_bond; autorewrite with look; exact Hpb).
  all: try (unfold retired; autorewrite with look in *; done).
  all: split.
  all: try (unfold count_of; by autorewrite with look).
  all: try (intros j; unfold record_of; cbn [rr_id new_record]; destruct (Z.eqb_spec j i) as [->|];
            by autorewrite with look).
  all: try (intros h'; unfold holder_ids, retired; destruct (decide (h = h')) as [->|];
            autorewrite with look; rewrite ?app_nil_r, ?Z.add_0_r; unfold push_id; by autorewrite with look).
  all: intros b' h'; unfold bond_ids, retired_per_bond.
  all: try (intros Hne; by autorewrite with look).
  all: destruct (decide (b = b' /\ h = h')) as [[<- <-]|Hne];
    [autorewrite with look; unfold push_id; by autorewrite with look|].
  all: rewrite app_nil_r; autorewrite with look.
  all: rewrite look_put_pers_ne by (intros [= -> ->]; tauto).
  all: by autorewrite with look.
Qed.
End steps.

Section refinement.
Context {W : Type} `{!World W} `{!BondReader W} `{!CreditSource W}.
Local Abbreviation state := (cstate DataKey ty Event W).
Implicit Types (s : state) (e : Env) (l : list RetirementRecord).

(** ** Refinement: every transaction keeps the ledger or appends to it *)

Lemma refines_append h b amt r s s' l :
  refines s l -> rr_id r = Z.of_nat (length l) + 1 -> rr_holder r = h -> rr_bond_id r = b ->
  rr_amount r = amt -> 0 < amt -> recorded h b amt r s s' ->
  retired_per_bond s' b h = retired_per_bond s b h + amt -> retired s h + amt <= int_hi I128 ->
  refines s' (l ++ [r]).
Proof.
  intros Hrf Hid Hh Hb Hamt Hpos [Hc Hr Hho Hbo Hre Hpb] Hpb' Hmax. destruct Hrf as [Lc Lr Li Lh Lb Lt Lp Lm].
  rewrite Lt in Hmax. split.
  - rewrite Hc, length_app. simpl. lia.
  - intros id. rewrite Hr, Lr. destruct (Z.eqb_spec id (rr_id r)) as [->|Hne].
    + rewrite lookup_app_r by lia. replace (Z.to_nat (rr_id r - 1) - length l)%nat with 0%nat by lia.
      by destruct (Z.leb_spec 1 (rr_id r)); [|lia].
    + destruct (Z.leb_spec 1 id); [|done]. destruct (decide (id - 1 < Z.of_nat (length l))).
      * by rewrite lookup_app_l by lia.
      * rewrite !lookup_ge_None_2; [done|rewrite length_app; simpl; lia|lia].
  - intros i x [Hi|[Hge Hi]]%lookup_app_Some; [by apply Li|].
    apply list_lookup_singleton_Some in Hi as [? <-]. subst amt. split; [lia|done].
  - intros h'. rewrite Hho, Lh, of_holder_snoc, Hh. case_decide; rewrite ?app_nil_r; [|done]. by rewrite fmap_app.
  - intros b' h'. rewrite Hbo, Lb, of_bond_snoc, Hh, Hb. case_decide; rewrite ?app_nil_r; [|done]. by rewrite fmap_app.
  - intros h'. rewrite Hre, Lt, of_holder_snoc, Hh, total_amount_app. case_decide; simpl; lia.
  - intros b' h'. rewrite of_bond_snoc, Hh, Hb, total_amount_app.
    destruct (decide ((b', h') = (b, h))) as [[= -> ->]|Hne].
    + rewrite Hpb', Lp, decide_True by done. simpl. lia.
    + rewrite Hpb, Lp, decide_False by (done || (intros [-> ->]; done)). simpl. lia.
  - intros h'. rewrite of_holder_snoc, Hh, total_amount_app. specialize (Lm h').
    case_decide as Hd; [subst h'|]; cbn [total_amount foldr]; lia.
Qed.

(** What the validation and the deduction have established. *)
Record vouched (h : Address) (b : Z) (pid : BytesN) (p amt : Z) (t : CreditType.CreditType)
    (period : PeriodInfo) s s' : Prop := {
  vo_config : exists issuer w config, sget DataKey.BondIssuerAddress (inst s) = Some issuer /\
    wstep (world s) w /\ bond_config w issuer b = Some config /\ bc_project_id config = pid /\
    is_compatible_credit_type (bc_credit_type config) t = true;
  vo_engine : exists engine, sget DataKey.CouponEngineAddress (inst s) = Some engine /\
    period_record (world s) engine b p = Some period /\ pi_distributed period = true /\
    0 < amt <= credit_balance (world s) engine b h /\
    forall b' h', credit_balance (world s') engine b' h' =
      if decide ((b', h') = (b, h)) then credit_balance (world s) engine b h - amt
      else credit_balance (world s) engine b' h';
  vo_world : wstep (world s) (world s');
}.

Lemma validate_bond_Ok h b pid t e s u s' :
  validate_bond h b pid t e s = Ok u s' ->
  wquiet (world s) (world s') /\ s' = put_world (world s') s /\
  exists issuer w config, sget DataKey.BondIssuerAddress (inst s) = Some issuer /\
    wstep (world s) w /\ bond_config w issuer b = Some config /\ bc_project_id config = pid /\
    is_compatible_credit_type (bc_credit_type config) t = true.
Proof.
  unfold validate_bond. intros H. inv_ok H. guards. host_cbn.
  match goal with Hb : call_get_holder_balance _ _ _ _ _ = _ |- _ => apply call_get_holder_balance_spec in Hb end.
  match goal with Hc : call_get_bond _ _ _ _ = _ |- _ => apply call_get_bond_spec in Hc as [Hc Hq] end.
  split_and!; [by etransitivity|done|]. eexists _, _, _.
  split_and!; [done|by eapply wquiet_step|done|done|done].
Qed.

Lemma take_credits_Ok h b p amt t e s period s' :
  take_credits h b p amt t e s = Ok period s' ->
  s' = put_world (world s') s /\ wstep (world s) (world s') /\
  exists engine, sget DataKey.CouponEngineAddress (inst s) = Some engine /\
    period_record (world s) engine b p = Some period /\ pi_distributed period = true /\
    0 < amt <= credit_balance (world s) engine b h /\
    forall b' h', credit_balance (world s') engine b' h' =
      if decide ((b', h') = (b, h)) then credit_balance (world s) engine b h - amt
      else credit_balance (world s) engine b' h'.
Proof.
  unfold take_credits.
  intros (o&s0&[-> ->]%iget_Ok&(engine&s0'&[Heng ->]%ok_or_Ok&H)%bind_Ok)%bind_Ok.
  apply bind_Ok in H as (acc&s1&(w1&Hacc&->)%invoke_Ok&H).
  apply call_accrued_credits_spec in Hacc as [-> Hq1].
  apply bind_Ok in H as (pr&s2&Hper&H). host_cbn.
  apply try_invoke_Ok in Hper as [(period'&w2&->&Hper&->)|[(?&->&_&->)|(->&_&->)]];
    [|by apply bind_Ok in H as (?&?&?&_)..].
  host_cbn. apply call_get_period_info_spec in Hper as [Hper Hq2].
  apply bind_Ok in H as (x&s3&[-> ->]%(ret_Ok period' x e)&H). inv_ok H. guards.
  match goal with Hd : (match ?r with _ => _ end) _ _ = Ok _ _ |- _ => destruct r; [|by inv_ok Hd]; inv_ok Hd end.
  match goal with Ht : try_invoke_contract _ _ _ _ = Ok _ _ |- _ =>
    apply try_invoke_Ok in Ht as [(v&w3&_&Ht&->)|[(?&?&_&_)|(?&_&_)]]; [|done..] end.
  host_cbn. match goal with Ht : call_deduct_credits _ _ _ _ _ _ _ = _ |- _ =>
    apply call_deduct_credits_spec in Ht as (Hle&Hw3&Hbal) end.
  assert (Hq : forall b h, credit_balance w2 engine b h = credit_balance (world s) engine b h).
  { intros. by rewrite (credit_balance_quiet w1 w2), (credit_balance_quiet (world s) w1). }
  rewrite (period_record_quiet (world s) w1) in Hper by done.
  split_and!; [done|by repeat (etransitivity; [by eapply wquiet_step|])|].
  exists engine. rewrite Hq in Hle. split_and!; try done; try lia. intros b' h'. rewrite Hbal. by case_decide; rewrite Hq.
Qed.

(** A successful retirement. *)
Lemma retire_Ok h b pid p amt t cert n e s id s' l :
  retire_credits h b pid p amt t cert n e s = Ok id s' ->
  refines s l -> Z.of_nat (length l) + 1 < 2 ^ 64 ->
  is_authorized e h = true /\ all_zero cert = false /\ inst s' = inst s /\
  exists period, vouched h b pid p amt t period s s' /\ id = Z.of_nat (length l) + 1 /\
    refines s' (l ++ [new_record h b pid p amt t cert period (timestamp e) id]).
Proof.
  unfold retire_credits. intros H Hrf Hlen.
  apply bind_Ok in H as (?&s0&[Hauth ->]%require_auth_Ok&H).
  apply bind_Ok in H as (?&s1&Hn&H). apply same_ledger_nonce in Hn as Hsl.
  apply credit_consume_nonce_Ok in Hn as (_&next&lv&Hs1).
  assert (Hi1 : inst s1 = inst s) by (by rewrite Hs1). assert (Hw1 : world s1 = world s) by (by rewrite Hs1).
  clear Hs1. apply bind_Ok in H as (?&s2&[Hz ->]%fail_if_Ok&H).
  apply bind_Ok in H as (?&s2&[Hcert ->]%fail_if_Ok&H). guards.
  apply bind_Ok in H as (?&s2&(Hq&Hs2&Hcfg)%validate_bond_Ok&H).
  apply bind_Ok in H as (period&s3&(Hs3&Hst&Heng)%take_credits_Ok&H).
  assert (Hl3 : same_ledger s1 s3) by (rewrite Hs3, Hs2; same_ledger_tac).
  assert (Hi3 : inst s3 = inst s) by (by rewrite Hs3, Hs2). assert (Hi2 : inst s2 = inst s) by (by rewrite Hs2).
  rewrite Hsl, Hl3 in Hrf. clear Hs2 Hs3.
  apply record_retirement_Ok in H as (Hrec&Hid&Hpb&Hmax&Hw&Hi&_).
  pose proof (rf_count _ _ Hrf) as Hc. apply in_range_spec in Hmax as [_ Hmax].
  assert (Hid' : id = Z.of_nat (length l) + 1) by (rewrite <- Hc; apply Hid, in_range_spec; cbn [int_lo int_hi]; lia).
  assert (Hpb' : retired_per_bond s' b h = retired_per_bond s3 b h + amt).
  { apply Hpb, in_range_spec. pose proof (per_bond_le s3 l b h Hrf).
    rewrite (rf_retired _ _ Hrf) in Hmax. rewrite (rf_per_bond _ _ Hrf).
    cbn [int_lo int_hi] in *. lia. }
  split_and!; [done|done|congruence|]. exists period. split_and!; [|done|].
  - rewrite Hi1, Hw1 in *. split.
    + destruct Hcfg as (i&w&c&?&?&?&?&?). exists i, w, c. done.
    + destruct Heng as (eng&?&Hp&?&Hle&Hbal). exists eng. rewrite Hw. rewrite Hi2 in *.
      assert (Hcq : forall b h, credit_balance (world s2) eng b h = credit_balance (world s) eng b h)
        by (intros; by apply credit_balance_quiet).
      rewrite (period_record_quiet (world s)) in Hp by done. rewrite Hcq in Hle. split_and!; try done; try lia.
      intros b' h'. rewrite Hbal. by case_decide; rewrite Hcq.
    + rewrite Hw. etransitivity; [by apply wquiet_step|done].
  - eapply refines_append; eauto.
Qed.
End refinement.

Section ledger.
Context {W : Type} `{!World W} `{!BondReader W} `{!CreditSource W}.
Local Abbreviation state := (cstate DataKey ty Event W).
Implicit Types (s : state) (e : Env) (l : list RetirementRecord).

(** ** Executions *)

Lemma same_ledger_look s s' :
  (forall k, ledger_key k = true -> look k s' = look k s) -> same_ledger s s'.
Proof. intros Hl. same_ledger_tac; by rewrite Hl. Qed.

Lemma extend_ttl_Ok id e s u s' :
  @extend_retirement_ttl W id e s = Ok u s' ->
  (forall k, look k s' = look k s) /\ inst s' = inst s /\ world s' = world s.
Proof.
  unfold extend_retirement_ttl. intros H.
  apply bind_Ok in H as (o&s1&[-> ->]%read_Ok&H).
  apply bind_Ok in H as (r&s1&[Hr ->]%ok_or_Ok&H).
  apply bind_Ok in H as (has&s1&[-> ->]%phas_Ok&H).
  apply bind_Ok in H as (?&s2&Hs2&H).
  assert (Hsl : (forall k, look k s2 = look k s) /\ inst s2 = inst s /\ world s2 = world s).
  { case_bool_decide; simpl in Hs2.
    - by apply credit_extend_Ok in Hs2 as [lv ->].
    - apply credit_write_Ok in Hs2 as [lv ->]. split; [|done]. intros k.
      destruct (decide (DataKey.Retirement id = k)) as [<-|]; by autorewrite with look. }
  by inv_ok H.
Qed.

(** Every transaction keeps the ledger or appends one record to it. *)
Lemma exec_refines c e s s' l :
  exec c e s = Ok tt s' -> refines s l -> Z.of_nat (length l) + 1 < 2 ^ 64 ->
  inst s' = inst s /\ exists k, refines s' (l ++ k) /\ Z.of_nat (length k) <= 1.
Proof.
  intros H Hrf Hlen. destruct c; simpl in H.
  - apply bind_Ok in H as (i&s1&H&[_ ->]%ret_Ok).
    destruct (retire_Ok _ _ _ _ _ _ _ _ _ _ _ _ l H Hrf Hlen) as (_&_&Hi&period&_&_&Hr). split; [done|by eexists].
  - destruct (extend_ttl_Ok _ _ _ _ _ H) as (Hl&Hi&_). split; [done|].
    assert (Hsl : same_ledger s s') by (apply same_ledger_look; auto). exists []. split; [|done].
    rewrite app_nil_r. by rewrite <- Hsl.
  - apply bind_Ok in H as (i&s1&H&[_ ->]%ret_Ok).
    apply same_ledger_count in H as Hsl. destruct Hsl as [_ Hsl].
    apply count_Ok in H as (_&lv&Hs1). split; [by destruct Hs1 as [-> | ->]|].
    exists []. rewrite app_nil_r. split; [by rewrite <- Hsl|done].
Qed.

Lemma refines_world s w l : refines s l -> refines (put_world w s) l.
Proof. intros Hk. assert (Hsl : same_ledger s (put_world w s)) by same_ledger_tac. by rewrite <- Hsl. Qed.

Lemma reach_refines s l m s' :
  reach (eq s) exec m s' -> refines s l -> Z.of_nat (length l) + m < 2 ^ 64 ->
  inst s' = inst s /\ exists k, refines s' (l ++ k) /\ Z.of_nat (length k) <= m.
Proof.
  intros Hr Hrf. revert s' Hr.
  refine (fun s' Hr Hlen => reach_ind_bounded (eq s) exec (2 ^ 64 - Z.of_nat (length l))
    (fun m s' => inst s' = inst s /\ exists k, refines s' (l ++ k) /\ Z.of_nat (length k) <= m) _ _ _ _ m s' Hr _).
  - intros t <-. split; [done|]. exists []. by rewrite app_nil_r.
  - intros n t t' e c Hn Hb (Hi&k&Hk&Hle) Hex.
    destruct (exec_refines c e t t' (l ++ k) Hex Hk) as (Hi'&k'&Hk'&Hle'); [rewrite length_app; lia|].
    split; [congruence|]. exists (k ++ k'). rewrite app_assoc, length_app. split; [done|lia].
  - intros n t (Hi&k&?&?). split; [done|]. exists k. split; [done|lia].
  - intros n t w (Hi&k&Hk&?) _. split; [done|]. exists k. split; [|done].
    by apply refines_world.
  - lia.
Qed.

(** C25: Retirements are append-only: from any state that stores a ledger [l] (freshly
    deployed or upgraded from the layout that kept it in instance storage), after any
    transactions the state stores [l] followed by new records: no certificate, id, index or
    total is ever lost, changed or reused. *)
Theorem retirements_append_only s l m s' :
  refines s l -> reach (eq s) exec m s' -> Z.of_nat (length l) + m < 2 ^ 64 ->
  exists k, refines s' (l ++ k) /\ Z.of_nat (length k) <= m /\
    forall id r, record_of s id = Some r -> record_of s' id = Some r.
Proof.
  intros Hrf Hr Hlen. destruct (reach_refines s l m s' Hr Hrf Hlen) as (_&k&Hk&Hle).
  exists k. split_and!; [done|done|]. intros id r. rewrite (rf_record _ _ Hrf), (rf_record _ _ Hk).
  case_match; [|done]. intros Hid. by apply lookup_app_l_Some.
Qed.

(** The state after deployment stores the empty ledger, and nothing of it in the instance. *)
Lemma deployed_refines s : deployed s ->
  refines s [] /\ forall k, ledger_key k = true -> sget k (inst s) = None.
Proof.
  intros (e&admin&issuer&engine&w&H). unfold constructor in H. inv_ok H. split.
  - split; unfold count_of, record_of, holder_ids, bond_ids, retired, retired_per_bond, look; host_cbn;
      intros; store_simp; try done; by case_match.
  - intros k Hk. host_cbn. destruct k; try done; by store_simp.
Qed.

Lemma reach_eq_deployed n s : reach deployed exec n s ->
  exists s0, deployed s0 /\ reach (eq s0) exec n s.
Proof.
  induction 1 as [s Hs|n s e c _ (s0&Hd&IH)|n s w _ (s0&Hd&IH) Hw].
  - exists s. split; [done|by apply reach_init].
  - exists s0. split; [done|by apply reach_call].
  - exists s0. split; [done|by apply reach_world].
Qed.

(** C24: A retirement deducts and certifies in one step: when [retire_credits] returns an id,
    the engine's balance of the holder on that bond has fallen by exactly the amount and no
    other balance has moved; the bond's project is the one named and its type covers the
    type retired; the period was distributed; and the ledger has one more record, under the
    next id, with the provenance read from the period. *)
Theorem retire_certifies h b pid p amt t cert n e s id s' l :
  retire_credits h b pid p amt t cert n e s = Ok id s' ->
  refines s l -> Z.of_nat (length l) + 1 < 2 ^ 64 ->
  is_authorized e h = true /\
  exists period, vouched h b pid p amt t period s s' /\ id = Z.of_nat (length l) + 1 /\
    refines s' (l ++ [mkRetirementRecord id h b pid p (pi_report_id period)
                        (year_from_timestamp (pi_end_time period)) (pi_start_time period)
                        (pi_end_time period) amt t (timestamp e) cert]).
Proof. intros H Hrf Hlen. by destruct (retire_Ok _ _ _ _ _ _ _ _ _ _ _ _ l H Hrf Hlen) as (?&_&_&?). Qed.

(** ** Getters *)

Lemma push_certificates_run s l ids acc e :
  refines s l -> Forall (fun i => exists r, l !! Z.to_nat (i - 1) = Some r /\ 1 <= i) ids ->
  mfold push_certificate acc ids e s =
    Ok (acc ++ omap (fun i => certificate_from_record <$> l !! Z.to_nat (i - 1)) ids) s.
Proof.
  intros Hrf Hids. revert acc. induction Hids as [|i ids (r&Hr&Hi) _ IH]; intros acc; simpl mfold.
  - by rewrite app_nil_r.
  - unfold push_certificate at 1. rewrite bind_assoc_run.
    rewrite (bind_run _ _ _ _ _ _ (read_run _ e s)).
    fold (record_of s i). rewrite (rf_record _ _ Hrf). destruct (Z.leb_spec 1 i); [|lia]. rewrite Hr.
    unfold bind at 1, ret at 1. rewrite IH. simpl. by rewrite Hr, <- app_assoc.
Qed.

(** The ids of the ledger's records find the records. *)
Lemma ids_lookup {W0} (s : cstate DataKey ty Event W0) l (P : RetirementRecord -> Prop) `{!forall r, Decision (P r)} :
  refines s l -> Forall (fun r => l !! Z.to_nat (rr_id r - 1) = Some r /\ 1 <= rr_id r) (filter P l).
Proof.
  intros Hrf. apply filter_Forall, Forall_lookup. intros i r Hi.
  destruct (rf_ids _ _ Hrf i r Hi) as [-> _]. split; [|lia].
  by replace (Z.to_nat (Z.of_nat i + 1 - 1)) with i by lia.
Qed.

Lemma omap_ids l (k : list RetirementRecord) :
  Forall (fun r => l !! Z.to_nat (rr_id r - 1) = Some r /\ 1 <= rr_id r) k ->
  omap (fun i => certificate_from_record <$> l !! Z.to_nat (i - 1)) (rr_id <$> k) =
  certificate_from_record <$> k.
Proof. induction 1 as [|r k [Hr _] _ IH]; [done|]. csimpl. rewrite Hr. csimpl. by rewrite IH. Qed.

(** The getters report the ledger: ids and certificates of a holder on a bond are those
    of its retirements on that bond, in the order they happened, the certificate of an id
    is that of the record with that id, and the totals are sums over the ledger. *)
Theorem getters_report_ledger s l e b h id :
  refines s l ->
  get_bond_certificates b h e s = Ok (certificate_from_record <$> of_bond b h l) s /\
  get_bond_retirements b h e s = Ok (rr_id <$> of_bond b h l) s /\
  get_holder_retirements h e s = Ok (rr_id <$> of_holder h l) s /\
  get_total_retired h e s = Ok (total_amount (of_holder h l)) s /\
  get_retirement_certificate id e s =
    match find (fun r => rr_id r =? id) l with
    | Some r => Ok (certificate_from_record r) s
    | None => Err CreditError.RetirementNotFound s
    end.
Proof.
  intros Hrf. unfold get_bond_certificates, get_bond_retirements, get_holder_retirements, get_total_retired,
    get_retirement_certificate.
  rewrite !(bind_run _ _ _ _ _ _ (read_run _ e s)).
  pose proof (ids_lookup s l (fun r => rr_bond_id r = b /\ rr_holder r = h) Hrf) as Hids.
  split_and!.
  - fold (bond_ids s b h). rewrite (rf_bond _ _ Hrf), (push_certificates_run s l); [|done|].
    + simpl. by rewrite omap_ids.
    + apply Forall_fmap. eapply Forall_impl; [|exact Hids]. intros r [? ?]. by exists r.
  - fold (bond_ids s b h). by rewrite (rf_bond _ _ Hrf).
  - fold (holder_ids s h). by rewrite (rf_holder _ _ Hrf).
  - fold (retired s h). by rewrite (rf_retired _ _ Hrf).
  - fold (record_of s id). rewrite (rf_record _ _ Hrf).
    destruct (find _ l) as [r|] eqn:Hf.
    + apply find_some in Hf as [Hin Hid]. apply Z.eqb_eq in Hid. subst id.
      apply list_elem_of_In, list_elem_of_lookup in Hin as [i Hi].
      destruct (rf_ids _ _ Hrf i r Hi) as [-> _]. replace (Z.to_nat (Z.of_nat i + 1 - 1)) with i by lia.
      destruct (Z.leb_spec 1 (Z.of_nat i + 1)); [|lia]. by rewrite Hi.
    + destruct (Z.leb_spec 1 id); [|done]. destruct (l !! Z.to_nat (id - 1)) as [r|] eqn:Hl; [|done].
      destruct (rf_ids _ _ Hrf _ r Hl) as [Hid _].
      pose proof (find_none _ _ Hf r) as Hn. rewrite <- list_elem_of_In in Hn.
      rewrite Z.eqb_neq in Hn. destruct Hn; [by eapply list_elem_of_lookup_2|lia].
Qed.
End ledger.

Section liveness.
Context {W : Type} `{!World W} `{!BondReader W} `{!CreditSource W}.
Local Abbreviation state := (cstate DataKey ty Event W).
Implicit Types (s : state) (e : Env) (l : list RetirementRecord).

(** ** Retirements go through *)

Lemma count_total e s :
  exists s', @get_retirement_count W e s = Ok (count_of s) s' /\ same_ledger s s'.
Proof.
  assert (H : exists c s', @get_retirement_count W e s = Ok c s').
  { unfold get_retirement_count. run. destruct (sget DataKey.RetirementCount (pers s)); [by eexists _, _|].
    run. match goal with |- context [write ?k ?v ;; _] => destruct (credit_write_total k v e s) as [lv Hlv] end.
    rewrite (bind_run _ _ _ _ _ _ Hlv). by eexists _, _. }
  destruct H as (c&s'&H). destruct (same_ledger_count _ _ _ _ H) as [-> Hsl]. by exists s'.
Qed.

(** [run_write] performs a leading [read] or [write]. *)
Ltac run_write :=
  lazymatch goal with
  | |- context [bind (read ?k) _ ?e ?s] => rewrite (bind_run _ _ _ _ _ _ (read_run k e s))
  | |- context [bind (write ?k ?v) _ ?e ?s] =>
      let l := fresh "lv" in let H := fresh "Hw" in
      destruct (credit_write_total k v e s) as [l H]; rewrite (bind_run _ _ _ _ _ _ H); clear H
  end.

Lemma record_retirement_total h b pid p amt t cert period e s :
  in_range I128 (retired_per_bond s b h + amt) = true -> in_range U64 (count_of s + 1) = true ->
  in_range I128 (retired s h + amt) = true ->
  exists s', record_retirement h b pid p amt t cert period e s = Ok (count_of s + 1) s'.
Proof.
  intros Hpb Hid Hmax. unfold record_retirement, set_retirement_count. run_write.
  fold (retired_per_bond s b h). rewrite (bind_run _ _ _ _ _ _ (arith_run _ _ _ _ Hpb)). run_write.
  match goal with |- context [bind get_retirement_count _ _ ?s1] =>
    destruct (count_total e s1) as (s2&H2&[Hc2 _ _ _ Hr2 _]) end.
  rewrite (bind_run _ _ _ _ _ _ H2). unfold count_of at 1 in Hc2.
  match goal with |- context [count_of ?s1] =>
    assert (Hc : count_of s1 = count_of s) by (unfold count_of; by autorewrite with look) end.
  rewrite Hc in *. rewrite (bind_run _ _ _ _ _ _ (arith_run _ _ _ _ Hid)). run_write. run. run_write. run_write.
  match goal with |- context [checked I128 (default 0 ?o + amt)] =>
    assert (Ho : (default 0 o : Z) = retired s h) end.
  { autorewrite with look. fold (retired s2 h). rewrite Hr2. unfold retired. by autorewrite with look. }
  rewrite Ho. rewrite (bind_run _ _ _ _ _ _ (ok_or_run _ _ _ _ _ (checked_in I128 _ Hmax))).
  do 5 run_write. run. by eexists.
Qed.

(** C26: A valid retirement goes through: if the holder signs with the current nonce, holds
    the bond, names its project and a compatible type, the period is distributed, the
    amount is covered and the engine accepts the deduction, the call returns the next id
    (unless the holder's lifetime total would overflow). *)
Theorem retire_succeeds s l e h b pid p amt t cert issuer engine bal config acc period v w1 w2 w3 w4 w5 :
  refines s l -> Z.of_nat (length l) + 1 < 2 ^ 64 -> is_authorized e h = true ->
  in_range U64 (default 0 (sget (DataKey.Nonce h) (pers s)) + 1) = true ->
  0 < amt <= acc -> retired s h + amt <= int_hi I128 -> all_zero cert = false ->
  sget DataKey.BondIssuerAddress (inst s) = Some issuer ->
  sget DataKey.CouponEngineAddress (inst s) = Some engine ->
  call_get_holder_balance issuer b h (sub_env issuer e) (world s) = EOk bal w1 -> 0 < bal ->
  call_get_bond issuer b (sub_env issuer e) w1 = EOk config w2 -> bc_project_id config = pid ->
  is_compatible_credit_type (bc_credit_type config) t = true ->
  call_accrued_credits engine b h (sub_env engine e) w2 = EOk acc w3 ->
  call_get_period_info engine b p (sub_env engine e) w3 = EOk period w4 -> pi_distributed period = true ->
  call_deduct_credits engine b h amt t (sub_env engine e) w4 = EOk v w5 ->
  exists s', retire_credits h b pid p amt t cert (default 0 (sget (DataKey.Nonce h) (pers s))) e s =
    Ok (Z.of_nat (length l) + 1) s'.
Proof.
  intros Hrf Hlen Hauth Hnr Hamt Hmax Hcert Hiss Heng Hbal Hbpos Hcfg Hpid Hcomp Hacc Hper Hdist Hded.
  unfold retire_credits, consume_nonce, get_nonce, set_nonce. run. rewrite Z.eqb_refl. simpl negb. run.
  rewrite (bind_run _ _ _ _ _ _ (arith_run _ _ _ _ Hnr)). run.
  rewrite (proj2 (Z.leb_gt amt 0)), Hcert by lia. run. unfold validate_bond. run. host_cbn.
  rewrite (proj2 (Z.leb_gt bal 0)) by lia. run. rewrite bool_decide_false by (by intros []). run.
  rewrite Hcomp. simpl negb. run. unfold take_credits. run. rewrite Hdist. simpl negb. run.
  rewrite (proj2 (Z.ltb_ge acc amt)) by lia. run.
  match goal with |- context [record_retirement _ _ _ _ _ _ _ _ _ ?s0] =>
    assert (Hsl : same_ledger s s0) by (transitivity (put_pers (DataKey.Nonce h)
      (default 0 (sget (DataKey.Nonce h) (pers s)) + 1) s); [by apply same_ledger_put|same_ledger_tac]);
    destruct (record_retirement_total h b pid p amt t cert period e s0) as [s' Hs'] end.
  - rewrite (sl_per_bond _ _ Hsl), (rf_per_bond _ _ Hrf). pose proof (per_bond_le s l b h Hrf) as Hle.
    rewrite (rf_retired _ _ Hrf) in Hmax. apply in_range_spec. cbn [int_lo int_hi] in *. lia.
  - rewrite (sl_count _ _ Hsl), (rf_count _ _ Hrf). apply in_range_spec. cbn [int_lo int_hi]. lia.
  - rewrite (sl_retired _ _ Hsl). apply in_range_spec. pose proof (per_bond_le s l b h Hrf) as Hle.
    rewrite (rf_retired _ _ Hrf) in *. cbn [int_lo int_hi] in *. lia.
  - exists s'. rewrite Hs'. by rewrite (sl_count _ _ Hsl), (rf_count _ _ Hrf).
Qed.

(** ** Keeping certificates alive *)

Lemma extend_run k e s : is_Some (sget k (pers s)) -> exists lv, @extend_ttl W k e s = Ok tt (put_live lv s).
Proof. intros Hk. by destruct (only_live_pextend (E := CreditError.CreditError) k RETIREMENT_TTL_THRESHOLD RETIREMENT_TTL_EXTEND_TO e s Hk) as [lv ?]; exists lv. Qed.

(** Anybody can keep any certificate alive: in an execution of a freshly deployed
    contract, [extend_retirement_ttl] succeeds on every id handed out and changes nothing
    but lifetimes. *)
Theorem certificate_kept_alive n s e id :
  reach deployed exec n s -> n < 2 ^ 64 -> is_Some (record_of s id) ->
  exists s', extend_retirement_ttl id e s = Ok tt s' /\ same_data s' s.
Proof.
  intros Hr Hn [r Hid]. destruct (reach_eq_deployed n s Hr) as (s0&Hd&Hr0).
  destruct (deployed_refines s0 Hd) as [Hrf0 Hinst].
  destruct (reach_refines s0 [] n s Hr0 Hrf0 Hn) as (Hi&l&Hrf&_). simpl in Hrf.
  assert (Hlook : forall k, ledger_key k = true -> look k s = sget k (pers s)).
  { intros k Hk. unfold look. rewrite Hi, Hinst by done. by case_match. }
  pose proof Hid as Hl. rewrite (rf_record _ _ Hrf) in Hl. destruct (Z.leb_spec 1 id) as [Hpos|]; [|done].
  assert (Hin : r ∈ l) by (by eapply list_elem_of_lookup_2).
  assert (Hh : is_Some (sget (DataKey.HolderRetirements (rr_holder r)) (pers s))).
  { rewrite <- Hlook by done. pose proof (rf_holder _ _ Hrf (rr_holder r)) as Hids. unfold holder_ids in Hids.
    destruct (look _ s); [by eauto|]. simpl in Hids. symmetry in Hids. apply fmap_nil_inv in Hids.
    exfalso. eapply (not_elem_of_nil r). rewrite <- Hids. by apply list_elem_of_filter. }
  assert (Hb : is_Some (sget (DataKey.BondHolderRetirements (rr_bond_id r) (rr_holder r)) (pers s))).
  { rewrite <- Hlook by done. pose proof (rf_bond _ _ Hrf (rr_bond_id r) (rr_holder r)) as Hids. unfold bond_ids in Hids.
    destruct (look _ s); [by eauto|]. simpl in Hids. symmetry in Hids. apply fmap_nil_inv in Hids.
    exfalso. eapply (not_elem_of_nil r). rewrite <- Hids. by apply list_elem_of_filter. }
  assert (Hrec : is_Some (sget (DataKey.Retirement id) (pers s))) by (rewrite <- Hlook by done; by exists r).
  unfold extend_retirement_ttl. rewrite (bind_run _ _ _ _ _ _ (read_run _ e s)). fold (record_of s id).
  rewrite Hid. run. rewrite bool_decide_true by done. simpl negb. cbn iota.
  destruct (extend_run _ e s Hrec) as [l1 H1]. rewrite (bind_run _ _ _ _ _ _ H1).
  destruct (extend_run (DataKey.HolderRetirements (rr_holder r)) e (put_live l1 s) Hh) as [l2 H2].
  rewrite (bind_run _ _ _ _ _ _ H2).
  destruct (extend_run (DataKey.BondHolderRetirements (rr_bond_id r) (rr_holder r)) e (put_live l2 s) Hb) as [l3 H3].
  rewrite (bind_run _ _ _ _ _ _ H3). run. host_cbn. case_bool_decide as Hc; unfold when.
  - match goal with |- context [extend_ttl ?k e ?t] => destruct (extend_run k e t Hc) as [l4 ->] end. by eexists.
  - by eexists.
Qed.

(** No operation writes [RetiredByType]: in an execution of a deployed contract,
    [get_retired_by_type] is 0 for every holder and type, whatever has been retired. *)
Theorem retired_by_type_always_zero n s e h t :
  reach deployed exec n s -> get_retired_by_type h t e s = Ok 0 s.
Proof.
  intros Hr. unfold get_retired_by_type. rewrite (bind_run _ _ _ _ _ _ (read_run _ e s)).
  enough (look (DataKey.RetiredByType h t) s = None) as -> by done.
  induction Hr as [s (e0&admin&issuer&engine&w&H)|n s e0 c _ IH|n s w _ IH _]; [| |done].
  - unfold constructor in H. inv_ok H. unfold look. host_cbn. by store_simp.
  - destruct (exec c e0 s) as [[] s'| |] eqn:Hex; simpl; [|done..].
    destruct c; simpl in Hex; unfold retire_credits, total_retirements in Hex.
    + apply bind_Ok in Hex as (i&s1&Hex&[_ ->]%ret_Ok).
      apply bind_Ok in Hex as (?&s0&[_ ->]%require_auth_Ok&H).
      apply bind_Ok in H as (?&s2&(_&nx&lv&->)%credit_consume_nonce_Ok&H).
      apply bind_Ok in H as (?&s2&[_ ->]%fail_if_Ok&H). apply bind_Ok in H as (?&s2&[_ ->]%fail_if_Ok&H).
      apply bind_Ok in H as (?&s2&(_&->&_)%validate_bond_Ok&H).
      apply bind_Ok in H as (?&s3&(->&_)%take_credits_Ok&H).
      unfold record_retirement, set_retirement_count in H. inv_ok H.
      match goal with Hc : get_retirement_count _ _ = Ok _ _ |- _ => apply count_Ok in Hc as (_&l2&[->| ->]) end;
        by autorewrite with look.
    + apply extend_ttl_Ok in Hex as [Hl _]. by rewrite Hl.
    + apply bind_Ok in Hex as (i&s1&(_&lv&[->| ->])%count_Ok&[_ ->]%ret_Ok); by autorewrite with look.
Qed.
End liveness.

(** ** A concrete execution

    The other contracts: bond 1 belongs to project 7, everybody holds 10 units of it,
    period 0 was distributed, and the engine keeps one balance, investor 2's on bond 1. *)

Record SampleWorld := mkSampleWorld { sw_balance : Z }.

#[local] Instance sample_world : World SampleWorld.
Proof. by refine {| wstep := fun _ _ => True; wquiet := eq |}. Defined.

Definition sample_config : BondConfig := mkBondConfig [7] 100 [10] CreditType.Carbon 50 1000.
Definition sample_period : PeriodInfo := mkPeriodInfo 0 1704067200 1711929599 500 true 9 0.

#[local] Instance sample_bonds : BondReader SampleWorld.
Proof.
  refine {| bond_config := fun _ _ _ => Some sample_config;
            call_get_bond := fun _ _ _ w => EOk sample_config w;
            call_total_subscribed := fun _ _ _ w => EOk 300 w;
            call_get_holder_balance := fun _ _ _ _ w => EOk 10 w |}.
  - by intros ? ? ? ? ? ? [= <- <-].
  - by intros ? ? ? ? ? ? [= _ <-].
  - by intros ? ? ? ? ? ? ? [= _ <-].
  - done.
Defined.

Definition sample_balance (w : SampleWorld) (b : Z) (h : Address) : Z :=
  if decide ((b, h) = (1, Addr 2)) then sw_balance w else 0.

Definition sample_deduct (b : Z) (h : Address) (v : Z) (w : SampleWorld) :
    eresult SampleWorld CouponEngineError.CouponEngineError Z :=
  if decide ((b, h) = (1, Addr 2)) then
    if (0 <? v) && (v <=? sw_balance w) then EOk (sw_balance w - v) (mkSampleWorld (sw_balance w - v))
    else EErr CouponEngineError.Overflow
  else EErr CouponEngineError.Overflow.

#[local] Instance sample_engine : CreditSource SampleWorld.
Proof.
  refine {| credit_balance := fun w _ b h => sample_balance w b h;
            period_record := fun _ _ _ _ => Some sample_period;
            call_accrued_credits := fun _ b h _ w => EOk (sample_balance w b h) w;
            call_get_period_info := fun _ _ _ _ w => EOk sample_period w;
            call_deduct_credits := fun _ b h v _ _ w => sample_deduct b h v w |}.
  - by intros ? ? ? ? ? ? ? [= <- <-].
  - by intros ? ? ? ? ? ? ? [= <- <-].
  - intros _ b h v _ _ w r w'. unfold sample_deduct, sample_balance. intros H.
    destruct (decide ((b, h) = (1, Addr 2))) as [Heq|]; [|done].
    destruct (Z.ltb_spec 0 v), (Z.leb_spec v (sw_balance w)); try done. injection H as <- <-.
    split_and!; [done|done|done|]. intros b' h'. rewrite <- Heq. by case_decide.
  - by intros ? ? ? ? ? ->.
  - by intros ? ? ? ? ? ->.
Defined.

Abbreviation sample_state := (cstate DataKey ty Event SampleWorld).

Definition sample_start : sample_state :=
  commit (constructor (Addr 1) (Addr 11) (Addr 12) (sample_env 0) (empty_state (mkSampleWorld 80)))
         (empty_state (mkSampleWorld 80)).

Lemma credit_start_deployed : deployed sample_start.
Proof. exists (sample_env 0), (Addr 1), (Addr 11), (Addr 12), (mkSampleWorld 80). exact eq_refl. Qed.

(** Investor 2 retires 30 of its 80 credits. *)
Definition sample_retire : Call := CRetire (Addr 2) 1 [7] 0 30 CreditType.Carbon [5] 0.

Definition sample_retired : sample_state :=
  run_calls exec [(sample_env 1712000000, sample_retire)] sample_start.

Lemma credit_sample_reachable : reach deployed exec 1 sample_retired.
Proof.
  apply (reach_run_calls deployed exec [(sample_env 1712000000, sample_retire)] 0).
  apply reach_init, credit_start_deployed.
Qed.

Example sample_certificate :
  (ct_vintage_year <$> match get_retirement_certificate 1 (sample_env 0) sample_retired with
                       | Ok c _ => Some c | _ => None end) = Some 2024 /\
  sw_balance (world sample_retired) = 50.
Proof. vm_compute. done. Qed.

Lemma sample_start_refines : refines sample_start [].
Proof. apply deployed_refines, credit_start_deployed. Qed.

Lemma retirements_append_only_witness :
  exists k, refines sample_retired ([] ++ k) /\ Z.of_nat (length k) <= 1 /\
    forall id r, record_of sample_start id = Some r -> record_of sample_retired id = Some r.
Proof.
  exact (retirements_append_only sample_start [] 1 sample_retired sample_start_refines
           (reach_run_calls (eq sample_start) exec [(sample_env 1712000000, sample_retire)] 0 sample_start
              (reach_init (eq sample_start) exec sample_start eq_refl)) ltac:(done)).
Defined.

Definition sample_call (e : Env) : sample_state :=
  commit (retire_credits (Addr 2) 1 [7] 0 30 CreditType.Carbon [5] 0 e sample_start) sample_start.

Lemma retire_certifies_witness :
  is_authorized (sample_env 9) (Addr 2) = true /\
  exists period, vouched (Addr 2) 1 [7] 0 30 CreditType.Carbon period sample_start (sample_call (sample_env 9)) /\
    1 = 0 + 1 /\
    refines (sample_call (sample_env 9))
      ([] ++ [mkRetirementRecord 1 (Addr 2) 1 [7] 0 (pi_report_id period)
                (year_from_timestamp (pi_end_time period)) (pi_start_time period) (pi_end_time period)
                30 CreditType.Carbon 9 [5]]).
Proof.
  refine (retire_certifies (Addr 2) 1 [7] 0 30 CreditType.Carbon [5] 0 (sample_env 9) sample_start 1
            (sample_call (sample_env 9)) [] _ sample_start_refines _).
  - apply run_value; [by vm_compute|done].
  - done.
Defined.

Lemma sample_refines : exists l, refines sample_retired l /\ length l = 1%nat.
Proof.
  destruct (reach_refines sample_start [] 1 sample_retired) as (_&l&Hl&_).
  - apply (reach_run_calls (eq sample_start) exec [(sample_env 1712000000, sample_retire)] 0).
    by apply reach_init.
  - apply sample_start_refines.
  - done.
  - exists l. split; [done|]. pose proof (rf_count _ _ Hl) as Hc.
    assert (H1 : count_of sample_retired = 1) by (by vm_compute). rewrite H1 in Hc. simpl in Hc. lia.
Qed.

Lemma getters_report_ledger_witness :
  let l := [mkRetirementRecord 1 (Addr 2) 1 [7] 0 9 2024 1704067200 1711929599 30 CreditType.Carbon 9 [5]] in
  refines (sample_call (sample_env 9)) l /\
  get_bond_certificates 1 (Addr 2) (sample_env 10) (sample_call (sample_env 9)) =
    Ok (certificate_from_record <$> of_bond 1 (Addr 2) l) (sample_call (sample_env 9)) /\
  get_bond_retirements 1 (Addr 2) (sample_env 10) (sample_call (sample_env 9)) =
    Ok (rr_id <$> of_bond 1 (Addr 2) l) (sample_call (sample_env 9)) /\
  get_holder_retirements (Addr 2) (sample_env 10) (sample_call (sample_env 9)) =
    Ok (rr_id <$> of_holder (Addr 2) l) (sample_call (sample_env 9)) /\
  get_total_retired (Addr 2) (sample_env 10) (sample_call (sample_env 9)) =
    Ok (total_amount (of_holder (Addr 2) l)) (sample_call (sample_env 9)) /\
  get_retirement_certificate 1 (sample_env 10) (sample_call (sample_env 9)) =
    match find (fun r => rr_id r =? 1) l with
    | Some r => Ok (certificate_from_record r) (sample_call (sample_env 9))
    | None => Err CreditError.RetirementNotFound (sample_call (sample_env 9))
    end.
Proof.
  intros l. assert (Hrf : refines (sample_call (sample_env 9)) l).
  { destruct (retire_Ok (Addr 2) 1 [7] 0 30 CreditType.Carbon [5] 0 (sample_env 9) sample_start 1
                (sample_call (sample_env 9)) []) as (_&_&_&period&Hv&_&Hrf).
    - apply run_value; [by vm_compute|done].
    - apply sample_start_refines.
    - done.
    - destruct Hv as [_ (eng&_&[= <-]&_) _]. exact Hrf. }
  split; [exact Hrf|].
  exact (getters_report_ledger (sample_call (sample_env 9)) l (sample_env 10) 1 (Addr 2) 1 Hrf).
Defined.

Lemma retire_succeeds_witness :
  exists s', retire_credits (Addr 2) 1 [7] 0 30 CreditType.Carbon [5]
    (default 0 (sget (DataKey.Nonce (Addr 2)) (pers sample_start))) (sample_env 9) sample_start = Ok (0 + 1) s'.
Proof.
  exact (retire_succeeds sample_start [] (sample_env 9) (Addr 2) 1 [7] 0 30 CreditType.Carbon [5]
    (Addr 11) (Addr 12) 10 sample_config 80 sample_period 50 (mkSampleWorld 80) (mkSampleWorld 80)
    (mkSampleWorld 80) (mkSampleWorld 80) (mkSampleWorld 50) sample_start_refines ltac:(done) ltac:(done)
    ltac:(by vm_compute) ltac:(done) ltac:(by vm_compute) ltac:(done) ltac:(by vm_compute) ltac:(by vm_compute)
    ltac:(done) ltac:(done) ltac:(done) ltac:(done) ltac:(done) ltac:(done) ltac:(done) ltac:(done) ltac:(done)).
Defined.

Lemma certificate_kept_alive_witness :
  exists s', extend_retirement_ttl 1 (sample_env 20) sample_retired = Ok tt s' /\ same_data s' sample_retired.
Proof.
  refine (certificate_kept_alive 1 sample_retired (sample_env 20) 1 credit_sample_reachable ltac:(done) _).
  destruct (record_of sample_retired 1) as [r|] eqn:Hr; [by exists r|]. exfalso. by vm_compute in Hr.
Defined.

Lemma retired_by_type_always_zero_witness :
  get_retired_by_type (Addr 2) CreditType.Carbon (sample_env 20) sample_retired = Ok 0 sample_retired.
Proof. exact (retired_by_type_always_zero 1 sample_retired (sample_env 20) (Addr 2) CreditType.Carbon credit_sample_reachable). Defined.

(** The state of a deployment upgraded from the layout that kept everything in instance
    storage: the same entries, all in the instance. *)
Definition sample_legacy : sample_state :=
  mkState (pers sample_retired) ∅ ∅ 0 [] (world sample_retired).

(** A certificate issued before the move to persistent storage cannot be kept alive:
    on an upgraded state that stores a ledger with certificate 1, [extend_retirement_ttl] re-homes
    the record but then extends the holder's index, which is still in instance storage, and
    the host traps. *)
Theorem legacy_certificate_not_extendable :
  exists s l r, refines (W := SampleWorld) s l /\ record_of s 1 = Some r /\
    extend_retirement_ttl 1 (sample_env 20) s = Trap.
Proof.
  destruct sample_refines as (l&Hl&Hlen). destruct l as [|r [|]]; try done.
  assert (Hsl : same_ledger sample_retired sample_legacy).
  { apply same_ledger_look. intros k Hk. unfold look, sample_legacy. host_cbn. rewrite sget_empty.
    destruct (sget k (pers sample_retired)) eqn:Hs; [done|]. symmetry.
    assert (Hi : inst sample_retired = inst sample_start).
    { destruct (reach_refines sample_start [] 1 sample_retired) as [Hi _];
        [|apply sample_start_refines|done|exact Hi].
      apply (reach_run_calls (eq sample_start) exec [(sample_env 1712000000, sample_retire)] 0).
      by apply reach_init. }
    rewrite Hi. apply (proj2 (deployed_refines _ credit_start_deployed)), Hk. }
  exists sample_legacy, [r], r. rewrite Hsl in Hl. split_and!; [done| |by vm_compute].
  by rewrite (rf_record _ _ Hl).
Qed.
