(* ===== verification/DexRouter.v ===== *)
(** * DEXRouter: the secondary market

    Model of [src/contracts/dex-router/src/lib.rs].  Bond tokens are reached
    through the [BondMarket] interface; quote balances are kept by the router. *)

From Stdlib Require Import Sorting.Sorted Sorting.Permutation.
From S2P Require Import Prelude Host Shared Interfaces.

(** ** Storage and events *)

Definition PERSISTENT_TTL_THRESHOLD : Z := 17280.
Definition PERSISTENT_TTL_EXTEND_TO : Z := 2073600.

Module DataKey.
Inductive DataKey :=
| Admin
| Order (id : Z)
| OrderCount
| SellerOrders (seller : Address)
| BondOrders (bond_id : Z)
| BondIssuerAddress
| CouponEngineAddress
| Balance (asset : Symbol) (addr : Address)
| Nonce (addr : Address).
End DataKey.
Abbreviation DataKey := DataKey.DataKey.

#[export] Instance DataKey_eq_dec : EqDecision DataKey.
Proof. solve_decision. Defined.

#[export] Instance DataKey_countable : Countable DataKey.
Proof.
  refine (inj_countable'
    (fun k => match k with
      | DataKey.Admin => (0%N, 0, Addr 0, EmptyString)
      | DataKey.Order i => (1%N, i, Addr 0, EmptyString)
      | DataKey.OrderCount => (2%N, 0, Addr 0, EmptyString)
      | DataKey.SellerOrders a => (3%N, 0, a, EmptyString)
      | DataKey.BondOrders b => (4%N, b, Addr 0, EmptyString)
      | DataKey.BondIssuerAddress => (5%N, 0, Addr 0, EmptyString)
      | DataKey.CouponEngineAddress => (6%N, 0, Addr 0, EmptyString)
      | DataKey.Balance q a => (7%N, 0, a, q)
      | DataKey.Nonce a => (8%N, 0, a, EmptyString)
      end)
    (fun x => match x with
      | (0%N, _, _, _) => DataKey.Admin
      | (1%N, i, _, _) => DataKey.Order i
      | (2%N, _, _, _) => DataKey.OrderCount
      | (3%N, _, a, _) => DataKey.SellerOrders a
      | (4%N, b, _, _) => DataKey.BondOrders b
      | (5%N, _, _, _) => DataKey.BondIssuerAddress
      | (6%N, _, _, _) => DataKey.CouponEngineAddress
      | (7%N, _, a, q) => DataKey.Balance q a
      | (_, _, a, _) => DataKey.Nonce a
      end) _).
  by intros [].
Defined.

Module OrderStatus.
Inductive OrderStatus := Open | PartiallyFilled | Filled | Cancelled | Expired.
End OrderStatus.

#[export] Instance OrderStatus_eq_dec : EqDecision OrderStatus.OrderStatus.
Proof. solve_decision. Defined.

Module Side.
Inductive Side := Buy | Sell.
End Side.

Record Order := mkOrder {
  od_id : Z;
  od_seller : Address;
  od_bond_id : Z;
  od_amount : Z;
  od_price_per_token : Z;
  od_quote_asset : Symbol;
  od_status : OrderStatus.OrderStatus;
  od_created_at : Z;
  od_expires_at : Z;
}.

(** [order.status = st] and [order.amount = a] *)
Definition with_status (st : OrderStatus.OrderStatus) (o : Order) : Order :=
  mkOrder (od_id o) (od_seller o) (od_bond_id o) (od_amount o) (od_price_per_token o)
          (od_quote_asset o) st (od_created_at o) (od_expires_at o).
Definition with_amount (a : Z) (o : Order) : Order :=
  mkOrder (od_id o) (od_seller o) (od_bond_id o) a (od_price_per_token o)
          (od_quote_asset o) (od_status o) (od_created_at o) (od_expires_at o).

Definition ty (k : DataKey) : Type :=
  match k with
  | DataKey.Admin | DataKey.BondIssuerAddress | DataKey.CouponEngineAddress => Address
  | DataKey.Order _ => Order
  | DataKey.OrderCount => Z
  | DataKey.SellerOrders _ => list Z
  | DataKey.BondOrders _ => list Z
  | DataKey.Balance _ _ => Z
  | DataKey.Nonce _ => Z
  end.

Inductive Event :=
| order_listed (order_id : Z) (seller : Address) (bond_id amount price_per_token : Z)
| order_cancelled (order_id : Z) (caller : Address)
| purchase_failed (order_id : Z) (buyer : Address) (reason : Symbol)
| order_filled (order_id : Z) (buyer seller : Address) (amount price_per_token proceeds : Z)
| quote_deposited (caller : Address) (quote_asset : Symbol) (amount : Z)
| quote_withdrawn (caller : Address) (quote_asset : Symbol) (amount : Z)
| expired_orders_cleaned (cleaned : Z).

(** [order.status == Open || order.status == PartiallyFilled] *)
Definition is_live (o : Order) : bool :=
  match od_status o with OrderStatus.Open | OrderStatus.PartiallyFilled => true | _ => false end.

(** Append an id to an index entry. *)
Definition push_order (ids : option (list Z)) (order_id : Z) : list Z := default [] ids ++ [order_id].

Section router.
Context {W : Type} `{!World W} `{!BondReader W} `{!BondMarket W}.
Local Abbreviation M := (contract DataKey ty DEXError.DEXError Event W).
Local Abbreviation state := (cstate DataKey ty Event W).

(** ** Helpers *)

Definition require_admin (caller : Address) : M unit :=
  let* o := iget DataKey.Admin in
  let* admin := ok_or o DEXError.NotInitialized in
  fail_if (bool_decide (caller <> admin)) DEXError.Unauthorized.

Definition bump_persistent (key : DataKey) : M unit :=
  pextend_ttl key PERSISTENT_TTL_THRESHOLD PERSISTENT_TTL_EXTEND_TO.

(** [if has(key) { bump_persistent(key) }] after a read. *)
Definition bump_if_has (key : DataKey) : M unit :=
  let* has := phas key in when has (bump_persistent key).

(** [set(key, value); bump_persistent(key)] *)
Definition store_entry (key : DataKey) (value : ty key) : M unit :=
  pset key value ;;
  bump_persistent key.

Definition get_nonce (addr : Address) : M Z :=
  let* o := pget (DataKey.Nonce addr) in
  bump_if_has (DataKey.Nonce addr) ;;
  ret (default 0 o).

Definition set_nonce (addr : Address) (nonce : Z) : M unit := store_entry (DataKey.Nonce addr) nonce.

Definition get_balance (addr : Address) (asset : Symbol) : M Z :=
  let* o := pget (DataKey.Balance asset addr) in
  bump_if_has (DataKey.Balance asset addr) ;;
  ret (default 0 o).

Definition set_balance (addr : Address) (asset : Symbol) (amount : Z) : M unit :=
  store_entry (DataKey.Balance asset addr) amount.

Definition is_order_expired (order : Order) : M bool :=
  let* now := ledger_timestamp in ret (od_expires_at order <=? now).

Definition verify_holder_balance (holder : Address) (bond_id required : Z) : M unit :=
  let* o := iget DataKey.BondIssuerAddress in
  let* bond_issuer := ok_or o DEXError.NotInitialized in
  let* balance := invoke_contract bond_issuer (call_get_holder_balance bond_issuer bond_id holder) in
  fail_if (balance <? required) DEXError.InsufficientBalance.

(** The prologue of the signed entrypoints. *)
Definition consume_nonce (caller : Address) (nonce : Z) : M unit :=
  let* expected_nonce := get_nonce caller in
  fail_if (negb (nonce =? expected_nonce)) DEXError.InvalidNonce ;;
  let* next := arith U64 (expected_nonce + 1) in
  set_nonce caller next.

Definition constructor (admin bond_issuer_address coupon_engine_address : Address) : M unit :=
  iset DataKey.Admin admin ;;
  iset DataKey.BondIssuerAddress bond_issuer_address ;;
  iset DataKey.CouponEngineAddress coupon_engine_address.

(** ** Orders *)

Definition list_bond_tokens (seller : Address) (bond_id amount price_per_token : Z) (quote_asset : Symbol)
    (expires_after_seconds nonce : Z) : M Z :=
  require_auth seller ;;
  consume_nonce seller nonce ;;
  fail_if ((amount <=? 0) || (price_per_token <=? 0)) DEXError.ZeroAmount ;;
  fail_if (expires_after_seconds =? 0) DEXError.OrderExpired ;;
  verify_holder_balance seller bond_id amount ;;
  let* c := iget DataKey.OrderCount in
  let* order_id := arith U64 (default 0 c + 1) in
  iset DataKey.OrderCount order_id ;;
  let* now := ledger_timestamp in
  let* expires_at := ok_or (checked U64 (now + expires_after_seconds)) DEXError.OrderExpired in
  store_entry (DataKey.Order order_id)
    (mkOrder order_id seller bond_id amount price_per_token quote_asset OrderStatus.Open now expires_at) ;;
  let* so := pget (DataKey.SellerOrders seller) in
  store_entry (DataKey.SellerOrders seller) (push_order so order_id) ;;
  let* bo := pget (DataKey.BondOrders bond_id) in
  store_entry (DataKey.BondOrders bond_id) (push_order bo order_id) ;;
  publish (order_listed order_id seller bond_id amount price_per_token) ;;
  ret order_id.

Definition cancel_listing (caller : Address) (order_id nonce : Z) : M unit :=
  require_auth caller ;;
  consume_nonce caller nonce ;;
  let* o := pget (DataKey.Order order_id) in
  let* order := ok_or o DEXError.OrderNotFound in
  fail_if (bool_decide (caller <> od_seller order)) DEXError.Unauthorized ;;
  fail_if (negb (is_live order)) DEXError.OrderAlreadyFilled ;;
  store_entry (DataKey.Order order_id) (with_status OrderStatus.Cancelled order) ;;
  publish (order_cancelled order_id caller).

(** The guards of a purchase. *)
Definition check_purchase (buyer : Address) (order_id max_price amount : Z) (order : Order) : M unit :=
  fail_if (negb (is_live order)) DEXError.OrderAlreadyFilled ;;
  fail_if (bool_decide (buyer = od_seller order)) DEXError.SelfBuyNotAllowed ;;
  let* expired := is_order_expired order in
  fail_if expired DEXError.OrderExpired ;;
  fail_if (amount <=? 0) DEXError.ZeroAmount ;;
  fail_if (od_amount order <? amount) DEXError.InsufficientBalance ;;
  fail_if (max_price <? od_price_per_token order) DEXError.InsufficientBalance ;;
  let* verified := attempt (verify_holder_balance (od_seller order) (od_bond_id order) amount) in
  match verified with
  | inl _ => ret tt
  | inr _ =>
      publish (purchase_failed order_id buyer "seller_balance_depleted") ;;
      throw DEXError.SellerBalanceDepleted
  end.

(** Move the price from the buyer's quote balance to the seller's. *)
Definition settle_quote (buyer : Address) (amount : Z) (order : Order) : M Z :=
  let* proceeds := ok_or (checked I128 (amount * od_price_per_token order)) DEXError.Overflow in
  let* buyer_balance := get_balance buyer (od_quote_asset order) in
  fail_if (buyer_balance <? proceeds) DEXError.InsufficientFunds ;;
  let* rest := arith I128 (buyer_balance - proceeds) in
  set_balance buyer (od_quote_asset order) rest ;;
  let* seller_balance := get_balance (od_seller order) (od_quote_asset order) in
  let* new_seller_balance := ok_or (checked I128 (seller_balance + proceeds)) DEXError.Overflow in
  set_balance (od_seller order) (od_quote_asset order) new_seller_balance ;;
  ret proceeds.

(** Move the bond tokens on BondIssuer. *)
Definition deliver_bond (buyer : Address) (amount : Z) (order : Order) : M unit :=
  let* i := iget DataKey.BondIssuerAddress in
  let* bond_issuer := ok_or i DEXError.NotInitialized in
  let* seller_nonce := invoke_contract bond_issuer (call_get_nonce bond_issuer (od_seller order)) in
  let* r := try_invoke_contract bond_issuer
              (call_transfer bond_issuer (od_seller order) buyer (od_bond_id order) amount seller_nonce) in
  match r with
  | inl _ => ret tt
  | inr (Some BondError.InvalidNonce) => throw DEXError.InvalidNonce
  | inr _ => throw DEXError.InsufficientBalance
  end.

(** The order after [amount] of it was bought. *)
Definition fill_order (amount : Z) (order : Order) : M Order :=
  if amount =? od_amount order then ret (with_status OrderStatus.Filled order)
  else
    let* rest := arith I128 (od_amount order - amount) in
    ret (with_amount rest (with_status OrderStatus.PartiallyFilled order)).

Definition execute_purchase (buyer : Address) (order_id max_price amount nonce : Z) : M unit :=
  require_auth buyer ;;
  consume_nonce buyer nonce ;;
  let* o := pget (DataKey.Order order_id) in
  let* order := ok_or o DEXError.OrderNotFound in
  bump_persistent (DataKey.Order order_id) ;;
  check_purchase buyer order_id max_price amount order ;;
  let* proceeds := settle_quote buyer amount order in
  deliver_bond buyer amount order ;;
  let* order' := fill_order amount order in
  store_entry (DataKey.Order order_id) order' ;;
  publish (order_filled order_id buyer (od_seller order) amount (od_price_per_token order) proceeds).

(** ** Quote balances *)

Definition deposit_quote (caller : Address) (quote_asset : Symbol) (amount nonce : Z) : M unit :=
  require_auth caller ;;
  consume_nonce caller nonce ;;
  fail_if (amount <=? 0) DEXError.ZeroAmount ;;
  let* balance := get_balance caller quote_asset in
  let* new_balance := ok_or (checked I128 (balance + amount)) DEXError.Overflow in
  set_balance caller quote_asset new_balance ;;
  publish (quote_deposited caller quote_asset amount).

Definition withdraw_quote (caller : Address) (quote_asset : Symbol) (amount nonce : Z) : M unit :=
  require_auth caller ;;
  consume_nonce caller nonce ;;
  fail_if (amount <=? 0) DEXError.ZeroAmount ;;
  let* balance := get_balance caller quote_asset in
  fail_if (balance <? amount) DEXError.InsufficientFunds ;;
  let* rest := arith I128 (balance - amount) in
  set_balance caller quote_asset rest ;;
  publish (quote_withdrawn caller quote_asset amount).

Definition get_quote_balance (address : Address) (quote_asset : Symbol) : M Z := get_balance address quote_asset.

Definition get_order (order_id : Z) : M Order :=
  let* o := pget (DataKey.Order order_id) in
  let* val := ok_or o DEXError.OrderNotFound in
  bump_persistent (DataKey.Order order_id) ;;
  ret val.

Definition get_bond_orders (bond_id : Z) : M (list Z) :=
  let* o := pget (DataKey.BondOrders bond_id) in
  bump_if_has (DataKey.BondOrders bond_id) ;;
  ret (default [] o).

Definition get_seller_orders (seller : Address) : M (list Z) :=
  let* o := pget (DataKey.SellerOrders seller) in
  bump_if_has (DataKey.SellerOrders seller) ;;
  ret (default [] o).

Definition order_count : M Z :=
  let* o := iget DataKey.OrderCount in ret (default 0 o).

(** ** Quoting *)

(** Whether [order] goes before [current] in the sorted book. *)
Definition precedes (side : Side.Side) (order current : Order) : bool :=
  match side with
  | Side.Buy => (od_price_per_token order <? od_price_per_token current) ||
                ((od_price_per_token order =? od_price_per_token current) && (od_id order <? od_id current))
  | Side.Sell => (od_price_per_token current <? od_price_per_token order) ||
                 ((od_price_per_token order =? od_price_per_token current) && (od_id order <? od_id current))
  end.

(** The loop over [position], and [sorted.insert(position, order)]. *)
Fixpoint insert_order (side : Side.Side) (order : Order) (sorted : list Order) : list Order :=
  match sorted with
  | [] => [order]
  | current :: rest =>
      if precedes side order current then order :: current :: rest
      else current :: insert_order side order rest
  end.

(** One turn of the loop over the bond's order ids. *)
Definition collect_order (bond_id : Z) (side : Side.Side) (sorted : list Order) (order_id : Z) :
    M (list Order) :=
  let* o := pget (DataKey.Order order_id) in
  match o with
  | None => ret sorted
  | Some order =>
      bump_persistent (DataKey.Order order_id) ;;
      let* expired := is_order_expired order in
      if negb (od_bond_id order =? bond_id) || (od_amount order <=? 0) || negb (is_live order) || expired
      then ret sorted
      else ret (insert_order side order sorted)
  end.

(** The fill loop: what is left to fill, what is filled, its cost. *)
Fixpoint fill_book (book : list Order) (remaining filled total : Z) : M (Z * Z) :=
  match book with
  | [] => ret (filled, total)
  | order :: rest =>
      if remaining =? 0 then ret (filled, total)
      else
        let take := Z.min remaining (od_amount order) in
        let* cost := ok_or (checked I128 (take * od_price_per_token order)) DEXError.Overflow in
        let* total' := ok_or (checked I128 (total + cost)) DEXError.Overflow in
        let* filled' := ok_or (checked I128 (filled + take)) DEXError.Overflow in
        let* remaining' := arith I128 (remaining - take) in
        fill_book rest remaining' filled' total'
  end.

(** [(average_price, total, slippage_bps)] of a fill whose best price is [best_price]. *)
Definition price_quote (side : Side.Side) (best_price filled total : Z) : M (Z * Z * Z) :=
  let average_price := Z.quot total filled in
  let* ideal_total := ok_or (checked I128 (filled * best_price)) DEXError.Overflow in
  let adverse_delta := match side with
                       | Side.Buy => saturating I128 (total - ideal_total)
                       | Side.Sell => saturating I128 (ideal_total - total)
                       end in
  let* slippage_bps :=
    (if 0 <? ideal_total then
       let* scaled := ok_or (checked I128 (adverse_delta * 10000)) DEXError.Overflow in
       ret (Z.quot scaled ideal_total)
     else ret 0) in
  ret (average_price, total, slippage_bps).

Definition get_best_price (bond_id : Z) (side : Side.Side) (amount : Z) : M (Z * Z * Z) :=
  fail_if (amount <=? 0) DEXError.ZeroAmount ;;
  let* o := pget (DataKey.BondOrders bond_id) in
  bump_if_has (DataKey.BondOrders bond_id) ;;
  let* sorted := mfold (collect_order bond_id side) [] (default [] o) in
  match sorted with
  | [] => ret (0, 0, 0)
  | first :: _ =>
      let* (filled, total) := fill_book sorted amount 0 0 in
      if filled =? 0 then ret (0, 0, 0)
      else price_quote side (od_price_per_token first) filled total
  end.

(** ** Expiry *)

Definition clean_order (cleaned id : Z) : M Z :=
  let* o := pget (DataKey.Order id) in
  match o with
  | None => ret cleaned
  | Some order =>
      let* expired := is_order_expired order in
      if is_live order && expired then
        store_entry (DataKey.Order id) (with_status OrderStatus.Expired order) ;;
        arith U32 (cleaned + 1)
      else ret cleaned
  end.

Definition clean_expired_orders_range_impl (start_id end_id : Z) : M Z :=
  let* cleaned := mfold clean_order 0 (seqZ start_id (end_id - start_id + 1)) in
  publish (expired_orders_cleaned cleaned) ;;
  ret cleaned.

Definition clean_expired_orders (caller : Address) (nonce : Z) : M Z :=
  require_auth caller ;;
  consume_nonce caller nonce ;;
  require_admin caller ;;
  let* count := order_count in
  if count =? 0 then ret 0 else clean_expired_orders_range_impl 1 count.

Definition clean_expired_orders_range (caller : Address) (nonce start_id end_id : Z) : M Z :=
  require_auth caller ;;
  consume_nonce caller nonce ;;
  require_admin caller ;;
  let* count := order_count in
  fail_if ((start_id <? 1) || (count <? end_id) || (end_id <? start_id)) DEXError.InvalidRange ;;
  clean_expired_orders_range_impl start_id end_id.

(** ** Executions *)

(** The transactions that write data; the getters only refresh lifetimes. *)
Inductive Call :=
| CList (seller : Address) (bond_id amount price_per_token : Z) (quote_asset : Symbol)
    (expires_after_seconds nonce : Z)
| CCancel (caller : Address) (order_id nonce : Z)
| CPurchase (buyer : Address) (order_id max_price amount nonce : Z)
| CDeposit (caller : Address) (quote_asset : Symbol) (amount nonce : Z)
| CWithdraw (caller : Address) (quote_asset : Symbol) (amount nonce : Z)
| CClean (caller : Address) (nonce : Z)
| CCleanRange (caller : Address) (nonce start_id end_id : Z).

Definition exec (c : Call) : M unit :=
  match c with
  | CList a b v p q x n => list_bond_tokens a b v p q x n ;; ret tt
  | CCancel a i n => cancel_listing a i n
  | CPurchase a i m v n => execute_purchase a i m v n
  | CDeposit a q v n => deposit_quote a q v n
  | CWithdraw a q v n => withdraw_quote a q v n
  | CClean a n => clean_expired_orders a n ;; ret tt
  | CCleanRange a n i j => clean_expired_orders_range a n i j ;; ret tt
  end.

Definition deployed (s : state) : Prop :=
  exists e admin issuer engine w, constructor admin issuer engine e (empty_state w) = Ok tt s.
End router.

(** ** Views of the state *)

Section views.
Context {W : Type}.
Implicit Types s : cstate DataKey ty Event W.

Definition order_of s (i : Z) : option Order := sget (DataKey.Order i) (pers s).
Definition quote_of s (q : Symbol) (a : Address) : Z := default 0 (sget (DataKey.Balance q a) (pers s)).
Definition nonce_of s (a : Address) : Z := default 0 (sget (DataKey.Nonce a) (pers s)).
Definition count_of s : Z := default 0 (sget DataKey.OrderCount (inst s)).
Definition bond_orders_of s (b : Z) : list Z := default [] (sget (DataKey.BondOrders b) (pers s)).
Definition seller_orders_of s (a : Address) : list Z := default [] (sget (DataKey.SellerOrders a) (pers s)).
End views.

Section specs.
Context {W : Type} `{!World W} `{!BondReader W} `{!BondMarket W}.
Local Abbreviation state := (cstate DataKey ty Event W).
Implicit Types (s : state) (e : Env).

(** *** What the helpers do *)

Lemma dex_require_admin_Ok a e s u s' :
  @require_admin W a e s = Ok u s' -> sget DataKey.Admin (inst s) = Some a /\ s' = s.
Proof. unfold require_admin. intros H. inv_ok H. guards. by subst. Qed.

Lemma dex_bump_Ok k e s u s' : @bump_persistent W k e s = Ok u s' -> exists l, s' = put_live l s.
Proof. apply pextend_Ok. Qed.

Lemma bump_if_has_Ok k e s u s' : @bump_if_has W k e s = Ok u s' -> exists l, s' = put_live l s.
Proof. apply bump_if_present_Ok. Qed.

Lemma store_entry_Ok k v e s u s' :
  @store_entry W k v e s = Ok u s' -> exists l, s' = put_live l (put_pers k v s).
Proof. unfold store_entry, bump_persistent. intros H. inv_ok H. by eexists. Qed.

Lemma get_balance_Ok a q e s v s' :
  @get_balance W a q e s = Ok v s' -> v = quote_of s q a /\ exists l, s' = put_live l s.
Proof.
  unfold get_balance. intros (o&s1&[-> ->]%pget_Ok&(?&s2&[l ->]%bump_if_has_Ok&[-> ->]%ret_Ok)%bind_Ok)%bind_Ok.
  split; [done|by exists l].
Qed.

Lemma set_balance_Ok a q v e s u s' :
  @set_balance W a q v e s = Ok u s' -> exists l, s' = put_live l (put_pers (DataKey.Balance q a) v s).
Proof. apply store_entry_Ok. Qed.

(** Signing the call: the nonce used and the next one. *)
Lemma dex_consume_nonce_Ok a n e s u s' :
  @consume_nonce W a n e s = Ok u s' ->
  n = nonce_of s a /\ exists next l, s' = put_live l (put_pers (DataKey.Nonce a) next s) /\
    (in_range U64 (n + 1) = true -> next = n + 1).
Proof.
  unfold consume_nonce, get_nonce, set_nonce.
  intros (v&s1&Hv&H)%bind_Ok.
  apply bind_Ok in Hv as (o&s2&[-> ->]%pget_Ok&Hv).
  apply bind_Ok in Hv as (?&s2&[l ->]%bump_if_has_Ok&[-> ->]%ret_Ok).
  apply bind_Ok in H as (?&s2&[Hn ->]%fail_if_Ok&H). guards. subst n.
  apply bind_Ok in H as (next&s2&(->&_&Hnx&_)%arith_Ok&H). apply store_entry_Ok in H as [l' ->].
  split; [done|]. exists next, l'. split; [done|exact Hnx].
Qed.

Lemma expired_Ok o e s b s' :
  @is_order_expired W o e s = Ok b s' -> b = (od_expires_at o <=? timestamp e) /\ s' = s.
Proof. unfold is_order_expired. intros H. by inv_ok H. Qed.

Lemma verify_Ok h b v e s u s' :
  verify_holder_balance h b v e s = Ok u s' ->
  exists iss w, sget DataKey.BondIssuerAddress (inst s) = Some iss /\ wquiet (world s) w /\
    s' = put_world w s /\ v <= bond_balance (world s) iss b h /\
    in_range I128 (bond_balance (world s) iss b h) = true.
Proof.
  unfold verify_holder_balance. intros H. inv_ok H. guards.
  match goal with Hb : call_get_holder_balance ?i ?b ?h _ _ = EOk _ ?w |- _ =>
    exists i, w; destruct (call_get_holder_balance_value _ _ _ _ _ _ _ Hb); subst;
    apply call_get_holder_balance_spec in Hb end.
  done.
Qed.
End specs.

Ltac inv_hook H ::=
  lazymatch type of H with
  | bump_persistent _ _ _ = Ok _ _ => apply dex_bump_Ok in H as [? ?]; subst
  | bump_if_has _ _ _ = Ok _ _ => apply bump_if_has_Ok in H as [? ?]; subst
  | store_entry _ _ _ _ = Ok _ _ => apply store_entry_Ok in H as [? ?]; subst
  | set_balance _ _ _ _ _ = Ok _ _ => apply set_balance_Ok in H as [? ?]; subst
  | is_order_expired _ _ _ = Ok _ _ => apply expired_Ok in H as [? ?]; subst
  end.

Section operations.
Context {W : Type} `{!World W} `{!BondReader W} `{!BondMarket W}.
Local Abbreviation state := (cstate DataKey ty Event W).
Implicit Types (s : state) (e : Env).

(** ** What the entrypoints do *)

(** [a] signed with nonce [n]; the next nonce is [next]. *)
Definition signed (e : Env) s (a : Address) (n next : Z) : Prop :=
  is_authorized e a = true /\ n = nonce_of s a /\ (in_range U64 (n + 1) = true -> next = n + 1).

Lemma signed_Ok a n e s {B} (k : contract DataKey ty DEXError.DEXError Event W B) r s' :
  (require_auth a ;; consume_nonce a n ;; k) e s = Ok r s' ->
  exists next l, signed e s a n next /\ k e (put_live l (put_pers (DataKey.Nonce a) next s)) = Ok r s'.
Proof.
  intros (?&s1&[Ha ->]%require_auth_Ok&H)%bind_Ok.
  apply bind_Ok in H as ([]&s1&(Hn&next&l&->&Hnx)%dex_consume_nonce_Ok&H). by exists next, l.
Qed.

Lemma list_Ok a b v p q x n e s i s' :
  list_bond_tokens a b v p q x n e s = Ok i s' ->
  exists next iss, signed e s a n next /\ 0 < v /\ 0 < p /\ x <> 0 /\
    (in_range U64 (count_of s + 1) = true -> i = count_of s + 1) /\
    sget DataKey.BondIssuerAddress (inst s) = Some iss /\
    v <= bond_balance (world s) iss b a /\ v <= int_hi I128 /\ wquiet (world s) (world s') /\
    inst s' = sset DataKey.OrderCount i (inst s) /\
    pers s' =
      sset (DataKey.BondOrders b) (bond_orders_of s b ++ [i])
     (sset (DataKey.SellerOrders a) (seller_orders_of s a ++ [i])
     (sset (DataKey.Order i) (mkOrder i a b v p q OrderStatus.Open (timestamp e) (timestamp e + x))
     (sset (DataKey.Nonce a) next (pers s)))).
Proof.
  unfold list_bond_tokens. intros (next&l&Hs&H)%signed_Ok.
  apply bind_Ok in H as (?&s1&[Hz ->]%fail_if_Ok&H). apply bind_Ok in H as (?&s1&[Hx ->]%fail_if_Ok&H).
  apply bind_Ok in H as (?&s1&(iss&w&Hiss&Hw&->&Hle&Hrng%in_range_spec)%verify_Ok&H).
  apply bind_Ok in H as (c&s1&[-> ->]%iget_Ok&H).
  apply bind_Ok in H as (j&s1&(->&_&Hj&_)%arith_Ok&H).
  inv_ok H. guards. host_cbn. exists next, iss. split_and!; try done; try (etransitivity; [exact Hle|tauto]).
  unfold bond_orders_of, seller_orders_of, push_order. by store_simp.
Qed.

Lemma dex_cancel_Ok a i n e s u s' :
  cancel_listing a i n e s = Ok u s' ->
  exists next o, signed e s a n next /\ order_of s i = Some o /\ od_seller o = a /\ is_live o = true /\
    inst s' = inst s /\ world s' = world s /\
    pers s' = sset (DataKey.Order i) (with_status OrderStatus.Cancelled o) (sset (DataKey.Nonce a) next (pers s)).
Proof.
  unfold cancel_listing. intros (next&l&Hs&H)%signed_Ok. inv_ok H. guards. subst. host_cbn. store_simp.
  exists next. eexists. by split_and!.
Qed.

Lemma deposit_Ok a q v n e s u s' :
  deposit_quote a q v n e s = Ok u s' ->
  exists next, signed e s a n next /\ 0 < v /\ in_range I128 (quote_of s q a + v) = true /\
    inst s' = inst s /\ world s' = world s /\
    pers s' = sset (DataKey.Balance q a) (quote_of s q a + v) (sset (DataKey.Nonce a) next (pers s)).
Proof.
  unfold deposit_quote. intros (next&l&Hs&H)%signed_Ok.
  apply bind_Ok in H as (?&s1&[Hz ->]%fail_if_Ok&H).
  apply bind_Ok in H as (bal&s1&[-> [l1 ->]]%get_balance_Ok&H). inv_ok H. guards. host_cbn.
  unfold quote_of in *. host_cbn. store_simp. exists next. by split_and!.
Qed.

Lemma withdraw_Ok a q v n e s u s' :
  withdraw_quote a q v n e s = Ok u s' ->
  exists next rest, signed e s a n next /\ 0 < v <= quote_of s q a /\
    (in_range I128 (quote_of s q a - v) = true -> rest = quote_of s q a - v) /\
    inst s' = inst s /\ world s' = world s /\
    pers s' = sset (DataKey.Balance q a) rest (sset (DataKey.Nonce a) next (pers s)).
Proof.
  unfold withdraw_quote. intros (next&l&Hs&H)%signed_Ok.
  apply bind_Ok in H as (?&s1&[Hz ->]%fail_if_Ok&H).
  apply bind_Ok in H as (bal&s1&[-> [l1 ->]]%get_balance_Ok&H). inv_ok H. guards. host_cbn.
  unfold quote_of in *. host_cbn. store_simp. eexists next, _. by split_and!.
Qed.
End operations.

(** The order after [v] of it was bought. *)
Definition fill (v : Z) (o : Order) : Order :=
  if v =? od_amount o then with_status OrderStatus.Filled o
  else with_amount (od_amount o - v) (with_status OrderStatus.PartiallyFilled o).

Section purchase.
Context {W : Type} `{!World W} `{!BondReader W} `{!BondMarket W}.
Local Abbreviation state := (cstate DataKey ty Event W).
Implicit Types (s : state) (e : Env).

(** *** Purchases *)

(** The guards hold, on the router's side. *)
Definition may_buy (e : Env) s (a : Address) (m v : Z) (o : Order) : Prop :=
  is_live o = true /\ a <> od_seller o /\ timestamp e < od_expires_at o /\ 0 < v <= od_amount o /\
  od_price_per_token o <= m.

Lemma check_purchase_Ok a i m v o e s u s' :
  check_purchase a i m v o e s = Ok u s' ->
  may_buy e s a m v o /\ exists w, wquiet (world s) w /\ s' = put_world w s.
Proof.
  unfold check_purchase. intros H.
  apply bind_Ok in H as (?&s1&[Hl ->]%fail_if_Ok&H). apply bind_Ok in H as (?&s1&[Hne ->]%fail_if_Ok&H).
  apply bind_Ok in H as (b&s1&[-> ->]%expired_Ok&H). apply bind_Ok in H as (?&s1&[Hex ->]%fail_if_Ok&H).
  apply bind_Ok in H as (?&s1&[Hv ->]%fail_if_Ok&H). apply bind_Ok in H as (?&s1&[Ha ->]%fail_if_Ok&H).
  apply bind_Ok in H as (?&s1&[Hp ->]%fail_if_Ok&H). guards.
  apply bind_Ok in H as (r&s1&Hat&H). apply attempt_Ok in Hat as [(?&->&Hv1)|(err&->&_)].
  - apply verify_Ok in Hv1 as (iss&w&_&Hw&->&_&_). apply (ret_Ok tt u e) in H as [_ ->].
    split; [by split_and!|by exists w].
  - apply bind_Ok in H as (?&?&_&H). by inv_ok H.
Qed.

Lemma settle_Ok a v o e s r s' :
  settle_quote a v o e s = Ok r s' -> a <> od_seller o ->
  r = v * od_price_per_token o /\ in_range I128 r = true /\ r <= quote_of s (od_quote_asset o) a /\
  in_range I128 (quote_of s (od_quote_asset o) (od_seller o) + r) = true /\
  exists rest l, (in_range I128 (quote_of s (od_quote_asset o) a - r) = true ->
                  rest = quote_of s (od_quote_asset o) a - r) /\
    s' = put_live l (put_pers (DataKey.Balance (od_quote_asset o) (od_seller o))
                       (quote_of s (od_quote_asset o) (od_seller o) + r)
                    (put_pers (DataKey.Balance (od_quote_asset o) a) rest s)).
Proof.
  unfold settle_quote. intros H Hne.
  apply bind_Ok in H as (pr&s1&[Hpr ->]%ok_or_Ok&H). apply checked_Some in Hpr as [-> Hr].
  apply bind_Ok in H as (bb&s1&[-> [l1 ->]]%get_balance_Ok&H).
  apply bind_Ok in H as (?&s1&[Hle ->]%fail_if_Ok&H). guards.
  apply bind_Ok in H as (rest&s1&(->&_&Hrest&_)%arith_Ok&H).
  apply bind_Ok in H as (?&s1&[l2 ->]%set_balance_Ok&H).
  apply bind_Ok in H as (sb&s1&[-> [l3 ->]]%get_balance_Ok&H).
  apply bind_Ok in H as (ns&s1&[Hns ->]%ok_or_Ok&H). apply checked_Some in Hns as [-> Hs].
  apply bind_Ok in H as (?&s1&[l4 ->]%set_balance_Ok&[-> ->]%ret_Ok).
  unfold quote_of in *. host_cbn. rewrite sget_sset_ne in * by congruence. split_and!; try done.
  by exists rest, l4.
Qed.

Lemma deliver_Ok a v o e s u s' :
  deliver_bond a v o e s = Ok u s' ->
  exists iss, sget DataKey.BondIssuerAddress (inst s) = Some iss /\ s' = put_world (world s') s /\
    wstep (world s) (world s') /\ is_authorized (sub_env iss e) (od_seller o) = true /\
    0 < v <= bond_balance (world s) iss (od_bond_id o) (od_seller o) /\
    forall b' h', bond_balance (world s') iss b' h' = bond_balance (world s) iss b' h'
      + (if decide ((b', h') = (od_bond_id o, a)) then v else 0)
      - (if decide ((b', h') = (od_bond_id o, od_seller o)) then v else 0).
Proof.
  unfold deliver_bond. intros (io&s1&[-> ->]%iget_Ok&H)%bind_Ok.
  apply bind_Ok in H as (iss&s1&[Hiss ->]%ok_or_Ok&H).
  apply bind_Ok in H as (sn&s1&(w1&Hn&->)%invoke_Ok&H). apply call_get_nonce_spec in Hn.
  apply bind_Ok in H as (r&s1&Ht&H). host_cbn.
  apply try_invoke_Ok in Ht as [(x&w2&->&Ht&->)|[(err&->&_&->)|(->&_&->)]].
  2: { destruct err; by inv_ok H. }
  2: by inv_ok H.
  apply (ret_Ok tt u e) in H as [_ ->]. host_cbn.
  apply call_transfer_spec in Ht as (_&Hv&Hauth&Hw&Hbal). exists iss.
  assert (Hq : forall b h, bond_balance w1 iss b h = bond_balance (world s) iss b h)
    by (intros; by apply bond_balance_quiet).
  rewrite Hq in Hv. split_and!; try done; try lia.
  - etransitivity; [by apply wquiet_step|done].
  - intros b' h'. by rewrite Hbal, Hq.
Qed.

Lemma fill_order_Ok v o e s o' s' :
  @fill_order W v o e s = Ok o' s' ->
  s' = s /\ (in_range I128 (od_amount o - v) = true -> o' = fill v o) /\
  od_amount o' = (if v =? od_amount o then od_amount o else od_amount o') /\
  exists a', o' = with_amount a' (with_status (od_status (fill v o)) o).
Proof.
  unfold fill_order, fill. destruct (v =? od_amount o); intros H; inv_ok H.
  - split_and!; try done. by exists (od_amount o).
  - split_and!; try done; [|by eexists]. intros Hr.
    match goal with Hx : in_range _ (od_amount o - v) = true -> _ = _ |- _ => by rewrite (Hx Hr) end.
Qed.

(** A successful purchase. *)
Lemma purchase_Ok a i m v n e s u s' :
  execute_purchase a i m v n e s = Ok u s' ->
  exists next o o' iss rest, signed e s a n next /\ order_of s i = Some o /\ may_buy e s a m v o /\
    let r := v * od_price_per_token o in let q := od_quote_asset o in let seller := od_seller o in
    in_range I128 r = true /\ r <= quote_of s q a /\ in_range I128 (quote_of s q seller + r) = true /\
    (in_range I128 (quote_of s q a - r) = true -> rest = quote_of s q a - r) /\
    (in_range I128 (od_amount o - v) = true -> o' = fill v o) /\
    sget DataKey.BondIssuerAddress (inst s) = Some iss /\ wstep (world s) (world s') /\
    is_authorized (sub_env iss e) seller = true /\ v <= bond_balance (world s) iss (od_bond_id o) seller /\
    (forall b' h', bond_balance (world s') iss b' h' = bond_balance (world s) iss b' h'
      + (if decide ((b', h') = (od_bond_id o, a)) then v else 0)
      - (if decide ((b', h') = (od_bond_id o, seller)) then v else 0)) /\
    inst s' = inst s /\
    pers s' =
      sset (DataKey.Order i) o'
     (sset (DataKey.Balance q seller) (quote_of s q seller + r)
     (sset (DataKey.Balance q a) rest
     (sset (DataKey.Nonce a) next (pers s)))).
Proof.
  unfold execute_purchase. intros (next&l&Hs&H)%signed_Ok.
  apply bind_Ok in H as (x&s1&[-> ->]%pget_Ok&H). apply bind_Ok in H as (o&s1&[Ho ->]%ok_or_Ok&H).
  apply bind_Ok in H as (?&s1&[l1 ->]%dex_bump_Ok&H).
  apply bind_Ok in H as (?&s1&(Hmay&w1&Hw1&->)%check_purchase_Ok&H).
  apply bind_Ok in H as (r&s1&Hset&H).
  apply settle_Ok in Hset as (->&Hr&Hle&Hsel&rest&l2&Hrest&->); [|apply Hmay].
  apply bind_Ok in H as (?&s1&(iss&Hiss&Hs1&Hw2&Hauth&Hv&Hbal)%deliver_Ok&H).
  apply bind_Ok in H as (o'&s2&(->&Ho'&_)%fill_order_Ok&H).
  rewrite Hs1 in H. clear Hs1. revert H Hw2 Hbal. generalize (world s1). intros w2 H Hw2 Hbal.
  inv_ok H. host_cbn. store_simp. exists next, o, o', iss, rest. cbv zeta.
  assert (Hq : forall b h, bond_balance w1 iss b h = bond_balance (world s) iss b h)
    by (intros; by apply bond_balance_quiet).
  unfold quote_of in *. host_cbn. rewrite !sget_sset_ne in * by congruence.
  rewrite Hq in Hv. split_and!; try done.
  - etransitivity; [by apply wquiet_step|done].
  - lia.
  - intros b' h'. by rewrite Hbal, Hq.
Qed.
End purchase.

(** What a cleaning pass does to an order, and the orders it touches. *)
Definition stale (now : Z) (o : Order) : bool := is_live o && (od_expires_at o <=? now).
Definition expire (now : Z) (o : Order) : Order :=
  if stale now o then with_status OrderStatus.Expired o else o.

Lemma expire_idemp now o : expire now (expire now o) = expire now o.
Proof. unfold expire. destruct (stale now o) eqn:Hs; [done|]. by rewrite Hs. Qed.

Section clean.
Context {W : Type} `{!World W} `{!BondReader W} `{!BondMarket W}.
Local Abbreviation state := (cstate DataKey ty Event W).
Implicit Types (s : state) (e : Env).

(** *** Cleaning *)

(** From [s] to [s'] only the orders in [ids] changed, by [expire]. *)
Record cleaned (now : Z) (ids : list Z) s s' : Prop := {
  cl_inst : inst s' = inst s;
  cl_world : world s' = world s;
  cl_in : forall i, i ∈ ids -> order_of s' i = expire now <$> order_of s i;
  cl_frame : forall k, (forall i, i ∈ ids -> k <> DataKey.Order i) -> sget k (pers s') = sget k (pers s);
}.

Definition is_stale (now : Z) s (i : Z) : bool :=
  match order_of s i with Some o => stale now o | None => false end.

Lemma clean_order_Ok c i e s c' s' :
  @clean_order W c i e s = Ok c' s' ->
  cleaned (timestamp e) [i] s s' /\
  if is_stale (timestamp e) s i then in_range U32 (c + 1) = true -> c' = c + 1 else c' = c.
Proof.
  unfold clean_order, is_stale. intros (o&s1&[-> ->]%pget_Ok&H)%bind_Ok. fold (order_of s i) in *.
  destruct (order_of s i) as [o|] eqn:Ho.
  - apply bind_Ok in H as (b&s1&[-> ->]%expired_Ok&H). fold (stale (timestamp e) o) in H.
    destruct (stale (timestamp e) o) eqn:Hst.
    + apply bind_Ok in H as (?&s1&[l ->]%store_entry_Ok&(->&_&Hc&_)%arith_Ok). split; [|done].
      split; [done|done| |].
      * intros j ->%list_elem_of_singleton. rewrite Ho. unfold order_of. host_cbn. store_simp.
        unfold expire. simpl. by rewrite Hst.
      * intros k Hk. host_cbn. apply sget_sset_ne. intros <-. apply (Hk i); [by left|done].
    + apply ret_Ok in H as [-> ->]. split; [|done]. split; [done|done| |done].
      intros j ->%list_elem_of_singleton. rewrite Ho. unfold expire. simpl. by rewrite Hst.
  - apply ret_Ok in H as [-> ->]. split; [|done]. split; [done|done| |done].
    intros j ->%list_elem_of_singleton. by rewrite Ho.
Qed.

Lemma cleaned_cons now i ids s s1 s' :
  cleaned now [i] s s1 -> cleaned now ids s1 s' -> cleaned now (i :: ids) s s'.
Proof.
  intros [Hi1 Hw1 Ho1 Hf1] [Hi2 Hw2 Ho2 Hf2].
  assert (Hone : forall j, order_of s1 j = if decide (j = i) then expire now <$> order_of s j else order_of s j).
  { intros j. case_decide as Hj; [subst; apply Ho1; by left|].
    apply (Hf1 (DataKey.Order j)). intros x ->%list_elem_of_singleton. congruence. }
  split; [congruence|congruence| |].
  - intros j Hj. destruct (decide (j ∈ ids)) as [Hin|Hni].
    + rewrite (Ho2 j Hin), Hone. case_decide; [|done]. destruct (order_of s j); simpl; [|done].
      by rewrite expire_idemp.
    + apply elem_of_cons in Hj as [->|]; [|done].
      transitivity (order_of s1 i); [|by rewrite Hone, decide_True].
      apply (Hf2 (DataKey.Order i)). intros x Hx. intros [= ->]. done.
  - intros k Hk. rewrite Hf2, Hf1; [done| |]; intros x Hx; apply Hk; [|by right].
    apply list_elem_of_singleton in Hx as ->. by left.
Qed.

Lemma clean_loop_Ok ids c e s c' s' :
  mfold clean_order c ids e s = Ok c' s' ->
  cleaned (timestamp e) ids s s' /\
  (NoDup ids -> 0 <= c -> c + Z.of_nat (length ids) <= int_hi U32 ->
   c' = c + Z.of_nat (length (filter (fun i => is_stale (timestamp e) s i = true) ids))).
Proof.
  revert c s. induction ids as [|i ids IH]; intros c s H.
  - apply (ret_Ok c c' e) in H as [-> ->]. split; [|intros; simpl; lia].
    split; [done|done|by intros ? ?%not_elem_of_nil|done].
  - apply mfold_cons_Ok in H as (c1&s1&[Hcl Hc1]%clean_order_Ok&[Hcl' Hc']%IH).
    split; [by eapply cleaned_cons|]. intros Hcons Hpos Hlen. inversion_clear Hcons as [|? ? Hni Hnd].
    assert (Hsame : forall j, j ∈ ids -> is_stale (timestamp e) s1 j = is_stale (timestamp e) s j).
    { intros j Hj. unfold is_stale. assert (order_of s1 j = order_of s j) as ->; [|done].
      apply (cl_frame _ _ _ _ Hcl (DataKey.Order j)). intros x ->%list_elem_of_singleton [= ->]. done. }
    rewrite (filter_ext_elem _ (fun j => is_stale (timestamp e) s j = true)) in Hc'
      by (intros j Hj; by rewrite Hsame).
    simpl length in Hlen. rewrite filter_cons. destruct (is_stale (timestamp e) s i).
    + rewrite decide_True by done. simpl length.
      assert (c1 = c + 1) as -> by (apply Hc1, in_range_spec; cbn [int_lo]; lia). rewrite Hc'; [lia|done|lia|lia].
    + rewrite decide_False by done. subst c1. rewrite Hc'; [lia|done|lia|lia].
Qed.

Lemma clean_range_Ok i j e s c s' :
  @clean_expired_orders_range_impl W i j e s = Ok c s' ->
  cleaned (timestamp e) (seqZ i (j - i + 1)) s s' /\
  (j - i + 1 <= int_hi U32 ->
   c = Z.of_nat (length (filter (fun x => is_stale (timestamp e) s x = true) (seqZ i (j - i + 1))))).
Proof.
  unfold clean_expired_orders_range_impl. intros (c1&s1&[Hcl Hc]%clean_loop_Ok&H)%bind_Ok.
  apply bind_Ok in H as (?&s2&->%publish_Ok&[-> ->]%ret_Ok). split; [by destruct Hcl|].
  intros Hlen. rewrite (Hc (NoDup_seqZ _ _)); [lia|lia|]. rewrite length_seqZ.
  pose proof (int_lo_hi U32). lia.
Qed.

(** Both cleaning entrypoints. *)
Lemma cleaned_after_nonce a next l now ids s s' :
  cleaned now ids (put_live l (put_pers (DataKey.Nonce a) next s)) s' ->
  inst s' = inst s /\ world s' = world s /\
  (forall i, i ∈ ids -> order_of s' i = expire now <$> order_of s i) /\
  (forall k, (forall i, i ∈ ids -> k <> DataKey.Order i) ->
     sget k (pers s') = sget k (sset (DataKey.Nonce a) next (pers s))).
Proof.
  intros [Hi Hw Ho Hf]. split_and!; try done. intros i Hin. rewrite (Ho i Hin).
  unfold order_of. host_cbn. by store_simp.
Qed.

Lemma clean_Ok a n e s c s' :
  clean_expired_orders a n e s = Ok c s' ->
  exists next, signed e s a n next /\ sget DataKey.Admin (inst s) = Some a /\
    let ids := seqZ 1 (count_of s) in
    inst s' = inst s /\ world s' = world s /\
    (forall i, i ∈ ids -> order_of s' i = expire (timestamp e) <$> order_of s i) /\
    (forall k, (forall i, i ∈ ids -> k <> DataKey.Order i) ->
       sget k (pers s') = sget k (sset (DataKey.Nonce a) next (pers s))) /\
    (count_of s <= int_hi U32 ->
       c = Z.of_nat (length (filter (fun x => is_stale (timestamp e) s x = true) ids))).
Proof.
  unfold clean_expired_orders. intros (next&l&Hs&H)%signed_Ok. exists next.
  apply bind_Ok in H as (?&s1&[Had ->]%dex_require_admin_Ok&H).
  apply bind_Ok in H as (cnt&s1&Hcnt&H). unfold order_count in Hcnt.
  apply bind_Ok in Hcnt as (o&s2&[-> ->]%iget_Ok&[-> ->]%ret_Ok). fold (count_of s) in H. host_cbn.
  fold (count_of s) in H. cbv zeta. split; [done|]. split; [done|].
  destruct (Z.eqb_spec (count_of s) 0) as [Hz|Hnz].
  - apply (ret_Ok 0 c e) in H as [-> ->]. rewrite Hz. split_and!; try done. by intros i ?%not_elem_of_nil.
  - apply clean_range_Ok in H as [Hcl Hc]. replace (count_of s - 1 + 1) with (count_of s) in * by lia.
    apply cleaned_after_nonce in Hcl as (?&?&?&?). split_and!; try done. intros Hlen. rewrite (Hc Hlen).
    do 2 f_equal. apply list_filter_iff. intros y. unfold is_stale, order_of. host_cbn. by store_simp.
Qed.

Lemma clean_sub_Ok a n i j e s c s' :
  clean_expired_orders_range a n i j e s = Ok c s' ->
  exists next, signed e s a n next /\ sget DataKey.Admin (inst s) = Some a /\ 1 <= i <= j /\ j <= count_of s /\
    let ids := seqZ i (j - i + 1) in
    inst s' = inst s /\ world s' = world s /\
    (forall x, x ∈ ids -> order_of s' x = expire (timestamp e) <$> order_of s x) /\
    (forall k, (forall x, x ∈ ids -> k <> DataKey.Order x) ->
       sget k (pers s') = sget k (sset (DataKey.Nonce a) next (pers s))).
Proof.
  unfold clean_expired_orders_range. intros (next&l&Hs&H)%signed_Ok. exists next.
  apply bind_Ok in H as (?&s1&[Had ->]%dex_require_admin_Ok&H).
  apply bind_Ok in H as (cnt&s1&Hcnt&H). unfold order_count in Hcnt.
  apply bind_Ok in Hcnt as (o&s2&[-> ->]%iget_Ok&[-> ->]%ret_Ok). fold (count_of s) in H. host_cbn.
  apply bind_Ok in H as (?&s1&[Hb ->]%fail_if_Ok&H). fold (count_of s) in Hb. guards. cbv zeta.
  apply clean_range_Ok in H as [Hcl _]. apply cleaned_after_nonce in Hcl. split_and!; try done; try lia; apply Hcl.
Qed.
End clean.

(** ** The life of an order *)

(** What call [c] may do to order [i]. *)
Inductive order_step (c : Call) (e : Env) (i : Z) : Order -> Order -> Prop :=
| os_same o : order_step c e i o o
| os_buy a m v n o :
    c = CPurchase a i m v n -> is_live o = true -> a <> od_seller o -> timestamp e < od_expires_at o ->
    0 < v <= od_amount o -> od_price_per_token o <= m ->
    order_step c e i o (fill v o)
| os_cancel n o :
    c = CCancel (od_seller o) i n -> is_live o = true ->
    order_step c e i o (with_status OrderStatus.Cancelled o)
| os_expire o :
    (exists a n, c = CClean a n \/ exists x y, c = CCleanRange a n x y) ->
    is_live o = true -> od_expires_at o <= timestamp e ->
    order_step c e i o (with_status OrderStatus.Expired o).

(** A new order: the one a listing creates. *)
Definition listed (c : Call) (e : Env) (i : Z) (o : Order) : Prop :=
  exists a b v p q x n, c = CList a b v p q x n /\ 0 < v <= int_hi I128 /\ 0 < p /\
    o = mkOrder i a b v p q OrderStatus.Open (timestamp e) (timestamp e + x).

(** What a call adds to the quote balance of [a] in asset [q]. *)
Definition quote_flow {W} (c : Call) (s : cstate DataKey ty Event W) (q : Symbol) (a : Address) : Z :=
  match c with
  | CDeposit a' q' v _ => if decide ((q', a') = (q, a)) then v else 0
  | CWithdraw a' q' v _ => if decide ((q', a') = (q, a)) then - v else 0
  | CPurchase buyer i _ v _ =>
      match order_of s i with
      | Some o =>
          (if decide ((od_quote_asset o, od_seller o) = (q, a)) then v * od_price_per_token o else 0) -
          (if decide ((od_quote_asset o, buyer) = (q, a)) then v * od_price_per_token o else 0)
      | None => 0
      end
  | _ => 0
  end.

Section invariant.
Context {W : Type} `{!World W} `{!BondReader W} `{!BondMarket W}.
Local Abbreviation state := (cstate DataKey ty Event W).
Implicit Types (s : state) (e : Env).

Definition on_bond s (b i : Z) : Prop :=
  match order_of s i with Some o => od_bond_id o = b | None => False end.
Definition by_seller s (a : Address) (i : Z) : Prop :=
  match order_of s i with Some o => od_seller o = a | None => False end.

#[export] Instance on_bond_dec s b i : Decision (on_bond s b i).
Proof. unfold on_bond. destruct (order_of s i); apply _. Defined.
#[export] Instance by_seller_dec s a i : Decision (by_seller s a i).
Proof. unfold by_seller. destruct (order_of s i); apply _. Defined.

Record inv (n : Z) s : Prop := {
  dx_quote : forall q a, 0 <= quote_of s q a <= int_hi I128;
  dx_count : 0 <= count_of s <= n;
  dx_order : forall i o, order_of s i = Some o ->
    1 <= i <= count_of s /\ od_id o = i /\ 0 < od_amount o <= int_hi I128 /\ 0 < od_price_per_token o;
  dx_dense : forall i, 1 <= i <= count_of s -> is_Some (order_of s i);
  dx_bond : forall b, bond_orders_of s b = filter (on_bond s b) (seqZ 1 (count_of s));
  dx_seller : forall a, seller_orders_of s a = filter (by_seller s a) (seqZ 1 (count_of s));
  dx_nonce : forall a, 0 <= nonce_of s a <= n;
}.

(** What a call does to the data, given the orders and balances before it. *)
Record effects (c : Call) (e : Env) s s' : Prop := {
  ef_count : count_of s' = count_of s + (if bool_decide (count_of s' = count_of s) then 0 else 1);
  ef_order : forall i o, order_of s i = Some o ->
    exists o', order_of s' i = Some o' /\ order_step c e i o o';
  ef_new : forall i o, order_of s i = None -> order_of s' i = Some o ->
    i = count_of s + 1 /\ count_of s' = i /\ listed c e i o;
  ef_next : count_of s' <> count_of s -> is_Some (order_of s' (count_of s'));
  ef_quote : forall q a, quote_of s' q a = quote_of s q a + quote_flow c s q a /\
    0 <= quote_of s' q a <= int_hi I128;
  ef_bond : forall b, bond_orders_of s' b = bond_orders_of s b ++
    (if decide (count_of s' <> count_of s /\ on_bond s' b (count_of s')) then [count_of s'] else []);
  ef_seller : forall a, seller_orders_of s' a = seller_orders_of s a ++
    (if decide (count_of s' <> count_of s /\ by_seller s' a (count_of s')) then [count_of s'] else []);
  ef_nonce : exists a n, signed e s a n (nonce_of s' a) /\ n = nonce_of s a /\
    forall a', a' <> a -> nonce_of s' a' = nonce_of s a';
}.

(** An order keeps its terms. *)
Definition same_terms (o o' : Order) : Prop :=
  od_id o' = od_id o /\ od_seller o' = od_seller o /\ od_bond_id o' = od_bond_id o /\
  od_price_per_token o' = od_price_per_token o /\ od_quote_asset o' = od_quote_asset o /\
  od_created_at o' = od_created_at o /\ od_expires_at o' = od_expires_at o.

Lemma order_step_terms c e i o o' : order_step c e i o o' ->
  same_terms o o' /\ (0 < od_amount o -> 0 < od_amount o' <= od_amount o) /\
  (is_live o = false -> o' = o).
Proof.
  destruct 1; unfold same_terms, fill; try (destruct (Z.eqb_spec v (od_amount o)));
    (split; [by split_and!|]); (split; [simpl; lia|congruence]).
Qed.

Lemma inv_effects n c e s s' :
  n + 1 < 2 ^ 64 -> inv n s -> effects c e s s' -> inv (n + 1) s'.
Proof.
  intros Hn [Iq Ic Io Id Ib Is In] [Ec Eo En Ex Eq Eb Es (a&k&(Ha&->&Hnx)&_&Hother)].
  assert (Hc : count_of s' = count_of s \/ count_of s' = count_of s + 1) by (case_bool_decide; lia).
  assert (Hkeep : forall i o, order_of s i = Some o -> exists o', order_of s' i = Some o' /\
            od_bond_id o' = od_bond_id o /\ od_seller o' = od_seller o).
  { intros i o Ho. destruct (Eo i o Ho) as (o'&Ho'&(Ht&_)%order_step_terms). exists o'.
    split_and!; [done|apply Ht..]. }
  assert (Hfil : forall (P Q : Z -> Prop) `{!forall i, Decision (P i), !forall i, Decision (Q i)},
    (forall i o, order_of s i = Some o -> P i <-> Q i) ->
    filter Q (seqZ 1 (count_of s')) = filter P (seqZ 1 (count_of s)) ++
      (if decide (count_of s' <> count_of s /\ Q (count_of s')) then [count_of s'] else [])).
  { intros P Q ?? HPQ.
    assert (Hpre : filter Q (seqZ 1 (count_of s)) = filter P (seqZ 1 (count_of s))).
    { apply filter_ext_elem. intros i Hi%elem_of_seqZ. destruct (Id i) as [o Ho]; [lia|].
      symmetry. by eapply HPQ. }
    destruct Hc as [Hc|Hc].
    - rewrite decide_False by (intros [? _]; lia). by rewrite Hc, app_nil_r.
    - rewrite Hc, seqZ_app, list.filter_app, Hpre by lia. f_equal. simpl.
      replace (Z.succ (count_of s)) with (count_of s + 1) by lia.
      rewrite seqZ_cons, seqZ_nil by lia. replace (1 + count_of s) with (count_of s + 1) by lia.
      rewrite filter_cons, filter_nil. repeat case_decide; try done; exfalso; intuition lia. }
  split.
  - intros q h. apply Eq.
  - lia.
  - intros i o Ho. destruct (order_of s i) as [o0|] eqn:Ho0.
    + destruct (Eo i o0 Ho0) as (o'&Ho'&(Ht&Hamt&_)%order_step_terms). simplify_eq.
      destruct (Io i o0 Ho0) as (?&?&?&?). destruct Ht as (->&_&_&->&_). split_and!; try lia; apply Hamt; lia.
    + destruct (En i o Ho0 Ho) as (->&->&a0&b&v&p&q&x&m&->&?&?&->).
      cbn [od_id od_amount od_price_per_token]. lia.
  - intros i Hi. destruct Hc as [Hc|Hc]; [|destruct (decide (i = count_of s')) as [->|]].
    + destruct (Id i) as [o Ho]; [lia|]. destruct (Hkeep i o Ho) as (o'&?&_). by exists o'.
    + apply Ex. lia.
    + destruct (Id i) as [o Ho]; [lia|]. destruct (Hkeep i o Ho) as (o'&?&_). by exists o'.
  - intros b. rewrite Eb, Ib. symmetry. apply Hfil. intros i o Ho. unfold on_bond.
    destruct (Hkeep i o Ho) as (o'&Ho'&Hb&_). by rewrite Ho, Ho', Hb.
  - intros h. rewrite Es, Is. symmetry. apply Hfil. intros i o Ho. unfold by_seller.
    destruct (Hkeep i o Ho) as (o'&Ho'&_&Hs). by rewrite Ho, Ho', Hs.
  - intros h. pose proof (In a). pose proof (In h). destruct (decide (h = a)) as [->|Hne].
    + rewrite Hnx; [lia|]. apply in_range_spec. cbn [int_lo int_hi]. lia.
    + rewrite Hother by done. lia.
Qed.
End invariant.

Section effects.
Context {W : Type} `{!World W} `{!BondReader W} `{!BondMarket W}.
Local Abbreviation state := (cstate DataKey ty Event W).
Implicit Types (s : state) (e : Env).

(** A call that lists nothing. *)
Lemma effects_no_listing c e s s' a n next :
  signed e s a n next -> inst s' = inst s ->
  (forall k, (forall i, k <> DataKey.Order i) -> (forall q h, k <> DataKey.Balance q h) ->
     sget k (pers s') = sget k (sset (DataKey.Nonce a) next (pers s))) ->
  (forall i, (order_of s i = None /\ order_of s' i = None) \/
     exists o o', order_of s i = Some o /\ order_of s' i = Some o' /\ order_step c e i o o') ->
  (forall q h, quote_of s' q h = quote_of s q h + quote_flow c s q h /\ 0 <= quote_of s' q h <= int_hi I128) ->
  effects c e s s'.
Proof.
  intros Hsig Hi Hk Ho Hq.
  assert (Hc : count_of s' = count_of s) by (unfold count_of; by rewrite Hi).
  assert (Hnd : forall P : Prop, ~ (count_of s' <> count_of s /\ P)) by (intros P [? _]; done).
  split.
  - rewrite Hc, bool_decide_true by done. lia.
  - intros i o Hio. destruct (Ho i) as [[? _]|(o1&o'&?&?&?)]; simplify_eq. by exists o'.
  - intros i o Hio Hio'. destruct (Ho i) as [[_ ?]|(o1&o'&?&?&?)]; congruence.
  - done.
  - done.
  - intros b. rewrite decide_False by apply Hnd. unfold bond_orders_of. rewrite Hk by done.
    by rewrite sget_sset_ne, app_nil_r.
  - intros h. rewrite decide_False by apply Hnd. unfold seller_orders_of. rewrite Hk by done.
    by rewrite sget_sset_ne, app_nil_r.
  - exists a, n. unfold nonce_of. rewrite !Hk, sget_sset_eq by done. split_and!; [done|apply Hsig|].
    intros a' Hne. rewrite Hk by done. by rewrite sget_sset_ne by congruence.
Qed.

(** A call that leaves the orders alone. *)
Lemma same_orders c e s s' : (forall i, order_of s' i = order_of s i) ->
  forall i, (order_of s i = None /\ order_of s' i = None) \/
     exists o o', order_of s i = Some o /\ order_of s' i = Some o' /\ order_step c e i o o'.
Proof.
  intros Heq i. destruct (order_of s i) as [o|] eqn:Ho; [|by left; rewrite Heq].
  right. exists o, o. rewrite Heq. split_and!; [done|done|by constructor].
Qed.

(** A call that updates one order. *)
Lemma one_order c e s s' i o o' :
  order_of s i = Some o -> order_step c e i o o' -> order_of s' i = Some o' ->
  (forall j, j <> i -> order_of s' j = order_of s j) ->
  forall j, (order_of s j = None /\ order_of s' j = None) \/
     exists o o', order_of s j = Some o /\ order_of s' j = Some o' /\ order_step c e j o o'.
Proof.
  intros Hi Hstep Hi' Hoth j. destruct (decide (j = i)) as [->|Hne]; [right; by exists o, o'|].
  rewrite (Hoth j Hne). destruct (order_of s j) as [x|] eqn:Hx; [|by left].
  right. exists x, x. split_and!; [done|done|by constructor].
Qed.

Ltac dex_key := intros; store_simp; try done; rewrite ?sget_sset_ne by congruence; done.

Lemma quote_same s s' : (forall q h, sget (DataKey.Balance q h) (pers s') = sget (DataKey.Balance q h) (pers s)) ->
  forall q h, quote_of s' q h = quote_of s q h.
Proof. intros Hk q h. unfold quote_of. by rewrite Hk. Qed.

Lemma effects_list n a b v p q x k e s i s' :
  n + 1 < 2 ^ 64 -> inv n s -> list_bond_tokens a b v p q x k e s = Ok i s' ->
  effects (CList a b v p q x k) e s s'.
Proof.
  intros Hn Hinv (next&iss&Hsig&Hv&Hp&_&Hid&_&_&Hvm&_&Hi&Hps)%list_Ok.
  pose proof (dx_count n s Hinv) as Hc0.
  assert (i = count_of s + 1) as -> by (apply Hid, in_range_spec; cbn [int_lo int_hi]; lia).
  assert (Hc : count_of s' = count_of s + 1) by (unfold count_of at 1; rewrite Hi; by store_simp).
  set (o := mkOrder (count_of s + 1) a b v p q OrderStatus.Open (timestamp e) (timestamp e + x)) in *.
  assert (Ho : forall j, order_of s' j = if decide (j = count_of s + 1) then Some o else order_of s j).
  { intros j. unfold order_of. rewrite Hps, !(sget_sset_ne _ (DataKey.BondOrders _)), !(sget_sset_ne _ (DataKey.SellerOrders _)) by done.
    case_decide as Hj; [subst; by rewrite sget_sset_eq|].
    by rewrite !sget_sset_ne by congruence. }
  assert (Hnew : order_of s (count_of s + 1) = None).
  { destruct (order_of s (count_of s + 1)) as [o'|] eqn:Ho'; [|done].
    destruct (dx_order n s Hinv _ _ Ho') as [? _]. lia. }
  split.
  - rewrite Hc, bool_decide_false by lia. done.
  - intros j y Hj. exists y. rewrite Ho, decide_False by (intros ->; congruence). split; [done|constructor].
  - intros j y Hj. rewrite Ho. case_decide; [|congruence]. intros [= <-]. subst j.
    split_and!; [done|done|]. by exists a, b, v, p, q, x, k.
  - intros _. rewrite Ho, Hc, decide_True by done. by eexists.
  - intros y h. assert (Hq : quote_of s' y h = quote_of s y h) by (unfold quote_of; rewrite Hps; dex_key).
    rewrite Hq. cbn [quote_flow]. pose proof (dx_quote n s Hinv y h). lia.
  - intros y. assert (Hob : on_bond s' y (count_of s') <-> b = y)
      by (unfold on_bond; by rewrite Hc, Ho, decide_True).
    unfold bond_orders_of at 1. rewrite Hps. destruct (decide (b = y)) as [->|Hne].
    + rewrite sget_sset_eq. rewrite decide_True by (split; [lia|tauto]). by rewrite Hc.
    + rewrite decide_False by (intros [_ ?]; tauto). rewrite !sget_sset_ne by congruence. by rewrite app_nil_r.
  - intros y. assert (Hob : by_seller s' y (count_of s') <-> a = y)
      by (unfold by_seller; by rewrite Hc, Ho, decide_True).
    unfold seller_orders_of at 1. rewrite Hps, sget_sset_ne by congruence. destruct (decide (a = y)) as [->|Hne].
    + rewrite sget_sset_eq. rewrite decide_True by (split; [lia|tauto]). by rewrite Hc.
    + rewrite decide_False by (intros [_ ?]; tauto). rewrite !sget_sset_ne by congruence. by rewrite app_nil_r.
  - exists a, k. unfold nonce_of. rewrite Hps. split_and!; [by store_simp|apply Hsig|dex_key].
Qed.

Lemma effects_cancel n a i k e s u s' :
  inv n s -> cancel_listing a i k e s = Ok u s' -> effects (CCancel a i k) e s s'.
Proof.
  intros Hinv (next&o&Hsig&Ho&<-&Hl&Hi&_&Hp)%dex_cancel_Ok.
  refine (effects_no_listing _ _ _ _ _ _ _ Hsig Hi _ _ _).
  - intros j Hj _. rewrite Hp. by rewrite sget_sset_ne.
  - apply (one_order _ _ _ _ i o (with_status OrderStatus.Cancelled o)); [done|by eapply os_cancel| |].
    + unfold order_of. rewrite Hp. by store_simp.
    + unfold order_of. rewrite Hp. dex_key.
  - intros q h. rewrite (quote_same s s') by (rewrite Hp; dex_key). cbn [quote_flow]. pose proof (dx_quote n s Hinv q h). lia.
Qed.

Lemma effects_deposit n a q v k e s u s' :
  inv n s -> deposit_quote a q v k e s = Ok u s' -> effects (CDeposit a q v k) e s s'.
Proof.
  intros Hinv (next&Hsig&Hv&[_ Hr]%in_range_spec&Hi&_&Hp)%deposit_Ok.
  refine (effects_no_listing _ _ _ _ _ _ _ Hsig Hi _ _ _).
  - intros j _ Hj. rewrite Hp. by rewrite sget_sset_ne.
  - apply same_orders. intros i. unfold order_of. rewrite Hp. dex_key.
  - intros y h. pose proof (dx_quote n s Hinv y h). cbn [quote_flow]. unfold quote_of at 1 3 4. rewrite Hp.
    destruct (decide ((q, a) = (y, h))) as [[= -> ->]|Hne].
    + rewrite sget_sset_eq. simpl default. lia.
    + rewrite !sget_sset_ne by congruence. fold (quote_of s y h). lia.
Qed.

Lemma effects_withdraw n a q v k e s u s' :
  inv n s -> withdraw_quote a q v k e s = Ok u s' -> effects (CWithdraw a q v k) e s s'.
Proof.
  intros Hinv (next&rest&Hsig&Hv&Hr&Hi&_&Hp)%withdraw_Ok.
  assert (rest = quote_of s q a - v) as ->.
  { apply Hr, in_range_spec. pose proof (dx_quote n s Hinv q a). cbn [int_lo int_hi] in *. lia. }
  refine (effects_no_listing _ _ _ _ _ _ _ Hsig Hi _ _ _).
  - intros j _ Hj. rewrite Hp. by rewrite sget_sset_ne.
  - apply same_orders. intros i. unfold order_of. rewrite Hp. dex_key.
  - intros y h. pose proof (dx_quote n s Hinv y h). cbn [quote_flow]. unfold quote_of at 1 3 4. rewrite Hp.
    destruct (decide ((q, a) = (y, h))) as [[= -> ->]|Hne].
    + rewrite sget_sset_eq. simpl default. lia.
    + rewrite !sget_sset_ne by congruence. fold (quote_of s y h). lia.
Qed.

Lemma effects_purchase n a i m v k e s u s' :
  inv n s -> execute_purchase a i m v k e s = Ok u s' -> effects (CPurchase a i m v k) e s s'.
Proof.
  intros Hinv (next&o&o'&iss&rest&Hsig&Ho&(Hl&Hne&Hex&Hv&Hm)&Hpr&Hle&[_ Hsel]%in_range_spec&Hrest&Ho'&_&_&_&_&_&Hi&Hp)%purchase_Ok.
  pose proof (dx_quote n s Hinv (od_quote_asset o) a) as Hqa.
  destruct (dx_order n s Hinv i o Ho) as (_&_&Hamt&Hpos).
  assert (rest = quote_of s (od_quote_asset o) a - v * od_price_per_token o) as ->.
  { apply Hrest, in_range_spec. cbn [int_lo int_hi] in *. nia. }
  assert (o' = fill v o) as ->.
  { apply Ho', in_range_spec. cbn [int_lo int_hi] in *. lia. }
  refine (effects_no_listing _ _ _ _ _ _ _ Hsig Hi _ _ _).
  - intros j Hj Hj'. rewrite Hp. by rewrite 3!sget_sset_ne.
  - apply (one_order _ _ _ _ i o (fill v o)); [done|by eapply os_buy| |].
    + unfold order_of. rewrite Hp. by store_simp.
    + unfold order_of. rewrite Hp. dex_key.
  - intros y h. pose proof (dx_quote n s Hinv y h). cbn [quote_flow]. rewrite Ho.
    unfold quote_of at 1 3 4. rewrite Hp. rewrite sget_sset_ne by done.
    destruct (decide ((od_quote_asset o, od_seller o) = (y, h))) as [Hs|Hs].
    + injection Hs as <- <-. rewrite decide_False by congruence. rewrite sget_sset_eq. simpl default. nia.
    + rewrite sget_sset_ne by congruence. destruct (decide ((od_quote_asset o, a) = (y, h))) as [Hb|Hb].
      * injection Hb as <- <-. rewrite sget_sset_eq. simpl default. nia.
      * rewrite !sget_sset_ne by congruence. fold (quote_of s y h). lia.
Qed.

Lemma effects_clean c n a k next (ids : list Z) e s s' :
  inv n s -> signed e s a k next ->
  (exists a n, c = CClean a n \/ exists x y, c = CCleanRange a n x y) ->
  inst s' = inst s -> (forall i, i ∈ ids -> order_of s' i = expire (timestamp e) <$> order_of s i) ->
  (forall j, (forall i, i ∈ ids -> j <> DataKey.Order i) ->
     sget j (pers s') = sget j (sset (DataKey.Nonce a) next (pers s))) ->
  effects c e s s'.
Proof.
  intros Hinv Hsig Hc Hi Ho Hf. refine (effects_no_listing _ _ _ _ _ _ _ Hsig Hi _ _ _).
  - intros j Hj _. by apply Hf.
  - intros i. destruct (decide (i ∈ ids)) as [Hin|Hni].
    + rewrite (Ho i Hin). destruct (order_of s i) as [o|]; [|by left]. right. simpl.
      exists o, (expire (timestamp e) o). split_and!; [done|done|]. unfold expire, stale.
      destruct (is_live o) eqn:Hl; [|constructor].
      destruct (Z.leb_spec (od_expires_at o) (timestamp e)); [by apply os_expire|constructor].
    + assert (Heq : order_of s' i = order_of s i).
      { unfold order_of. rewrite Hf by (intros j Hj [= ->]; done). by rewrite sget_sset_ne. }
      rewrite Heq. destruct (order_of s i) as [o|]; [|by left]. right. exists o, o. split_and!; [done|done|constructor].
  - intros q h. assert (Hq : quote_of s' q h = quote_of s q h).
    { unfold quote_of. rewrite Hf by done. by rewrite sget_sset_ne. }
    rewrite Hq. pose proof (dx_quote n s Hinv q h).
    destruct Hc as (a0&n0&[->|(x&y&->)]); cbn [quote_flow]; lia.
Qed.

Lemma dex_exec_effects n c e s s' :
  n + 1 < 2 ^ 64 -> inv n s -> exec c e s = Ok tt s' -> effects c e s s'.
Proof.
  intros Hn Hinv H. destruct c; simpl in H; try (apply bind_Ok in H as (?&s1&H&[_ ->]%ret_Ok)).
  - by eapply effects_list.
  - by eapply effects_cancel.
  - by eapply effects_purchase.
  - by eapply effects_deposit.
  - by eapply effects_withdraw.
  - apply clean_Ok in H as (next&Hsig&_&Hi&_&Ho&Hf&_). eapply effects_clean; eauto.
  - apply clean_sub_Ok in H as (next&Hsig&_&_&_&Hi&_&Ho&Hf). eapply effects_clean; eauto 6.
Qed.

Lemma dex_inv_init s : deployed s -> inv 0 s.
Proof.
  intros (e&admin&iss&eng&w&H). unfold constructor in H. inv_ok H.
  split; unfold quote_of, count_of, order_of, bond_orders_of, seller_orders_of, nonce_of; host_cbn; intros;
    store_simp; try done; simpl in *; pose proof (int_lo_hi I128); lia.
Qed.

Lemma dex_inv_same n s (t : state) : inst t = inst s -> pers t = pers s -> inv n s -> inv n t.
Proof.
  intros Hi Hp [? ? ? ? Hb Hs ?].
  split; unfold quote_of, count_of, order_of, bond_orders_of, seller_orders_of, nonce_of in *;
    rewrite ?Hi, ?Hp; auto; intros a; [rewrite Hb|rewrite Hs]; apply filter_ext_elem; intros i _;
    unfold on_bond, by_seller, order_of; by rewrite Hp.
Qed.

Lemma dex_inv_mono n s : inv n s -> inv (n + 1) s.
Proof. intros [? ? ? ? ? ? Hn]. split; auto; [lia|]. intros a. specialize (Hn a). lia. Qed.

Lemma dex_reachable_inv n s : reach deployed exec n s -> n < 2 ^ 64 -> inv n s.
Proof.
  revert n s. apply reach_ind_bounded.
  - apply dex_inv_init.
  - intros n s s' e c _ Hn Hinv Hex. by eapply inv_effects, dex_exec_effects.
  - apply dex_inv_mono.
  - intros n s w Hinv _. by apply dex_inv_same with s.
Qed.
End effects.

(** The quote held in asset [q] by all accounts. *)
Definition quote_weight (q : Symbol) (k : DataKey) : ty k -> Z :=
  match k with
  | DataKey.Balance q' _ => fun v => if decide (q' = q) then v else 0
  | _ => fun _ => 0
  end.

Definition total_quote {W} (s : cstate DataKey ty Event W) (q : Symbol) : Z :=
  ssum (quote_weight q) (pers s).

(** What a call adds to that total. *)
Definition deposited (c : Call) (q : Symbol) : Z :=
  match c with
  | CDeposit _ q' v _ => if decide (q' = q) then v else 0
  | CWithdraw _ q' v _ => if decide (q' = q) then - v else 0
  | _ => 0
  end.

Definition balance_key (k : DataKey) : bool :=
  match k with DataKey.Balance _ _ => true | _ => false end.

Lemma total_frame q k v (m : store DataKey ty) :
  balance_key k = false -> ssum (quote_weight q) (sset k v m) = ssum (quote_weight q) m.
Proof. intros Hk. apply ssum_sset_zero. by destruct k. Qed.

Lemma total_balance q q' a v (m : store DataKey ty) :
  ssum (quote_weight q) (sset (DataKey.Balance q' a) v m) =
  ssum (quote_weight q) m + (if decide (q' = q) then v - default 0 (sget (DataKey.Balance q' a) m) else 0).
Proof. rewrite ssum_sset. destruct (sget (DataKey.Balance q' a) m); simpl; case_decide; simpl; lia. Qed.

Lemma total_clean {W} (q : Symbol) (a : Address) next (ids : list Z) (s s' : cstate DataKey ty Event W) :
  (forall k, (forall i, i ∈ ids -> k <> DataKey.Order i) ->
     sget k (pers s') = sget k (sset (DataKey.Nonce a) next (pers s))) ->
  ssum (quote_weight q) (pers s') = ssum (quote_weight q) (pers s).
Proof.
  intros Hf. rewrite <- (total_frame q (DataKey.Nonce a) next (pers s)) by done. apply ssum_ext. intros k.
  destruct k; try (rewrite Hf by done; done). by destruct (sget _ _), (sget _ _).
Qed.

Section market.
Context {W : Type} `{!World W} `{!BondReader W} `{!BondMarket W}.
Local Abbreviation state := (cstate DataKey ty Event W).
Implicit Types (s : state) (e : Env).

(** ** Properties of the market *)

(** C18: Delivery versus payment: a purchase that succeeds moves exactly [amount] bond tokens
    from the seller to the buyer on BondIssuer and exactly [amount * price] of quote from
    the buyer to the seller, changes no other quote balance, and fills the order by that
    amount; the order was live, not expired, at a price the buyer accepted, and both the
    buyer and the seller have signed. *)
Theorem purchase_settles n s e a i m v k s' :
  reach deployed exec n s -> n + 1 < 2 ^ 64 -> execute_purchase a i m v k e s = Ok tt s' ->
  exists o iss, order_of s i = Some o /\ order_of s' i = Some (fill v o) /\
    is_live o = true /\ timestamp e < od_expires_at o /\ 0 < v <= od_amount o /\ od_price_per_token o <= m /\
    a <> od_seller o /\ is_authorized e a = true /\ is_authorized (sub_env iss e) (od_seller o) = true /\
    sget DataKey.BondIssuerAddress (inst s) = Some iss /\
    v * od_price_per_token o <= quote_of s (od_quote_asset o) a /\
    (forall q h, quote_of s' q h = quote_of s q h
      + (if decide ((od_quote_asset o, od_seller o) = (q, h)) then v * od_price_per_token o else 0)
      - (if decide ((od_quote_asset o, a) = (q, h)) then v * od_price_per_token o else 0)) /\
    v <= bond_balance (world s) iss (od_bond_id o) (od_seller o) /\
    (forall b h, bond_balance (world s') iss b h = bond_balance (world s) iss b h
      + (if decide ((b, h) = (od_bond_id o, a)) then v else 0)
      - (if decide ((b, h) = (od_bond_id o, od_seller o)) then v else 0)).
Proof.
  intros Hr Hn H. apply dex_reachable_inv in Hr as Hinv; [|lia].
  pose proof (effects_purchase n a i m v k e s tt s' Hinv H) as [_ _ _ _ Hq _ _ _].
  destruct (purchase_Ok _ _ _ _ _ _ _ _ _ H) as
    (next&o&o'&iss&rest&(Ha&_)&Ho&(Hl&Hne&Hex&Hv&Hm)&_&Hle&_&_&Ho'&Hiss&_&Hau&Hb&Hbal&_&Hp).
  destruct (dx_order n s Hinv i o Ho) as (_&_&Hamt&_).
  exists o, iss. split_and!; try done; try lia.
  - unfold order_of. rewrite Hp. rewrite sget_sset_eq. f_equal. apply Ho', in_range_spec.
    cbn [int_lo int_hi] in *. lia.
  - intros q h. rewrite (proj1 (Hq q h)). cbn [quote_flow]. rewrite Ho. lia.
Qed.

(** C19: Quote is conserved: in every reachable state all quote balances are non-negative, and
    a transaction changes the total held in an asset only by the amount deposited or
    withdrawn in it; purchases, listings, cancellations and clean-ups change no total. *)
Theorem quote_conserved n s e c s' q a :
  reach deployed exec n s -> n + 1 < 2 ^ 64 -> exec c e s = Ok tt s' ->
  total_quote s' q = total_quote s q + deposited c q /\ 0 <= quote_of s' q a.
Proof.
  intros Hr Hn H. apply dex_reachable_inv in Hr as Hinv; [|lia].
  pose proof (dex_exec_effects n c e s s' Hn Hinv H) as Heff. split; [|apply (ef_quote _ _ _ _ Heff q a)].
  unfold total_quote. destruct c; simpl in H; try (apply bind_Ok in H as (?&s1&H&[_ ->]%ret_Ok)); cbn [deposited].
  - apply list_Ok in H as (next&iss&_&_&_&_&_&_&_&_&_&_&->). rewrite !total_frame by done. lia.
  - apply dex_cancel_Ok in H as (next&o&_&_&_&_&_&_&->). rewrite !total_frame by done. lia.
  - apply purchase_Ok in H as (next&o&o'&iss&rest&_&Ho&(_&Hne&_&?&_)&_&Hle&_&Hrest&_&_&_&_&_&_&_&->).
    pose proof (dx_quote n s Hinv (od_quote_asset o) buyer) as Hqb.
    rewrite total_frame, !total_balance, total_frame by done. rewrite !sget_sset_ne by congruence.
    fold (quote_of s (od_quote_asset o) (od_seller o)) (quote_of s (od_quote_asset o) buyer).
    destruct (dx_order n s Hinv order_id o Ho) as (_&_&_&?).
    case_decide; [|lia]. rewrite Hrest; [lia|]. apply in_range_spec. cbn [int_lo int_hi] in *. nia.
  - apply deposit_Ok in H as (next&_&_&_&_&_&->). rewrite total_balance, total_frame by done.
    rewrite sget_sset_ne by done. fold (quote_of s quote_asset caller). case_decide; lia.
  - apply withdraw_Ok in H as (next&rest&_&?&Hrest&_&_&->). rewrite total_balance, total_frame by done.
    rewrite sget_sset_ne by done. fold (quote_of s quote_asset caller).
    pose proof (dx_quote n s Hinv quote_asset caller).
    case_decide; [|lia]. rewrite Hrest; [lia|]. apply in_range_spec. cbn [int_lo int_hi] in *. lia.
  - apply clean_Ok in H as (next&_&_&_&_&_&Hf&_). rewrite (total_clean _ _ _ _ _ _ Hf). lia.
  - apply clean_sub_Ok in H as (next&_&_&_&_&_&_&_&Hf). rewrite (total_clean _ _ _ _ _ _ Hf). lia.
Qed.

(** The life of an order: a transaction leaves an order alone, or fills it for a buyer
    who called, or cancels it for the seller who called, or expires it in the admin's
    clean-up; only live orders change; a new order appears only by a listing of its seller, under the next id. *)
Theorem order_lifecycle n s e c s' i :
  reach deployed exec n s -> n + 1 < 2 ^ 64 -> exec c e s = Ok tt s' ->
  (forall o, order_of s i = Some o -> exists o', order_of s' i = Some o' /\ order_step c e i o o') /\
  (forall o, order_of s i = None -> order_of s' i = Some o -> i = count_of s + 1 /\ listed c e i o).
Proof.
  intros Hr Hn H. apply dex_reachable_inv in Hr as Hinv; [|lia].
  pose proof (dex_exec_effects n c e s s' Hn Hinv H) as [_ Ho Hnew _ _ _ _ _]. split; [by apply Ho|].
  intros o H1 H2. destruct (Hnew i o H1 H2) as (?&_&?). done.
Qed.

(** Over any execution an order keeps its id, seller, bond, price, asset and dates, its
    amount never grows, and once filled, cancelled or expired it never changes again. *)
Theorem order_history n s m s' i o :
  reach deployed exec n s -> reach (eq s) exec m s' -> n + m < 2 ^ 64 -> order_of s i = Some o ->
  exists o', order_of s' i = Some o' /\ same_terms o o' /\ 0 < od_amount o' <= od_amount o /\
    (is_live o = false -> o' = o).
Proof.
  intros Hr Hs. induction Hs as [t <-|m t e c Ht IH|m t w Ht IH _]; intros Hn Ho.
  - exists o. apply dex_reachable_inv in Hr as Hinv; [|lia].
    destruct (dx_order n s Hinv i o Ho) as (_&_&?&_). split_and!; try done; lia.
  - destruct IH as (o1&Ho1&Ht1&Ha1&Hl1); [lia|done|].
    destruct (exec c e t) as [[] t'| |] eqn:Hex; simpl; [|by exists o1..].
    assert (Hrt : reach deployed exec (n + m) t) by (by eapply reach_trans).
    apply dex_reachable_inv in Hrt as Hinv; [|lia].
    pose proof (dex_exec_effects (n + m) c e t t' ltac:(lia) Hinv Hex) as [_ Hord _ _ _ _ _ _].
    destruct (Hord i o1 Ho1) as (o2&Ho2&(Ht2&Ha2&Hl2)%order_step_terms). exists o2. split_and!; try done; try lia.
    + unfold same_terms in *. intuition congruence.
    + intros Hl. rewrite Hl2; [by apply Hl1|]. by rewrite (Hl1 Hl).
  - apply IH; [lia|done].
Qed.
End market.

(** The first of the router's own guards that a purchase fails. *)
Definition purchase_error {W} (s : cstate DataKey ty Event W) (now : Z) (buyer : Address)
    (order_id max_price amount nonce : Z) : option DEXError.DEXError :=
  if negb (nonce =? nonce_of s buyer) then Some DEXError.InvalidNonce
  else match order_of s order_id with
       | None => Some DEXError.OrderNotFound
       | Some o =>
           if negb (is_live o) then Some DEXError.OrderAlreadyFilled
           else if bool_decide (buyer = od_seller o) then Some DEXError.SelfBuyNotAllowed
           else if od_expires_at o <=? now then Some DEXError.OrderExpired
           else if amount <=? 0 then Some DEXError.ZeroAmount
           else if od_amount o <? amount then Some DEXError.InsufficientBalance
           else if max_price <? od_price_per_token o then Some DEXError.InsufficientBalance
           else None
       end.

Section outcomes.
Context {W : Type} `{!World W} `{!BondReader W} `{!BondMarket W}.
Local Abbreviation state := (cstate DataKey ty Event W).
Implicit Types (s : state) (e : Env).

(** *** Helpers that cannot fail *)

Lemma bump_if_has_total k e s : exists l, @bump_if_has W k e s = Ok tt (put_live l s).
Proof. apply only_live_bump. Qed.

Lemma store_entry_total k v e s : exists l, @store_entry W k v e s = Ok tt (put_live l (put_pers k v s)).
Proof.
  unfold store_entry, bump_persistent. run.
  match goal with |- exists l, pextend_ttl _ ?t ?x _ ?s0 = _ =>
    destruct (only_live_pextend (E := DEXError.DEXError) k t x e s0) as [l Hl] end.
  { host_cbn. rewrite sget_sset_eq. eauto. }
  rewrite Hl. by eexists.
Qed.

Lemma get_nonce_total a e s : exists l, @get_nonce W a e s = Ok (nonce_of s a) (put_live l s).
Proof.
  unfold get_nonce. run. destruct (bump_if_has_total (DataKey.Nonce a) e s) as [l Hl].
  rewrite (bind_run _ _ _ _ _ _ Hl). by exists l.
Qed.

Lemma dex_consume_nonce_total a e s :
  in_range U64 (nonce_of s a + 1) = true ->
  exists l, consume_nonce a (nonce_of s a) e s = Ok tt (put_live l (put_pers (DataKey.Nonce a) (nonce_of s a + 1) s)).
Proof.
  intros Hr. unfold consume_nonce, set_nonce. destruct (get_nonce_total a e s) as [l Hl].
  rewrite (bind_run _ _ _ _ _ _ Hl), Z.eqb_refl. simpl negb. run.
  rewrite (bind_run _ _ _ _ _ _ (arith_run _ _ _ _ Hr)).
  match goal with |- context [store_entry ?k ?v e ?t] => destruct (store_entry_total k v e t) as [l' ->] end.
  by exists l'.
Qed.

Lemma dex_consume_nonce_fails a n e s :
  n <> nonce_of s a -> exists s', @consume_nonce W a n e s = Err DEXError.InvalidNonce s'.
Proof.
  intros Hne. unfold consume_nonce. destruct (get_nonce_total a e s) as [l Hl].
  rewrite (bind_run _ _ _ _ _ _ Hl). rewrite (proj2 (Z.eqb_neq _ _) Hne). by eexists.
Qed.

(** Purchases are refused for the documented reason: in a reachable state a signed
    purchase that fails one of the router's own guards returns the error of the first one
    it fails, in the order nonce, existence, liveness, self-buy, expiry, zero amount,
    amount, price, and the refusal leaves the state as it was. *)
Theorem purchase_refused n s e a i m v k x :
  reach deployed exec n s -> n + 1 < 2 ^ 64 -> is_authorized e a = true ->
  purchase_error s (timestamp e) a i m v k = Some x ->
  exists s', execute_purchase a i m v k e s = Err x s' /\ commit (execute_purchase a i m v k e s) s = s.
Proof.
  intros Hr Hn Ha Herr. apply dex_reachable_inv in Hr as Hinv; [|lia].
  enough (exists s', execute_purchase a i m v k e s = Err x s') as [s' Hs'] by (exists s'; by rewrite Hs').
  unfold purchase_error in Herr. unfold execute_purchase. run.
  destruct (Z.eqb_spec k (nonce_of s a)) as [->|Hne]; simpl in Herr.
  2: { injection Herr as <-. destruct (dex_consume_nonce_fails a k e s Hne) as [s' Hs'].
       rewrite (bind_err _ _ _ _ _ _ Hs'). by eexists. }
  destruct (dex_consume_nonce_total a e s) as [l Hl].
  { pose proof (dx_nonce n s Hinv a). apply in_range_spec. cbn [int_lo int_hi]. lia. }
  rewrite (bind_run _ _ _ _ _ _ Hl). run. host_cbn. rewrite sget_sset_ne by done. fold (order_of s i).
  destruct (order_of s i) as [o|] eqn:Ho; [|injection Herr as <-; run; by eexists]. run.
  unfold bump_persistent.
  match goal with |- context [bind (pextend_ttl ?k ?t ?x) _ e ?s0] =>
    destruct (only_live_pextend (E := DEXError.DEXError) k t x e s0) as [l2 Hl2] end.
  { host_cbn. rewrite sget_sset_ne by done. fold (order_of s i). rewrite Ho. eauto. }
  rewrite (bind_run _ _ _ _ _ _ Hl2). unfold check_purchase, is_order_expired.
  destruct (is_live o); simpl negb in *; [|injection Herr as <-; run; by eexists]. run.
  case_bool_decide; [injection Herr as <-; run; by eexists|]. run.
  destruct (od_expires_at o <=? timestamp e); [injection Herr as <-; run; by eexists|]. run.
  destruct (v <=? 0); [injection Herr as <-; run; by eexists|]. run.
  destruct (od_amount o <? v); [injection Herr as <-; run; by eexists|]. run.
  destruct (m <? od_price_per_token o); [injection Herr as <-; run; by eexists|done].
Qed.

(** *** Clean-ups terminate and are exact *)

Lemma clean_loop_total ids c e s :
  0 <= c -> c + Z.of_nat (length ids) <= int_hi U32 ->
  exists c' s', @mfold _ _ _ ty DEXError.DEXError Event W _ _ clean_order c ids e s = Ok c' s'.
Proof.
  revert c s. induction ids as [|i ids IH]; intros c s Hc Hlen; [by eexists _, _|]. simpl length in Hlen.
  assert (Hone : exists c1 s1, clean_order c i e s = Ok c1 s1 /\ (c1 = c \/ c1 = c + 1)).
  { unfold clean_order. run. destruct (sget (DataKey.Order i) (pers s)) as [o|]; [|by eexists _, _; auto].
    unfold is_order_expired. run. case_match; [|by eexists _, _; auto].
    match goal with |- context [store_entry ?k ?v] => destruct (store_entry_total k v e s) as [l Hl] end.
    rewrite (bind_run _ _ _ _ _ _ Hl). eexists _, _. split; [|by right].
    apply arith_run, in_range_spec. cbn [int_lo]. lia. }
  destruct Hone as (c1&s1&H1&Hc1). simpl mfold. rewrite (bind_run _ _ _ _ _ _ H1).
  apply IH; lia.
Qed.

(** C33: A clean-up is total and exact: when fewer than 2^32 orders exist, the admin's signed
    call succeeds, expires exactly the live orders whose time is up, leaves every other order as
    it was, and returns their number. *)
Theorem clean_up_exact n s e a :
  reach deployed exec n s -> n + 1 < 2 ^ 64 -> count_of s <= int_hi U32 ->
  is_authorized e a = true -> sget DataKey.Admin (inst s) = Some a ->
  exists s', clean_expired_orders a (nonce_of s a) e s =
      Ok (Z.of_nat (length (filter (fun i => is_stale (timestamp e) s i = true) (seqZ 1 (count_of s))))) s' /\
    (forall i, order_of s' i = expire (timestamp e) <$> order_of s i) /\
    (forall i o, order_of s' i = Some o -> stale (timestamp e) o = false).
Proof.
  intros Hr Hn Hcount Ha Hadm. apply dex_reachable_inv in Hr as Hinv; [|lia].
  pose proof (dx_count n s Hinv) as Hc.
  assert (Hok : exists c s', clean_expired_orders a (nonce_of s a) e s = Ok c s').
  { unfold clean_expired_orders, require_admin, order_count. run.
    destruct (dex_consume_nonce_total a e s) as [l Hl].
    { pose proof (dx_nonce n s Hinv a). apply in_range_spec. cbn [int_lo int_hi]. lia. }
    rewrite (bind_run _ _ _ _ _ _ Hl). run. host_cbn. rewrite bool_decide_false by auto. run.
    host_cbn. fold (count_of s). destruct (Z.eqb_spec (count_of s) 0); [by eexists _, _|].
    unfold clean_expired_orders_range_impl.
    match goal with |- context [mfold clean_order 0 ?ids] =>
      edestruct (clean_loop_total ids 0) as (c&s1&Hs1);
        [done|rewrite length_seqZ; cbn [int_hi] in *; lia|rewrite (bind_run _ _ _ _ _ _ Hs1)] end.
    run. by eexists _, _. }
  destruct Hok as (c&s'&H). pose proof H as Hspec.
  apply clean_Ok in Hspec as (next&_&_&Hi&_&Ho&Hf&Hcnt). rewrite (Hcnt Hcount) in H. exists s'.
  assert (Hall : forall i, order_of s' i = expire (timestamp e) <$> order_of s i).
  { intros i. destruct (decide (i ∈ seqZ 1 (count_of s))) as [Hin|Hni]; [by apply Ho|].
    assert (Hnone : order_of s i = None).
    { destruct (order_of s i) as [o|] eqn:Hoi; [|done]. destruct (dx_order n s Hinv i o Hoi) as [? _].
      exfalso. apply Hni, elem_of_seqZ. lia. }
    rewrite Hnone. unfold order_of. rewrite Hf by (intros j Hj [= ->]; done). by rewrite sget_sset_ne. }
  split_and!; [done|done|]. intros i o. rewrite Hall. destruct (order_of s i) as [o0|]; [|done].
  intros [= <-]. unfold expire. destruct (stale (timestamp e) o0) eqn:Hst; [done|done].
Qed.
End outcomes.

(** ** Best execution *)

(** Prices as costs: the lower the better, on both sides. *)
Definition cost_price (side : Side.Side) (o : Order) : Z :=
  match side with Side.Buy => od_price_per_token o | Side.Sell => - od_price_per_token o end.

Definition sorted_by (side : Side.Side) : list Order -> Prop :=
  StronglySorted (fun x y => cost_price side x <= cost_price side y).

(** *** Insertion sorts the book *)

Lemma precedes_price side o c :
  if precedes side o c then cost_price side o <= cost_price side c else cost_price side c <= cost_price side o.
Proof.
  unfold precedes, cost_price. destruct side.
  - destruct (Z.ltb_spec (od_price_per_token o) (od_price_per_token c)),
      (Z.eqb_spec (od_price_per_token o) (od_price_per_token c)), (od_id o <? od_id c); simpl; lia.
  - destruct (Z.ltb_spec (od_price_per_token c) (od_price_per_token o)),
      (Z.eqb_spec (od_price_per_token o) (od_price_per_token c)), (od_id o <? od_id c); simpl; lia.
Qed.

Lemma insert_order_perm side o l : insert_order side o l ≡ₚ o :: l.
Proof.
  induction l as [|c l IH]; simpl; [done|]. destruct (precedes side o c); [done|].
  rewrite IH. apply Permutation_swap.
Qed.

Lemma insert_order_sorted side o l : sorted_by side l -> sorted_by side (insert_order side o l).
Proof.
  unfold sorted_by. induction l as [|c l IH]; intros Hl; simpl.
  { constructor; constructor. }
  pose proof (precedes_price side o c) as Hp. apply StronglySorted_inv in Hl as [Hl Hc].
  destruct (precedes side o c).
  - constructor; [by constructor|]. constructor; [done|].
    eapply Forall_impl; [|exact Hc]. simpl. lia.
  - constructor; [by apply IH|]. rewrite insert_order_perm. by constructor.
Qed.

Definition sort_book (side : Side.Side) (l : list Order) : list Order :=
  foldl (fun acc o => insert_order side o acc) [] l.

Lemma sort_book_from side l acc :
  sorted_by side acc ->
  sorted_by side (foldl (fun acc o => insert_order side o acc) acc l) /\
  foldl (fun acc o => insert_order side o acc) acc l ≡ₚ l ++ acc.
Proof.
  revert acc. induction l as [|o l IH]; intros acc Hacc; simpl; [done|].
  destruct (IH (insert_order side o acc)) as [Hs Hp]; [by apply insert_order_sorted|].
  split; [done|]. rewrite Hp, insert_order_perm. by rewrite Permutation_middle.
Qed.

Lemma sort_book_spec side l : sorted_by side (sort_book side l) /\ sort_book side l ≡ₚ l.
Proof. destruct (sort_book_from side l []) as [? Hp]; [constructor|]. by rewrite app_nil_r in Hp. Qed.

(** *** Filling greedily is optimal *)

Definition amounts (l : list Order) : Z := foldr (fun o acc => od_amount o + acc) 0 l.

(** An allocation of a list of orders: how much to take of each. *)
Definition size (al : list (Order * Z)) : Z := foldr (fun p acc => p.2 + acc) 0 al.
Definition cost (w : Order -> Z) (al : list (Order * Z)) : Z := foldr (fun p acc => p.2 * w p.1 + acc) 0 al.
Definition within (al : list (Order * Z)) : Prop := Forall (fun p => 0 <= p.2 <= od_amount p.1) al.
Definition allocation (l : list Order) (al : list (Order * Z)) : Prop := al.*1 ≡ₚ l /\ within al.

Fixpoint greedy (l : list Order) (n : Z) : list (Order * Z) :=
  match l with
  | [] => []
  | o :: l' => let t := Z.min n (od_amount o) in (o, t) :: greedy l' (n - t)
  end.

Lemma greedy_fst l n : (greedy l n).*1 = l.
Proof. revert n. induction l as [|o l IH]; intros n; csimpl; [done|]. by rewrite IH. Qed.

Lemma amounts_nonneg l : Forall (fun o => 0 < od_amount o) l -> 0 <= amounts l.
Proof. induction 1; simpl; lia. Qed.

Lemma greedy_within l n : Forall (fun o => 0 < od_amount o) l -> 0 <= n ->
  within (greedy l n) /\ size (greedy l n) = Z.min n (amounts l).
Proof.
  intros Hl. revert n. induction Hl as [|o l Ho Hl IH]; intros n Hn; simpl.
  { split; [constructor|lia]. }
  destruct (IH (n - Z.min n (od_amount o))) as [Hw Hs]; [lia|]. pose proof (amounts_nonneg l Hl).
  split; [constructor; [simpl; lia|done]|]. simpl. rewrite Hs. lia.
Qed.

(** Asking for more than there is takes everything. *)
Lemma greedy_clip l n : Forall (fun o => 0 < od_amount o) l -> greedy l (Z.min n (amounts l)) = greedy l n.
Proof.
  intros Hl. revert n. induction Hl as [|o l Ho Hl IH]; intros n; simpl; [done|].
  pose proof (amounts_nonneg l Hl).
  replace (Z.min (Z.min n (od_amount o + amounts l)) (od_amount o)) with (Z.min n (od_amount o)) by lia.
  f_equal. rewrite <- (IH (n - _)), <- (IH (Z.min _ _ - _)). f_equal. lia.
Qed.

Lemma size_nonneg al : within al -> 0 <= size al.
Proof. induction 1; simpl; lia. Qed.

(** The exchange argument: an allocation that takes [d] more than [n] costs at least the greedy
    cost of [n] and [d] times the best price. *)
Lemma greedy_lower w al n d m :
  StronglySorted (fun x y => w x <= w y) (al.*1) -> Forall (fun o => m <= w o) (al.*1) -> within al ->
  0 <= n -> 0 <= d -> size al = n + d ->
  cost w (greedy (al.*1) n) + d * m <= cost w al.
Proof.
  intros Hs Hm Hw. revert n d m Hs Hm. induction Hw as [|[o t] al Ht Hw IH]; intros n d m Hs Hm Hn Hd Hsz; csimpl in *.
  { assert (d = 0) by lia. subst d. lia. }
  apply StronglySorted_inv in Hs as [Hs Ho]. inversion_clear Hm as [|? ? Hmo _].
  pose proof (size_nonneg al Hw). set (x := Z.min n (od_amount o)).
  specialize (IH (n - x) (d + x - t) (w o) Hs Ho ltac:(lia) ltac:(lia) ltac:(lia)).
  assert (d * m <= d * w o) by nia. fold x. rewrite !Z.mul_sub_distr_r, !Z.mul_add_distr_r in IH. lia.
Qed.

(** No allocation of the same size is cheaper. *)
Lemma greedy_optimal w l n al :
  StronglySorted (fun x y => w x <= w y) l -> allocation l al -> 0 <= n -> size al = n ->
  cost w (greedy l n) <= cost w al.
Proof.
  intros Hs [Hp Hw] Hn Hsz.
  destruct (Permutation_map_inv fst al (symmetry Hp)) as (al'&->&Hperm).
  assert (Hw' : within al') by (unfold within in *; by rewrite <- Hperm).
  assert (Hsum : forall f : Order * Z -> Z, foldr (fun p acc => f p + acc) 0 al = foldr (fun p acc => f p + acc) 0 al').
  { intros f. clear -Hperm. induction Hperm; simpl; lia. }
  unfold size, cost in *. rewrite (Hsum (fun p => p.2)) in Hsz. rewrite (Hsum (fun p => p.2 * w p.1)).
  assert (Hle : exists m, Forall (fun o => m <= w o) al'.*1).
  { clear -Hs. change (map fst al') with (al'.*1) in *. destruct (al'.*1) as [|o l]; [by exists 0|].
    apply StronglySorted_inv in Hs as [_ Ho]. exists (w o). by constructor. }
  destruct Hle as [m Hm]. pose proof (greedy_lower w al' n 0 m Hs Hm Hw' Hn ltac:(lia) ltac:(unfold size; lia)) as Hg.
  unfold cost in Hg. change (map fst al') with (al'.*1). lia.
Qed.

Lemma cost_greedy_bound w l n P :
  Forall (fun o => 0 < od_amount o) l -> Forall (fun o => 0 <= w o <= P) l -> 0 <= n ->
  0 <= cost w (greedy l n) <= size (greedy l n) * P.
Proof.
  intros Hl. revert n. induction Hl as [|o l Ho Hl IH]; intros n Hw Hn; simpl; [lia|].
  inversion_clear Hw as [|? ? Hwo Hwl]. specialize (IH (n - Z.min n (od_amount o)) Hwl ltac:(lia)). nia.
Qed.

Section quoting.
Context {W : Type} `{!World W} `{!BondReader W} `{!BondMarket W}.
Local Abbreviation state := (cstate DataKey ty Event W).
Implicit Types (s : state) (e : Env).

(** *** What a quote looks at *)

(** The orders a buyer of bond [b] can fill at time [now]. *)
Definition quotable (now b : Z) (o : Order) : bool :=
  (od_bond_id o =? b) && (0 <? od_amount o) && is_live o && (now <? od_expires_at o).

Definition book (now b : Z) s : list Order :=
  filter (fun o => quotable now b o = true) (omap (order_of s) (seqZ 1 (count_of s))).

Lemma collect_run b side ids acc e s :
  exists s', mfold (collect_order b side) acc ids e s =
    Ok (foldl (fun acc o => insert_order side o acc) acc
          (filter (fun o => quotable (timestamp e) b o = true) (omap (order_of s) ids))) s' /\ same_data s' s.
Proof.
  revert acc s. induction ids as [|i ids IH]; intros acc s; [by exists s|]. simpl mfold.
  unfold collect_order at 1. run. fold (order_of s i). cbn [omap list_omap].
  destruct (order_of s i) as [o|] eqn:Ho.
  2: { unfold bind, ret. apply IH. }
  unfold bump_persistent, is_order_expired. run.
  destruct (only_live_pextend (E := DEXError.DEXError) (DataKey.Order i) PERSISTENT_TTL_THRESHOLD PERSISTENT_TTL_EXTEND_TO e s)
    as [l Hl]; [by exists o|]. rewrite (bind_run _ _ _ _ _ _ Hl). run.
  set (k := negb (od_bond_id o =? b) || _ || _ || _).
  assert (Hk : k = negb (quotable (timestamp e) b o)).
  { unfold k, quotable. rewrite !negb_andb, (Z.leb_antisym 0), (Z.leb_antisym (timestamp e)). done. }
  rewrite filter_cons, Hk. destruct (quotable (timestamp e) b o); simpl negb.
  - rewrite decide_True by done. unfold bind at 1, ret at 1. simpl foldl.
    destruct (IH (insert_order side o acc) (put_live l s)) as (s'&Hs'&Hd).
    exists s'. split; [exact Hs'|done].
  - rewrite decide_False by done. unfold bind at 1, ret at 1.
    destruct (IH acc (put_live l s)) as (s'&Hs'&Hd). exists s'. split; [exact Hs'|done].
Qed.

(** The index names every order of the bond. *)
Lemma book_of_index n s b now :
  inv n s ->
  filter (fun o => quotable now b o = true) (omap (order_of s) (bond_orders_of s b)) = book now b s.
Proof.
  intros Hinv. rewrite (dx_bond n s Hinv b). unfold book.
  induction (seqZ 1 (count_of s)) as [|i ids IH]; [done|].
  rewrite filter_cons. cbn [omap list_omap]. case_decide as Hob.
  - cbn [omap list_omap]. destruct (order_of s i); [|done]. rewrite !filter_cons. by rewrite IH.
  - destruct (order_of s i) as [o|] eqn:Ho; [|done]. rewrite (filter_cons _ o), decide_False; [done|].
    unfold on_bond in Hob. rewrite Ho in Hob. unfold quotable. by destruct (Z.eqb_spec (od_bond_id o) b).
Qed.

Lemma fill_book_run l n f tot P e s :
  Forall (fun o => 0 < od_amount o) l -> Forall (fun o => 0 <= od_price_per_token o <= P) l ->
  0 <= n -> 0 <= f -> 0 <= tot -> f + n <= int_hi I128 -> tot + n * P <= int_hi I128 -> n <= int_hi I128 ->
  @fill_book W l n f tot e s =
    Ok (f + size (greedy l n), tot + cost od_price_per_token (greedy l n)) s.
Proof.
  intros Hl. revert n f tot. induction Hl as [|o l Ho Hl IH]; intros n f tot Hp Hn Hf Ht Hfn Htn Hnn; simpl.
  { unfold ret. by rewrite !Z.add_0_r. }
  inversion_clear Hp as [|? ? Hpo Hpl]. destruct (Z.eqb_spec n 0) as [->|Hnz].
  { rewrite Z.min_l by lia. simpl. destruct (greedy_within l 0 Hl ltac:(lia)) as [_ Hs0].
    pose proof (amounts_nonneg l Hl).
    pose proof (cost_greedy_bound od_price_per_token l 0 P Hl Hpl ltac:(lia)).
    rewrite Z.min_l in Hs0 by lia. rewrite Hs0 in *. change (0 - 0) with 0. rewrite Hs0.
    assert (cost od_price_per_token (greedy l 0) = 0) as -> by lia. unfold ret. by rewrite !Z.mul_0_l, !Z.add_0_r. }
  set (t := Z.min n (od_amount o)). assert (Hin : forall z, 0 <= z <= int_hi I128 -> in_range I128 z = true)
    by (intros z Hz; apply in_range_spec; cbn [int_lo int_hi] in *; lia).
  assert (Htp : 0 <= t * od_price_per_token o /\ tot + t * od_price_per_token o + (n - t) * P <= int_hi I128) by nia.
  assert (0 <= (n - t) * P) by nia.
  rewrite (bind_run _ _ _ _ _ _ (ok_or_run _ _ _ _ _ (checked_in I128 _ (Hin (t * od_price_per_token o) ltac:(lia))))).
  rewrite (bind_run _ _ _ _ _ _ (ok_or_run _ _ _ _ _ (checked_in I128 _ (Hin (tot + t * od_price_per_token o) ltac:(lia))))).
  rewrite (bind_run _ _ _ _ _ _ (ok_or_run _ _ _ _ _ (checked_in I128 _ (Hin (f + t) ltac:(lia))))).
  rewrite (bind_run _ _ _ _ _ _ (arith_run _ _ _ _ (Hin (n - t) ltac:(lia)))).
  rewrite IH; [|done|lia..]. do 2 f_equal; lia.
Qed.

Lemma cost_neg l : cost (cost_price Side.Sell) l = - cost od_price_per_token l.
Proof. unfold cost. induction l as [|p l IH]; simpl in *; lia. Qed.

(** The numbers of a quote: total [total] for [filled], of which the best price is [best]. *)
Definition slippage (side : Side.Side) (best filled total : Z) : Z :=
  Z.quot (match side with Side.Buy => total - filled * best | Side.Sell => filled * best - total end * 10000)
         (filled * best).

Lemma price_quote_run side best filled total P e s :
  0 < filled -> 0 < best <= P -> 0 <= total <= filled * P -> filled * P * 10000 <= int_hi I128 ->
  @price_quote W side best filled total e s =
    Ok (Z.quot total filled, total, slippage side best filled total) s.
Proof.
  intros Hf Hb Ht Hr. unfold price_quote, slippage.
  assert (Hideal : 0 < filled * best <= filled * P) by nia.
  assert (Hin : forall z, - filled * P * 10000 <= z <= filled * P * 10000 -> in_range I128 z = true)
    by (intros z Hz; apply in_range_spec; cbn [int_lo int_hi] in *; lia).
  rewrite (bind_run _ _ _ _ _ _ (ok_or_run _ _ _ _ _ (checked_in I128 _ (Hin (filled * best) ltac:(lia))))).
  rewrite (proj2 (Z.ltb_lt _ _)) by lia.
  assert (Hsat : match side with Side.Buy => saturating I128 (total - filled * best)
                 | Side.Sell => saturating I128 (filled * best - total) end =
                 match side with Side.Buy => total - filled * best | Side.Sell => filled * best - total end)
    by (destruct side; apply saturating_id, Hin; lia).
  cbv zeta. rewrite Hsat, bind_assoc_run. set (adverse := match side with Side.Buy => _ | Side.Sell => _ end).
  assert (Hadv : - filled * P * 10000 <= adverse * 10000 <= filled * P * 10000) by (unfold adverse; destruct side; lia).
  rewrite (bind_run _ _ _ _ _ _ (ok_or_run _ _ _ _ _ (checked_in I128 _ (Hin _ Hadv)))). done.
Qed.

Lemma book_positive n s b t :
  inv n s -> Forall (fun o => 0 < od_amount o /\ 0 < od_price_per_token o) (book t b s).
Proof.
  intros Hinv. apply Forall_forall. intros o Ho. apply list_elem_of_In in Ho. apply list_elem_of_filter in Ho as [_ Ho].
  apply list_elem_of_omap in Ho as (i&_&Hi). destruct (dx_order n s Hinv i o Hi) as (_&_&?&?). lia.
Qed.

(** C20: Quotes are best execution: in a reachable state, and unless the products overflow,
    [get_best_price] succeeds and changes only lifetimes; with no fillable order it returns
    zeros; otherwise the total it quotes is the cost of an allocation over all live,
    unexpired orders of the bond that fills the amount asked or everything there is, and
    no allocation of the same size is cheaper (dearer, for [Sell]); the average is the
    quotient, and the slippage is against the best price in the book. *)
Theorem best_price_optimal n s e b side v P :
  reach deployed exec n s -> n < 2 ^ 64 -> 0 < v ->
  Forall (fun o => od_price_per_token o <= P) (book (timestamp e) b s) -> 0 <= P -> v * P * 10000 <= int_hi I128 ->
  v <= int_hi I128 ->
  exists avg total slip s', get_best_price b side v e s = Ok (avg, total, slip) s' /\ same_data s' s /\
    (book (timestamp e) b s = [] -> (avg, total, slip) = (0, 0, 0)) /\
    (book (timestamp e) b s <> [] ->
     exists al first, allocation (book (timestamp e) b s) al /\ size al = Z.min v (amounts (book (timestamp e) b s)) /\
       total = cost od_price_per_token al /\ avg = Z.quot total (size al) /\
       (forall al', allocation (book (timestamp e) b s) al' -> size al' = size al ->
          match side with
          | Side.Buy => total <= cost od_price_per_token al'
          | Side.Sell => cost od_price_per_token al' <= total
          end) /\
       first ∈ book (timestamp e) b s /\
       Forall (fun o => cost_price side first <= cost_price side o) (book (timestamp e) b s) /\
       slip = slippage side (od_price_per_token first) (size al) total).
Proof.
  intros Hr Hn Hv HP HP0 Hover Hvm. apply dex_reachable_inv in Hr as Hinv; [|done].
  set (L := book (timestamp e) b s) in *.
  pose proof (book_positive n s b (timestamp e) Hinv) as HL. fold L in HL.
  unfold get_best_price. rewrite (proj2 (Z.leb_gt v 0)) by lia. run.
  destruct (bump_if_has_total (DataKey.BondOrders b) e s) as [l0 Hl0]. rewrite (bind_run _ _ _ _ _ _ Hl0).
  fold (bond_orders_of s b). destruct (collect_run b side (bond_orders_of s b) [] e (put_live l0 s)) as (s1&H1&Hd1).
  rewrite (bind_run _ _ _ _ _ _ H1). clear H1.
  change (order_of (put_live l0 s)) with (order_of s). rewrite (book_of_index n s b _ Hinv). fold L.
  fold (sort_book side L). destruct (sort_book_spec side L) as [Hsort Hperm].
  set (S := sort_book side L) in *.
  assert (HS : Forall (fun o => 0 < od_amount o /\ 0 < od_price_per_token o) S) by (by rewrite Hperm).
  assert (HSP : Forall (fun o => od_price_per_token o <= P) S) by (by rewrite Hperm).
  destruct S as [|first S'] eqn:HeqS.
  { exists 0, 0, 0, s1. split_and!; [done|done|done|]. intros Hne.
    apply Permutation_nil in Hperm. done. }
  assert (Hamt : Forall (fun o => 0 < od_amount o) (first :: S')) by (eapply Forall_impl; [|exact HS]; simpl; lia).
  assert (Hpr : Forall (fun o => 0 <= od_price_per_token o <= P) (first :: S')).
  { apply Forall_forall. intros o Ho. rewrite Forall_forall in HS, HSP. specialize (HS o Ho). specialize (HSP o Ho). lia. }
  assert (Hv0 : v * P <= int_hi I128) by (assert (0 <= v * P) by nia; lia).
  rewrite (bind_run _ _ _ _ _ _ (fill_book_run (first :: S') v 0 0 P e s1 Hamt Hpr ltac:(lia) ltac:(lia) ltac:(lia)
             ltac:(lia) ltac:(lia) ltac:(lia))).
  rewrite !Z.add_0_l. set (al := greedy (first :: S') v).
  destruct (greedy_within (first :: S') v Hamt ltac:(lia)) as [Hwi Hsz]. fold al in Hwi, Hsz.
  pose proof (cost_greedy_bound od_price_per_token _ v P Hamt Hpr ltac:(lia)) as Hcb. fold al in Hcb.
  assert (Hfirst : 0 < od_amount first /\ 0 < od_price_per_token first <= P).
  { inversion_clear HS. inversion_clear HSP. lia. }
  assert (Hamts : 0 < amounts (first :: S')) by (inversion_clear Hamt; pose proof (amounts_nonneg S' ltac:(done)); simpl; lia).
  assert (Hpos : 0 < size al) by lia. rewrite (proj2 (Z.eqb_neq (size al) 0)) by lia.
  rewrite (price_quote_run side _ _ _ P) by (lia || nia).
  eexists _, _, _, s1. split_and!; [done|done| |].
  { intros Hnil. rewrite Hnil in Hperm. symmetry in Hperm. apply Permutation_nil in Hperm. done. }
  intros _. exists al, first. split_and!; [| | done | done | | | |done].
  - split; [|done]. unfold al. by rewrite greedy_fst.
  - rewrite Hsz. f_equal. clear -Hperm. induction Hperm; simpl; lia.
  - intros al' [Hal' Hw'] Hs'. assert (Hall : allocation (first :: S') al') by (split; [by rewrite Hal', Hperm|done]).
    pose proof (greedy_optimal (cost_price side) (first :: S') (size al) al' Hsort Hall ltac:(lia) Hs') as Hopt.
    assert (Hgreedy : greedy (first :: S') (size al) = al).
    { rewrite Hsz. by apply greedy_clip. }
    rewrite Hgreedy in Hopt. destruct side; [done|]. rewrite !cost_neg in Hopt. lia.
  - rewrite <- Hperm. by left.
  - rewrite <- Hperm. unfold sorted_by in Hsort. apply StronglySorted_inv in Hsort as [_ Ho]. by constructor.
Qed.
End quoting.

(** ** A concrete execution

    BondIssuer as two balances of bond 1: investor 2's and investor 3's. *)

Record SampleWorld := mkSampleWorld { sw_two : Z; sw_three : Z }.

#[local] Instance sample_world : World SampleWorld.
Proof. by refine {| wstep := fun _ _ => True; wquiet := eq |}. Defined.

Definition sample_balance (w : SampleWorld) (b : Z) (h : Address) : Z :=
  if decide ((b, h) = (1, Addr 2)) then sw_two w
  else if decide ((b, h) = (1, Addr 3)) then sw_three w else 0.

#[local] Instance sample_bonds : BondReader SampleWorld.
Proof.
  refine {| bond_config := fun _ _ _ => Some (mkBondConfig [7] 100 [10] CreditType.Carbon 50 1000);
            call_get_bond := fun _ _ _ w => EOk (mkBondConfig [7] 100 [10] CreditType.Carbon 50 1000) w;
            call_total_subscribed := fun _ _ _ w => EOk 300 w;
            call_get_holder_balance := fun _ b h _ w =>
              if in_range I128 (sample_balance w b h) then EOk (sample_balance w b h) w else EAbort |}.
  - by intros ? ? ? ? ? ? [= <- <-].
  - by intros ? ? ? ? ? ? [= _ <-].
  - intros ? ? ? ? ? ? ?. case_match; [|done]. by intros [= _ <-].
  - done.
Defined.

(** Investor 2 sends [v] to investor 3. *)
Definition sample_transfer (from to : Address) (b v : Z) (e : Env) (w : SampleWorld) :
    eresult SampleWorld BondError.BondError unit :=
  if bool_decide ((from, to, b) = (Addr 2, Addr 3, 1)) && (0 <? v) && (v <=? sw_two w) && is_authorized e from
  then EOk tt (mkSampleWorld (sw_two w - v) (sw_three w + v)) else EErr BondError.InsufficientBalance.

#[local] Instance sample_market : BondMarket SampleWorld.
Proof.
  refine {| bond_balance := fun w _ b h => sample_balance w b h;
            call_get_nonce := fun _ _ _ w => EOk 0 w;
            call_transfer := fun _ from to b v _ e w => sample_transfer from to b v e w |}.
  - intros ? ? ? ? ? ? ?. simpl. case_match eqn:Hr; [|done]. by intros [= <- <-].
  - by intros ? ? ? ? ? ? [= _ <-].
  - intros _ from to b v _ e w u w'. unfold sample_transfer. intros H.
    destruct (bool_decide _ && _ && _ && _) eqn:Hc; [|done]. injection H as <- <-.
    apply andb_true_iff in Hc as [Hc Ha]. apply andb_true_iff in Hc as [Hc H2%Z.leb_le].
    apply andb_true_iff in Hc as [Hc%bool_decide_eq_true H1%Z.ltb_lt]. injection Hc as -> -> ->.
    split_and!; [done|done|done|done|done|]. intros b' h'. unfold sample_balance. simpl.
    destruct (decide ((b', h') = (1, Addr 2))) as [[= -> ->]|].
    + rewrite decide_False by done. lia.
    + case_decide; lia.
  - by intros ? ? ? ? ? ->.
Defined.

Abbreviation sample_state := (cstate DataKey ty Event SampleWorld).

Definition sample_start : sample_state :=
  commit (constructor (Addr 1) (Addr 11) (Addr 12) (sample_env 0) (empty_state (mkSampleWorld 500 0)))
         (empty_state (mkSampleWorld 500 0)).

Lemma dex_start_deployed : deployed sample_start.
Proof. exists (sample_env 0), (Addr 1), (Addr 11), (Addr 12), (mkSampleWorld 500 0). exact eq_refl. Qed.

(** Investor 2 lists 100 units at 7 and 50 at 5; investor 3 deposits 1000. *)
Definition sample_calls : list (Env * Call) :=
  [(sample_env 10, CList (Addr 2) 1 100 7 "USDC" 90 0);
   (sample_env 11, CList (Addr 2) 1 50 5 "USDC" 20 1);
   (sample_env 12, CDeposit (Addr 3) "USDC" 1000 0)].

Definition sample_book : sample_state := run_calls exec sample_calls sample_start.

Lemma dex_sample_reachable : reach deployed exec 3 sample_book.
Proof. apply (reach_run_calls deployed exec sample_calls 0). apply reach_init, dex_start_deployed. Qed.

Definition sample_order : Order := mkOrder 1 (Addr 2) 1 100 7 "USDC" OrderStatus.Open 10 100.

Definition sample_bought : sample_state :=
  commit (execute_purchase (Addr 3) 1 7 30 1 (sample_env 20) sample_book) sample_book.

Example sample_purchase :
  (quote_of sample_bought "USDC" (Addr 2), quote_of sample_bought "USDC" (Addr 3), sw_three (world sample_bought),
   od_amount <$> order_of sample_bought 1) = (210, 790, 30, Some 70).
Proof. vm_compute. reflexivity. Qed.

Lemma purchase_settles_witness :
  exists o iss, order_of sample_book 1 = Some o /\ order_of sample_bought 1 = Some (fill 30 o) /\
    is_live o = true /\ 20 < od_expires_at o /\ 0 < 30 <= od_amount o /\ od_price_per_token o <= 7 /\
    Addr 3 <> od_seller o /\ is_authorized (sample_env 20) (Addr 3) = true /\
    is_authorized (sub_env iss (sample_env 20)) (od_seller o) = true /\
    sget DataKey.BondIssuerAddress (inst sample_book) = Some iss /\
    30 * od_price_per_token o <= quote_of sample_book (od_quote_asset o) (Addr 3) /\
    (forall q h, quote_of sample_bought q h = quote_of sample_book q h
      + (if decide ((od_quote_asset o, od_seller o) = (q, h)) then 30 * od_price_per_token o else 0)
      - (if decide ((od_quote_asset o, Addr 3) = (q, h)) then 30 * od_price_per_token o else 0)) /\
    30 <= bond_balance (world sample_book) iss (od_bond_id o) (od_seller o) /\
    (forall b h, bond_balance (world sample_bought) iss b h = bond_balance (world sample_book) iss b h
      + (if decide ((b, h) = (od_bond_id o, Addr 3)) then 30 else 0)
      - (if decide ((b, h) = (od_bond_id o, od_seller o)) then 30 else 0)).
Proof.
  refine (purchase_settles 3 sample_book (sample_env 20) (Addr 3) 1 7 30 1 sample_bought dex_sample_reachable _ _).
  - done.
  - by apply run_value; [vm_compute|].
Defined.

Lemma quote_conserved_witness :
  total_quote (commit (exec (CWithdraw (Addr 3) "USDC" 400 1) (sample_env 20) sample_book) sample_book) "USDC" =
    total_quote sample_book "USDC" + -400 /\
  0 <= quote_of (commit (exec (CWithdraw (Addr 3) "USDC" 400 1) (sample_env 20) sample_book) sample_book) "USDC" (Addr 3).
Proof.
  exact (quote_conserved 3 sample_book (sample_env 20) (CWithdraw (Addr 3) "USDC" 400 1) _ "USDC" (Addr 3)
           dex_sample_reachable ltac:(done) ltac:(by apply (commit_is_ok _ sample_book); vm_compute)).
Defined.

Definition sample_cancel : Call := CCancel (Addr 2) 1 2.
Definition sample_cancelled : sample_state := commit (exec sample_cancel (sample_env 20) sample_book) sample_book.

Lemma order_lifecycle_witness :
  (forall o, order_of sample_book 1 = Some o ->
     exists o', order_of sample_cancelled 1 = Some o' /\ order_step sample_cancel (sample_env 20) 1 o o') /\
  (forall o, order_of sample_book 1 = None -> order_of sample_cancelled 1 = Some o ->
     1 = count_of sample_book + 1 /\ listed sample_cancel (sample_env 20) 1 o).
Proof.
  exact (order_lifecycle 3 sample_book (sample_env 20) sample_cancel sample_cancelled 1 dex_sample_reachable
           ltac:(done) ltac:(by apply (commit_is_ok _ sample_book); vm_compute)).
Defined.

Lemma order_history_witness :
  exists o', order_of (run_calls exec [(sample_env 20, sample_cancel)] sample_book) 1 = Some o' /\
    same_terms sample_order o' /\ 0 < od_amount o' <= 100 /\ (is_live sample_order = false -> o' = sample_order).
Proof.
  refine (order_history 3 sample_book 1 (run_calls exec [(sample_env 20, sample_cancel)] sample_book) 1 sample_order
            dex_sample_reachable _ _ _).
  - apply (reach_run_calls (eq sample_book) exec [(sample_env 20, sample_cancel)] 0). by apply reach_init.
  - done.
  - by vm_compute.
Defined.

Lemma purchase_refused_witness :
  exists s', execute_purchase (Addr 3) 2 7 10 1 (sample_env 40) sample_book = Err DEXError.OrderExpired s' /\
    commit (execute_purchase (Addr 3) 2 7 10 1 (sample_env 40) sample_book) sample_book = sample_book.
Proof.
  exact (purchase_refused 3 sample_book (sample_env 40) (Addr 3) 2 7 10 1 DEXError.OrderExpired
           dex_sample_reachable ltac:(done) ltac:(by vm_compute) ltac:(by vm_compute)).
Defined.

Lemma clean_up_exact_witness :
  exists s', clean_expired_orders (Addr 1) (nonce_of sample_book (Addr 1)) (sample_env 40) sample_book =
      Ok (Z.of_nat (length (filter (fun i => is_stale 40 sample_book i = true) (seqZ 1 (count_of sample_book))))) s' /\
    (forall i, order_of s' i = expire 40 <$> order_of sample_book i) /\
    (forall i o, order_of s' i = Some o -> stale 40 o = false).
Proof.
  exact (clean_up_exact 3 sample_book (sample_env 40) (Addr 1) dex_sample_reachable ltac:(done)
           ltac:(by vm_compute) ltac:(done) ltac:(by vm_compute)).
Defined.

Lemma best_price_optimal_witness :
  exists avg total slip s', get_best_price 1 Side.Buy 80 (sample_env 20) sample_book = Ok (avg, total, slip) s' /\
    same_data s' sample_book /\
    (book 20 1 sample_book = [] -> (avg, total, slip) = (0, 0, 0)) /\
    (book 20 1 sample_book <> [] ->
     exists al first, allocation (book 20 1 sample_book) al /\ size al = Z.min 80 (amounts (book 20 1 sample_book)) /\
       total = cost od_price_per_token al /\ avg = Z.quot total (size al) /\
       (forall al', allocation (book 20 1 sample_book) al' -> size al' = size al ->
          total <= cost od_price_per_token al') /\
       first ∈ book 20 1 sample_book /\
       Forall (fun o => cost_price Side.Buy first <= cost_price Side.Buy o) (book 20 1 sample_book) /\
       slip = slippage Side.Buy (od_price_per_token first) (size al) total).
Proof.
  refine (best_price_optimal 3 sample_book (sample_env 20) 1 Side.Buy 80 10 dex_sample_reachable _ _ _ _ _ _);
    [done|done| |done|by vm_compute|by vm_compute].
  assert (Hb : book 20 1 sample_book =
    [sample_order; mkOrder 2 (Addr 2) 1 50 5 "USDC" OrderStatus.Open 11 31]) by (by vm_compute).
  simpl timestamp. rewrite Hb. repeat constructor; simpl; lia.
Defined.

Example sample_quote :
  match get_best_price 1 Side.Buy 80 (sample_env 20) sample_book with Ok q _ => Some q | _ => None end =
  Some (5, 460, 1500).
Proof. vm_compute. reflexivity. Qed.
