(* ===== verification/OrderBook.v ===== *)
(** * The order book: what DEXRouter promises, and that it keeps it

    The abstract machine of [dex-router]: an administrator, an issuer, the orders in order
    of listing, a quote balance for every asset and holder, a nonce for every signer, and
    the world of the issuer.  Indexes, counters and lifetimes are not part of it. *)

From S2P Require Import Prelude Host Shared Interfaces DexRouter Spec.
Open Scope spec_scope.

Section machine.
Context {W : Type} `{!World W} `{!BondReader W} `{!BondMarket W}.

(** ** The machine *)

Record Book := mkBook {
  bk_admin : Address;
  bk_issuer : Address;
  bk_world : W;
  bk_orders : list Order;               (* order 1 first *)
  bk_quote : Symbol -> Address -> Z;
  bk_nonce : Address -> Z;
}.

Definition empty_book (admin issuer : Address) (w : W) : Book :=
  mkBook admin issuer w [] (fun _ _ => 0) (fun _ => 0).

Definition order_at (i : Z) (b : Book) : option Order := numbered i (bk_orders b).

(** Changes of the book. *)
Definition spend_nonce (a : Address) (b : Book) : Book :=
  mkBook (bk_admin b) (bk_issuer b) (bk_world b) (bk_orders b) (bk_quote b) (next_nonce (bk_nonce b) a).
Definition set_world (w : W) (b : Book) : Book :=
  mkBook (bk_admin b) (bk_issuer b) w (bk_orders b) (bk_quote b) (bk_nonce b).
Definition set_orders (l : list Order) (b : Book) : Book :=
  mkBook (bk_admin b) (bk_issuer b) (bk_world b) l (bk_quote b) (bk_nonce b).
Definition add_order (o : Order) (b : Book) : Book := set_orders (bk_orders b ++ [o]) b.
Definition set_order (i : Z) (o : Order) (b : Book) : Book := set_orders (renumber i o (bk_orders b)) b.
Definition pay (q : Symbol) (a : Address) (v : Z) (b : Book) : Book :=
  mkBook (bk_admin b) (bk_issuer b) (bk_world b) (bk_orders b)
    (fun q' a' => if decide ((q, a) = (q', a')) then bk_quote b q a + v else bk_quote b q' a') (bk_nonce b).

(** Every live order of [from..to] whose time is up expires. *)
Definition expire_between (now from to : Z) (b : Book) : Book :=
  set_orders (map (fun o => if (from <=? od_id o) && (od_id o <=? to) then expire now o else o) (bk_orders b)) b.
Definition stale_at (now : Z) (b : Book) (i : Z) : bool :=
  match order_at i b with Some o => stale now o | None => false end.
Definition stale_between (now from to : Z) (b : Book) : Z :=
  Z.of_nat (length (filter (fun i => stale_at now b i = true) (seqZ from (to - from + 1)))).

Local Abbreviation result := (outcome Book DEXError.DEXError).
Local Abbreviation signed := (by_signer bk_nonce spend_nonce DEXError.InvalidNonce).

(** A question to the issuer; when it does not answer, neither does the router. *)
Definition asks {A} (e : Env) (question : Address -> ecall W BondError.BondError A) (b : Book)
    (k : A -> Book -> result) : result :=
  match question (bk_issuer b) (sub_env (bk_issuer b) e) (bk_world b) with
  | EOk v w => k v (set_world w b)
  | _ => Trapped
  end.

Definition list_spec (e : Env) (a : Address) (bond v p : Z) (q : Symbol) (x : Z) (b : Book) : result :=
  require (0 <? v) && (0 <? p) else DEXError.ZeroAmount ;;
  require negb (x =? 0) else DEXError.OrderExpired ;;
  asks e (fun i => call_get_holder_balance i bond a) b (fun held b =>
  require v <=? held else DEXError.InsufficientBalance ;;
  require in_range U64 (timestamp e + x) else DEXError.OrderExpired ;;
  Done (add_order (mkOrder (Z.of_nat (length (bk_orders b)) + 1) a bond v p q OrderStatus.Open
                     (timestamp e) (timestamp e + x)) b)).

Definition cancel_spec (a : Address) (i : Z) (b : Book) : result :=
  find o := order_at i b else DEXError.OrderNotFound ;;
  require bool_decide (a = od_seller o) else DEXError.Unauthorized ;;
  require is_live o else DEXError.OrderAlreadyFilled ;;
  Done (set_order i (with_status OrderStatus.Cancelled o) b).

(** The issuer's verdict on the delivery. *)
Definition delivered (e : Env) (buyer : Address) (v : Z) (o : Order) (b : Book) (k : Book -> result) : result :=
  asks e (fun i => call_get_nonce i (od_seller o)) b (fun nonce b =>
  match call_transfer (bk_issuer b) (od_seller o) buyer (od_bond_id o) v nonce
          (sub_env (bk_issuer b) e) (bk_world b) with
  | EOk _ w => k (set_world w b)
  | EErr BondError.InvalidNonce => Refused DEXError.InvalidNonce
  | _ => Refused DEXError.InsufficientBalance
  end).

(** The price of [v] tokens passes from the buyer to the seller. *)
Definition settled (buyer : Address) (v : Z) (o : Order) (b : Book) : Book :=
  pay (od_quote_asset o) (od_seller o) (v * od_price_per_token o)
    (pay (od_quote_asset o) buyer (- (v * od_price_per_token o)) b).

Definition purchase_spec (e : Env) (buyer : Address) (i max_price v : Z) (b : Book) : result :=
  find o := order_at i b else DEXError.OrderNotFound ;;
  require is_live o else DEXError.OrderAlreadyFilled ;;
  require bool_decide (buyer <> od_seller o) else DEXError.SelfBuyNotAllowed ;;
  require timestamp e <? od_expires_at o else DEXError.OrderExpired ;;
  require 0 <? v else DEXError.ZeroAmount ;;
  require v <=? od_amount o else DEXError.InsufficientBalance ;;
  require od_price_per_token o <=? max_price else DEXError.InsufficientBalance ;;
  asks e (fun i => call_get_holder_balance i (od_bond_id o) (od_seller o)) b (fun held b =>
  require v <=? held else DEXError.SellerBalanceDepleted ;;
  require v * od_price_per_token o <=? int_hi I128 else DEXError.Overflow ;;
  require v * od_price_per_token o <=? bk_quote b (od_quote_asset o) buyer else DEXError.InsufficientFunds ;;
  require bk_quote b (od_quote_asset o) (od_seller o) + v * od_price_per_token o <=? int_hi I128
    else DEXError.Overflow ;;
  delivered e buyer v o (settled buyer v o b) (fun b => Done (set_order i (fill v o) b))).

Definition deposit_spec (a : Address) (q : Symbol) (v : Z) (b : Book) : result :=
  require 0 <? v else DEXError.ZeroAmount ;;
  require bk_quote b q a + v <=? int_hi I128 else DEXError.Overflow ;;
  Done (pay q a v b).

Definition withdraw_spec (a : Address) (q : Symbol) (v : Z) (b : Book) : result :=
  require 0 <? v else DEXError.ZeroAmount ;;
  require v <=? bk_quote b q a else DEXError.InsufficientFunds ;;
  Done (pay q a (- v) b).

(** The result is a [u32], and counting past it traps in a build that checks. *)
Definition clean_spec (e : Env) (from to : Z) (b : Book) : result :=
  if (stale_between (timestamp e) from to b <=? int_hi U32) || negb (overflow_checks e)
  then Done (expire_between (timestamp e) from to b) else Trapped.

Definition by_admin (a : Address) (b : Book) (k : result) : result :=
  require bool_decide (a = bk_admin b) else DEXError.Unauthorized ;; k.

Definition book_spec (e : Env) (c : Call) (b : Book) : result :=
  match c with
  | CList a bond v p q x n => signed e a n b (list_spec e a bond v p q x)
  | CCancel a i n => signed e a n b (cancel_spec a i)
  | CPurchase a i m v n => signed e a n b (purchase_spec e a i m v)
  | CDeposit a q v n => signed e a n b (deposit_spec a q v)
  | CWithdraw a q v n => signed e a n b (withdraw_spec a q v)
  | CClean a n => signed e a n b (fun b =>
      by_admin a b (clean_spec e 1 (Z.of_nat (length (bk_orders b))) b))
  | CCleanRange a n i j => signed e a n b (fun b => by_admin a b (
      require (1 <=? i) && (j <=? Z.of_nat (length (bk_orders b))) && (i <=? j) else DEXError.InvalidRange ;;
      clean_spec e i j b))
  end.
End machine.
Arguments Book : clear implicits.

(** ** The relation *)

Section relation.
Context {W : Type} `{!World W} `{!BondReader W} `{!BondMarket W}.
Local Abbreviation state := (cstate DataKey ty Event W).
Implicit Types (s t : state) (b : Book W).

Record implements s b : Prop := {
  im_admin : sget DataKey.Admin (inst s) = Some (bk_admin b);
  im_issuer : sget DataKey.BondIssuerAddress (inst s) = Some (bk_issuer b);
  im_world : world s = bk_world b;
  im_count : count_of s = Z.of_nat (length (bk_orders b));
  im_order i : order_of s i = order_at i b;
  im_quote q a : quote_of s q a = bk_quote b q a;
  im_nonce a : nonce_of s a = bk_nonce b a;
}.

Ltac book_views := unfold count_of, order_of, quote_of, nonce_of in *.

Lemma book_same s t b : inst t = inst s -> pers t = pers s -> world t = world s -> implements s b -> implements t b.
Proof. intros Hi Hp Hw []. split; book_views; rewrite ?Hi, ?Hp, ?Hw; auto. Qed.

Lemma book_world s t b w :
  implements s b -> inst t = inst s -> pers t = pers s -> world t = w -> implements t (set_world w b).
Proof. intros [] Hi Hp Hw. split; book_views; rewrite ?Hi, ?Hp, ?Hw; auto. Qed.

Lemma book_nonce s t b a k :
  implements s b -> inst t = inst s -> pers t = sset (DataKey.Nonce a) k (pers s) -> world t = world s ->
  k = bk_nonce b a + 1 -> implements t (spend_nonce a b).
Proof.
  intros [] Hi Hp Hw ->. split; book_views; simpl; rewrite ?Hi, ?Hp, ?Hw; intros; store_simp; auto.
  unfold next_nonce. store_case; [by rewrite decide_True|]. rewrite decide_False by congruence. auto.
Qed.

Lemma book_pay s t b q a v w :
  implements s b -> inst t = inst s -> pers t = sset (DataKey.Balance q a) w (pers s) -> world t = world s ->
  w = bk_quote b q a + v -> implements t (pay q a v b).
Proof.
  intros [] Hi Hp Hw ->. split; book_views; simpl; rewrite ?Hi, ?Hp, ?Hw; intros; store_simp; auto.
  store_case; [by rewrite decide_True|]. rewrite decide_False by congruence. auto.
Qed.

Lemma book_set_order s t b i (o o' : Order) :
  implements s b -> order_at i b = Some o -> inst t = inst s -> world t = world s ->
  pers t = sset (DataKey.Order i) o' (pers s) -> implements t (set_order i o' b).
Proof.
  intros [] Ho Hi Hw Hp. split; book_views; simpl; rewrite ?Hi, ?Hp, ?Hw; intros; store_simp; auto.
  - by rewrite length_renumber.
  - unfold order_at at 1. simpl. rewrite numbered_renumber by by eexists.
    store_case; [by rewrite decide_True|]. rewrite decide_False by congruence. auto.
Qed.

Lemma book_add_order s t b (o : Order) i (xs ys : list Z) sk bk :
  implements s b -> i = count_of s + 1 -> inst t = sset DataKey.OrderCount i (inst s) -> world t = world s ->
  pers t = sset (DataKey.BondOrders bk) xs (sset (DataKey.SellerOrders sk) ys (sset (DataKey.Order i) o (pers s))) ->
  implements t (add_order o b).
Proof.
  intros [] -> Hi Hw Hp. split; book_views; simpl; rewrite ?Hi, ?Hp, ?Hw; intros; store_simp; auto.
  - rewrite length_app. simpl. lia.
  - unfold order_at, add_order. simpl. rewrite numbered_snoc, <- im_count0.
    store_case; [by rewrite decide_True|]. rewrite decide_False by congruence. auto.
Qed.

Lemma book_deployed s admin issuer engine e w :
  constructor admin issuer engine e (empty_state w) = Ok tt s -> implements s (empty_book admin issuer w).
Proof.
  intros H. unfold constructor in H. inv_ok H.
  split; book_views; host_simp; simpl; intros; rewrite ?sget_empty; try done.
  unfold order_at. simpl. by rewrite numbered_nil.
Qed.

(** A clean-up expires the orders of its range, and counts the ones it expires. *)
Lemma order_in n s b o : inv n s -> implements s b -> o ∈ bk_orders b -> order_of s (od_id o) = Some o.
Proof.
  intros Hinv Hb (i & Hi & Ho)%numbered_elem. change (order_at i b = Some o) in Ho.
  rewrite <- (im_order s b Hb) in Ho. by destruct (dx_order n s Hinv i o Ho) as (_ & -> & _).
Qed.

Lemma numbered_map {A B} (f : A -> B) i (l : list A) : numbered i (map f l) = f <$> numbered i l.
Proof. unfold numbered. destruct (1 <=? i); [|done]. apply list_lookup_fmap. Qed.

Lemma book_cleaned n s t b e i j :
  inv n s -> implements s b -> cleaned (timestamp e) (seqZ i (j - i + 1)) s t ->
  implements t (expire_between (timestamp e) i j b).
Proof.
  intros Hinv Hb [Hi Hw Hin Hf]. destruct Hb as [Ha His Hwo Hc Ho Hq Hno].
  split; simpl; [by rewrite Hi|by rewrite Hi|by rewrite Hw| | | |].
  - unfold count_of in *. by rewrite Hi, length_map.
  - intros k. unfold order_at, expire_between. simpl. rewrite numbered_map. change (numbered k (bk_orders b)) with (order_at k b).
    rewrite <- Ho. destruct (decide (k ∈ seqZ i (j - i + 1))) as [Hk|Hk].
    + rewrite (Hin k Hk). apply elem_of_seqZ in Hk. destruct (order_of s k) as [o|] eqn:Hok; [|done]. simpl.
      destruct (dx_order n s Hinv k o Hok) as (_ & -> & _).
      by rewrite (proj2 (Z.leb_le i k)), (proj2 (Z.leb_le k j)) by lia.
    + transitivity (order_of s k); [apply (Hf (DataKey.Order k)); congruence|].
      destruct (order_of s k) as [o|] eqn:Hok; [|done]. simpl.
      destruct (dx_order n s Hinv k o Hok) as (_ & -> & _). rewrite elem_of_seqZ in Hk.
      destruct (Z.leb_spec i k), (Z.leb_spec k j); simpl; try done. lia.
  - intros q a. rewrite <- Hq. unfold quote_of. by rewrite (Hf (DataKey.Balance q a)).
  - intros a. rewrite <- Hno. unfold nonce_of. by rewrite (Hf (DataKey.Nonce a)).
Qed.
End relation.

(** ** Cleaning up, run forwards *)

Section clean.
Context {W : Type} `{!World W} `{!BondReader W} `{!BondMarket W}.
Local Abbreviation state := (cstate DataKey ty Event W).
Implicit Types (s t : state) (b : Book W) (e : Env).

Lemma cleaned_one now i s t :
  inst t = inst s -> world t = world s -> order_of t i = expire now <$> order_of s i ->
  (forall k, k <> DataKey.Order i -> sget k (pers t) = sget k (pers s)) -> cleaned now [i] s t.
Proof.
  intros Hi Hw Ho Hk. split; [done|done|by intros j ->%list_elem_of_singleton|].
  intros k Hne. apply Hk, Hne. by left.
Qed.

Lemma clean_order_run c i e s :
  exists t, cleaned (timestamp e) [i] s t /\
    clean_order c i e s = if is_stale (timestamp e) s i then arith U32 (c + 1) e t else Ok c t.
Proof.
  unfold clean_order, is_stale, is_order_expired. run. fold (order_of s i).
  destruct (order_of s i) as [o|] eqn:Ho; [|exists s; split; [by apply cleaned_one; rewrite ?Ho|done]].
  run. fold (stale (timestamp e) o). destruct (stale (timestamp e) o) eqn:Hst.
  - destruct (store_entry_total (DataKey.Order i) (with_status OrderStatus.Expired o) e s) as [l Hl].
    rewrite (bind_run _ _ _ _ _ _ Hl). eexists. split; [|done]. apply cleaned_one; try done.
    + unfold order_of in *. host_cbn. rewrite sget_sset_eq, Ho. simpl. unfold expire. by rewrite Hst.
    + intros k Hk. host_cbn. by rewrite sget_sset_ne.
  - exists s. split; [|done]. apply cleaned_one; try done. rewrite Ho. simpl. unfold expire. by rewrite Hst.
Qed.

(** Cleaning one order leaves the others as stale as they were. *)
Lemma cleaned_stale now i j s t : cleaned now [i] s t -> i <> j -> is_stale now t j = is_stale now s j.
Proof.
  intros Hcl Hne. unfold is_stale. assert (order_of t j = order_of s j) as ->; [|done].
  apply (cl_frame _ _ _ _ Hcl (DataKey.Order j)). intros x ->%list_elem_of_singleton. congruence.
Qed.

Lemma clean_loop_run ids c e s :
  NoDup ids -> in_range U32 c = true ->
  if (c + Z.of_nat (length (filter (fun i => is_stale (timestamp e) s i = true) ids)) <=? int_hi U32)
     || negb (overflow_checks e)
  then exists c' t, mfold clean_order c ids e s = Ok c' t
  else mfold clean_order c ids e s = Trap.
Proof.
  revert c s. induction ids as [|i ids IH]; intros c s Hnd Hc; simpl mfold.
  { apply in_range_spec in Hc. rewrite (proj2 (Z.leb_le _ _)) by (simpl length; lia). by eexists _, _. }
  inversion_clear Hnd as [|? ? Hni Hnd']. destruct (clean_order_run c i e s) as (t & Hcl & Hrun).
  assert (Hf : filter (fun j => is_stale (timestamp e) t j = true) ids =
               filter (fun j => is_stale (timestamp e) s j = true) ids).
  { apply filter_ext_elem. intros j Hj. rewrite (cleaned_stale _ i j s t Hcl) by congruence. done. }
  rewrite filter_cons. destruct (is_stale (timestamp e) s i) eqn:Hst.
  - rewrite decide_True by done. simpl length. unfold arith in Hrun. destruct (in_range U32 (c + 1)) eqn:Hc1.
    + rewrite (bind_run _ _ _ _ _ _ Hrun). specialize (IH (c + 1) t Hnd' Hc1). rewrite Hf in IH.
      replace (c + Z.of_nat (S (length _))) with
        (c + 1 + Z.of_nat (length (filter (fun j => is_stale (timestamp e) s j = true) ids))) by lia. exact IH.
    + apply in_range_spec in Hc. assert (int_hi U32 < c + 1).
      { apply Z.nle_gt. intros Hle. apply not_true_iff_false in Hc1. apply Hc1, in_range_spec. lia. }
      rewrite (proj2 (Z.leb_gt _ _)) by lia. simpl orb. destruct (overflow_checks e) eqn:Hov; simpl.
      * by apply bind_trap.
      * rewrite (bind_run _ _ _ _ _ _ Hrun). specialize (IH (wrap U32 (c + 1)) t Hnd' (wrap_in_range _ _)).
        simpl negb in IH. by rewrite orb_true_r in IH.
  - rewrite decide_False by done. rewrite (bind_run _ _ _ _ _ _ Hrun). specialize (IH c t Hnd' Hc). by rewrite Hf in IH.
Qed.

(** Both clean-ups, on the machine. *)
Lemma clean_meets n s b e i j :
  inv n s -> implements s b ->
  meets implements (clean_expired_orders_range_impl i j e s) (clean_spec e i j b).
Proof.
  intros Hinv Hb. unfold clean_spec, stale_between.
  assert (Hst : filter (fun k => stale_at (timestamp e) b k = true) (seqZ i (j - i + 1)) =
                filter (fun k => is_stale (timestamp e) s k = true) (seqZ i (j - i + 1))).
  { apply filter_ext_elem. intros k _. unfold stale_at, is_stale. by rewrite (im_order s b Hb). }
  rewrite Hst. pose proof (clean_loop_run (seqZ i (j - i + 1)) 0 e s (NoDup_seqZ _ _) eq_refl) as Hrun.
  rewrite Z.add_0_l in Hrun. unfold clean_expired_orders_range_impl. destruct (_ || _).
  - destruct Hrun as (c & t & Ht). rewrite (bind_run _ _ _ _ _ _ Ht). run.
    apply clean_loop_Ok in Ht as [Hcl _]. apply (book_same t); [done..|]. by apply (book_cleaned n s).
  - by rewrite (bind_trap _ _ _ _ Hrun).
Qed.
End clean.

(** ** Handler by handler *)

Section handlers.
Context {W : Type} `{!World W} `{!BondReader W} `{!BondMarket W}.
Local Abbreviation state := (cstate DataKey ty Event W).
Local Abbreviation M := (contract DataKey ty DEXError.DEXError Event W).
Implicit Types (s t : state) (b : Book W).
Context (n : Z) (e : Env) (Hn : n + 1 < 2 ^ 64).

Lemma dex_inv_nonce s t a :
  inv n s -> inst t = inst s -> pers t = sset (DataKey.Nonce a) (nonce_of s a + 1) (pers s) -> inv (n + 1) t.
Proof.
  intros [? ? ? ? Hb Hs Hno] Hi Hp. pose proof (Hno a) as Hna.
  assert (Ho : forall i, order_of t i = order_of s i) by (intros i; unfold order_of; rewrite Hp; by store_simp).
  split; unfold quote_of, count_of, bond_orders_of, seller_orders_of in *; rewrite ?Hi, ?Hp; store_simp; auto.
  - intros q a'. store_simp. auto.
  - lia.
  - intros i o. rewrite Ho. auto.
  - intros i. rewrite Ho. auto.
  - intros bd. store_simp. rewrite Hb. apply filter_ext_elem. intros i _. unfold on_bond. by rewrite Ho.
  - intros a'. store_simp. rewrite Hs. apply filter_ext_elem. intros i _. unfold by_seller. by rewrite Ho.
  - intros a'. unfold nonce_of in *. rewrite Hp. store_case; simpl; [lia|]. specialize (Hno a'). lia.
Qed.

(** What the state after the prologue is good for. *)
Local Abbreviation good s b := (inv (n + 1) s /\ count_of s <= n /\ implements s b).

Lemma router_signed_meets {A} a k s b (rest : unit -> M A) o :
  inv n s -> implements s b ->
  (forall t, good t (spend_nonce a b) -> meets implements (rest tt e t) (o (spend_nonce a b))) ->
  meets implements (bind (require_auth a) (fun _ => bind (consume_nonce a k) rest) e s)
    (by_signer bk_nonce spend_nonce DEXError.InvalidNonce e a k b o).
Proof.
  intros Hinv Hb Hrest. unfold by_signer. destruct (is_authorized e a) eqn:Ha; [|by run]. run.
  rewrite <- (im_nonce s b Hb a). unfold check. destruct (Z.eqb_spec k (nonce_of s a)) as [->|Hk].
  - destruct (dex_consume_nonce_total a e s) as [lv Hlv].
    { pose proof (dx_nonce n s Hinv a). apply in_range_spec. cbn [int_lo int_hi]. lia. }
    rewrite (bind_run _ _ _ _ _ _ Hlv). apply Hrest. split_and!.
    + by apply (dex_inv_nonce s _ a).
    + apply (dx_count n s Hinv).
    + apply (book_nonce s _ b a (nonce_of s a + 1)); [done..|]. by rewrite (im_nonce s b Hb).
  - destruct (dex_consume_nonce_fails a k e s Hk) as [s1 Hs1]. by rewrite (bind_err _ _ _ _ _ _ Hs1).
Qed.

Lemma router_admin_meets {A} a s b (rest : unit -> M A) o :
  implements s b -> meets implements (rest tt e s) o ->
  meets implements (bind (require_admin a) rest e s) (by_admin a b o).
Proof.
  intros Hb Hrest. unfold require_admin. pose proof (im_admin s b Hb). run.
  apply meets_guard; [|auto]. by repeat case_bool_decide.
Qed.

Lemma good_world s b w : good s b -> good (put_world w s) (set_world w b).
Proof.
  intros (Hinv & Hc & Hb). split_and!; [by apply (dex_inv_same _ s)|done|by apply (book_world s)].
Qed.

Lemma good_live s b l : good s b -> good (put_live l s) b.
Proof. intros (Hinv & Hc & Hb). split_and!; [by apply (dex_inv_same _ s)|done|by apply (book_same s)]. Qed.

Lemma asks_meets {A B} (q : Address -> ecall W BondError.BondError A) s b (rest : A -> M B) o :
  good s b ->
  (forall v w, good (put_world w s) (set_world w b) ->
     meets implements (rest v e (put_world w s)) (o v (set_world w b))) ->
  meets implements (bind (invoke_contract (bk_issuer b) (q (bk_issuer b))) rest e s) (asks e q b o).
Proof.
  intros Hg Hrest. unfold asks, bind, invoke_contract. rewrite <- (im_world s b) by apply Hg.
  destruct (q _ _ _) as [v w|x|]; [|done..]. by apply Hrest, good_world.
Qed.

Lemma verify_meets {A} h bd v s b (rest : unit -> M A) o :
  good s b ->
  (forall t b', good t b' -> meets implements (rest tt e t) (o b')) ->
  meets implements (bind (verify_holder_balance h bd v) rest e s)
    (asks e (fun i => call_get_holder_balance i bd h) b (fun held b =>
       check (v <=? held) DEXError.InsufficientBalance (o b))).
Proof.
  intros Hg Hrest. unfold verify_holder_balance. pose proof (im_issuer s b ltac:(apply Hg)) as Hi. run.
  apply (asks_meets (fun i => call_get_holder_balance i bd h)); [done|]. intros held w Hgw.
  apply meets_guard; [apply Z.ltb_antisym|]. intros _. by apply Hrest.
Qed.

Local Ltac store :=
  lazymatch goal with
  | |- context [bind (store_entry ?k ?v) _ e ?t] =>
      let lv := fresh "lv" in let Hlv := fresh "Hlv" in
      destruct (store_entry_total k v e t) as [lv Hlv]; rewrite (bind_run _ _ _ _ _ _ Hlv); clear Hlv
  end; run.

(** A guard and the precondition it implements. *)
Local Ltac precond :=
  rewrite ?bind_assoc_run; run; apply meets_guard;
  [ first [apply Z.leb_antisym | apply Z.ltb_antisym | by rewrite negb_involutive | done
          | by repeat case_bool_decide ] | intros ?].

Lemma router_list_meets a bd v p q x k s b :
  inv n s -> implements s b ->
  meets implements (list_bond_tokens a bd v p q x k e s)
    (by_signer bk_nonce spend_nonce DEXError.InvalidNonce e a k b (list_spec e a bd v p q x)).
Proof.
  intros Hinv Hb. apply router_signed_meets; [done..|]. intros t Hg. unfold list_spec.
  apply meets_guard; [by rewrite negb_andb, !Z.leb_antisym|]. intros Hpos. precond.
  apply verify_meets; [done|]. intros t1 b1 (Hinv1 & Hc & Hb1). run. fold (count_of t1).
  assert (Hid : in_range U64 (count_of t1 + 1) = true).
  { pose proof (dx_count _ t1 Hinv1). apply in_range_spec. cbn [int_lo int_hi]. lia. }
  rewrite (bind_run _ _ _ _ _ _ (arith_run _ _ _ _ Hid)). run. apply meets_in_range. intros _.
  store. store. store. rewrite <- (im_count t1 b1 Hb1).
  eapply (book_add_order t1 _ b1 _ (count_of t1 + 1) _ _ a bd); [done|done|reflexivity|reflexivity|reflexivity].
Qed.

Lemma router_cancel_meets a i k s b :
  inv n s -> implements s b ->
  meets implements (cancel_listing a i k e s)
    (by_signer bk_nonce spend_nonce DEXError.InvalidNonce e a k b (cancel_spec a i)).
Proof.
  intros Hinv Hb. apply router_signed_meets; [done..|]. intros t (Hinv1 & Hc & Hb1). unfold cancel_spec. run.
  pose proof (im_order _ _ Hb1 i) as Ho. unfold order_of in Ho. rewrite Ho.
  destruct (order_at i (spend_nonce a b)) as [o|] eqn:Hat; [|done]. run.
  precond. precond. store. by apply (book_set_order t _ _ i o).
Qed.

Lemma get_balance_total a q s : exists l, get_balance a q e s = Ok (quote_of s q a) (put_live l s).
Proof.
  unfold get_balance. run. destruct (bump_if_has_total (DataKey.Balance q a) e s) as [l Hl].
  rewrite (bind_run _ _ _ _ _ _ Hl). by exists l.
Qed.

Local Ltac balance :=
  lazymatch goal with
  | |- context [bind (get_balance ?a ?q) _ e ?t] =>
      let lv := fresh "lv" in let Hlv := fresh "Hlv" in
      destruct (get_balance_total a q t) as [lv Hlv]; rewrite (bind_run _ _ _ _ _ _ Hlv); clear Hlv
  end.

Lemma deposit_meets a q v k s b :
  inv n s -> implements s b ->
  meets implements (deposit_quote a q v k e s)
    (by_signer bk_nonce spend_nonce DEXError.InvalidNonce e a k b (deposit_spec a q v)).
Proof.
  intros Hinv Hb. apply router_signed_meets; [done..|]. intros t (Hinv1 & Hc & Hb1). unfold deposit_spec.
  precond. balance. rewrite <- (im_quote _ _ Hb1). pose proof (dx_quote _ t Hinv1 q a). guards.
  apply meets_checked; [cbn [int_lo]; lia|]. intros _. unfold set_balance. store.
  apply (book_pay t _ _ q a v (quote_of t q a + v)); [done..|]. by rewrite (im_quote _ _ Hb1).
Qed.

Lemma withdraw_meets a q v k s b :
  inv n s -> implements s b ->
  meets implements (withdraw_quote a q v k e s)
    (by_signer bk_nonce spend_nonce DEXError.InvalidNonce e a k b (withdraw_spec a q v)).
Proof.
  intros Hinv Hb. apply router_signed_meets; [done..|]. intros t (Hinv1 & Hc & Hb1). unfold withdraw_spec.
  precond. balance. rewrite <- (im_quote _ _ Hb1). pose proof (dx_quote _ t Hinv1 q a). precond. guards.
  assert (Hr : in_range I128 (quote_of t q a - v) = true) by (apply in_range_spec; cbn [int_lo]; lia).
  rewrite (bind_run _ _ _ _ _ _ (arith_run _ _ _ _ Hr)). unfold set_balance. store.
  apply (book_pay t _ _ q a (- v) (quote_of t q a - v)); [done..|]. by rewrite (im_quote _ _ Hb1).
Qed.

(** The guards of a purchase. *)
Lemma check_meets {A} a i m v o s b (rest : unit -> M A) k :
  good s b ->
  (forall w, is_live o = true -> a <> od_seller o -> 0 < v <= od_amount o ->
     good (put_world w s) (set_world w b) -> meets implements (rest tt e (put_world w s)) (k (set_world w b))) ->
  meets implements (bind (check_purchase a i m v o) rest e s)
    (check (is_live o) DEXError.OrderAlreadyFilled
    (check (bool_decide (a <> od_seller o)) DEXError.SelfBuyNotAllowed
    (check (timestamp e <? od_expires_at o) DEXError.OrderExpired
    (check (0 <? v) DEXError.ZeroAmount
    (check (v <=? od_amount o) DEXError.InsufficientBalance
    (check (od_price_per_token o <=? m) DEXError.InsufficientBalance
    (asks e (fun i => call_get_holder_balance i (od_bond_id o) (od_seller o)) b (fun held b =>
       check (v <=? held) DEXError.SellerBalanceDepleted (k b))))))))).
Proof.
  intros Hg Hrest. unfold check_purchase, is_order_expired.
  precond. rewrite ?bind_assoc_run. apply meets_guard; [by repeat case_bool_decide|]. intros Hne.
  precond. precond. precond. precond. guards. rewrite bind_assoc_run.
  pose proof (im_issuer s b ltac:(apply Hg)) as Hi. pose proof (im_world s b ltac:(apply Hg)) as Hw.
  unfold asks, bind at 1, attempt, verify_holder_balance. run. unfold bind at 1, invoke_contract. rewrite Hw.
  destruct (call_get_holder_balance _ _ _ _ _) as [held w|x|]; [|done..].
  unfold fail_if. rewrite Z.ltb_antisym. destruct (v <=? held); simpl; [|done].
  apply Hrest; [done|done|lia|by apply good_world].
Qed.

Lemma settle_meets {A} a v o s b (rest : Z -> M A) k :
  good s b -> a <> od_seller o -> 0 < v * od_price_per_token o ->
  (forall t, implements t (settled a v o b) -> meets implements (rest (v * od_price_per_token o) e t) k) ->
  meets implements (bind (settle_quote a v o) rest e s)
    (check (v * od_price_per_token o <=? int_hi I128) DEXError.Overflow
    (check (v * od_price_per_token o <=? bk_quote b (od_quote_asset o) a) DEXError.InsufficientFunds
    (check (bk_quote b (od_quote_asset o) (od_seller o) + v * od_price_per_token o <=? int_hi I128)
       DEXError.Overflow k))).
Proof.
  intros (Hinv & Hc & Hb) Hne Hpos Hrest. unfold settle_quote. rewrite <- !(im_quote s b Hb).
  set (r := v * od_price_per_token o) in *. set (q := od_quote_asset o).
  pose proof (dx_quote _ s Hinv q a). pose proof (dx_quote _ s Hinv q (od_seller o)).
  rewrite bind_assoc_run. apply meets_checked; [cbn [int_lo]; lia|]. intros Hr.
  rewrite bind_assoc_run. fold q. balance. change (quote_of (put_live lv s) q a) with (quote_of s q a).
  precond. guards.
  assert (Hrest' : in_range I128 (quote_of s q a - r) = true) by (apply in_range_spec; cbn [int_lo]; lia).
  rewrite bind_assoc_run, (bind_run _ _ _ _ _ _ (arith_run _ _ _ _ Hrest')), bind_assoc_run. unfold set_balance.
  store. balance.
  match goal with |- context [quote_of ?t q (od_seller o)] => lazymatch t with s => fail | _ =>
    replace (quote_of t q (od_seller o)) with (quote_of s q (od_seller o))
      by (unfold quote_of; host_cbn; by rewrite sget_sset_ne by congruence) end end.
  rewrite bind_assoc_run. apply meets_checked; [cbn [int_lo]; lia|]. intros _. rewrite bind_assoc_run. store.
  apply Hrest. apply (book_pay (put_pers (DataKey.Balance q a) (quote_of s q a - r) s) _ _ q (od_seller o) r
    (quote_of s q (od_seller o) + r)); [|done|done|done|].
  - apply (book_pay s _ b q a (- r) (quote_of s q a - r)); [done..|]. by rewrite (im_quote s b Hb).
  - simpl. rewrite decide_False by congruence. by rewrite (im_quote s b Hb).
Qed.

Lemma deliver_meets {A} a v o s b (rest : unit -> M A) k :
  implements s b ->
  (forall w, implements (put_world w s) (set_world w b) ->
     meets implements (rest tt e (put_world w s)) (k (set_world w b))) ->
  meets implements (bind (deliver_bond a v o) rest e s) (delivered e a v o b k).
Proof.
  intros Hb Hrest. unfold deliver_bond, delivered, asks. pose proof (im_issuer s b Hb) as Hi. run.
  unfold bind at 1, invoke_contract. rewrite (im_world s b Hb).
  destruct (call_get_nonce _ _ _ _) as [nonce w|x|]; [|done..].
  unfold bind, try_invoke_contract. cbn beta.
  change (world (put_world w s)) with w. change (bk_world (set_world w b)) with w. change (bk_issuer (set_world w b)) with (bk_issuer b).
  destruct (call_transfer _ _ _ _ _ _ _ _) as [[] w'|x|]; [|by destruct x|done].
  apply (Hrest w'). by apply (book_world s).
Qed.

Lemma purchase_meets a i m v k s b :
  inv n s -> implements s b ->
  meets implements (execute_purchase a i m v k e s)
    (by_signer bk_nonce spend_nonce DEXError.InvalidNonce e a k b (purchase_spec e a i m v)).
Proof.
  intros Hinv Hb. apply router_signed_meets; [done..|]. intros t Hg. unfold purchase_spec. run.
  pose proof (im_order t _ ltac:(apply Hg) i) as Ho. unfold order_of in Ho. rewrite Ho.
  destruct (order_at i (spend_nonce a b)) as [o|] eqn:Hat; [|done]. run. unfold bump_persistent.
  match goal with |- context [bind (pextend_ttl ?k ?x ?y) _ e ?t0] =>
    destruct (only_live_pextend (E := DEXError.DEXError) k x y e t0) as [lv Hlv]; [by eexists|] end.
  rewrite (bind_run _ _ _ _ _ _ Hlv). destruct (dx_order _ t ltac:(apply Hg) i o Ho) as (_ & _ & Ham & Hpr).
  apply (check_meets a i m v o _ _ _ (fun b => _)); [by apply good_live|]. intros w _ Hne Hv Hgw.
  apply settle_meets; [done|done|nia|]. intros u Hu. apply deliver_meets; [done|]. intros w2 Hw2.
  assert (Hfill : fill_order v o e (put_world w2 u) = Ok (fill v o) (put_world w2 u)).
  { unfold fill_order, fill. destruct (v =? od_amount o); [done|].
    assert (Hr : in_range I128 (od_amount o - v) = true) by (apply in_range_spec; cbn [int_lo] in *; lia).
    by rewrite (bind_run _ _ _ _ _ _ (arith_run _ _ _ _ Hr)). }
  rewrite (bind_run _ _ _ _ _ _ Hfill). store. by apply (book_set_order (put_world w2 u) _ _ i o).
Qed.

Lemma clean_all_meets a k s b :
  inv n s -> implements s b ->
  meets implements (clean_expired_orders a k e s)
    (by_signer bk_nonce spend_nonce DEXError.InvalidNonce e a k b (fun b =>
       by_admin a b (clean_spec e 1 (Z.of_nat (length (bk_orders b))) b))).
Proof.
  intros Hinv Hb. apply router_signed_meets; [done..|]. intros t (Hinv1 & Hc & Hb1). apply router_admin_meets; [done|].
  unfold order_count. run. fold (count_of t).
  rewrite <- (im_count t _ Hb1). destruct (Z.eqb_spec (count_of t) 0) as [Hz|Hz]; [|by apply (clean_meets (n + 1))].
  rewrite Hz. apply (book_cleaned (n + 1) t t); [done|done|]. split; [done|done|by intros j ?%elem_of_seqZ; lia|done].
Qed.

Lemma clean_range_meets a k i j s b :
  inv n s -> implements s b ->
  meets implements (clean_expired_orders_range a k i j e s)
    (by_signer bk_nonce spend_nonce DEXError.InvalidNonce e a k b (fun b => by_admin a b (
      check ((1 <=? i) && (j <=? Z.of_nat (length (bk_orders b))) && (i <=? j)) DEXError.InvalidRange
        (clean_spec e i j b)))).
Proof.
  intros Hinv Hb. apply router_signed_meets; [done..|]. intros t (Hinv1 & Hc & Hb1). apply router_admin_meets; [done|].
  unfold order_count. run. fold (count_of t). rewrite <- (im_count t _ Hb1).
  apply meets_guard; [by rewrite !negb_andb, !Z.ltb_antisym|]. intros _. by apply (clean_meets (n + 1)).
Qed.
End handlers.

(** ** The contract implements the machine *)

Section implementation.
Context {W : Type} `{!World W} `{!BondReader W} `{!BondMarket W}.

#[export] Instance router_implements : Implements implements (inv (W := W)) exec book_spec.
Proof.
  split.
  - intros n c e s s' Hn Hinv H. by eapply inv_effects, dex_exec_effects.
  - apply dex_inv_mono.
  - intros n c e s b Hinv Hn Hb. destruct e; cbn [exec book_spec]; try apply meets_drop.
    + by apply (router_list_meets n).
    + by apply (router_cancel_meets n).
    + by apply (purchase_meets n).
    + by apply (deposit_meets n).
    + by apply (withdraw_meets n).
    + by apply (clean_all_meets n).
    + by apply (clean_range_meets n).
Qed.
End implementation.

Section refinement.
Context {W : Type} `{!World W} `{!BondReader W} `{!BondMarket W}.

(** C8: The market refines its book: whatever calls were made since the deployment and
    however the issuer's world moved in between (fewer than 2^64 events), the storage of
    dex-router shows exactly the book the abstract machine has reached, and the next call
    ends as the machine says, for every answer the issuer may give: done, with the orders,
    quote balances and issuer of the machine; refused, with the machine's error; or
    trapped - a missing signature, an issuer that fails to answer a question, or a
    clean-up that counts past 32 bits in a build with overflow checks, and nothing else. *)
Theorem router_refines_book admin issuer engine e0 (w0 : W) s0 h e c :
  constructor admin issuer engine e0 (empty_state w0) = Ok tt s0 -> Z.of_nat (length h) + 1 < 2 ^ 64 ->
  implements (run_history exec h s0) (spec_history set_world book_spec h (empty_book admin issuer w0)) /\
  meets implements (exec c e (run_history exec h s0))
    (book_spec e c (spec_history set_world book_spec h (empty_book admin issuer w0))).
Proof.
  intros H0 Hn. apply (implements_history implements set_world inv exec book_spec h e c 0); [| | | |done].
  - intros n s w Hs. by apply (dex_inv_same _ s).
  - intros s b w Hb. by apply (book_world s).
  - apply dex_inv_init. by exists e0, admin, issuer, engine, w0.
  - by apply (book_deployed s0 admin issuer engine e0).
Qed.
End refinement.

(** ** A concrete history

    The sample market; then investor 2 moves almost all bonds away on the issuer. *)

#[local] Existing Instances sample_world sample_bonds sample_market.

Definition sample_history : list (Env * Call + SampleWorld) :=
  map inl sample_calls ++ [inr (mkSampleWorld 20 480)].

Definition sample_machine : Book SampleWorld :=
  spec_history set_world book_spec sample_history (empty_book (Addr 1) (Addr 11) (mkSampleWorld 500 0)).

Example sample_machine_quote :
  (od_amount <$> order_at 1 sample_machine, bk_quote sample_machine "USDC" (Addr 3)) = (Some 100, 1000) /\
  book_spec (sample_env 20) (CPurchase (Addr 3) 1 7 30 1) sample_machine = Refused DEXError.SellerBalanceDepleted /\
  book_spec (sample_env 20) (CPurchase (Addr 3) 1 6 20 1) sample_machine = Refused DEXError.InsufficientBalance.
Proof. split_and!; by vm_compute. Qed.

Lemma router_refines_book_witness :
  implements (run_history exec sample_history sample_start) sample_machine /\
  meets implements (exec (CPurchase (Addr 3) 1 7 30 1) (sample_env 20) (run_history exec sample_history sample_start))
    (book_spec (sample_env 20) (CPurchase (Addr 3) 1 7 30 1) sample_machine).
Proof.
  exact (router_refines_book (Addr 1) (Addr 11) (Addr 12) (sample_env 0) (mkSampleWorld 500 0) sample_start
           sample_history (sample_env 20) (CPurchase (Addr 3) 1 7 30 1) eq_refl eq_refl).
Defined.
