(* ===== verification/Governance.v ===== *)
(** * Governance: M-of-N proposals behind a timelock

    Model of [src/contracts/governance/src/lib.rs].  The host's universal value
    (the argument list of a proposal) and the contracts a proposal may call are
    not code of this repository: they come through [HostVal] and [Targets]. *)

From S2P Require Import Prelude Host Shared.

(** ** Storage and events *)

Definition DEFAULT_TIMELOCK_SECONDS : Z := 172800.
Definition DEFAULT_PROPOSAL_TTL_SECONDS : Z := 2592000.
Definition PERSISTENT_TTL_THRESHOLD : Z := 17280.
Definition PERSISTENT_TTL_EXTEND_TO : Z := 2073600.
Definition STORAGE_VERSION_PERSISTENT : Z := 1.
Definition MAX_ALLOWED_CALLS : Z := 64.
Definition SELF_METHOD_SET_ALLOWED_CALLS : Symbol := "set_allowed_calls".

Record AllowedCall := mkAllowedCall {
  ac_contract : Address;
  ac_function : Symbol;
}.

#[export] Instance AllowedCall_eq_dec : EqDecision AllowedCall.
Proof. solve_decision. Defined.

(** The host's values, with the conversions the contract asks for.  A vector
    decodes as soon as it is a vector; its elements decode one by one when they
    are read, [None] for one that is not an [AllowedCall]. *)
Class HostVal := {
  Val : Type;
  val_address : Val -> option Address;
  val_calls : Val -> option (list (option AllowedCall));
  val_u64 : Val -> option Z;
}.

Module DataKey.
Inductive DataKey :=
| Signers
| Threshold
| TimelockSeconds
| Proposal (id : Z)
| ProposalCount
| Vote (id : Z) (addr : Address)
| Nonce (addr : Address)
| NonceInitialized (addr : Address)
| AllowedCalls
| StorageVersion.
End DataKey.
Abbreviation DataKey := DataKey.DataKey.

#[export] Instance DataKey_eq_dec : EqDecision DataKey.
Proof. solve_decision. Defined.

#[export] Instance DataKey_countable : Countable DataKey.
Proof.
  refine (inj_countable'
    (fun k => match k with
      | DataKey.Signers => (0%N, 0, Addr 0)
      | DataKey.Threshold => (1%N, 0, Addr 0)
      | DataKey.TimelockSeconds => (2%N, 0, Addr 0)
      | DataKey.Proposal i => (3%N, i, Addr 0)
      | DataKey.ProposalCount => (4%N, 0, Addr 0)
      | DataKey.Vote i a => (5%N, i, a)
      | DataKey.Nonce a => (6%N, 0, a)
      | DataKey.NonceInitialized a => (7%N, 0, a)
      | DataKey.AllowedCalls => (8%N, 0, Addr 0)
      | DataKey.StorageVersion => (9%N, 0, Addr 0)
      end)
    (fun x => match x with
      | (0%N, _, _) => DataKey.Signers
      | (1%N, _, _) => DataKey.Threshold
      | (2%N, _, _) => DataKey.TimelockSeconds
      | (3%N, i, _) => DataKey.Proposal i
      | (4%N, _, _) => DataKey.ProposalCount
      | (5%N, i, a) => DataKey.Vote i a
      | (6%N, _, a) => DataKey.Nonce a
      | (7%N, _, a) => DataKey.NonceInitialized a
      | (8%N, _, _) => DataKey.AllowedCalls
      | _ => DataKey.StorageVersion
      end) _).
  by intros [].
Defined.

Module ProposalStatus.
Inductive ProposalStatus := Pending | Queued | Executed | Rejected | Cancelled | Expired.
End ProposalStatus.

#[export] Instance ProposalStatus_eq_dec : EqDecision ProposalStatus.ProposalStatus.
Proof. solve_decision. Defined.

Record Proposal {V : Type} := mkProposal {
  pr_id : Z;
  pr_proposer : Address;
  pr_target : Address;
  pr_method : Symbol;
  pr_args : list V;
  pr_description : Symbol;
  pr_status : ProposalStatus.ProposalStatus;
  pr_approval_count : Z;
  pr_veto_count : Z;
  pr_created_at : Z;
  pr_expires_at : Z;
  pr_queued_at : Z;
  pr_executed_at : Z;
  pr_timelock_seconds : Z;
}.
Arguments Proposal V : clear implicits.
Arguments mkProposal {V}.

(** The assignments to the fields of a loaded proposal. *)
Definition with_status {V} (st : ProposalStatus.ProposalStatus) (p : Proposal V) : Proposal V :=
  mkProposal (pr_id p) (pr_proposer p) (pr_target p) (pr_method p) (pr_args p) (pr_description p)
    st (pr_approval_count p) (pr_veto_count p) (pr_created_at p) (pr_expires_at p) (pr_queued_at p)
    (pr_executed_at p) (pr_timelock_seconds p).
Definition with_approvals {V} (n : Z) (p : Proposal V) : Proposal V :=
  mkProposal (pr_id p) (pr_proposer p) (pr_target p) (pr_method p) (pr_args p) (pr_description p)
    (pr_status p) n (pr_veto_count p) (pr_created_at p) (pr_expires_at p) (pr_queued_at p)
    (pr_executed_at p) (pr_timelock_seconds p).
Definition with_vetoes {V} (n : Z) (p : Proposal V) : Proposal V :=
  mkProposal (pr_id p) (pr_proposer p) (pr_target p) (pr_method p) (pr_args p) (pr_description p)
    (pr_status p) (pr_approval_count p) n (pr_created_at p) (pr_expires_at p) (pr_queued_at p)
    (pr_executed_at p) (pr_timelock_seconds p).
Definition with_queued_at {V} (t : Z) (p : Proposal V) : Proposal V :=
  mkProposal (pr_id p) (pr_proposer p) (pr_target p) (pr_method p) (pr_args p) (pr_description p)
    (pr_status p) (pr_approval_count p) (pr_veto_count p) (pr_created_at p) (pr_expires_at p) t
    (pr_executed_at p) (pr_timelock_seconds p).
Definition with_executed_at {V} (t : Z) (p : Proposal V) : Proposal V :=
  mkProposal (pr_id p) (pr_proposer p) (pr_target p) (pr_method p) (pr_args p) (pr_description p)
    (pr_status p) (pr_approval_count p) (pr_veto_count p) (pr_created_at p) (pr_expires_at p) (pr_queued_at p)
    t (pr_timelock_seconds p).

Definition ty {HV : HostVal} (k : DataKey) : Type :=
  match k with
  | DataKey.Signers => list Address
  | DataKey.Threshold | DataKey.TimelockSeconds | DataKey.ProposalCount | DataKey.StorageVersion => Z
  | DataKey.Proposal _ => Proposal Val
  | DataKey.Vote _ _ => VoteChoice.VoteChoice
  | DataKey.Nonce _ => Z
  | DataKey.NonceInitialized _ => bool
  | DataKey.AllowedCalls => list AllowedCall
  end.

Inductive Event :=
| allowed_calls_set (stored : Z) (caller : Address)
| proposal_created (proposal_id : Z) (target caller : Address)
| vote_cast (proposal_id : Z) (caller : Address) (status : ProposalStatus.ProposalStatus)
| proposal_rejected (proposal_id : Z) (caller : Address)
| proposal_cancelled (proposal_id : Z) (caller : Address)
| proposal_executed (proposal_id : Z) (target : Address).

(** The contracts a proposal can call: any method, any arguments. *)
Class Targets (W : Type) `{!World W} {HV : HostVal} := {
  call_any : Address -> Symbol -> list Val -> ecall W unit Val;
  call_any_spec a m args e w v w' : call_any a m args e w = EOk v w' -> wstep w w';
}.

(** [for call in calls.iter() { if .. { return true } } false] *)
Fixpoint contains_call (calls : list AllowedCall) (contract : Address) (function : Symbol) : bool :=
  match calls with
  | [] => false
  | call :: calls' =>
      if bool_decide (ac_contract call = contract) && bool_decide (ac_function call = function) then true
      else contains_call calls' contract function
  end.

Section governance.
Context {W : Type} `{!World W} {HV : HostVal} `{!Targets W}.
Local Abbreviation M := (contract DataKey ty GovernanceError.GovernanceError Event W).
Local Abbreviation state := (cstate DataKey ty Event W).

(** ** Storage helpers *)

Definition extend_ttl (key : DataKey) : M unit :=
  pextend_ttl key PERSISTENT_TTL_THRESHOLD PERSISTENT_TTL_EXTEND_TO.

Definition storage_version : M Z :=
  let* o := iget DataKey.StorageVersion in ret (default 0 o).

Definition write_nonce (addr : Address) (nonce : Z) : M unit :=
  pset (DataKey.Nonce addr) nonce ;;
  extend_ttl (DataKey.Nonce addr) ;;
  pset (DataKey.NonceInitialized addr) true ;;
  extend_ttl (DataKey.NonceInitialized addr).

Definition has_nonce_marker (addr : Address) : M bool :=
  let* has := phas (DataKey.NonceInitialized addr) in
  if has then
    extend_ttl (DataKey.NonceInitialized addr) ;;
    ret true
  else ret false.

Definition get_nonce (addr : Address) : M Z :=
  let* o := pget (DataKey.Nonce addr) in
  match o with
  | Some nonce =>
      extend_ttl (DataKey.Nonce addr) ;;
      ret nonce
  | None =>
      let* legacy := iget (DataKey.Nonce addr) in
      match legacy with
      | Some nonce =>
          write_nonce addr nonce ;;
          ret nonce
      | None =>
          let* marker := has_nonce_marker addr in
          fail_if marker GovernanceError.NonceArchived ;;
          ret 0
      end
  end.

Definition set_nonce (addr : Address) (nonce : Z) : M unit := write_nonce addr nonce.

Definition check_nonce (addr : Address) (nonce : Z) : M unit :=
  let* current := get_nonce addr in
  fail_if (negb (nonce =? current)) GovernanceError.InvalidNonce ;;
  let* next := arith U64 (nonce + 1) in
  set_nonce addr next ;;
  iextend_ttl PERSISTENT_TTL_THRESHOLD PERSISTENT_TTL_EXTEND_TO.

Definition require_signer (caller : Address) : M unit :=
  let* o := iget DataKey.Signers in
  let* signers := ok_or o GovernanceError.NotInitialized in
  fail_if (negb (bool_decide (caller ∈ signers))) GovernanceError.NotSigner.

Definition is_expired (proposal : Proposal Val) : M bool :=
  let* now := ledger_timestamp in ret (pr_expires_at proposal <=? now).

(** Persistent first, then the instance storage of earlier versions. *)
Definition read_fallback (key : DataKey) : M (option (ty key)) :=
  let* o := pget key in
  match o with
  | Some value =>
      extend_ttl key ;;
      ret (Some value)
  | None => iget key
  end.

Definition write_entry (key : DataKey) (value : ty key) : M unit :=
  pset key value ;;
  extend_ttl key.

Definition read_proposal (proposal_id : Z) : M (option (Proposal Val)) :=
  read_fallback (DataKey.Proposal proposal_id).

Definition write_proposal (proposal_id : Z) (proposal : Proposal Val) : M unit :=
  write_entry (DataKey.Proposal proposal_id) proposal.

Definition read_proposal_count : M Z :=
  let* o := pget DataKey.ProposalCount in
  match o with
  | Some count => ret count
  | None => let* legacy := iget DataKey.ProposalCount in ret (default 0 legacy)
  end.

Definition write_proposal_count (count : Z) : M unit := write_entry DataKey.ProposalCount count.

Definition read_vote (proposal_id : Z) (voter : Address) : M (option VoteChoice.VoteChoice) :=
  read_fallback (DataKey.Vote proposal_id voter).

Definition write_vote (proposal_id : Z) (voter : Address) (choice : VoteChoice.VoteChoice) : M unit :=
  write_entry (DataKey.Vote proposal_id voter) choice.

(** ** The execution allowlist *)

Definition bump_allowed_calls_ttl : M unit := extend_ttl DataKey.AllowedCalls.

Definition read_allowed_calls : M (list AllowedCall) :=
  let* has := phas DataKey.AllowedCalls in
  if has then
    bump_allowed_calls_ttl ;;
    let* o := pget DataKey.AllowedCalls in
    ret (default [] o)
  else ret [].

(** One turn of the loop of [write_allowed_calls]. *)
Definition dedup_call (deduped : list AllowedCall) (item : option AllowedCall) : M (list AllowedCall) :=
  let* call := ok_or item GovernanceError.InvalidCallArgs in
  ret (if contains_call deduped (ac_contract call) (ac_function call) then deduped else deduped ++ [call]).

Definition write_allowed_calls (calls : list (option AllowedCall)) : M Z :=
  fail_if (MAX_ALLOWED_CALLS <? Z.of_nat (length calls)) GovernanceError.InvalidCallArgs ;;
  let* deduped := mfold dedup_call [] calls in
  pset DataKey.AllowedCalls deduped ;;
  bump_allowed_calls_ttl ;;
  ret (Z.of_nat (length deduped)).

Definition is_executable_call (target : Address) (method : Symbol) : M bool :=
  let* this := current_contract_address in
  if bool_decide (target = this) then ret (bool_decide (method = SELF_METHOD_SET_ALLOWED_CALLS))
  else
    let* calls := read_allowed_calls in
    ret (contains_call calls target method).

Definition apply_set_allowed_calls (caller : Address) (calls : list (option AllowedCall)) (nonce : Z) : M unit :=
  let* this := current_contract_address in
  fail_if (bool_decide (caller <> this)) GovernanceError.Unauthorized ;;
  check_nonce caller nonce ;;
  let* stored := write_allowed_calls calls in
  publish (allowed_calls_set stored caller).

Definition dispatch_self_call (method : Symbol) (args : list Val) : M unit :=
  fail_if (bool_decide (method <> SELF_METHOD_SET_ALLOWED_CALLS)) GovernanceError.UnauthorizedCall ;;
  match args with
  | [arg0; arg1; arg2] =>
      let* caller := ok_or (val_address arg0) GovernanceError.InvalidCallArgs in
      let* calls := ok_or (val_calls arg1) GovernanceError.InvalidCallArgs in
      let* nonce := ok_or (val_u64 arg2) GovernanceError.InvalidCallArgs in
      apply_set_allowed_calls caller calls nonce
  | _ => throw GovernanceError.InvalidCallArgs
  end.

(** ** Entrypoints *)

(** The nested loops that compare the signers pairwise. *)
Definition check_pair (signers : list Address) (i j : Z) : M unit :=
  let* x := unwrap (signers !! Z.to_nat i) in
  let* y := unwrap (signers !! Z.to_nat j) in
  assert_ (bool_decide (x <> y)).

Definition check_distinct (signers : list Address) : M unit :=
  let len := Z.of_nat (length signers) in
  for_each (fun i => for_each (check_pair signers i) (seqZ (i + 1) (len - (i + 1)))) (seqZ 0 len).

Definition constructor (signers : list Address) (threshold timelock_seconds : Z)
    (allowed_calls : list (option AllowedCall)) : M unit :=
  assert_ (negb (bool_decide (signers = []))) ;;
  assert_ ((0 <? threshold) && (threshold <=? Z.of_nat (length signers))) ;;
  check_distinct signers ;;
  iset DataKey.Signers signers ;;
  iset DataKey.Threshold threshold ;;
  iset DataKey.TimelockSeconds timelock_seconds ;;
  let* r := attempt (write_allowed_calls allowed_calls) in
  assert_ (match r with inl _ => true | inr _ => false end).

(** The record [propose] stores. *)
Definition new_proposal (id : Z) (caller target : Address) (method : Symbol) (args : list Val)
    (description : Symbol) (now timelock_seconds : Z) : Proposal Val :=
  mkProposal id caller target method args description ProposalStatus.Pending 0 0 now
    (saturating U64 (now + DEFAULT_PROPOSAL_TTL_SECONDS)) 0 0 timelock_seconds.

Definition propose (caller target : Address) (method : Symbol) (args : list Val) (description : Symbol)
    (nonce : Z) : M Z :=
  require_auth caller ;;
  check_nonce caller nonce ;;
  require_signer caller ;;
  let* executable := is_executable_call target method in
  fail_if (negb executable) GovernanceError.UnauthorizedCall ;;
  let* count := read_proposal_count in
  let* proposal_id := arith U64 (count + 1) in
  write_proposal_count proposal_id ;;
  let* t := iget DataKey.TimelockSeconds in
  let timelock_seconds : Z := default DEFAULT_TIMELOCK_SECONDS t in
  let* now := ledger_timestamp in
  write_proposal proposal_id
    (new_proposal proposal_id caller target method args description now timelock_seconds) ;;
  publish (proposal_created proposal_id target caller) ;;
  ret proposal_id.

(** The guards both votes start with: the proposal is pending, not expired, and
    the caller has not voted on it. *)
Definition open_ballot (caller : Address) (proposal_id nonce : Z) : M (Proposal Val) :=
  require_auth caller ;;
  check_nonce caller nonce ;;
  require_signer caller ;;
  let* o := read_proposal proposal_id in
  let* proposal := ok_or o GovernanceError.ProposalNotFound in
  fail_if (bool_decide (pr_status proposal <> ProposalStatus.Pending)) GovernanceError.NotPending ;;
  let* expired := is_expired proposal in
  fail_if expired GovernanceError.ProposalExpired ;;
  let* prior := read_vote proposal_id caller in
  fail_if (bool_decide (is_Some prior)) GovernanceError.AlreadyVoted ;;
  ret proposal.

Definition vote_approve (caller : Address) (proposal_id nonce : Z) : M unit :=
  let* proposal := open_ballot caller proposal_id nonce in
  write_vote proposal_id caller VoteChoice.Approve ;;
  let* t := iget DataKey.Threshold in
  let threshold : Z := default 1 t in
  let* n := arith U32 (pr_approval_count proposal + 1) in
  let* now := ledger_timestamp in
  let counted := with_approvals n proposal in
  let proposal :=
    if threshold <=? n then with_queued_at now (with_status ProposalStatus.Queued counted) else counted in
  write_proposal proposal_id proposal ;;
  publish (vote_cast proposal_id caller (pr_status proposal)).

Definition vote_veto (caller : Address) (proposal_id nonce : Z) : M unit :=
  let* proposal := open_ballot caller proposal_id nonce in
  write_vote proposal_id caller VoteChoice.Veto ;;
  let* t := iget DataKey.Threshold in
  let threshold : Z := default 1 t in
  let* n := arith U32 (pr_veto_count proposal + 1) in
  let counted := with_vetoes n proposal in
  let proposal := if threshold <=? n then with_status ProposalStatus.Rejected counted else counted in
  write_proposal proposal_id proposal ;;
  publish (proposal_rejected proposal_id caller).

Definition cancel (caller : Address) (proposal_id nonce : Z) : M unit :=
  require_auth caller ;;
  check_nonce caller nonce ;;
  require_signer caller ;;
  let* o := read_proposal proposal_id in
  let* proposal := ok_or o GovernanceError.ProposalNotFound in
  fail_if (bool_decide (pr_status proposal <> ProposalStatus.Pending)) GovernanceError.NotPending ;;
  write_proposal proposal_id (with_status ProposalStatus.Cancelled proposal) ;;
  publish (proposal_cancelled proposal_id caller).

(** The call a proposal carries, dispatched inside the contract or sent out. *)
Definition dispatch (proposal : Proposal Val) : M unit :=
  let* this := current_contract_address in
  if bool_decide (pr_target proposal = this) then
    dispatch_self_call (pr_method proposal) (pr_args proposal)
  else
    let* calls := read_allowed_calls in
    fail_if (negb (contains_call calls (pr_target proposal) (pr_method proposal)))
      GovernanceError.UnauthorizedCall ;;
    invoke_contract (pr_target proposal)
      (call_any (pr_target proposal) (pr_method proposal) (pr_args proposal)) ;;
    ret tt.

Definition execute (caller : Address) (proposal_id nonce : Z) : M unit :=
  require_auth caller ;;
  check_nonce caller nonce ;;
  let* o := read_proposal proposal_id in
  let* proposal := ok_or o GovernanceError.ProposalNotFound in
  fail_if (bool_decide (pr_status proposal <> ProposalStatus.Queued)) GovernanceError.NotQueued ;;
  let* expired := is_expired proposal in
  fail_if expired GovernanceError.ProposalExpired ;;
  let* now := ledger_timestamp in
  fail_if (now <? saturating U64 (pr_queued_at proposal + pr_timelock_seconds proposal))
    GovernanceError.TimelockNotElapsed ;;
  dispatch proposal ;;
  write_proposal proposal_id (with_executed_at now (with_status ProposalStatus.Executed proposal)) ;;
  publish (proposal_executed proposal_id (pr_target proposal)).

Definition set_allowed_calls (caller : Address) (calls : list (option AllowedCall)) (nonce : Z) : M unit :=
  require_auth caller ;;
  apply_set_allowed_calls caller calls nonce.

Definition get_allowed_calls : M (list AllowedCall) := read_allowed_calls.

Definition is_call_allowed (contract : Address) (function : Symbol) : M bool :=
  let* calls := read_allowed_calls in ret (contains_call calls contract function).

(** One turn of the loop of [migrate_storage]. *)
Definition migrate_proposal (migrated id : Z) : M Z :=
  let* current := pget (DataKey.Proposal id) in
  match current with
  | Some _ => ret migrated
  | None =>
      let* legacy := iget (DataKey.Proposal id) in
      match legacy with
      | Some proposal =>
          write_proposal id proposal ;;
          arith U64 (migrated + 1)
      | None => ret migrated
      end
  end.

Definition migrate_storage (caller : Address) : M Z :=
  require_auth caller ;;
  require_signer caller ;;
  let* version := storage_version in
  if STORAGE_VERSION_PERSISTENT <=? version then ret 0
  else
    let* c := iget DataKey.ProposalCount in
    let* migrated :=
      match c with
      | Some count =>
          let* current := pget DataKey.ProposalCount in
          when (negb (bool_decide (is_Some current))) (write_proposal_count count) ;;
          mfold migrate_proposal 0 (seqZ 1 count)
      | None => ret 0
      end in
    iset DataKey.StorageVersion STORAGE_VERSION_PERSISTENT ;;
    ret migrated.

Definition get_proposal (proposal_id : Z) : M (Proposal Val) :=
  let* o := read_proposal proposal_id in ok_or o GovernanceError.ProposalNotFound.

Definition get_vote (proposal_id : Z) (signer : Address) : M (option VoteChoice.VoteChoice) :=
  read_vote proposal_id signer.

Definition proposal_count : M Z := read_proposal_count.

Definition get_signers : M (list Address) :=
  let* o := iget DataKey.Signers in ret (default [] o).

Definition get_threshold : M Z :=
  let* o := iget DataKey.Threshold in ret (default 1 o).

Definition get_timelock : M Z :=
  let* o := iget DataKey.TimelockSeconds in ret (default DEFAULT_TIMELOCK_SECONDS o).

Definition is_signer (address : Address) : M bool :=
  let* o := iget DataKey.Signers in
  ret (match o with Some signers => bool_decide (address ∈ signers) | None => false end).

(** ** Executions *)

Inductive Call :=
| CPropose (caller target : Address) (method : Symbol) (args : list Val) (description : Symbol) (nonce : Z)
| CApprove (caller : Address) (proposal_id nonce : Z)
| CVeto (caller : Address) (proposal_id nonce : Z)
| CCancel (caller : Address) (proposal_id nonce : Z)
| CExecute (caller : Address) (proposal_id nonce : Z)
| CSetAllowed (caller : Address) (calls : list (option AllowedCall)) (nonce : Z)
| CMigrate (caller : Address).

Definition exec (c : Call) : M unit :=
  match c with
  | CPropose a t m args d n => propose a t m args d n ;; ret tt
  | CApprove a i n => vote_approve a i n
  | CVeto a i n => vote_veto a i n
  | CCancel a i n => cancel a i n
  | CExecute a i n => execute a i n
  | CSetAllowed a calls n => set_allowed_calls a calls n
  | CMigrate a => migrate_storage a ;; ret tt
  end.

(** The states the constructor leaves; its arguments are machine integers. *)
Definition deployed (s : state) : Prop :=
  exists e signers threshold timelock calls w,
    in_range U32 threshold = true /\ in_range U64 timelock = true /\
    constructor signers threshold timelock calls e (empty_state w) = Ok tt s.
End governance.

(** ** Views of the state *)

Section views.
Context {W : Type} {HV : HostVal}.
Implicit Types s : cstate DataKey ty Event W.

(** What a read finds: the persistent entry, else the one of an earlier version. *)
Definition stored s (k : DataKey) : option (ty k) :=
  match sget k (pers s) with Some v => Some v | None => sget k (inst s) end.

Definition signers_of s : list Address := default [] (sget DataKey.Signers (inst s)).
Definition threshold_of s : Z := default 1 (sget DataKey.Threshold (inst s)).
Definition timelock_of s : Z := default DEFAULT_TIMELOCK_SECONDS (sget DataKey.TimelockSeconds (inst s)).
Definition proposal_of s (i : Z) : option (Proposal Val) := stored s (DataKey.Proposal i).
Definition vote_of s (i : Z) (a : Address) : option VoteChoice.VoteChoice := stored s (DataKey.Vote i a).
Definition count_of s : Z := default 0 (stored s DataKey.ProposalCount).
Definition nonce_of s (a : Address) : Z := default 0 (stored s (DataKey.Nonce a)).
Definition allowed_of s : list AllowedCall := default [] (sget DataKey.AllowedCalls (pers s)).

(** The signers who made the choice [c] on proposal [i]. *)
Definition voters s (c : VoteChoice.VoteChoice) (i : Z) : list Address :=
  filter (fun a => vote_of s i a = Some c) (signers_of s).
End views.

(** The nonce entries of an address. *)
Definition nonce_key (a : Address) (k : DataKey) : Prop :=
  k = DataKey.Nonce a \/ k = DataKey.NonceInitialized a.

(** The two stores agree but for the nonce entries of [a]. *)
Definition nonce_only {HV : HostVal} (a : Address) (m m' : store DataKey ty) : Prop :=
  forall k, ~ nonce_key a k -> sget k m' = sget k m.

Section specs.
Context {W : Type} `{!World W} {HV : HostVal} `{!Targets W}.
Local Abbreviation state := (cstate DataKey ty Event W).
Implicit Types (s : state) (e : Env).

(** *** What the helpers do *)

Lemma gov_extend_Ok k e s u s' : @extend_ttl W _ k e s = Ok u s' -> exists l, s' = put_live l s.
Proof. apply pextend_Ok. Qed.

Lemma write_entry_Ok k v e s u s' :
  @write_entry W _ k v e s = Ok u s' -> exists l, s' = put_live l (put_pers k v s).
Proof. unfold write_entry, extend_ttl. intros H. inv_ok H. by eexists. Qed.

Lemma write_nonce_Ok a n e s u s' :
  @write_nonce W _ a n e s = Ok u s' ->
  exists l, s' = put_live l (put_pers (DataKey.NonceInitialized a) true (put_pers (DataKey.Nonce a) n s)).
Proof. unfold write_nonce, extend_ttl. intros H. inv_ok H. by eexists. Qed.

Lemma read_fallback_Ok k e s o s' :
  @read_fallback W _ k e s = Ok o s' -> o = stored s k /\ exists l, s' = put_live l s.
Proof.
  unfold read_fallback, stored. intros (x&s1&[-> ->]%pget_Ok&H)%bind_Ok.
  destruct (sget k (pers s)) as [v|].
  - apply bind_Ok in H as (?&s1&[l ->]%gov_extend_Ok&[-> ->]%ret_Ok). split; [done|by exists l].
  - apply iget_Ok in H as [-> ->]. split; [done|]. exists (live s). by destruct s.
Qed.

Lemma read_proposal_Ok i e s o s' :
  @read_proposal W _ i e s = Ok o s' -> proposal_of s i = o /\ exists l, s' = put_live l s.
Proof. intros [-> Hl]%(read_fallback_Ok (DataKey.Proposal i)). done. Qed.

Lemma read_vote_Ok i a e s o s' :
  @read_vote W _ i a e s = Ok o s' -> vote_of s i a = o /\ exists l, s' = put_live l s.
Proof. intros [-> Hl]%(read_fallback_Ok (DataKey.Vote i a)). done. Qed.

Lemma write_proposal_Ok i p e s u s' :
  @write_proposal W _ i p e s = Ok u s' -> exists l, s' = put_live l (put_pers (DataKey.Proposal i) p s).
Proof. apply (write_entry_Ok (DataKey.Proposal i)). Qed.

Lemma write_vote_Ok i a c e s u s' :
  @write_vote W _ i a c e s = Ok u s' -> exists l, s' = put_live l (put_pers (DataKey.Vote i a) c s).
Proof. apply (write_entry_Ok (DataKey.Vote i a)). Qed.

Lemma write_count_Ok c e s u s' :
  @write_proposal_count W _ c e s = Ok u s' -> exists l, s' = put_live l (put_pers DataKey.ProposalCount c s).
Proof. apply (write_entry_Ok DataKey.ProposalCount). Qed.

Lemma nonce_only_trans a (m1 m2 m3 : store DataKey ty) :
  nonce_only a m1 m2 -> nonce_only a m2 m3 -> nonce_only a m1 m3.
Proof. intros H1 H2 k Hk. by rewrite H2, H1. Qed.

Lemma nonce_only_write a n (m : store DataKey ty) :
  nonce_only a m (sset (DataKey.NonceInitialized a) true (sset (DataKey.Nonce a) n m)).
Proof. intros k Hk. unfold nonce_key in Hk. by rewrite !sget_sset_ne by naive_solver. Qed.

Lemma gov_get_nonce_Ok a e s n s' :
  @get_nonce W _ a e s = Ok n s' ->
  n = nonce_of s a /\ inst s' = inst s /\ world s' = world s /\ nonce_only a (pers s) (pers s') /\
  events s' = events s.
Proof.
  unfold get_nonce, nonce_of, stored. intros (x&s1&[-> ->]%pget_Ok&H)%bind_Ok.
  destruct (sget (DataKey.Nonce a) (pers s)) as [v|].
  { apply bind_Ok in H as (?&s1&[l ->]%gov_extend_Ok&[-> ->]%ret_Ok). by split_and!. }
  apply bind_Ok in H as (x&s1&[-> ->]%iget_Ok&H).
  destruct (sget (DataKey.Nonce a) (inst s)) as [v|].
  { apply bind_Ok in H as (?&s1&[l ->]%write_nonce_Ok&[-> ->]%ret_Ok). split_and!; try done.
    apply nonce_only_write. }
  apply bind_Ok in H as (m&s1&Hm&H). apply bind_Ok in H as (?&s2&[-> ->]%fail_if_Ok&[-> ->]%ret_Ok).
  unfold has_nonce_marker in Hm. apply bind_Ok in Hm as (b&s2&[Hb ->]%phas_Ok&Hm).
  destruct b; [by inv_ok Hm|]. apply ret_Ok in Hm as [_ ->]. by split_and!.
Qed.

(** Consuming a nonce touches the nonce entries of the caller only. *)
Lemma gov_check_nonce_Ok a n e s u s' :
  @check_nonce W _ a n e s = Ok u s' ->
  n = nonce_of s a /\ inst s' = inst s /\ world s' = world s /\ events s' = events s /\
  nonce_only a (pers s) (pers s') /\ (in_range U64 (n + 1) = true -> nonce_of s' a = n + 1).
Proof.
  unfold check_nonce, set_nonce.
  intros (c&s1&(->&Hi&Hw&Hp&He)%gov_get_nonce_Ok&H)%bind_Ok.
  apply bind_Ok in H as (?&s2&[Hn ->]%fail_if_Ok&H). guards.
  apply bind_Ok in H as (nx&s2&(->&_&Hnx&_)%arith_Ok&H).
  apply bind_Ok in H as (?&s2&[l ->]%write_nonce_Ok&[l' ->]%iextend_Ok). host_cbn.
  split_and!; try done.
  - eapply nonce_only_trans; [exact Hp|apply nonce_only_write].
  - intros Hr. unfold nonce_of, stored. host_cbn. store_simp. simpl. by apply Hnx.
Qed.

Lemma require_signer_Ok a e s u s' :
  @require_signer W _ a e s = Ok u s' -> a ∈ signers_of s /\ s' = s.
Proof.
  unfold require_signer, signers_of. intros (o&s1&[-> ->]%iget_Ok&H)%bind_Ok.
  apply bind_Ok in H as (l&s1&[Hl ->]%ok_or_Ok&H). rewrite Hl.
  apply fail_if_Ok in H as [H ->]. guards. done.
Qed.

Lemma gov_expired_Ok p e s b s' :
  @is_expired W _ p e s = Ok b s' -> b = (pr_expires_at p <=? timestamp e) /\ s' = s.
Proof. unfold is_expired. intros H. by inv_ok H. Qed.

Lemma read_allowed_Ok e s l s' :
  @read_allowed_calls W _ e s = Ok l s' -> l = allowed_of s /\ exists x, s' = put_live x s.
Proof.
  unfold read_allowed_calls, allowed_of. intros (b&s1&[-> ->]%phas_Ok&H)%bind_Ok.
  case_bool_decide as Hb.
  - apply bind_Ok in H as (?&s1&[x ->]%gov_extend_Ok&H). inv_ok H. host_cbn. split; [done|by exists x].
  - apply (ret_Ok []) in H as [-> ->]. apply eq_None_not_Some in Hb. rewrite Hb.
    split; [done|]. exists (live s). by destruct s.
Qed.

Lemma executable_Ok t m e s b s' :
  @is_executable_call W _ t m e s = Ok b s' ->
  b = (if decide (t = self e) then bool_decide (m = SELF_METHOD_SET_ALLOWED_CALLS)
       else contains_call (allowed_of s) t m) /\ exists x, s' = put_live x s.
Proof.
  unfold is_executable_call. intros (a&s1&[-> ->]%current_Ok&H)%bind_Ok.
  case_bool_decide as Ht.
  - apply ret_Ok in H as [-> ->]. rewrite decide_True by done. split; [done|]. exists (live s). by destruct s.
  - apply bind_Ok in H as (l&s1&[-> [x ->]]%read_allowed_Ok&[-> ->]%ret_Ok).
    rewrite decide_False by done. split; [done|by exists x].
Qed.

Lemma count_read_Ok e s c s' :
  @read_proposal_count W _ e s = Ok c s' -> c = count_of s /\ s' = s.
Proof.
  unfold read_proposal_count, count_of, stored. intros (o&s1&[-> ->]%pget_Ok&H)%bind_Ok.
  destruct (sget DataKey.ProposalCount (pers s)) as [v|].
  - by apply ret_Ok in H as [-> ->].
  - apply bind_Ok in H as (o&s1&[-> ->]%iget_Ok&H). by apply (ret_Ok (default 0 _)) in H as [-> ->].
Qed.
End specs.

Ltac inv_hook H ::=
  lazymatch type of H with
  | extend_ttl _ _ _ = Ok _ _ => apply gov_extend_Ok in H as [? ?]; subst
  | bump_allowed_calls_ttl _ _ = Ok _ _ => apply gov_extend_Ok in H as [? ?]; subst
  | write_entry _ _ _ _ = Ok _ _ => apply write_entry_Ok in H as [? ?]; subst
  | write_proposal _ _ _ _ = Ok _ _ => apply write_proposal_Ok in H as [? ?]; subst
  | write_vote _ _ _ _ _ = Ok _ _ => apply write_vote_Ok in H as [? ?]; subst
  | write_proposal_count _ _ _ = Ok _ _ => apply write_count_Ok in H as [? ?]; subst
  | read_proposal _ _ _ = Ok _ _ => apply read_proposal_Ok in H as [? [? ?]]; subst
  | read_vote _ _ _ _ = Ok _ _ => apply read_vote_Ok in H as [? [? ?]]; subst
  | read_proposal_count _ _ = Ok _ _ => apply count_read_Ok in H as [? ?]; subst
  | read_allowed_calls _ _ = Ok _ _ => apply read_allowed_Ok in H as [? [? ?]]; subst
  | is_executable_call _ _ _ _ = Ok _ _ => apply executable_Ok in H as [? [? ?]]; subst
  | require_signer _ _ _ = Ok _ _ => apply require_signer_Ok in H as [? ?]; subst
  | is_expired _ _ _ = Ok _ _ => apply gov_expired_Ok in H as [? ?]; subst
  end.

(** ** The allowlist *)

Lemma contains_call_spec l a f : contains_call l a f = true <-> mkAllowedCall a f ∈ l.
Proof.
  induction l as [|[b g] l IH]; simpl; [by rewrite elem_of_nil|].
  rewrite elem_of_cons, <- IH. repeat case_bool_decide; simpl; split; intuition congruence.
Qed.

(** A list an allowlist entry can hold. *)
Definition allowlist_ok (l : list AllowedCall) : Prop :=
  NoDup l /\ Z.of_nat (length l) <= MAX_ALLOWED_CALLS.

Section allowlist.
Context {W : Type} `{!World W} {HV : HostVal} `{!Targets W}.
Local Abbreviation state := (cstate DataKey ty Event W).
Implicit Types (s : state) (e : Env).

Lemma dedup_call_Ok acc item e s acc' s' :
  @dedup_call W _ acc item e s = Ok acc' s' ->
  s' = s /\ exists call, item = Some call /\
    acc' = if decide (call ∈ acc) then acc else acc ++ [call].
Proof.
  unfold dedup_call. intros (c&s1&[-> ->]%ok_or_Ok&[-> ->]%ret_Ok)%bind_Ok.
  split; [done|]. exists c. split; [done|]. destruct c as [a f]; simpl.
  destruct (contains_call acc a f) eqn:Hc.
  - apply contains_call_spec in Hc. by rewrite decide_True.
  - rewrite decide_False; [done|]. rewrite <- contains_call_spec. by rewrite Hc.
Qed.

Lemma dedup_loop_Ok calls acc e s r s' :
  mfold (@dedup_call W _) acc calls e s = Ok r s' -> NoDup acc ->
  s' = s /\ NoDup r /\ (length r <= length acc + length calls)%nat /\
  (forall c, c ∈ r <-> c ∈ acc \/ Some c ∈ calls) /\ None ∉ calls.
Proof.
  induction calls as [|x calls IH] in acc, s |- *; intros H Hnd.
  - apply (ret_Ok acc r e) in H as [-> ->]. split_and!; try done; [simpl; lia| |apply not_elem_of_nil].
    intros c. rewrite elem_of_nil. tauto.
  - apply mfold_cons_Ok in H as (acc1&s1&(->&call&->&->)%dedup_call_Ok&H).
    apply IH in H as (->&Hr&Hlen&Hel&Hnone).
    + split_and!; try done.
      * etransitivity; [exact Hlen|]. case_decide; rewrite ?length_app; simpl; lia.
      * intros c. rewrite Hel, elem_of_cons. case_decide; [naive_solver|].
        rewrite elem_of_app, list_elem_of_singleton. naive_solver.
      * rewrite elem_of_cons. intros [[=]|?]. by apply Hnone.
    + case_decide as Hin; [done|]. apply NoDup_snoc; done.
Qed.

(** What is stored is the given list without its duplicates. *)
Lemma write_allowed_Ok calls e s r s' :
  @write_allowed_calls W _ calls e s = Ok r s' ->
  exists l x, s' = put_live x (put_pers DataKey.AllowedCalls l s) /\ r = Z.of_nat (length l) /\
    allowlist_ok l /\ None ∉ calls /\ forall c, c ∈ l <-> Some c ∈ calls.
Proof.
  unfold write_allowed_calls. intros (?&s1&[Hlen ->]%fail_if_Ok&H)%bind_Ok. guards.
  apply bind_Ok in H as (l&s1&Hl&H). apply dedup_loop_Ok in Hl as (->&Hnd&Hle&Hel&Hnone); [|apply NoDup_nil_2].
  inv_ok H. host_cbn. exists l. eexists. split_and!; try done.
  - split; [done|]. simpl in Hle. lia.
  - intros c. rewrite Hel, elem_of_nil. naive_solver.
Qed.
End allowlist.

Section operations.
Context {W : Type} `{!World W} {HV : HostVal} `{!Targets W}.
Local Abbreviation state := (cstate DataKey ty Event W).
Implicit Types (s : state) (e : Env).

(** ** What the entrypoints do *)

(** [a] consumed nonce [n]: only its nonce entries moved. *)
Definition nonce_used s (a : Address) (n : Z) s1 : Prop :=
  n = nonce_of s a /\ inst s1 = inst s /\ world s1 = world s /\ nonce_only a (pers s) (pers s1) /\
  (in_range U64 (n + 1) = true -> nonce_of s1 a = n + 1).

Lemma check_nonce_used a n e s u s' : check_nonce a n e s = Ok u s' -> nonce_used s a n s'.
Proof. intros (?&?&?&?&?&?)%gov_check_nonce_Ok. by split_and!. Qed.

Lemma gov_signed_Ok a n e s {B} (k : contract DataKey ty GovernanceError.GovernanceError Event W B) r s' :
  (require_auth a ;; check_nonce a n ;; k) e s = Ok r s' ->
  is_authorized e a = true /\ exists s1, nonce_used s a n s1 /\ k e s1 = Ok r s'.
Proof.
  intros (?&s1&[Ha ->]%require_auth_Ok&H)%bind_Ok.
  apply bind_Ok in H as ([]&s1&Hn%check_nonce_used&H). split; [done|]. by exists s1.
Qed.

(** Everything but the nonce entries reads the same afterwards. *)
Lemma nonce_used_stored s a n s1 k : nonce_used s a n s1 -> ~ nonce_key a k -> stored s1 k = stored s k.
Proof. intros (_&Hi&_&Hp&_) Hk. unfold stored. by rewrite Hi, Hp. Qed.

Lemma nonce_used_views s a n s1 :
  nonce_used s a n s1 ->
  (forall i, proposal_of s1 i = proposal_of s i) /\ (forall i b, vote_of s1 i b = vote_of s i b) /\
  count_of s1 = count_of s /\ allowed_of s1 = allowed_of s /\ signers_of s1 = signers_of s /\
  threshold_of s1 = threshold_of s /\ timelock_of s1 = timelock_of s /\ world s1 = world s.
Proof.
  intros Hs. pose proof Hs as (_&Hi&Hw&Hp&_).
  assert (Hk : forall k, (forall b, k <> DataKey.Nonce b) -> (forall b, k <> DataKey.NonceInitialized b) ->
    ~ nonce_key a k) by (unfold nonce_key; naive_solver).
  split_and!; intros; unfold proposal_of, vote_of, count_of, allowed_of, signers_of, threshold_of, timelock_of;
    rewrite ?Hi, ?Hp, ?(nonce_used_stored _ _ _ _ _ Hs) by (apply Hk; done); done.
Qed.

(** The state in which the ballot of [a] on the pending proposal [p] is admitted. *)
Definition may_vote e s (a : Address) (i : Z) (p : Proposal Val) : Prop :=
  is_authorized e a = true /\ a ∈ signers_of s /\ proposal_of s i = Some p /\
  pr_status p = ProposalStatus.Pending /\ timestamp e < pr_expires_at p /\ vote_of s i a = None.

Lemma open_ballot_Ok a i n e s p s' :
  open_ballot a i n e s = Ok p s' ->
  may_vote e s a i p /\ exists s1 l, nonce_used s a n s1 /\ s' = put_live l s1.
Proof.
  unfold open_ballot. intros [Ha (s1&Hs&H)]%gov_signed_Ok.
  destruct (nonce_used_views _ _ _ _ Hs) as (Hpr&Hvo&_&_&Hsg&_).
  inv_ok H. guards. unfold may_vote. rewrite <- Hsg, <- Hpr, <- Hvo.
  split; [|by eexists _, _].
  split_and!; try done. by apply eq_None_not_Some.
Qed.

(** What a vote makes of the proposal. *)
Definition approved (threshold now n : Z) (p : Proposal Val) : Proposal Val :=
  let counted := with_approvals n p in
  if threshold <=? n then with_queued_at now (with_status ProposalStatus.Queued counted) else counted.
Definition vetoed (threshold n : Z) (p : Proposal Val) : Proposal Val :=
  let counted := with_vetoes n p in
  if threshold <=? n then with_status ProposalStatus.Rejected counted else counted.

Lemma approve_vote_Ok a i n e s u s' :
  vote_approve a i n e s = Ok u s' ->
  exists p k s1, may_vote e s a i p /\ nonce_used s a n s1 /\
    (in_range U32 (pr_approval_count p + 1) = true -> k = pr_approval_count p + 1) /\
    inst s' = inst s /\ world s' = world s /\
    pers s' = sset (DataKey.Proposal i) (approved (threshold_of s) (timestamp e) k p)
             (sset (DataKey.Vote i a) VoteChoice.Approve (pers s1)).
Proof.
  unfold vote_approve. intros (p&s0&(Hv&s1&l&Hs&->)%open_ballot_Ok&H)%bind_Ok.
  pose proof Hs as (_&Hi&Hw&_). inv_ok H. host_cbn. rewrite Hi in *.
  eexists p, _, s1. by split_and!.
Qed.

Lemma veto_vote_Ok a i n e s u s' :
  vote_veto a i n e s = Ok u s' ->
  exists p k s1, may_vote e s a i p /\ nonce_used s a n s1 /\
    (in_range U32 (pr_veto_count p + 1) = true -> k = pr_veto_count p + 1) /\
    inst s' = inst s /\ world s' = world s /\
    pers s' = sset (DataKey.Proposal i) (vetoed (threshold_of s) k p)
             (sset (DataKey.Vote i a) VoteChoice.Veto (pers s1)).
Proof.
  unfold vote_veto. intros (p&s0&(Hv&s1&l&Hs&->)%open_ballot_Ok&H)%bind_Ok.
  pose proof Hs as (_&Hi&Hw&_). inv_ok H. host_cbn. rewrite Hi in *.
  eexists p, _, s1. by split_and!.
Qed.

Lemma gov_cancel_Ok a i n e s u s' :
  cancel a i n e s = Ok u s' ->
  exists p s1, nonce_used s a n s1 /\ is_authorized e a = true /\ a ∈ signers_of s /\
    proposal_of s i = Some p /\ pr_status p = ProposalStatus.Pending /\
    inst s' = inst s /\ world s' = world s /\
    pers s' = sset (DataKey.Proposal i) (with_status ProposalStatus.Cancelled p) (pers s1).
Proof.
  unfold cancel. intros [Ha (s1&Hs&H)]%gov_signed_Ok. pose proof Hs as (_&Hi&Hw&_).
  destruct (nonce_used_views _ _ _ _ Hs) as (Hpr&_&_&_&Hsg&_).
  inv_ok H. guards. host_cbn. eexists _, s1. rewrite <- Hsg, <- Hpr. by split_and!.
Qed.

(** What [propose] and [execute] accept on the current allowlist. *)
Definition callable e s (t : Address) (m : Symbol) : Prop :=
  (t = self e /\ m = SELF_METHOD_SET_ALLOWED_CALLS) \/ (t <> self e /\ mkAllowedCall t m ∈ allowed_of s).

Lemma gov_propose_Ok a t m args d n e s i s' :
  propose a t m args d n e s = Ok i s' ->
  exists s1, nonce_used s a n s1 /\ is_authorized e a = true /\ a ∈ signers_of s /\ callable e s t m /\
    (in_range U64 (count_of s + 1) = true -> i = count_of s + 1) /\
    inst s' = inst s /\ world s' = world s /\
    pers s' = sset (DataKey.Proposal i) (new_proposal i a t m args d (timestamp e) (timelock_of s))
             (sset DataKey.ProposalCount i (pers s1)).
Proof.
  unfold propose. intros [Ha (s1&Hs&H)]%gov_signed_Ok. pose proof Hs as (_&Hi&Hw&_).
  destruct (nonce_used_views _ _ _ _ Hs) as (_&_&Hct&Hal&Hsg&_&Htl&_).
  apply bind_Ok in H as (?&s2&[Hin ->]%require_signer_Ok&H).
  apply bind_Ok in H as (b&s2&(Hb&l&->)%executable_Ok&H).
  apply bind_Ok in H as (?&s2&[Hb' ->]%fail_if_Ok&H). guards. subst b.
  inv_ok H. host_cbn. exists s1. unfold timelock_of. rewrite <- Hi.
  split_and!; try done; try congruence.
  - unfold callable. rewrite <- Hal. case_decide; [left|right]; (split; [done|]).
    + by apply bool_decide_eq_true in Hb'.
    + by apply contains_call_spec.
  - rewrite <- Hct. unfold count_of, stored in *. by host_cbn.
Qed.
End operations.

Section execution.
Context {W : Type} `{!World W} {HV : HostVal} `{!Targets W}.
Local Abbreviation state := (cstate DataKey ty Event W).
Implicit Types (s : state) (e : Env).

(** The allowlist became [l], on behalf of the contract itself. *)
Definition reconfigured e s (calls : list (option AllowedCall)) (l : list AllowedCall) s' : Prop :=
  exists n s1, nonce_used s (self e) n s1 /\ inst s' = inst s /\ world s' = world s /\
    pers s' = sset DataKey.AllowedCalls l (pers s1) /\
    allowlist_ok l /\ forall c, c ∈ l <-> Some c ∈ calls.

Lemma apply_set_allowed_Ok a calls n e s u s' :
  apply_set_allowed_calls a calls n e s = Ok u s' ->
  a = self e /\ exists l, reconfigured e s calls l s'.
Proof.
  unfold apply_set_allowed_calls. intros (x&s1&[-> ->]%current_Ok&H)%bind_Ok.
  apply bind_Ok in H as (?&s1&[Ha ->]%fail_if_Ok&H). guards. subst a. split; [done|].
  apply bind_Ok in H as (?&s1&Hs%check_nonce_used&H). pose proof Hs as (_&Hi&Hw&_).
  apply bind_Ok in H as (r&s2&(l&y&->&_&Hl&_&Hel)%write_allowed_Ok&H). inv_ok H. host_cbn.
  exists l, n, s1. by split_and!.
Qed.

Lemma set_allowed_Ok a calls n e s u s' :
  set_allowed_calls a calls n e s = Ok u s' ->
  is_authorized e (self e) = true /\ a = self e /\ exists l, reconfigured e s calls l s'.
Proof.
  unfold set_allowed_calls. intros (?&s1&[Ha ->]%require_auth_Ok&H)%bind_Ok.
  apply apply_set_allowed_Ok in H as [-> H]. done.
Qed.

(** The arguments of a self-administration call: the contract, the list, a nonce. *)
Definition self_args e (args : list Val) (calls : list (option AllowedCall)) : Prop :=
  exists arg0 arg1 arg2 n, args = [arg0; arg1; arg2] /\ val_address arg0 = Some (self e) /\
    val_calls arg1 = Some calls /\ val_u64 arg2 = Some n.

(** The call of proposal [p] on another contract, made in the name of this one. *)
Definition carried e (p : Proposal Val) (w w' : W) : Prop :=
  exists v, call_any (pr_target p) (pr_method p) (pr_args p) (sub_env (pr_target p) e) w = EOk v w'.

(** The call of proposal [p] was carried out. *)
Definition dispatched e (p : Proposal Val) s s' : Prop :=
  (pr_target p = self e /\ pr_method p = SELF_METHOD_SET_ALLOWED_CALLS /\
   exists calls l, self_args e (pr_args p) calls /\ reconfigured e s calls l s') \/
  (pr_target p <> self e /\ mkAllowedCall (pr_target p) (pr_method p) ∈ allowed_of s /\
   pers s' = pers s /\ inst s' = inst s /\ carried e p (world s) (world s')).

Lemma dispatch_self_Ok m args e s u s' :
  dispatch_self_call m args e s = Ok u s' ->
  m = SELF_METHOD_SET_ALLOWED_CALLS /\ exists calls l, self_args e args calls /\ reconfigured e s calls l s'.
Proof.
  unfold dispatch_self_call. intros (?&s1&[Hm ->]%fail_if_Ok&H)%bind_Ok. guards. split; [done|].
  destruct args as [|a0 [|a1 [|a2 [|]]]]; try by inv_ok H.
  apply bind_Ok in H as (a&s1&[Ha ->]%ok_or_Ok&H). apply bind_Ok in H as (calls&s1&[Hc ->]%ok_or_Ok&H).
  apply bind_Ok in H as (n&s1&[Hn ->]%ok_or_Ok&H). apply apply_set_allowed_Ok in H as (->&l&H).
  exists calls, l. split; [|done]. by exists a0, a1, a2, n.
Qed.

Lemma dispatch_Ok p e s u s' : dispatch p e s = Ok u s' -> dispatched e p s s'.
Proof.
  unfold dispatch. intros (x&s1&[-> ->]%current_Ok&H)%bind_Ok. case_bool_decide as Ht.
  - left. apply dispatch_self_Ok in H as [Hm H]. done.
  - right. split; [done|].
    apply bind_Ok in H as (l&s1&[-> [x ->]]%read_allowed_Ok&H).
    apply bind_Ok in H as (?&s1&[Hc ->]%fail_if_Ok&H). guards. apply contains_call_spec in Hc.
    apply bind_Ok in H as (v&s1&(w&Hw&->)%invoke_Ok&[-> ->]%ret_Ok).
    split_and!; [done..|by exists v].
Qed.

(** What a dispatch leaves alone. *)
Lemma dispatched_views e p s s' :
  dispatched e p s s' ->
  inst s' = inst s /\ (forall i, proposal_of s' i = proposal_of s i) /\
  (forall i a, vote_of s' i a = vote_of s i a) /\ count_of s' = count_of s /\
  (forall a, a <> self e -> nonce_of s' a = nonce_of s a) /\ wstep (world s) (world s') /\
  (allowlist_ok (allowed_of s) -> allowlist_ok (allowed_of s')).
Proof.
  unfold proposal_of, vote_of, count_of, nonce_of, stored, allowed_of.
  intros [(_&_&calls&l&_&n&s1&(_&_&_&Hp&_)&Hi&Hw&Hs&Hl&_)|(_&_&Hs&Hi&(v&Hw%call_any_spec))]; rewrite Hi, Hs.
  - split_and!; try done; intros; rewrite ?sget_sset_ne, ?sget_sset_eq by done; try done;
      rewrite ?Hp by (unfold nonce_key; naive_solver); try done.
    by rewrite Hw.
  - by split_and!.
Qed.

(** The guards of an execution. *)
Definition may_execute e s (i : Z) (p : Proposal Val) : Prop :=
  proposal_of s i = Some p /\ pr_status p = ProposalStatus.Queued /\
  saturating U64 (pr_queued_at p + pr_timelock_seconds p) <= timestamp e < pr_expires_at p.

Definition executed (now : Z) (p : Proposal Val) : Proposal Val :=
  with_executed_at now (with_status ProposalStatus.Executed p).

Lemma execute_Ok a i n e s u s' :
  execute a i n e s = Ok u s' ->
  exists p s1 s2, is_authorized e a = true /\ nonce_used s a n s1 /\ may_execute e s i p /\
    dispatched e p s1 s2 /\ inst s' = inst s /\ world s' = world s2 /\
    pers s' = sset (DataKey.Proposal i) (executed (timestamp e) p) (pers s2).
Proof.
  unfold execute. intros [Ha (s1&Hs&H)]%gov_signed_Ok. pose proof Hs as (_&Hi&Hw&_).
  destruct (nonce_used_views _ _ _ _ Hs) as (Hpr&_).
  apply bind_Ok in H as (o&s2&[Ho [l ->]]%read_proposal_Ok&H).
  apply bind_Ok in H as (p&s2&[-> ->]%ok_or_Ok&H).
  apply bind_Ok in H as (?&s2&[Hst ->]%fail_if_Ok&H).
  apply bind_Ok in H as (b&s2&[-> ->]%gov_expired_Ok&H). apply bind_Ok in H as (?&s2&[Hex ->]%fail_if_Ok&H).
  apply bind_Ok in H as (t&s2&[-> ->]%timestamp_Ok&H). apply bind_Ok in H as (?&s2&[Hlk ->]%fail_if_Ok&H).
  guards. apply bind_Ok in H as (?&s2&Hd%dispatch_Ok&H).
  pose proof (dispatched_views _ _ _ _ Hd) as (Hi2&_). inv_ok H. host_cbn.
  exists p, s1, s2. unfold may_execute. rewrite <- Hpr. split_and!; try done; congruence.
Qed.

(** What an execution did: the call of the proposal, on the state it found. *)
Lemma execute_effect a i n e s u s' :
  execute a i n e s = Ok u s' ->
  exists p, proposal_of s i = Some p /\
    ((pr_target p <> self e /\ mkAllowedCall (pr_target p) (pr_method p) ∈ allowed_of s /\
      carried e p (world s) (world s') /\ allowed_of s' = allowed_of s) \/
     (pr_target p = self e /\ pr_method p = SELF_METHOD_SET_ALLOWED_CALLS /\ world s' = world s /\
      exists calls, self_args e (pr_args p) calls /\ forall x, x ∈ allowed_of s' <-> Some x ∈ calls)).
Proof.
  intros (p&s1&s2&_&Hu&(Hp&_)&Hd&_&Hw&Hs)%execute_Ok. exists p. split; [done|].
  destruct (nonce_used_views _ _ _ _ Hu) as (_&_&_&Hal&_). pose proof Hu as (_&_&Hw1&_).
  destruct Hd as [(Ht&Hm&calls&l&Hargs&(n2&s3&Hs3&_&Hw2&Hp2&_&Hel))|(Ht&Hin&Hp2&_&Hcar)].
  - right. pose proof Hs3 as (_&_&Hw3&_). split_and!; [done|done|congruence|].
    exists calls. split; [done|]. unfold allowed_of. rewrite Hs, Hp2, sget_sset_ne, sget_sset_eq by done. done.
  - left. rewrite Hal in Hin. split_and!; [done|done|by rewrite Hw, <- Hw1|].
    rewrite <- Hal. unfold allowed_of. by rewrite Hs, Hp2, sget_sset_ne.
Qed.

(** *** Migration *)

(** [s'] is [s] with some instance entries under keys in [P] copied to persistent
    storage, none over an entry that is already there. *)
Definition copied (P : DataKey -> Prop) s s' : Prop :=
  inst s' = inst s /\ world s' = world s /\
  forall k, sget k (pers s') = sget k (pers s) \/
    (P k /\ sget k (pers s) = None /\ sget k (pers s') = sget k (inst s)).

Lemma copied_refl P s : copied P s s.
Proof. split_and!; auto. Qed.

Lemma copied_trans P s1 s2 s3 : copied P s1 s2 -> copied P s2 s3 -> copied P s1 s3.
Proof.
  intros (Hi&Hw&Hp) (Hi'&Hw'&Hp'). split_and!; [congruence..|]. intros k.
  rewrite Hi in Hp'. destruct (Hp k) as [Hv|(HP&Hn&Hv)], (Hp' k) as [Hv'|(HP'&Hn'&Hv')];
    rewrite ?Hv', ?Hv in *; auto.
Qed.

Lemma copied_write P k v s l :
  sget k (pers s) = None -> sget k (inst s) = Some v -> P k ->
  copied P s (put_live l (put_pers k v s)).
Proof.
  intros Hn Hv HP. split_and!; [done..|]. intros j. host_cbn. store_case; [|by left].
  right. by rewrite Hv.
Qed.

(** Copying changes no read. *)
Lemma copied_stored P s s' k : copied P s s' -> stored s' k = stored s k.
Proof.
  intros (Hi&_&Hp). unfold stored. rewrite Hi. destruct (Hp k) as [->|(_&->&->)]; [done|].
  by destruct (sget k (inst s)).
Qed.

Lemma copied_pers P s s' k : copied P s s' -> is_Some (sget k (pers s)) -> is_Some (sget k (pers s')).
Proof. intros (_&_&Hp). destruct (Hp k) as [->|(_&->&_)]; [done|]. by intros []. Qed.

Lemma migrate_proposal_Ok m i e s m' s' :
  migrate_proposal m i e s = Ok m' s' ->
  copied (fun k => k = DataKey.Proposal i) s s' /\
  (is_Some (proposal_of s i) -> is_Some (sget (DataKey.Proposal i) (pers s'))).
Proof.
  unfold migrate_proposal, proposal_of, stored.
  intros (o&s1&[-> ->]%pget_Ok&H)%bind_Ok.
  destruct (sget (DataKey.Proposal i) (pers s)) as [p|] eqn:Hp.
  { apply ret_Ok in H as [-> ->]. rewrite Hp. split; [apply copied_refl|done]. }
  apply bind_Ok in H as (o&s1&[-> ->]%iget_Ok&H).
  destruct (sget (DataKey.Proposal i) (inst s)) as [p|] eqn:Hq.
  2: { apply ret_Ok in H as [-> ->]. split; [apply copied_refl|by intros []]. }
  inv_ok H. split; [by apply copied_write|]. intros _. host_cbn. by rewrite sget_sset_eq.
Qed.

(** The keys a migration moves. *)
Definition movable (k : DataKey) : Prop := k = DataKey.ProposalCount \/ exists i, k = DataKey.Proposal i.

Lemma copied_weaken (P Q : DataKey -> Prop) s s' : (forall k, P k -> Q k) -> copied P s s' -> copied Q s s'.
Proof. intros HPQ (Hi&Hw&Hp). split_and!; [done..|]. intros k. destruct (Hp k) as [|(?&?&?)]; auto. Qed.

Lemma migrate_loop_Ok ids m e s m' s' :
  mfold migrate_proposal m ids e s = Ok m' s' ->
  copied movable s s' /\
  (forall i, i ∈ ids -> is_Some (proposal_of s i) -> is_Some (sget (DataKey.Proposal i) (pers s'))).
Proof.
  induction ids as [|i ids IH] in m, s |- *; intros H.
  - apply (ret_Ok m m' e) in H as [-> ->]. split; [apply copied_refl|]. by intros i ?%elem_of_nil.
  - apply mfold_cons_Ok in H as (m1&s1&[Hc1 Hp1]%migrate_proposal_Ok&H). apply IH in H as [Hc2 Hp2].
    assert (copied movable s s1) as Hc by (eapply copied_weaken, Hc1; intros k ->; right; eauto).
    split; [by eapply copied_trans|].
    intros j [->|Hj]%elem_of_cons Hj'; [by eapply copied_pers, Hp1|]. apply Hp2; [done|].
    unfold proposal_of. by rewrite (copied_stored _ _ _ _ Hc).
Qed.

(** A migration: nothing reads differently, but the version marker. *)
Lemma migrate_Ok a e s m s' :
  migrate_storage a e s = Ok m s' ->
  is_authorized e a = true /\ a ∈ signers_of s /\
  ((STORAGE_VERSION_PERSISTENT <= default 0 (sget DataKey.StorageVersion (inst s)) /\ m = 0 /\ s' = s) \/
   (default 0 (sget DataKey.StorageVersion (inst s)) < STORAGE_VERSION_PERSISTENT /\
    exists s1, copied movable s s1 /\
      s' = put_inst DataKey.StorageVersion STORAGE_VERSION_PERSISTENT s1 /\
      forall c i, sget DataKey.ProposalCount (inst s) = Some c -> 1 <= i <= c ->
        is_Some (proposal_of s i) -> is_Some (sget (DataKey.Proposal i) (pers s1)))).
Proof.
  unfold migrate_storage, storage_version. intros (?&s1&[Ha ->]%require_auth_Ok&H)%bind_Ok.
  apply bind_Ok in H as (?&s1&[Hin ->]%require_signer_Ok&H). do 2 (split; [done|]).
  apply bind_Ok in H as (v&s1&Hv&H).
  apply bind_Ok in Hv as (o&s2&[-> ->]%iget_Ok&Hv). apply (ret_Ok (default 0 _)) in Hv as [-> ->].
  destruct (_ <=? _) eqn:Hver; guards; [left|right].
  { apply (ret_Ok 0) in H as [-> ->]. done. }
  split; [done|]. apply bind_Ok in H as (o&s1&[-> ->]%iget_Ok&H).
  apply bind_Ok in H as (m1&s1&Hm&H). apply bind_Ok in H as (?&s2&->%iset_Ok&[-> ->]%ret_Ok).
  exists s1. destruct (sget DataKey.ProposalCount (inst s)) as [c|] eqn:Hc.
  2: { apply (ret_Ok 0) in Hm as [_ ->]. split_and!; [apply copied_refl|done|done]. }
  apply bind_Ok in Hm as (cur&s2&[-> ->]%pget_Ok&Hm).
  apply bind_Ok in Hm as (?&s2&Hw&Hm). apply migrate_loop_Ok in Hm as [Hcp Hpr].
  assert (copied movable s s2) as Hc2.
  { apply when_Ok in Hw as [[Hn Hw]|[_ ->]]; [|apply copied_refl].
    apply write_count_Ok in Hw as [l ->]. guards. apply copied_write; [|done|by left].
    by apply eq_None_not_Some. }
  split_and!; [by eapply copied_trans|done|].
  intros c' i [= <-] Hi Hsome. apply Hpr; [apply elem_of_seqZ; lia|].
  unfold proposal_of. by rewrite (copied_stored _ _ _ _ Hc2).
Qed.
End execution.

(** ** Transitions of the proposal table

    The abstract machine: a transaction changes the table of proposals and votes
    by one of these changes. *)

Inductive change `{HV : HostVal} :=
| Unchanged
| Created (i : Z) (p : Proposal Val)
| Voted (i : Z) (a : Address) (c : VoteChoice.VoteChoice) (p : Proposal Val)
| Moved (i : Z) (p : Proposal Val).

Section machine.
Context {W : Type} `{!World W} {HV : HostVal} `{!Targets W}.
Local Abbreviation state := (cstate DataKey ty Event W).
Implicit Types (s : state) (e : Env) (ch : change).

Definition next_proposal ch (j : Z) (o : option (Proposal Val)) : option (Proposal Val) :=
  match ch with
  | Unchanged => o
  | Created i p | Voted i _ _ p | Moved i p => if decide (j = i) then Some p else o
  end.

Definition next_vote ch (j : Z) (b : Address) (o : option VoteChoice.VoteChoice) : option VoteChoice.VoteChoice :=
  match ch with
  | Voted i a c _ => if decide ((j, b) = (i, a)) then Some c else o
  | _ => o
  end.

Definition next_count ch (n : Z) : Z := match ch with Created i _ => i | _ => n end.

(** [s'] is [s] after the change [ch]; the configuration never moves. *)
Definition changed s ch s' : Prop :=
  signers_of s' = signers_of s /\ threshold_of s' = threshold_of s /\ timelock_of s' = timelock_of s /\
  (forall j, proposal_of s' j = next_proposal ch j (proposal_of s j)) /\
  (forall j b, vote_of s' j b = next_vote ch j b (vote_of s j b)) /\
  count_of s' = next_count ch (count_of s).

(** The call [c] justifies the change [ch] in [s]. *)
Definition justified e s (c : Call) ch : Prop :=
  match c with
  | CPropose a t m args d n =>
      is_authorized e a = true /\ a ∈ signers_of s /\ callable e s t m /\
      exists i, (in_range U64 (count_of s + 1) = true -> i = count_of s + 1) /\
        ch = Created i (new_proposal i a t m args d (timestamp e) (timelock_of s))
  | CApprove a i n =>
      exists p k, may_vote e s a i p /\
        (in_range U32 (pr_approval_count p + 1) = true -> k = pr_approval_count p + 1) /\
        ch = Voted i a VoteChoice.Approve (approved (threshold_of s) (timestamp e) k p)
  | CVeto a i n =>
      exists p k, may_vote e s a i p /\
        (in_range U32 (pr_veto_count p + 1) = true -> k = pr_veto_count p + 1) /\
        ch = Voted i a VoteChoice.Veto (vetoed (threshold_of s) k p)
  | CCancel a i n =>
      exists p, is_authorized e a = true /\ a ∈ signers_of s /\ proposal_of s i = Some p /\
        pr_status p = ProposalStatus.Pending /\ ch = Moved i (with_status ProposalStatus.Cancelled p)
  | CExecute a i n =>
      exists p, is_authorized e a = true /\ may_execute e s i p /\ ch = Moved i (executed (timestamp e) p)
  | CSetAllowed _ _ _ | CMigrate _ => ch = Unchanged
  end.

(** Two states that differ in the persistent entry of a proposal. *)
Lemma changed_moved s s' i p :
  inst s' = inst s -> (forall j, j <> i -> proposal_of s' j = proposal_of s j) ->
  proposal_of s' i = Some p -> (forall j b, vote_of s' j b = vote_of s j b) -> count_of s' = count_of s ->
  changed s (Moved i p) s'.
Proof.
  intros Hi Hj Hp Hv Hc. unfold changed, signers_of, threshold_of, timelock_of. rewrite Hi.
  split_and!; try done. intros j. simpl. case_decide as Hd; [by subst|auto].
Qed.

Lemma proposal_of_put s s' i j p m :
  inst s' = inst s -> pers s' = sset (DataKey.Proposal i) p m ->
  sget (DataKey.Proposal j) m = sget (DataKey.Proposal j) (pers s) ->
  proposal_of s' j = if decide (j = i) then Some p else proposal_of s j.
Proof.
  intros Hi Hp Hm. unfold proposal_of, stored. rewrite Hp, Hi.
  case_decide as Hd; [subst; by rewrite sget_sset_eq|].
  rewrite sget_sset_ne by congruence. by rewrite Hm.
Qed.

Lemma nonce_key_ne a k :
  (forall b, k <> DataKey.Nonce b) -> (forall b, k <> DataKey.NonceInitialized b) -> ~ nonce_key a k.
Proof. unfold nonce_key. naive_solver. Qed.

Lemma nonce_used_get s a n s1 k :
  nonce_used s a n s1 -> (forall b, k <> DataKey.Nonce b) -> (forall b, k <> DataKey.NonceInitialized b) ->
  sget k (pers s1) = sget k (pers s).
Proof. intros (_&_&_&Hp&_) H1 H2. apply Hp. by apply nonce_key_ne. Qed.

(** A vote's two writes. *)
Lemma changed_voted s s1 s' a b n i c p :
  nonce_used s a n s1 -> inst s' = inst s ->
  pers s' = sset (DataKey.Proposal i) p (sset (DataKey.Vote i b) c (pers s1)) ->
  changed s (Voted i b c p) s'.
Proof.
  intros Hs Hi Hp. unfold changed, signers_of, threshold_of, timelock_of. rewrite Hi. split_and!; try done.
  - intros j. simpl. eapply proposal_of_put; [done..|]. rewrite sget_sset_ne by done.
    by eapply nonce_used_get.
  - intros j d. unfold vote_of, stored. rewrite Hp, Hi. rewrite sget_sset_ne by done. simpl.
    case_decide as Hd; [simplify_eq; by rewrite sget_sset_eq|].
    rewrite sget_sset_ne by congruence. by rewrite (nonce_used_get _ _ _ _ _ Hs).
  - unfold count_of, stored. rewrite Hp, Hi, !sget_sset_ne by done. by rewrite (nonce_used_get _ _ _ _ _ Hs).
Qed.

Lemma changed_created s s1 s' a n i p :
  nonce_used s a n s1 -> inst s' = inst s ->
  pers s' = sset (DataKey.Proposal i) p (sset DataKey.ProposalCount i (pers s1)) ->
  changed s (Created i p) s'.
Proof.
  intros Hs Hi Hp. unfold changed, signers_of, threshold_of, timelock_of. rewrite Hi. split_and!; try done.
  - intros j. simpl. eapply proposal_of_put; [done..|]. rewrite sget_sset_ne by done. by eapply nonce_used_get.
  - intros j d. unfold vote_of, stored. rewrite Hp, Hi, !sget_sset_ne by done.
    by rewrite (nonce_used_get _ _ _ _ _ Hs).
  - unfold count_of, stored. rewrite Hp, Hi, sget_sset_ne by done. by rewrite sget_sset_eq.
Qed.

(** Rewriting a proposal in a state [s2] that reads like [s] on the table. *)
Lemma changed_put s s2 s' i p :
  inst s' = inst s -> inst s2 = inst s ->
  (forall j, proposal_of s2 j = proposal_of s j) -> (forall j b, vote_of s2 j b = vote_of s j b) ->
  count_of s2 = count_of s -> pers s' = sset (DataKey.Proposal i) p (pers s2) -> changed s (Moved i p) s'.
Proof.
  intros Hi Hi2 Hpr Hvo Hct Hp. assert (inst s' = inst s2) as Hi' by congruence. apply changed_moved; try done.
  - intros j Hj. rewrite (proposal_of_put s2 s' i j p (pers s2) Hi' Hp eq_refl). by rewrite decide_False.
  - rewrite (proposal_of_put s2 s' i i p (pers s2) Hi' Hp eq_refl). by rewrite decide_True.
  - intros j b. rewrite <- Hvo. unfold vote_of, stored. by rewrite Hp, Hi', sget_sset_ne by done.
  - rewrite <- Hct. unfold count_of, stored. by rewrite Hp, Hi', sget_sset_ne by done.
Qed.

Lemma changed_same s s' :
  (forall k, k <> DataKey.StorageVersion -> sget k (inst s') = sget k (inst s)) ->
  (forall j, proposal_of s' j = proposal_of s j) -> (forall j b, vote_of s' j b = vote_of s j b) ->
  count_of s' = count_of s -> changed s Unchanged s'.
Proof.
  intros Hi Hpr Hvo Hct. unfold changed, signers_of, threshold_of, timelock_of. rewrite !Hi by done.
  by split_and!.
Qed.

Lemma migrated_views s s1 s' :
  copied movable s s1 -> s' = put_inst DataKey.StorageVersion STORAGE_VERSION_PERSISTENT s1 ->
  (forall k, k <> DataKey.StorageVersion -> sget k (inst s') = sget k (inst s)) /\
  (forall k, k <> DataKey.StorageVersion -> stored s' k = stored s k).
Proof.
  intros Hc ->. pose proof Hc as (Hi&_&_). host_cbn.
  assert (forall k, k <> DataKey.StorageVersion ->
    sget k (sset DataKey.StorageVersion STORAGE_VERSION_PERSISTENT (inst s1)) = sget k (inst s)) as Hk.
  { intros k Hk. by rewrite sget_sset_ne, Hi. }
  split; [done|]. intros k Hne. rewrite <- (copied_stored _ _ _ k Hc). unfold stored. host_cbn.
  by rewrite Hk, Hi.
Qed.

(** Every successful transaction performs the change its call justifies. *)
Lemma gov_exec_change c e s s' :
  exec c e s = Ok tt s' ->
  exists ch, justified e s c ch /\ changed s ch s' /\ wstep (world s) (world s').
Proof.
  destruct c as [a t m args d n|a i n|a i n|a i n|a i n|a calls n|a]; simpl; intros H.
  - apply bind_Ok in H as (i&s1&H&[_ ->]%ret_Ok).
    apply gov_propose_Ok in H as (s2&Hs&Ha&Hin&Hc&Hi&Hin'&Hw&Hp).
    eexists (Created i _). split_and!; [done..| |by eapply changed_created|by rewrite Hw]. by exists i.
  - apply approve_vote_Ok in H as (p&k&s1&Hv&Hs&Hk&Hi&Hw&Hp).
    eexists (Voted i a _ _). split_and!; [by exists p, k|by eapply changed_voted|by rewrite Hw].
  - apply veto_vote_Ok in H as (p&k&s1&Hv&Hs&Hk&Hi&Hw&Hp).
    eexists (Voted i a _ _). split_and!; [by exists p, k|by eapply changed_voted|by rewrite Hw].
  - apply gov_cancel_Ok in H as (p&s1&Hs&Ha&Hin&Hpr&Hst&Hi&Hw&Hp).
    destruct (nonce_used_views _ _ _ _ Hs) as (Hv1&Hv2&Hv3&_). pose proof Hs as (_&Hi1&_).
    eexists (Moved i _). split_and!; [by exists p|by eapply changed_put|by rewrite Hw].
  - apply execute_Ok in H as (p&s1&s2&Ha&Hs&Hm&Hd&Hi&Hw&Hp).
    destruct (nonce_used_views _ _ _ _ Hs) as (Hv1&Hv2&Hv3&_). pose proof Hs as (_&Hi1&Hw1&_).
    apply dispatched_views in Hd as (Hi2&Hd1&Hd2&Hd3&_&Hd4&_).
    eexists (Moved i _). split_and!; [by exists p| |by rewrite Hw, <- Hw1].
    eapply (changed_put s s2); try done; intros; congruence.
  - apply set_allowed_Ok in H as (_&->&l&n'&s1&Hs&Hi&Hw&Hp&_). exists Unchanged.
    split_and!; [done| |by rewrite Hw]. apply changed_same; intros; try by rewrite Hi.
    all: unfold proposal_of, vote_of, count_of, stored; rewrite Hp, Hi, sget_sset_ne by done;
      by rewrite (nonce_used_get _ _ _ _ _ Hs).
  - apply bind_Ok in H as (m&s1&H&[_ ->]%ret_Ok). exists Unchanged. split; [done|].
    apply migrate_Ok in H as (_&_&[(_&_&->)|(_&s2&Hc&Heq&_)]); [by split|].
    destruct (migrated_views _ _ _ Hc Heq) as [Hi Hst]. pose proof Hc as (_&Hw&_).
    split; [|by rewrite Heq; host_cbn; rewrite Hw].
    apply changed_same; [done|..]; intros; unfold proposal_of, vote_of, count_of; by rewrite Hst.
Qed.

(** Only an execution moves another contract, by the call of its proposal. *)
Lemma gov_exec_world c e s s' :
  exec c e s = Ok tt s' -> world s' = world s \/
  exists a i k p, c = CExecute a i k /\ proposal_of s i = Some p /\ pr_target p <> self e /\
    carried e p (world s) (world s') /\ proposal_of s' i = Some (executed (timestamp e) p).
Proof.
  intros H. pose proof (gov_exec_change c e s s' H) as (ch&Hj&(_&_&_&Hpr&_)&_).
  destruct c as [a t m args d n|a i n|a i n|a i n|a i n|a calls n|a]; simpl in H.
  - apply bind_Ok in H as (i&s1&H&[_ ->]%ret_Ok). apply gov_propose_Ok in H as (s2&Hs&_&_&_&_&_&Hw&_). by left.
  - apply approve_vote_Ok in H as (p&k&s1&_&_&_&_&Hw&_). by left.
  - apply veto_vote_Ok in H as (p&k&s1&_&_&_&_&Hw&_). by left.
  - apply gov_cancel_Ok in H as (p&s1&_&_&_&_&_&_&Hw&_). by left.
  - destruct Hj as (p&_&(Hp&_)&->). apply execute_Ok in H as (p'&s1&s2&_&Hs&(Hp'&_)&Hd&_&Hw&_).
    rewrite Hp in Hp'. injection Hp' as <-. pose proof Hs as (_&_&Hw1&_). rewrite Hw, <- Hw1.
    destruct Hd as [(_&_&calls&l&_&n'&s3&Hn3&_&Hw2&_)|(Hne&_&_&_&Hcar)].
    + left. destruct Hn3 as (_&_&Hw3&_). congruence.
    + right. exists a, i, n, p. split_and!; try done. rewrite Hpr. simpl. by rewrite decide_True.
  - apply set_allowed_Ok in H as (_&->&l&n'&s1&_&_&Hw&_). by left.
  - apply bind_Ok in H as (m&s1&H&[_ ->]%ret_Ok).
    apply migrate_Ok in H as (_&_&[(_&_&->)|(_&s2&(_&Hw&_)&Heq&_)]); [by left|]. left. by rewrite Heq.
Qed.
End machine.

(** ** The invariant *)

Section invariant.
Context {W : Type} `{!World W} {HV : HostVal} `{!Targets W}.
Local Abbreviation state := (cstate DataKey ty Event W).
Local Abbreviation reachable := (reach deployed exec).
Implicit Types (s : state) (e : Env) (ch : change) (p : Proposal Val).

(** A proposal and its tally: the counters are the numbers of signers that voted,
    and the status is what they decide. *)
Definition tallied s (i : Z) p : Prop :=
  pr_id p = i /\
  pr_approval_count p = Z.of_nat (length (voters s VoteChoice.Approve i)) /\
  pr_veto_count p = Z.of_nat (length (voters s VoteChoice.Veto i)) /\
  pr_timelock_seconds p = timelock_of s /\
  pr_expires_at p = saturating U64 (pr_created_at p + DEFAULT_PROPOSAL_TTL_SECONDS) /\
  match pr_status p with
  | ProposalStatus.Pending => pr_approval_count p < threshold_of s /\ pr_veto_count p < threshold_of s
  | ProposalStatus.Queued | ProposalStatus.Executed =>
      pr_approval_count p = threshold_of s /\ pr_veto_count p < threshold_of s
  | ProposalStatus.Rejected => pr_approval_count p < threshold_of s /\ pr_veto_count p = threshold_of s
  | ProposalStatus.Cancelled => pr_approval_count p < threshold_of s /\ pr_veto_count p < threshold_of s
  | ProposalStatus.Expired => False
  end.

Record inv (n : Z) s : Prop := {
  inv_signers : NoDup (signers_of s);
  inv_threshold : 0 < threshold_of s <= Z.of_nat (length (signers_of s)) /\ in_range U32 (threshold_of s) = true;
  inv_count : 0 <= count_of s <= n;
  inv_ids i : is_Some (proposal_of s i) <-> 1 <= i <= count_of s;
  inv_votes i a c : vote_of s i a = Some c -> is_Some (proposal_of s i);
  inv_tally i p : proposal_of s i = Some p -> tallied s i p;
}.

Lemma voters_same s s' c i :
  signers_of s' = signers_of s -> (forall a, vote_of s' i a = vote_of s i a) -> voters s' c i = voters s c i.
Proof. intros Hs Hv. unfold voters. rewrite Hs. apply filter_ext_elem. intros a _. by rewrite Hv. Qed.

(** The voters after one more vote. *)
Lemma voters_voted s s' i a c d :
  NoDup (signers_of s) -> a ∈ signers_of s -> vote_of s i a = None -> signers_of s' = signers_of s ->
  (forall b, vote_of s' i b = if decide (b = a) then Some c else vote_of s i b) ->
  length (voters s' d i) = ((if decide (c = d) then 1 else 0) + length (voters s d i))%nat.
Proof.
  intros Hnd Hin Hn Hs Hv. unfold voters. rewrite Hs. case_decide as Hcd.
  - subst d. apply (length_filter_one_more _ _ _ a); try done.
    + by rewrite Hn.
    + rewrite Hv. by rewrite decide_True.
    + intros b Hb. rewrite Hv. by rewrite decide_False.
  - simpl. f_equal. apply filter_ext_elem. intros b _. rewrite Hv. case_decide as Hb; [|done].
    subst. rewrite Hn. split; intros [=]; congruence.
Qed.

Lemma approved_fields t now k p :
  pr_id (approved t now k p) = pr_id p /\ pr_approval_count (approved t now k p) = k /\
  pr_veto_count (approved t now k p) = pr_veto_count p /\
  pr_timelock_seconds (approved t now k p) = pr_timelock_seconds p /\
  pr_expires_at (approved t now k p) = pr_expires_at p /\ pr_created_at (approved t now k p) = pr_created_at p /\
  pr_status (approved t now k p) = (if t <=? k then ProposalStatus.Queued else pr_status p).
Proof. unfold approved. by destruct (t <=? k). Qed.

Lemma vetoed_fields t k p :
  pr_id (vetoed t k p) = pr_id p /\ pr_approval_count (vetoed t k p) = pr_approval_count p /\
  pr_veto_count (vetoed t k p) = k /\ pr_timelock_seconds (vetoed t k p) = pr_timelock_seconds p /\
  pr_expires_at (vetoed t k p) = pr_expires_at p /\ pr_created_at (vetoed t k p) = pr_created_at p /\
  pr_status (vetoed t k p) = (if t <=? k then ProposalStatus.Rejected else pr_status p).
Proof. unfold vetoed. by destruct (t <=? k). Qed.

(** A proposal whose ballot did not move keeps its tally. *)
Lemma tallied_same s s' i p :
  signers_of s' = signers_of s -> threshold_of s' = threshold_of s -> timelock_of s' = timelock_of s ->
  (forall a, vote_of s' i a = vote_of s i a) -> tallied s i p -> tallied s' i p.
Proof.
  intros Hs Ht Htl Hv. unfold tallied. rewrite !(voters_same s s') by done. by rewrite Ht, Htl.
Qed.

(** A counter below the threshold still counts exactly. *)
Lemma counter_step s n k v :
  inv n s -> 0 <= v < threshold_of s -> (in_range U32 (v + 1) = true -> k = v + 1) ->
  k = v + 1 /\ (threshold_of s <= k <-> k = threshold_of s).
Proof.
  intros [_ [Ht Hr%in_range_spec] _ _ _ _] Hv Hk.
  assert (k = v + 1) as ->; [|lia]. apply Hk, in_range_spec. pose proof (int_lo_hi U32). lia.
Qed.

Lemma tallied_approved s s' n a i p k e :
  inv n s -> may_vote e s a i p -> (in_range U32 (pr_approval_count p + 1) = true -> k = pr_approval_count p + 1) ->
  changed s (Voted i a VoteChoice.Approve (approved (threshold_of s) (timestamp e) k p)) s' ->
  tallied s' i (approved (threshold_of s) (timestamp e) k p).
Proof.
  intros Hinv (_&Hin&Hp&Hst&_&Hno) Hk (Hsg&Hth&Htl&_&Hv&_). simpl in Hv.
  pose proof (inv_tally _ _ Hinv _ _ Hp) as (Hid&Ha&Hve&Hlk&Hex&Hstat). rewrite Hst in Hstat.
  destruct (counter_step s n k (pr_approval_count p) Hinv) as [-> Hthr]; [lia|done|].
  destruct (approved_fields (threshold_of s) (timestamp e) (pr_approval_count p + 1) p)
    as (F1&F2&F3&F4&F5&F6&F7).
  assert (Hvo : forall d, length (voters s' d i) =
    ((if decide (VoteChoice.Approve = d) then 1 else 0) + length (voters s d i))%nat).
  { intros d. apply (voters_voted s s' i a); try done; [by apply Hinv|].
    intros b. rewrite Hv. repeat case_decide; naive_solver. }
  unfold tallied. rewrite F1, F2, F3, F4, F5, F6, F7, !Hvo, Hth, Htl. simpl.
  split_and!; try done; try lia. destruct (_ <=? _) eqn:Hle; guards; [lia|]. rewrite Hst. lia.
Qed.

Lemma tallied_vetoed s s' n a i p k e :
  inv n s -> may_vote e s a i p -> (in_range U32 (pr_veto_count p + 1) = true -> k = pr_veto_count p + 1) ->
  changed s (Voted i a VoteChoice.Veto (vetoed (threshold_of s) k p)) s' ->
  tallied s' i (vetoed (threshold_of s) k p).
Proof.
  intros Hinv (_&Hin&Hp&Hst&_&Hno) Hk (Hsg&Hth&Htl&_&Hv&_). simpl in Hv.
  pose proof (inv_tally _ _ Hinv _ _ Hp) as (Hid&Ha&Hve&Hlk&Hex&Hstat). rewrite Hst in Hstat.
  destruct (counter_step s n k (pr_veto_count p) Hinv) as [-> Hthr]; [lia|done|].
  destruct (vetoed_fields (threshold_of s) (pr_veto_count p + 1) p) as (F1&F2&F3&F4&F5&F6&F7).
  assert (Hvo : forall d, length (voters s' d i) =
    ((if decide (VoteChoice.Veto = d) then 1 else 0) + length (voters s d i))%nat).
  { intros d. apply (voters_voted s s' i a); try done; [by apply Hinv|].
    intros b. rewrite Hv. repeat case_decide; naive_solver. }
  unfold tallied. rewrite F1, F2, F3, F4, F5, F6, F7, !Hvo, Hth, Htl. simpl.
  split_and!; try done; try lia. destruct (_ <=? _) eqn:Hle; guards; [lia|]. rewrite Hst. lia.
Qed.
End invariant.

Section reachable.
Context {W : Type} `{!World W} {HV : HostVal} `{!Targets W}.
Local Abbreviation state := (cstate DataKey ty Event W).
Local Abbreviation reachable := (reach deployed exec).
Implicit Types (s : state) (e : Env) (ch : change) (p : Proposal Val).

(** The parts of the invariant a change of one existing proposal keeps. *)
Lemma inv_update n s s' i p ch :
  inv n s -> changed s ch s' -> is_Some (proposal_of s i) ->
  (forall j o, next_proposal ch j o = if decide (j = i) then Some p else o) ->
  (forall j b o, j <> i -> next_vote ch j b o = o) -> (forall c, next_count ch c = c) ->
  tallied s' i p -> inv n s'.
Proof.
  intros [H1 H2 H3 H4 H5 H6] (Hsg&Hth&Htl&Hpr&Hvo&Hct) Hi Hnp Hnv Hnc Ht.
  assert (Hsome : forall j, is_Some (proposal_of s' j) <-> is_Some (proposal_of s j)).
  { intros j. rewrite Hpr, Hnp. case_decide as Hd; [|done]. subst. split; [done|]. by intros _. }
  split; rewrite ?Hsg, ?Hth; try done.
  - by rewrite Hct, Hnc.
  - intros j. by rewrite Hsome, Hct, Hnc.
  - intros j a c Hv. apply Hsome. destruct (decide (j = i)) as [->|Hne]; [done|].
    rewrite Hvo, Hnv in Hv by done. by eapply H5.
  - intros j q Hq. rewrite Hpr, Hnp in Hq. case_decide as Hd; [by simplify_eq|].
    apply (tallied_same s s'); try done; [|by apply H6]. intros a. by rewrite Hvo, Hnv.
Qed.

Lemma inv_unchanged n s s' : inv n s -> changed s Unchanged s' -> inv n s'.
Proof.
  intros [H1 H2 H3 H4 H5 H6] (Hsg&Hth&Htl&Hpr&Hvo&Hct). simpl in *.
  split; rewrite ?Hsg, ?Hth, ?Hct; try done.
  - intros i. by rewrite Hpr.
  - intros i a c. rewrite Hvo, Hpr. apply H5.
  - intros i p. rewrite Hpr. intros Hp. apply (tallied_same s s'); try done. by apply H6.
Qed.

Lemma inv_weaken n m s : n <= m -> inv n s -> inv m s.
Proof. intros Hnm [H1 H2 H3 H4 H5 H6]. split; try done. lia. Qed.

(** A new proposal starts without votes. *)
Lemma inv_created n s s' i a t m args d now :
  inv n s -> n + 1 < 2 ^ 64 -> (in_range U64 (count_of s + 1) = true -> i = count_of s + 1) ->
  changed s (Created i (new_proposal i a t m args d now (timelock_of s))) s' -> inv (n + 1) s'.
Proof.
  intros [H1 H2 H3 H4 H5 H6] Hn Hi (Hsg&Hth&Htl&Hpr&Hvo&Hct). simpl in *.
  rewrite (Hi ltac:(apply in_range_spec; cbn [int_lo int_hi]; lia)) in *. clear Hi.
  assert (Hfresh : forall c, voters s' c (count_of s + 1) = []).
  { intros c. apply filter_none. intros b _. rewrite Hvo. intros Hv%H5%H4. lia. }
  split; rewrite ?Hsg, ?Hth, ?Hct; try done.
  - lia.
  - intros j. rewrite Hpr. case_decide as Hd; [subst; split; [lia|done]|]. rewrite H4. lia.
  - intros j b c. rewrite Hvo, Hpr. intros Hv%H5. case_decide; [done|exact Hv].
  - intros j p. rewrite Hpr. case_decide as Hd.
    + intros [= <-]. subst j. unfold tallied. rewrite !Hfresh, Htl, Hth. simpl. split_and!; try done; lia.
    + intros Hp. apply (tallied_same s s'); try done. by apply H6.
Qed.

Lemma gov_inv_exec n c e s s' : inv n s -> n + 1 < 2 ^ 64 -> exec c e s = Ok tt s' -> inv (n + 1) s'.
Proof.
  intros Hinv Hn (ch&Hj&Hc&_)%gov_exec_change.
  destruct c as [a t m args d k|a i k|a i k|a i k|a i k|a calls k|a]; simpl in Hj.
  - destruct Hj as (_&_&_&i&Hi&->). by eapply inv_created.
  - destruct Hj as (p&v&Hv&Hk&->). apply (inv_weaken n); [lia|]. pose proof Hv as (_&_&Hp&_).
    eapply (inv_update n s s' i); try done; [|by eapply tallied_approved].
    intros j b o Hj. simpl. by rewrite decide_False by congruence.
  - destruct Hj as (p&v&Hv&Hk&->). apply (inv_weaken n); [lia|]. pose proof Hv as (_&_&Hp&_).
    eapply (inv_update n s s' i); try done; [|by eapply tallied_vetoed].
    intros j b o Hj. simpl. by rewrite decide_False by congruence.
  - destruct Hj as (p&_&_&Hp&Hst&->). apply (inv_weaken n); [lia|].
    eapply (inv_update n s s' i); try done. destruct Hc as (Hsg&Hth&Htl&_&Hvo&_).
    apply (tallied_same s s'); try done.
    destruct (inv_tally _ _ Hinv _ _ Hp) as (?&?&?&?&?&Hstat). rewrite Hst in Hstat. by split_and!.
  - destruct Hj as (p&_&(Hp&Hst&_)&->). apply (inv_weaken n); [lia|].
    eapply (inv_update n s s' i); try done. destruct Hc as (Hsg&Hth&Htl&_&Hvo&_).
    apply (tallied_same s s'); try done.
    destruct (inv_tally _ _ Hinv _ _ Hp) as (?&?&?&?&?&Hstat). rewrite Hst in Hstat. by split_and!.
  - subst ch. apply (inv_weaken n); [lia|]. by eapply inv_unchanged.
  - subst ch. apply (inv_weaken n); [lia|]. by eapply inv_unchanged.
Qed.

(** *** Deployment *)

Lemma check_loop_Ok {A} (P : A -> Prop) (f : A -> contract DataKey ty GovernanceError.GovernanceError Event W unit)
    l e s u s' :
  (forall x s u s', f x e s = Ok u s' -> s' = s /\ P x) -> for_each f l e s = Ok u s' ->
  s' = s /\ forall x, x ∈ l -> P x.
Proof.
  intros Hf. induction l as [|x l IH] in s |- *; [intros [= <-]; split; [done|by intros j ?%elem_of_nil]|].
  intros (s1&[-> HP]%Hf&[-> Hl]%IH)%for_each_cons_Ok. split; [done|].
  by intros y [->|Hy]%elem_of_cons; auto.
Qed.

Lemma check_pair_Ok signers i j e s u s' :
  @check_pair W _ signers i j e s = Ok u s' ->
  s' = s /\ signers !! Z.to_nat i <> signers !! Z.to_nat j.
Proof. unfold check_pair. intros H. inv_ok H. guards. split; [done|]. congruence. Qed.

Lemma check_distinct_Ok signers e s u s' :
  @check_distinct W _ signers e s = Ok u s' -> s' = s /\ NoDup signers.
Proof.
  unfold check_distinct. intros H.
  apply (check_loop_Ok (fun i => forall j, j ∈ seqZ (i + 1) (Z.of_nat (length signers) - (i + 1)) ->
    signers !! Z.to_nat i <> signers !! Z.to_nat j)) in H as [-> Hall].
  - split; [done|]. apply NoDup_alt. intros i j x Hi Hj.
    pose proof (lookup_lt_Some _ _ _ Hi). pose proof (lookup_lt_Some _ _ _ Hj).
    destruct (decide (i = j)) as [|Hne]; [done|]. exfalso.
    destruct (decide (i < j)%nat).
    + apply (Hall (Z.of_nat i)) with (j := Z.of_nat j); rewrite ?elem_of_seqZ, ?Nat2Z.id; [lia..|congruence].
    + apply (Hall (Z.of_nat j)) with (j := Z.of_nat i); rewrite ?elem_of_seqZ, ?Nat2Z.id; [lia..|congruence].
  - intros i s1 u1 s1'. apply check_loop_Ok. intros j s2 u2 s2'. apply check_pair_Ok.
Qed.

Lemma gov_inv_init s : deployed s -> inv 0 s /\ allowlist_ok (allowed_of s).
Proof.
  intros (e&signers&threshold&timelock&calls&w&Hr&_&H). unfold constructor in H.
  apply bind_Ok in H as (?&s1&[_ ->]%assert_Ok&H). apply bind_Ok in H as (?&s1&[Ht ->]%assert_Ok&H). guards.
  apply bind_Ok in H as (?&s1&[-> Hnd]%check_distinct_Ok&H).
  apply bind_Ok in H as (?&s1&->%iset_Ok&H). apply bind_Ok in H as (?&s1&->%iset_Ok&H).
  apply bind_Ok in H as (?&s1&->%iset_Ok&H). apply bind_Ok in H as (r&s1&Hat&H).
  apply assert_Ok in H as [H ->].
  apply attempt_Ok in Hat as [(v&->&(l&lv&->&_&Hl&_)%write_allowed_Ok)|(y&->&_)]; [|done]. clear H.
  split; [split|]; unfold signers_of, threshold_of, count_of, proposal_of, vote_of, stored, allowed_of;
    intros; host_cbn; unfold empty_state in *; simpl in *; store_simp; simpl; try done; try lia.
  split; [by intros []|lia].
Qed.

Lemma gov_reachable_inv n s : reachable n s -> n < 2 ^ 64 -> inv n s.
Proof.
  revert n s. apply reach_ind_bounded.
  - intros s Hs. by apply gov_inv_init.
  - intros n s s' e c _ Hn Hinv He. by eapply gov_inv_exec.
  - intros n s Hs. eapply inv_weaken; [|done]. lia.
  - intros n s w Hs _. by destruct Hs; split.
Qed.
End reachable.

(** ** Properties *)

(** Later in the life of a proposal. *)
Definition status_le (x y : ProposalStatus.ProposalStatus) : Prop :=
  x = y \/ (x = ProposalStatus.Pending /\ y <> ProposalStatus.Expired) \/
  (x = ProposalStatus.Queued /\ y = ProposalStatus.Executed).

#[export] Instance status_le_preorder : PreOrder status_le.
Proof. split; red; unfold status_le; [auto|]. naive_solver congruence. Qed.

(** What nobody can change about a proposal. *)
Definition same_terms {V} (p q : Proposal V) : Prop :=
  pr_id p = pr_id q /\ pr_proposer p = pr_proposer q /\ pr_target p = pr_target q /\
  pr_method p = pr_method q /\ pr_args p = pr_args q /\ pr_description p = pr_description q /\
  pr_created_at p = pr_created_at q /\ pr_expires_at p = pr_expires_at q /\
  pr_timelock_seconds p = pr_timelock_seconds q.

#[export] Instance same_terms_equivalence {V} : Equivalence (@same_terms V).
Proof. unfold same_terms. split; red; [done|intuition congruence|intuition congruence]. Qed.

Section properties.
Context {W : Type} `{!World W} {HV : HostVal} `{!Targets W}.
Local Abbreviation state := (cstate DataKey ty Event W).
Local Abbreviation reachable := (reach deployed exec).
Implicit Types (s : state) (e : Env) (ch : change) (p : Proposal Val).

Lemma approved_terms t now k p : same_terms p (approved t now k p).
Proof. unfold approved. by destruct (t <=? k). Qed.
Lemma vetoed_terms t k p : same_terms p (vetoed t k p).
Proof. unfold vetoed. by destruct (t <=? k). Qed.

(** A justified change keeps every proposal and vote there is. *)
Lemma justified_lasting n e s c ch s' :
  inv n s -> n + 1 < 2 ^ 64 -> justified e s c ch -> changed s ch s' ->
  (forall i p, proposal_of s i = Some p ->
     exists q, proposal_of s' i = Some q /\ same_terms p q /\ status_le (pr_status p) (pr_status q)) /\
  (forall i a d, vote_of s i a = Some d -> vote_of s' i a = Some d).
Proof.
  intros Hinv Hn Hj (_&_&_&Hpr&Hvo&_).
  assert (Hkeep : forall i p q, proposal_of s i = Some p -> same_terms p q ->
    status_le (pr_status p) (pr_status q) ->
    (forall j o, next_proposal ch j o = if decide (j = i) then Some q else o) ->
    forall j p', proposal_of s j = Some p' ->
      exists q', proposal_of s' j = Some q' /\ same_terms p' q' /\ status_le (pr_status p') (pr_status q')).
  { intros i p q Hp Ht Hst Hnp j p' Hp'. rewrite Hpr, Hnp. case_decide as Hd; [|by exists p'].
    subst. rewrite Hp in Hp'. injection Hp' as <-. by exists q. }
  destruct c as [a t m args d k|a i k|a i k|a i k|a i k|a calls k|a]; simpl in Hj.
  - destruct Hj as (_&_&_&i&Hi&->). destruct Hinv as [_ _ H3 H4 _ _].
    rewrite (Hi ltac:(apply in_range_spec; cbn [int_lo int_hi]; lia)) in *. split.
    + intros j p Hp. exists p. rewrite Hpr. simpl.
      rewrite decide_False; [done|]. intros ->. assert (is_Some (proposal_of s (count_of s + 1))) as Hs by done.
      apply H4 in Hs. lia.
    + intros j b d' Hv. by rewrite Hvo.
  - destruct Hj as (p&v&(_&_&Hp&Hst&_&Hno)&_&->). split.
    + apply (Hkeep i p (approved (threshold_of s) (timestamp e) v p)); try done; [apply approved_terms|].
      destruct (approved_fields (threshold_of s) (timestamp e) v p) as (_&_&_&_&_&_&->). rewrite Hst.
      destruct (_ <=? _); [right; left; done|left; done].
    + intros j b d Hv. rewrite Hvo. simpl. by case_decide; simplify_eq.
  - destruct Hj as (p&v&(_&_&Hp&Hst&_&Hno)&_&->). split.
    + apply (Hkeep i p (vetoed (threshold_of s) v p)); try done; [apply vetoed_terms|].
      destruct (vetoed_fields (threshold_of s) v p) as (_&_&_&_&_&_&->). rewrite Hst.
      destruct (_ <=? _); [right; left; done|left; done].
    + intros j b d Hv. rewrite Hvo. simpl. by case_decide; simplify_eq.
  - destruct Hj as (p&_&_&Hp&Hst&->). split; [|intros j b d Hv; by rewrite Hvo].
    apply (Hkeep i p (with_status ProposalStatus.Cancelled p)); try done. rewrite Hst. right. left. done.
  - destruct Hj as (p&_&(Hp&Hst&_)&->). split; [|intros j b d Hv; by rewrite Hvo].
    apply (Hkeep i p (executed (timestamp e) p)); try done. rewrite Hst. right. right. done.
  - subst. split; intros; rewrite ?Hpr, ?Hvo; simpl; [by eexists|done].
  - subst. split; intros; rewrite ?Hpr, ?Hvo; simpl; [by eexists|done].
Qed.

(** What a later state keeps of an earlier one. *)
Definition keeps s (t : state) : Prop :=
  signers_of t = signers_of s /\ threshold_of t = threshold_of s /\ timelock_of t = timelock_of s /\
  (forall i p, proposal_of s i = Some p ->
     exists q, proposal_of t i = Some q /\ same_terms p q /\ status_le (pr_status p) (pr_status q)) /\
  (forall i a d, vote_of s i a = Some d -> vote_of t i a = Some d).

#[local] Instance keeps_preorder : PreOrder keeps.
Proof.
  split; red; unfold keeps.
  - intros s. split_and!; try done. intros i p Hp. by exists p.
  - intros s t u (S1&T1&L1&P1&V1) (S2&T2&L2&P2&V2). split_and!; try congruence.
    + intros i p (q&Hq&Ht&Hs)%P1. apply P2 in Hq as (q'&Hq'&Ht'&Hs'). exists q'.
      split_and!; [done|by etransitivity|by etransitivity].
    + eauto.
Qed.

Lemma reach_keeps n m s (t : state) :
  reachable n s -> reach (eq s) exec m t -> n + m < 2 ^ 64 -> keeps s t.
Proof.
  intros Hs Ht. induction Ht as [t <-|m t e c Ht IH|m t w Ht IH Hw]; intros Hn.
  - done.
  - etransitivity; [apply IH; lia|].
    pose proof (gov_reachable_inv _ _ (reach_trans _ _ _ _ _ _ Hs Ht) ltac:(lia)) as Hinv.
    destruct (exec c e t) as [[] t'|x t'|] eqn:He; simpl; [|done..].
    apply gov_exec_change in He as (ch&Hj&Hc&_).
    destruct (justified_lasting (n + m) _ _ _ _ _ Hinv ltac:(lia) Hj Hc).
    destruct Hc as (?&?&?&_). by split_and!.
  - by apply IH.
Qed.

(** C34: in every later state, a proposal still exists with the same target, method,
    arguments, timelock and expiry; its status has only moved from pending to queued,
    rejected or cancelled and from queued to executed; a vote that was cast is never
    changed or withdrawn; and the signers, the threshold and the timelock are the ones
    of the deployment. *)
Theorem proposal_lifecycle n m s (t : state) :
  reachable n s -> reach (eq s) exec m t -> n + m < 2 ^ 64 -> keeps s t.
Proof. apply reach_keeps. Qed.

(** In every reachable state the counters of a proposal are the numbers of signers
    whose recorded vote is an approval, respectively a veto; the proposal is queued or
    executed exactly when as many signers as the threshold approved it before as many
    vetoed it, and its timelock and expiry are the ones set when it was created. *)
Theorem tally_correct n s i p :
  reachable n s -> n < 2 ^ 64 -> proposal_of s i = Some p -> tallied s i p.
Proof. intros Hs Hn. by apply (inv_tally n), gov_reachable_inv. Qed.

(** C11: an execution that succeeds carries out a queued proposal that exactly
    [threshold] distinct signers approved, after its timelock and before its expiry, and
    its method is on the allowlist at that moment.  What it carries out is the call of the
    proposal and nothing else: either the proposal's method was called on its target with
    its arguments, in the name of the contract, and the world is what that call made of
    it; or the target is the contract itself, the world is untouched and the allowlist is
    the one in the arguments.  The proposal is executed afterwards and no later execution
    of it succeeds. *)
Theorem execution_authorised n s a i k e s' :
  reachable n s -> n < 2 ^ 64 -> execute a i k e s = Ok tt s' ->
  exists p approvers,
    proposal_of s i = Some p /\ pr_status p = ProposalStatus.Queued /\
    NoDup approvers /\ Z.of_nat (length approvers) = threshold_of s /\
    (forall b, b ∈ approvers -> b ∈ signers_of s /\ vote_of s i b = Some VoteChoice.Approve) /\
    saturating U64 (pr_queued_at p + timelock_of s) <= timestamp e < pr_expires_at p /\
    ((pr_target p <> self e /\ mkAllowedCall (pr_target p) (pr_method p) ∈ allowed_of s /\
      (exists v, call_any (pr_target p) (pr_method p) (pr_args p) (sub_env (pr_target p) e) (world s) = EOk v (world s')) /\
      allowed_of s' = allowed_of s) \/
     (pr_target p = self e /\ pr_method p = SELF_METHOD_SET_ALLOWED_CALLS /\ world s' = world s /\
      exists calls, self_args e (pr_args p) calls /\ forall x, x ∈ allowed_of s' <-> Some x ∈ calls)) /\
    proposal_of s' i = Some (executed (timestamp e) p) /\
    forall m (t : state) a' k' e' u t', reach (eq s') exec m t -> n + 1 + m < 2 ^ 64 -> execute a' i k' e' t <> Ok u t'.
Proof.
  intros Hs Hn He. pose proof (gov_reachable_inv _ _ Hs Hn) as Hinv.
  assert (Hs' : reachable (n + 1) s').
  { replace s' with (commit (exec (CExecute a i k) e s) s) by (simpl; by rewrite He). by apply reach_call. }
  pose proof (gov_exec_change (CExecute a i k) _ _ _ He) as (ch&(p'&_&(Hp&Hq&Ht)&->)&Hc&_).
  destruct (execute_effect _ _ _ _ _ _ _ He) as (p&Hp1&Heff). rewrite Hp in Hp1. injection Hp1 as <-.
  destruct (inv_tally _ _ Hinv _ _ Hp) as (_&Ha&_&Htl&_&Hst). rewrite Hq in Hst. rewrite Htl in Ht.
  assert (Hp' : proposal_of s' i = Some (executed (timestamp e) p')).
  { destruct Hc as (_&_&_&Hpr&_). rewrite Hpr. simpl. by rewrite decide_True. }
  exists p', (voters s VoteChoice.Approve i). split_and!; try done; try lia.
  - apply list.NoDup_filter, Hinv.
  - intros b [Hb Hin]%list_elem_of_filter. done.
  - intros m t a' k' e' u t' Ht' Hm He'.
    apply (reach_keeps _ _ _ _ Hs' Ht') in Hm as (_&_&_&Hk&_). apply Hk in Hp' as (q&Hq'&_&Hle).
    apply execute_Ok in He' as (q2&_&_&_&_&(Hq2&Hst2&_)&_). rewrite Hq' in Hq2. injection Hq2 as ->.
    rewrite Hst2 in Hle. destruct Hle as [[=]|[[[=] _]|[[=] _]]].
Qed.

(** The allowlist of a state keeps the shape [write_allowed_calls] gives it. *)
Lemma exec_allowed c e s s' :
  exec c e s = Ok tt s' ->
  allowed_of s' = allowed_of s \/
  (is_authorized e (self e) = true /\ exists k calls, c = CSetAllowed (self e) calls k /\
     allowlist_ok (allowed_of s')) \/
  (exists a i k p calls, c = CExecute a i k /\ may_execute e s i p /\
     pr_target p = self e /\ pr_method p = SELF_METHOD_SET_ALLOWED_CALLS /\ self_args e (pr_args p) calls /\
     allowlist_ok (allowed_of s') /\ forall x, x ∈ allowed_of s' <-> Some x ∈ calls).
Proof.
  unfold allowed_of at 1.
  destruct c as [a t m args d n|a i n|a i n|a i n|a i n|a calls n|a]; simpl; intros H.
  - left. apply bind_Ok in H as (i&s1&H&[_ ->]%ret_Ok).
    apply gov_propose_Ok in H as (s2&Hs&_&_&_&_&_&_&->). rewrite !sget_sset_ne by done.
    unfold allowed_of. by rewrite (nonce_used_get _ _ _ _ _ Hs).
  - left. apply approve_vote_Ok in H as (p&k&s1&_&Hs&_&_&_&->). rewrite !sget_sset_ne by done.
    unfold allowed_of. by rewrite (nonce_used_get _ _ _ _ _ Hs).
  - left. apply veto_vote_Ok in H as (p&k&s1&_&Hs&_&_&_&->). rewrite !sget_sset_ne by done.
    unfold allowed_of. by rewrite (nonce_used_get _ _ _ _ _ Hs).
  - left. apply gov_cancel_Ok in H as (p&s1&Hs&_&_&_&_&_&_&->). rewrite !sget_sset_ne by done.
    unfold allowed_of. by rewrite (nonce_used_get _ _ _ _ _ Hs).
  - apply execute_Ok in H as (p&s1&s2&_&Hs&Hm&Hd&_&_&Hp).
    destruct Hd as [(Ht&Hme&calls&l&Hargs&(n2&s3&Hs3&_&_&Hp2&Hl&Hel))|(_&_&Hp2&_)].
    + right. right. exists a, i, n, p, calls. unfold allowed_of. rewrite Hp, Hp2.
      rewrite sget_sset_ne, sget_sset_eq by done. by split_and!.
    + left. rewrite Hp, Hp2, sget_sset_ne by done. unfold allowed_of. by rewrite (nonce_used_get _ _ _ _ _ Hs).
  - apply set_allowed_Ok in H as (Ha&->&l&(n2&s3&Hs3&_&_&Hp2&Hl&_)). right. left. split; [done|].
    exists n, calls. split; [done|]. unfold allowed_of. rewrite Hp2. by rewrite sget_sset_eq.
  - left. apply bind_Ok in H as (m&s1&H&[_ ->]%ret_Ok).
    apply migrate_Ok in H as (_&_&[(_&_&->)|(_&s2&(_&_&Hc)&->&_)]); [done|]. host_cbn. unfold allowed_of.
    destruct (Hc DataKey.AllowedCalls) as [->|([[=]|[? [=]]]&_)]. done.
Qed.

Lemma reach_allowed n s : reachable n s -> allowlist_ok (allowed_of s).
Proof.
  induction 1 as [s Hs|n s e c Hs IH|n s w Hs IH Hw]; [by apply gov_inv_init| |done].
  destruct (exec c e s) as [[] s'|x s'|] eqn:He; simpl; [|done..].
  apply exec_allowed in He as [->|[(_&_&_&_&?)|(?&?&?&?&?&_&_&_&_&_&?&_)]]; done.
Qed.

(** C15: the allowlist is without duplicates and within its cap in every reachable
    state; as long as nobody can sign for the contract's own address, it changes only
    by executing a queued proposal, past its timelock, that targets the contract with
    [set_allowed_calls], and it becomes exactly the list that proposal spelled out. *)
Theorem allowlist_governed n s c e s' :
  reachable n s -> is_authorized e (self e) = false -> exec c e s = Ok tt s' ->
  allowlist_ok (allowed_of s') /\
  (allowed_of s' = allowed_of s \/
   exists a i k p calls, c = CExecute a i k /\ may_execute e s i p /\
     pr_target p = self e /\ pr_method p = SELF_METHOD_SET_ALLOWED_CALLS /\ self_args e (pr_args p) calls /\
     forall x, x ∈ allowed_of s' <-> Some x ∈ calls).
Proof.
  intros Hs%reach_allowed Ha He. destruct (exec_allowed _ _ _ _ He) as [Heq|[(Ha'&_)|H]].
  - rewrite Heq. auto.
  - congruence.
  - destruct H as (a&i&k&p&calls&?&?&?&?&?&?&?). split; [done|]. right. by exists a, i, k, p, calls.
Qed.

(** C35: a migration changes no read: every proposal, vote, nonce and the counter are
    the ones that were readable before, the configuration is untouched, every
    readable proposal with an id up to the legacy counter is in persistent storage
    afterwards, and migrating again copies nothing and changes nothing. *)
Theorem migration_preserves_reads a e s m s' :
  migrate_storage a e s = Ok m s' ->
  (forall k, k <> DataKey.StorageVersion ->
     stored s' k = stored s k /\ sget k (inst s') = sget k (inst s)) /\
  (forall c i, default 0 (sget DataKey.StorageVersion (inst s)) < STORAGE_VERSION_PERSISTENT ->
     sget DataKey.ProposalCount (inst s) = Some c -> 1 <= i <= c ->
     is_Some (proposal_of s i) -> sget (DataKey.Proposal i) (pers s') = proposal_of s i) /\
  forall a' e' m' s'', migrate_storage a' e' s' = Ok m' s'' -> m' = 0 /\ s'' = s'.
Proof.
  intros H. apply migrate_Ok in H as (_&_&[(Hv&->&->)|(Hv&s1&Hc&Heq&Hp)]).
  - split_and!; [done|intros; lia|].
    intros a' e' m' s'' H. apply migrate_Ok in H as (_&_&[(_&->&->)|(Hv'&_)]); [done|lia].
  - destruct (migrated_views _ _ _ Hc Heq) as [Hi Hst]. split_and!.
    + intros k Hk. split; auto.
    + intros c i _ Hct Hr Hs. pose proof (Hp c i Hct Hr Hs) as [q Hq].
      unfold proposal_of. rewrite <- (copied_stored _ _ _ _ Hc). subst s'. unfold stored. host_cbn. by rewrite Hq.
    + intros a' e' m' s'' H. apply migrate_Ok in H as (_&_&[(_&->&->)|(Hv'&_)]); [done|].
      subst s'. host_cbn. rewrite sget_sset_eq in Hv'. simpl in Hv'. unfold STORAGE_VERSION_PERSISTENT in Hv'. lia.
Qed.
End properties.

(** ** Calls that succeed *)

Section liveness.
Context {W : Type} `{!World W} {HV : HostVal} `{!Targets W}.
Local Abbreviation state := (cstate DataKey ty Event W).
Local Abbreviation reachable := (reach deployed exec).
Local Abbreviation GE := GovernanceError.GovernanceError.
Implicit Types (s : state) (e : Env) (p : Proposal Val).

Lemma gov_extend_total k e s : is_Some (sget k (pers s)) -> exists l, @extend_ttl W _ k e s = Ok tt (put_live l s).
Proof. apply (only_live_pextend (E := GE)). Qed.

Lemma write_entry_total k v e s : exists l, @write_entry W _ k v e s = Ok tt (put_live l (put_pers k v s)).
Proof.
  unfold write_entry. run.
  match goal with |- context [extend_ttl _ e ?t] => destruct (gov_extend_total k e t) as [l ->] end.
  - host_cbn. rewrite sget_sset_eq. eauto.
  - by exists l.
Qed.

Lemma write_nonce_total a n e s : exists s1, @write_nonce W _ a n e s = Ok tt s1.
Proof.
  unfold write_nonce. run.
  match goal with |- context [bind (extend_ttl ?k) _ e ?t] => destruct (gov_extend_total k e t) as [l Hl] end.
  { host_cbn. rewrite sget_sset_eq. eauto. }
  rewrite (bind_run _ _ _ _ _ _ Hl). run.
  match goal with |- context [extend_ttl ?k e ?t] => destruct (gov_extend_total k e t) as [l' Hl'] end.
  { host_cbn. rewrite sget_sset_eq. eauto. }
  rewrite Hl'. by eexists.
Qed.

Lemma read_fallback_total k e s : exists l, @read_fallback W _ k e s = Ok (stored s k) (put_live l s).
Proof.
  unfold read_fallback, stored. run. destruct (sget k (pers s)) as [v|] eqn:Hv.
  - destruct (gov_extend_total k e s) as [l Hl]; [by rewrite Hv|].
    rewrite (bind_run _ _ _ _ _ _ Hl). by exists l.
  - exists (live s). by destruct s.
Qed.

(** The address can sign its next call: its nonce is readable and not the last one. *)
Definition nonce_ready s (a : Address) : Prop :=
  (is_Some (stored s (DataKey.Nonce a)) \/ sget (DataKey.NonceInitialized a) (pers s) = None) /\
  in_range U64 (nonce_of s a + 1) = true.

Lemma gov_get_nonce_total a e s : nonce_ready s a -> exists s1, @get_nonce W _ a e s = Ok (nonce_of s a) s1.
Proof.
  intros [Hr _]. unfold get_nonce, nonce_of, stored in *. run.
  destruct (sget (DataKey.Nonce a) (pers s)) as [n|] eqn:Hn.
  { destruct (gov_extend_total (DataKey.Nonce a) e s) as [l Hl]; [by rewrite Hn|].
    rewrite (bind_run _ _ _ _ _ _ Hl). by eexists. }
  run. destruct (sget (DataKey.Nonce a) (inst s)) as [n|].
  { destruct (write_nonce_total a n e s) as [s1 Hs1]. rewrite (bind_run _ _ _ _ _ _ Hs1). by eexists. }
  destruct Hr as [[? [=]]|Hm]. unfold has_nonce_marker. run. rewrite bool_decide_eq_false_2 by (rewrite Hm; by intros []).
  run. by eexists.
Qed.

Lemma check_nonce_total a e s :
  nonce_ready s a -> exists s1, check_nonce a (nonce_of s a) e s = Ok tt s1 /\ nonce_used s a (nonce_of s a) s1.
Proof.
  intros Hr. enough (exists s1, check_nonce a (nonce_of s a) e s = Ok tt s1) as [s1 Hs1].
  { exists s1. split; [done|]. by apply check_nonce_used in Hs1. }
  destruct (gov_get_nonce_total a e s Hr) as [s1 Hs1]. destruct Hr as [_ Hr]. unfold check_nonce, set_nonce.
  rewrite (bind_run _ _ _ _ _ _ Hs1), Z.eqb_refl. simpl negb. run.
  rewrite (bind_run _ _ _ _ _ _ (arith_run _ _ _ _ Hr)).
  destruct (write_nonce_total a (nonce_of s a + 1) e s1) as [s2 Hs2]. rewrite (bind_run _ _ _ _ _ _ Hs2).
  by eexists.
Qed.

Lemma require_signer_total a e s : a ∈ signers_of s -> @require_signer W _ a e s = Ok tt s.
Proof.
  unfold require_signer, signers_of. intros Ha. run. destruct (sget DataKey.Signers (inst s)) as [l|].
  - run. simpl in Ha. unfold fail_if. by rewrite bool_decide_eq_true_2.
  - by apply elem_of_nil in Ha.
Qed.

Lemma open_ballot_total a i p e s :
  may_vote e s a i p -> nonce_ready s a ->
  exists s1 l, open_ballot a i (nonce_of s a) e s = Ok p (put_live l s1) /\ nonce_used s a (nonce_of s a) s1.
Proof.
  intros (Ha&Hin&Hp&Hst&Hex&Hno) Hr. unfold open_ballot. run.
  destruct (check_nonce_total a e s Hr) as (s1&Hs1&Hu). rewrite (bind_run _ _ _ _ _ _ Hs1).
  destruct (nonce_used_views _ _ _ _ Hu) as (Hpr&Hvo&_&_&Hsg&_).
  rewrite <- Hsg in Hin. pose proof (require_signer_total a e s1 Hin) as Hrs.
  rewrite (bind_run _ _ _ _ _ _ Hrs).
  unfold read_proposal, read_vote. destruct (read_fallback_total (DataKey.Proposal i) e s1) as [l Hl].
  rewrite (bind_run _ _ _ _ _ _ Hl). fold (proposal_of s1 i). rewrite Hpr, Hp. run.
  rewrite bool_decide_eq_false_2 by (rewrite Hst; tauto). run. unfold is_expired. run.
  rewrite (proj2 (Z.leb_gt _ _) Hex). run.
  destruct (read_fallback_total (DataKey.Vote i a) e (put_live l s1)) as [l' Hl'].
  rewrite (bind_run _ _ _ _ _ _ Hl'). fold (vote_of (put_live l s1) i a).
  change (vote_of (put_live l s1) i a) with (vote_of s1 i a). rewrite Hvo, Hno.
  rewrite bool_decide_eq_false_2 by (by intros []). run. by exists s1, l'.
Qed.

Lemma approve_total a i p e s :
  may_vote e s a i p -> nonce_ready s a -> in_range U32 (pr_approval_count p + 1) = true ->
  exists s', vote_approve a i (nonce_of s a) e s = Ok tt s'.
Proof.
  intros Hv Hr Hrange. unfold vote_approve. destruct (open_ballot_total a i p e s Hv Hr) as (s1&l&Hs1&_).
  rewrite (bind_run _ _ _ _ _ _ Hs1). unfold write_vote, write_proposal.
  match goal with |- context [bind (write_entry ?k ?v) _ e ?t] => destruct (write_entry_total k v e t) as [l1 Hl1] end.
  rewrite (bind_run _ _ _ _ _ _ Hl1). run. rewrite (bind_run _ _ _ _ _ _ (arith_run _ _ _ _ Hrange)). run.
  match goal with |- context [bind (write_entry ?k ?v) _ e ?t] => destruct (write_entry_total k v e t) as [l2 Hl2] end.
  rewrite (bind_run _ _ _ _ _ _ Hl2). by eexists.
Qed.

(** Using one address's nonce leaves the others ready. *)
Lemma nonce_ready_other s s' a b n s1 :
  nonce_used s a n s1 -> inst s' = inst s ->
  (forall k, (k = DataKey.Nonce b \/ k = DataKey.NonceInitialized b) -> sget k (pers s') = sget k (pers s1)) ->
  b <> a -> nonce_ready s b -> nonce_ready s' b /\ nonce_of s' b = nonce_of s b.
Proof.
  intros (_&_&_&Hp&_) Hi Hk Hne [Hr Hrange]. unfold nonce_ready, nonce_of, stored in *.
  rewrite Hi, !Hk by auto. rewrite !Hp by (unfold nonce_key; naive_solver). done.
Qed.

(** One approval that succeeds: what the ballots that follow need to know. *)
Lemma approve_step n a i p e s :
  inv n s -> may_vote e s a i p -> nonce_ready s a ->
  exists s', vote_approve a i (nonce_of s a) e s = Ok tt s' /\
    proposal_of s' i = Some (approved (threshold_of s) (timestamp e) (pr_approval_count p + 1) p) /\
    signers_of s' = signers_of s /\ threshold_of s' = threshold_of s /\ timelock_of s' = timelock_of s /\
    allowed_of s' = allowed_of s /\ world s' = world s /\
    forall b, b <> a -> vote_of s' i b = vote_of s i b /\
      (nonce_ready s b -> nonce_ready s' b /\ nonce_of s' b = nonce_of s b).
Proof.
  intros Hinv Hv Hr. pose proof Hv as (_&_&Hp&Hst&_).
  assert (Hrange : in_range U32 (pr_approval_count p + 1) = true).
  { destruct (inv_tally _ _ Hinv _ _ Hp) as (_&Ha&_&_&_&Hstat). rewrite Hst in Hstat.
    destruct Hinv as [_ [_ Ht%in_range_spec] _ _ _ _]. apply in_range_spec.
    pose proof (int_lo_hi U32). lia. }
  destruct (approve_total a i p e s Hv Hr Hrange) as [s' Hs']. exists s'. split; [done|].
  pose proof Hs' as (p'&k&s1&(_&_&Hp'&_)&Hu&Hk&Hi&Hw&Hpers)%approve_vote_Ok.
  rewrite Hp in Hp'. injection Hp' as <-. rewrite (Hk Hrange) in *.
  destruct (changed_voted s s1 s' a a _ i _ _ Hu Hi Hpers) as (Hsg&Hth&Htl&Hpr&Hvo&_).
  split_and!; try done.
  - rewrite Hpr. simpl. by rewrite decide_True.
  - unfold allowed_of. rewrite Hpers, !sget_sset_ne by done. by rewrite (nonce_used_get _ _ _ _ _ Hu).
  - intros b Hb. split.
    + rewrite Hvo. simpl. by rewrite decide_False by congruence.
    + intros Hrb. eapply nonce_ready_other; try done.
      intros k' Hk'. rewrite Hpers. rewrite !sget_sset_ne; [done|..]; destruct Hk' as [->| ->]; done.
Qed.

(** The ballots of a list of signers, each with its own next nonce. *)
Definition ballots e s (i : Z) (l : list Address) : list (Env * Call) :=
  map (fun a => (e, CApprove a i (nonce_of s a))) l.

(** Enough approvals queue a pending proposal. *)
Lemma approvals_queue l e i n s p :
  inv n s -> n + Z.of_nat (length l) < 2 ^ 64 ->
  proposal_of s i = Some p -> pr_status p = ProposalStatus.Pending -> timestamp e < pr_expires_at p ->
  NoDup l -> l <> [] -> pr_approval_count p + Z.of_nat (length l) = threshold_of s ->
  (forall a, a ∈ l -> is_authorized e a = true /\ a ∈ signers_of s /\ vote_of s i a = None /\ nonce_ready s a) ->
  let s' := run_calls exec (ballots e s i l) s in
  exists q, proposal_of s' i = Some q /\ pr_status q = ProposalStatus.Queued /\ same_terms p q /\
    pr_queued_at q = timestamp e /\ allowed_of s' = allowed_of s /\ world s' = world s.
Proof.
  revert n s p. induction l as [|a l IH]; intros n s p Hinv Hn Hp Hst Hex Hnd Hne Hcnt Hall; [done|].
  inversion_clear Hnd as [|? ? Hal Hnd']. destruct (Hall a ltac:(by left)) as (Ha&Hin&Hno&Hr).
  destruct (approve_step n a i p e s Hinv) as (s1&Hs1&Hp1&Hsg&Hth&Htl&Hal1&Hw&Hoth); [by split_and!|done|].
  cbv zeta. change (ballots e s i (a :: l)) with ((e, CApprove a i (nonce_of s a)) :: ballots e s i l).
  unfold run_calls. simpl fold_left. fold (run_calls exec (ballots e s i l)).
  simpl exec. rewrite Hs1. simpl commit.
  destruct (approved_fields (threshold_of s) (timestamp e) (pr_approval_count p + 1) p) as (_&F2&_&_&F5&_&F7).
  assert (Hterms := approved_terms (threshold_of s) (timestamp e) (pr_approval_count p + 1) p).
  destruct l as [|b l]; simpl in Hcnt.
  - eexists. split; [exact Hp1|]. rewrite F7. unfold approved. rewrite (proj2 (Z.leb_le _ _)) by lia.
    split_and!; try done.
  - assert (ballots e s i (b :: l) = ballots e s1 i (b :: l)) as ->.
    { apply map_ext_in. intros c Hc%list_elem_of_In. f_equal. f_equal.
      destruct (Hoth c) as [_ Hc2]; [by intros ->|]. symmetry. apply Hc2, Hall. by right. }
    assert (Hinv1 : inv (n + 1) s1).
    { eapply (gov_inv_exec n (CApprove a i (nonce_of s a))); [done| |exact Hs1]. simpl in Hn. lia. }
    edestruct (IH (n + 1) s1 (approved (threshold_of s) (timestamp e) (pr_approval_count p + 1) p) Hinv1) as (q&Hq&Hqs&Hqt&Hqa&Hqal&Hqw).
    + simpl in Hn |- *. lia.
    + exact Hp1.
    + rewrite F7, (proj2 (Z.leb_gt _ _)); [done|]. lia.
    + by rewrite F5.
    + done.
    + done.
    + rewrite F2, Hth. simpl. lia.
    + intros c Hc. destruct (Hoth c) as [Hc1 Hc2]; [by intros ->|].
      destruct (Hall c ltac:(by right)) as (?&?&?&Hrc). rewrite Hsg, Hc1. destruct (Hc2 Hrc). by split_and!.
    + exists q. split_and!; try done; [by etransitivity|by etransitivity; [exact Hqal|]|by etransitivity; [exact Hqw|]].
Qed.

(** A queued proposal whose target accepts the call is executed. *)
Lemma execute_total a i p e s v w :
  is_authorized e a = true -> nonce_ready s a -> may_execute e s i p ->
  pr_target p <> self e -> mkAllowedCall (pr_target p) (pr_method p) ∈ allowed_of s ->
  call_any (pr_target p) (pr_method p) (pr_args p) (sub_env (pr_target p) e) (world s) = EOk v w ->
  exists s', execute a i (nonce_of s a) e s = Ok tt s' /\ world s' = w /\
    proposal_of s' i = Some (executed (timestamp e) p).
Proof.
  intros Ha Hr (Hp&Hst&[Hlo Hhi]) Ht Hal Hcall. unfold execute. run.
  destruct (check_nonce_total a e s Hr) as (s1&Hs1&Hu). rewrite (bind_run _ _ _ _ _ _ Hs1).
  destruct (nonce_used_views _ _ _ _ Hu) as (Hpr&_&_&Hal1&_&_&_&Hw).
  unfold read_proposal. destruct (read_fallback_total (DataKey.Proposal i) e s1) as [l Hl].
  rewrite (bind_run _ _ _ _ _ _ Hl). fold (proposal_of s1 i). rewrite Hpr, Hp. run.
  rewrite bool_decide_eq_false_2 by (rewrite Hst; tauto). run. unfold is_expired. run.
  rewrite (proj2 (Z.leb_gt _ _) Hhi). run. rewrite (proj2 (Z.ltb_ge _ _) Hlo). run.
  unfold dispatch. run. rewrite bool_decide_eq_false_2 by done. unfold read_allowed_calls. run. host_cbn.
  assert (Hsome : is_Some (sget DataKey.AllowedCalls (pers s1))).
  { rewrite <- Hal1 in Hal. unfold allowed_of in Hal. destruct (sget _ _); [done|]. by apply elem_of_nil in Hal. }
  rewrite bool_decide_eq_true_2 by done. unfold bump_allowed_calls_ttl. run.
  destruct (gov_extend_total DataKey.AllowedCalls e (put_live l s1)) as [l2 Hl2]; [done|].
  rewrite (bind_run _ _ _ _ _ _ Hl2). run. host_cbn. fold (allowed_of s1). rewrite Hal1.
  rewrite (proj2 (contains_call_spec _ _ _) Hal). simpl negb. run. rewrite <- Hw in Hcall. run.
  unfold write_proposal.
  match goal with |- context [bind (write_entry ?k ?v) _ e ?t] => destruct (write_entry_total k v e t) as [l3 Hl3] end.
  rewrite (bind_run _ _ _ _ _ _ Hl3). eexists. split; [reflexivity|]. split; [done|].
  unfold proposal_of, stored. host_cbn. by rewrite sget_sset_eq.
Qed.

(** C14: a pending proposal on an allowlisted method goes through: once as many further
    signers as are missing to the threshold approve it before it expires, each with its
    own nonce, it is queued at that time; and any address that executes it after the
    timelock and before the expiry, while the target accepts the call, has the call
    performed and the proposal marked executed. *)
Theorem proposal_passes n s i p l e :
  reachable n s -> n + Z.of_nat (length l) < 2 ^ 64 ->
  proposal_of s i = Some p -> pr_status p = ProposalStatus.Pending -> timestamp e < pr_expires_at p ->
  NoDup l -> l <> [] -> pr_approval_count p + Z.of_nat (length l) = threshold_of s ->
  (forall a, a ∈ l -> is_authorized e a = true /\ a ∈ signers_of s /\ vote_of s i a = None /\ nonce_ready s a) ->
  let s1 := run_calls exec (ballots e s i l) s in
  exists q, proposal_of s1 i = Some q /\ pr_status q = ProposalStatus.Queued /\ pr_queued_at q = timestamp e /\
  forall x e1 v w,
    is_authorized e1 x = true -> nonce_ready s1 x ->
    saturating U64 (timestamp e + timelock_of s) <= timestamp e1 < pr_expires_at p ->
    pr_target p <> self e1 -> mkAllowedCall (pr_target p) (pr_method p) ∈ allowed_of s ->
    call_any (pr_target p) (pr_method p) (pr_args p) (sub_env (pr_target p) e1) (world s) = EOk v w ->
    exists s2, execute x i (nonce_of s1 x) e1 s1 = Ok tt s2 /\ world s2 = w /\
      proposal_of s2 i = Some (executed (timestamp e1) q).
Proof.
  intros Hs Hn Hp Hst Hex Hnd Hne Hcnt Hall s1.
  pose proof (gov_reachable_inv _ _ Hs ltac:(lia)) as Hinv.
  destruct (approvals_queue l e i n s p) as (q&Hq&Hqs&Ht&Hqa&Hal&Hw); try done. fold s1 in Hq, Hal, Hw.
  exists q. split_and!; try done. intros x e1 v w Hx Hr Htime Htgt Hin Hcall.
  destruct Ht as (_&_&Htg&Hme&Har&_&_&Hexp&Htl). rewrite Htg, Hme, Har, <- Hw in Hcall.
  eapply execute_total; try done.
  - split_and!; try done; [|by rewrite <- Hexp; apply Htime]. rewrite Hqa, <- Htl.
    destruct (inv_tally _ _ Hinv _ _ Hp) as (_&_&_&->&_). apply Htime.
  - by rewrite <- Htg.
  - by rewrite Hal, <- Htg, <- Hme.
Qed.
End liveness.

(** ** Where the checks fall short *)

Section shortcomings.
Context {W : Type} `{!World W} {HV : HostVal} `{!Targets W}.
Local Abbreviation state := (cstate DataKey ty Event W).
Implicit Types (s : state) (e : Env) (p : Proposal Val).

(** C36: the archival guard of nonces. With the marker set and the nonce entry gone, a
    signed call is refused with [NonceArchived]; but when a nonce of the instance
    storage of an earlier version is still there it is taken up again without error,
    however many calls have been signed since: an old signed call is valid again. *)
Theorem archived_nonce_outcome a n e s :
  sget (DataKey.Nonce a) (pers s) = None -> sget (DataKey.NonceInitialized a) (pers s) = Some true ->
  match sget (DataKey.Nonce a) (inst s) with
  | None => exists s', check_nonce a n e s = Err GovernanceError.NonceArchived s'
  | Some stale => in_range U64 (stale + 1) = true ->
      exists s', check_nonce a stale e s = Ok tt s' /\ nonce_of s' a = stale + 1
  end.
Proof.
  intros Hn Hm. destruct (sget (DataKey.Nonce a) (inst s)) as [stale|] eqn:Hi.
  - intros Hr. assert (nonce_of s a = stale) as Hst by (unfold nonce_of, stored; by rewrite Hn, Hi).
    destruct (check_nonce_total a e s) as (s1&Hs1&(_&_&_&_&Hnext)).
    { split; [left|by rewrite Hst]. unfold stored. by rewrite Hn, Hi. }
    rewrite Hst in *. exists s1. auto.
  - unfold check_nonce, get_nonce. run. rewrite Hn. run. rewrite Hi. unfold has_nonce_marker. run.
    rewrite bool_decide_eq_true_2 by (by rewrite Hm). run.
    destruct (gov_extend_total (DataKey.NonceInitialized a) e s) as [l Hl]; [by rewrite Hm|].
    rewrite (bind_run _ _ _ _ _ _ Hl). run. by eexists.
Qed.

(** A veto that rejects nothing is still announced as [proposal_rejected]. *)
Lemma veto_event a i n e s u s' :
  vote_veto a i n e s = Ok u s' -> exists evs, events s' = evs ++ [proposal_rejected i a].
Proof.
  unfold vote_veto. intros (p&s1&_&H)%bind_Ok. inv_ok H. by eexists.
Qed.

(** A timelock as long as the lifetime of a proposal, which the constructor accepts,
    makes every proposal inexecutable: in a reachable state, a proposal that was queued
    after it was created never executes. *)
Theorem long_timelock_bricks n s i p a k e u s' :
  reach deployed exec n s -> n < 2 ^ 64 -> proposal_of s i = Some p ->
  pr_created_at p <= pr_queued_at p -> DEFAULT_PROPOSAL_TTL_SECONDS <= timelock_of s ->
  execute a i k e s <> Ok u s'.
Proof.
  intros Hs Hn Hp Hle Ht (q&_&_&_&_&(Hq&_&Htime)&_)%execute_Ok. rewrite Hp in Hq. injection Hq as <-.
  pose proof (gov_reachable_inv _ _ Hs Hn) as Hinv.
  destruct (inv_tally _ _ Hinv _ _ Hp) as (_&_&_&Htl&Hex&_). rewrite Htl, Hex in Htime.
  unfold saturating in Htime. lia.
Qed.
End shortcomings.

(** ** A concrete deployment *)

(** Host values of three kinds, and a target that counts its [set_admin] calls. *)
Inductive SampleVal :=
| SAddress (a : Address)
| SCalls (calls : list (option AllowedCall))
| SNumber (z : Z).

#[local] Instance sample_host : HostVal := {|
  Val := SampleVal;
  val_address v := match v with SAddress a => Some a | _ => None end;
  val_calls v := match v with SCalls l => Some l | _ => None end;
  val_u64 v := match v with SNumber z => Some z | _ => None end;
|}.

Definition SampleWorld : Type := Z.

#[local] Instance sample_world : World SampleWorld.
Proof. by refine {| wstep := fun _ _ => True; wquiet := eq |}. Defined.

#[local] Instance sample_targets : Targets SampleWorld.
Proof.
  refine {| call_any := fun a m _ _ w =>
    if bool_decide ((a, m) = (Addr 20, "set_admin"%string)) then EOk (SNumber w) (w + 1) else EAbort |}.
  done.
Defined.

Abbreviation sample_state := (cstate DataKey ty Event SampleWorld).

(** Everybody signs but the contract's own address. *)
Definition signers_env (t : Z) : Env :=
  mkEnv t (Addr 1000) [] (fun _ a => bool_decide (a <> Addr 1000)) true 0 (fun live _ _ => live).

Definition sample_allowed : list (option AllowedCall) := [Some (mkAllowedCall (Addr 20) "set_admin")].

(** Three signers, two of which must agree, with the given timelock. *)
Definition sample_deploy (timelock : Z) : sample_state :=
  commit (constructor [Addr 1; Addr 2; Addr 3] 2 timelock sample_allowed (signers_env 0) (empty_state 0))
         (empty_state 0).

Lemma gov_sample_deployed timelock :
  in_range U64 timelock = true -> deployed (sample_deploy timelock).
Proof.
  intros Ht. exists (signers_env 0), [Addr 1; Addr 2; Addr 3], 2, timelock, sample_allowed, 0.
  split_and!; [done|done|]. apply commit_is_ok. reflexivity.
Qed.

(** Signer 1 proposes a call at time 10; signers 1 and 3 approve it at time 20. *)
Definition sample_start : sample_state := sample_deploy 100.
Definition propose_call : Env * Call :=
  (signers_env 10, CPropose (Addr 1) (Addr 20) "set_admin" [SNumber 7] "rotate" 0).
Definition approve_calls : list (Env * Call) :=
  [(signers_env 20, CApprove (Addr 1) 1 1); (signers_env 20, CApprove (Addr 3) 1 0)].
Definition sample_proposed : sample_state := run_calls exec [propose_call] sample_start.
Definition sample_queued : sample_state := run_calls exec approve_calls sample_proposed.
Definition sample_executed : sample_state :=
  commit (execute (Addr 9) 1 0 (signers_env 120) sample_queued) sample_queued.

Lemma gov_proposed_reachable : reach deployed exec 1 sample_proposed.
Proof. apply (reach_run_calls deployed exec [propose_call] 0). by apply reach_init, gov_sample_deployed. Qed.

Lemma gov_queued_reachable : reach deployed exec 3 sample_queued.
Proof. apply (reach_run_calls deployed exec approve_calls 1), gov_proposed_reachable. Qed.

Example sample_outcome :
  (pr_status <$> proposal_of sample_queued 1, pr_status <$> proposal_of sample_executed 1, world sample_executed)
  = (Some ProposalStatus.Queued, Some ProposalStatus.Executed, 1).
Proof. vm_compute. reflexivity. Qed.

Lemma proposal_lifecycle_witness :
  exists p q, proposal_of sample_proposed 1 = Some p /\ proposal_of sample_queued 1 = Some q /\
    same_terms p q /\ status_le (pr_status p) (pr_status q).
Proof.
  destruct (proposal_lifecycle 1 2 sample_proposed sample_queued) as (_&_&_&Hp&_).
  - exact gov_proposed_reachable.
  - apply (reach_run_calls (eq sample_proposed) exec approve_calls 0). by apply reach_init.
  - reflexivity.
  - destruct (proposal_of sample_proposed 1) as [p|] eqn:Hp1.
    + destruct (Hp 1 p Hp1) as (q&Hq&Ht&Hs). exists p, q. exact (conj eq_refl (conj Hq (conj Ht Hs))).
    + vm_compute in Hp1. discriminate.
Defined.

Lemma tally_correct_witness : exists p, proposal_of sample_queued 1 = Some p /\ tallied sample_queued 1 p.
Proof.
  destruct (proposal_of sample_queued 1) as [p|] eqn:Hp; [|vm_compute in Hp; discriminate].
  exists p. exact (conj eq_refl (tally_correct 3 sample_queued 1 p gov_queued_reachable eq_refl Hp)).
Defined.

Lemma execution_authorised_witness :
  exists p (approvers : list Address), proposal_of sample_queued 1 = Some p /\ NoDup approvers /\
    Z.of_nat (length approvers) = threshold_of sample_queued /\
    (exists v, call_any (Addr 20) "set_admin" (pr_args p) (sub_env (Addr 20) (signers_env 120)) (world sample_queued)
       = EOk v (world sample_executed)) /\
    proposal_of sample_executed 1 = Some (executed 120 p).
Proof.
  destruct (execution_authorised 3 sample_queued (Addr 9) 1 0 (signers_env 120) sample_executed)
    as (p&l&Hp&_&Hl&Hlen&_&_&Hcall&Hp'&_).
  - exact gov_queued_reachable.
  - reflexivity.
  - apply commit_is_ok. vm_compute. reflexivity.
  - assert (Ht : (fun p => (pr_target p, pr_method p)) <$> proposal_of sample_queued 1 = Some (Addr 20, "set_admin"%string))
      by (vm_compute; reflexivity).
    rewrite Hp in Ht. change (Some (pr_target p, pr_method p) = Some (Addr 20, "set_admin"%string)) in Ht.
    injection Ht as Ht Hm. change (@pr_target Val p = Addr 20) in Ht. change (@pr_method Val p = "set_admin"%string) in Hm.
    rewrite Ht, Hm in Hcall.
    destruct Hcall as [(_&_&Hv&_)|(Hx&_)]; [|discriminate Hx].
    exists p, l. exact (conj Hp (conj Hl (conj Hlen (conj Hv Hp')))).
Defined.

(** A second proposal replaces the allowlist. *)
Definition sample_list : list (option AllowedCall) :=
  [Some (mkAllowedCall (Addr 21) "pause"); Some (mkAllowedCall (Addr 21) "pause")].
Definition reconfigure_calls : list (Env * Call) :=
  [(signers_env 30, CPropose (Addr 2) (Addr 1000) "set_allowed_calls"
      [SAddress (Addr 1000); SCalls sample_list; SNumber 0] "lists" 0);
   (signers_env 31, CApprove (Addr 1) 2 2); (signers_env 32, CApprove (Addr 2) 2 1)].
Definition sample_relist : sample_state := run_calls exec reconfigure_calls sample_queued.
Definition relist_call : Call := CExecute (Addr 9) 2 0.
Definition sample_relisted : sample_state :=
  commit (exec relist_call (signers_env 132) sample_relist) sample_relist.

Lemma gov_relist_reachable : reach deployed exec 6 sample_relist.
Proof. apply (reach_run_calls deployed exec reconfigure_calls 3), gov_queued_reachable. Qed.

Lemma allowlist_governed_witness :
  allowed_of sample_relisted = [mkAllowedCall (Addr 21) "pause"] /\ allowlist_ok (allowed_of sample_relisted).
Proof.
  split; [vm_compute; reflexivity|].
  apply (allowlist_governed 6 sample_relist relist_call (signers_env 132) sample_relisted).
  - exact gov_relist_reachable.
  - reflexivity.
  - apply commit_is_ok. vm_compute. reflexivity.
Defined.

(** A contract upgraded from the version that kept everything in instance storage. *)
Definition legacy_proposal (i : Z) : Proposal SampleVal :=
  new_proposal i (Addr 1) (Addr 20) "set_admin" [] "old" 5 100.
Definition sample_legacy : sample_state :=
  put_inst DataKey.ProposalCount 2
    (put_inst (DataKey.Proposal 1) (legacy_proposal 1)
       (put_inst (DataKey.Proposal 2) (legacy_proposal 2) sample_start)).
Definition sample_migrated : sample_state :=
  commit (migrate_storage (Addr 2) (signers_env 6) sample_legacy) sample_legacy.

Lemma migration_preserves_reads_witness :
  sget (DataKey.Proposal 2) (pers sample_legacy) = None /\
  sget (DataKey.Proposal 2) (pers sample_migrated) = proposal_of sample_legacy 2.
Proof.
  split; [vm_compute; reflexivity|].
  apply (migration_preserves_reads (Addr 2) (signers_env 6) sample_legacy 2 sample_migrated) with (c := 2).
  - apply run_value; [vm_compute|]; reflexivity.
  - reflexivity.
  - reflexivity.
  - lia.
  - exists (legacy_proposal 2). vm_compute. reflexivity.
Defined.

Lemma proposal_passes_witness :
  exists q, proposal_of (run_calls exec (ballots (signers_env 20) sample_proposed 1 [Addr 1; Addr 3]) sample_proposed) 1
    = Some q /\ pr_status q = ProposalStatus.Queued /\ pr_queued_at q = 20.
Proof.
  destruct (proposal_of sample_proposed 1) as [p|] eqn:Hp; [|vm_compute in Hp; discriminate].
  destruct (proposal_passes 1 sample_proposed 1 p [Addr 1; Addr 3] (signers_env 20)) as (q&Hq&Hs&Ha&_).
  - exact gov_proposed_reachable.
  - reflexivity.
  - exact Hp.
  - vm_compute in Hp. by injection Hp as <-.
  - vm_compute in Hp. by injection Hp as <-.
  - apply NoDup_cons_2; [by rewrite list_elem_of_singleton|apply NoDup_singleton].
  - done.
  - vm_compute in Hp. injection Hp as <-. reflexivity.
  - intros a [->|[->|[]%elem_of_nil]%elem_of_cons]%elem_of_cons; split_and!; try reflexivity.
    + apply (bool_decide_unpack _). vm_compute. exact I.
    + split; [left; eexists; vm_compute; reflexivity|reflexivity].
    + apply (bool_decide_unpack _). vm_compute. exact I.
    + split; [right|]; vm_compute; reflexivity.
  - exists q. exact (conj Hq (conj Hs Ha)).
Defined.

(** A nonce entry lost to archival over a nonce of the earlier version. *)
Definition sample_archived : sample_state :=
  put_inst (DataKey.Nonce (Addr 1)) 0 (del_pers (DataKey.Nonce (Addr 1)) sample_queued).

Lemma archived_nonce_outcome_witness :
  nonce_of sample_queued (Addr 1) = 2 /\
  exists s', check_nonce (Addr 1) 0 (signers_env 40) sample_archived = Ok tt s' /\ nonce_of s' (Addr 1) = 1.
Proof.
  split; [vm_compute; reflexivity|].
  assert (Hi : sget (DataKey.Nonce (Addr 1)) (inst sample_archived) = Some 0) by (vm_compute; reflexivity).
  pose proof (archived_nonce_outcome (Addr 1) 0 (signers_env 40) sample_archived) as H. rewrite Hi in H.
  apply H; vm_compute; reflexivity.
Defined.

(** The same votes under a timelock of thirty days. *)
Definition slow_queued : sample_state :=
  run_calls exec approve_calls (run_calls exec [propose_call] (sample_deploy 2592000)).

Lemma gov_slow_reachable : reach deployed exec 3 slow_queued.
Proof.
  apply (reach_run_calls deployed exec approve_calls 1), (reach_run_calls deployed exec [propose_call] 0).
  by apply reach_init, gov_sample_deployed.
Qed.

Lemma slow_proposal :
  exists p, proposal_of slow_queued 1 = Some p /\ pr_created_at p <= pr_queued_at p.
Proof. eexists. split; [vm_compute; reflexivity|]. by vm_compute. Qed.

Lemma slow_timelock : DEFAULT_PROPOSAL_TTL_SECONDS <= timelock_of slow_queued.
Proof. vm_compute. by intros [=]. Qed.

Lemma long_timelock_bricks_witness :
  forall u s', execute (Addr 9) 1 0 (signers_env 2592020) slow_queued <> Ok u s'.
Proof.
  intros u s'. destruct slow_proposal as (p&Hp&Hle).
  exact (long_timelock_bricks 3 slow_queued 1 p (Addr 9) 0 (signers_env 2592020) u s'
    gov_slow_reachable eq_refl Hp Hle slow_timelock).
Defined.
