(* ===== verification/OracleConsumer.v ===== *)
(** * OracleConsumer: providers, reports, challenges and slashing

    Model of [src/contracts/oracle-consumer/src/lib.rs].  The project registry is
    reached through the [ProjectSource] interface. *)

From S2P Require Import Prelude Host Shared Interfaces.

(** ** Storage and events *)

Definition CHALLENGE_WINDOW_SECONDS : Z := 259200.
Definition SLASH_PENALTY_PPM : Z := 100000.
Definition CHALLENGE_BOND : Z := 1000000.
Definition CHALLENGE_TIMEOUT_SECONDS : Z := 2592000.
Definition ADMIN_TRANSFER_TIMELOCK_SECONDS : Z := 172800.
Definition PERSISTENT_TTL_THRESHOLD : Z := 17280.
Definition PERSISTENT_TTL_EXTEND_TO : Z := 2073600.
Definition MAX_PERIOD_HISTORY : Z := 200.

Module DataKey.
Inductive DataKey :=
| Admin
| Provider (addr : Address)
| ProviderList
| Report (id : Z)
| ReportCount
| ProjectReports (project_id : Z)
| Challenge (report_id : Z)
| ReportVerifiers (report_id : Z)
| VerificationCount (report_id : Z)
| SignatureThreshold
| ChallengeWindow
| Nonce (addr : Address)
| ProviderReportCount (addr : Address)
| ProjectRegistry
| ProjectRegistryNonce
| ProviderChallenges (addr : Address)
| SlashHistory (addr : Address)
| LockedStake (addr : Address)
| ReportLock (report_id : Z)
| ChallengeBondBalance (addr : Address)
| ChallengeBondLock (addr : Address)
| ChallengeUpholdVotes (report_id : Z)
| ChallengeRejectVotes (report_id : Z)
| ProjectReportPeriods (project_id : Z)
| PendingAdmin.
End DataKey.
Abbreviation DataKey := DataKey.DataKey.

#[export] Instance DataKey_eq_dec : EqDecision DataKey.
Proof. solve_decision. Defined.

#[export] Instance DataKey_countable : Countable DataKey.
Proof.
  refine (inj_countable'
    (fun k => match k with
      | DataKey.Admin => (0%N, 0, Addr 0)
      | DataKey.Provider a => (1%N, 0, a)
      | DataKey.ProviderList => (2%N, 0, Addr 0)
      | DataKey.Report i => (3%N, i, Addr 0)
      | DataKey.ReportCount => (4%N, 0, Addr 0)
      | DataKey.ProjectReports p => (5%N, p, Addr 0)
      | DataKey.Challenge i => (6%N, i, Addr 0)
      | DataKey.ReportVerifiers i => (7%N, i, Addr 0)
      | DataKey.VerificationCount i => (8%N, i, Addr 0)
      | DataKey.SignatureThreshold => (9%N, 0, Addr 0)
      | DataKey.ChallengeWindow => (10%N, 0, Addr 0)
      | DataKey.Nonce a => (11%N, 0, a)
      | DataKey.ProviderReportCount a => (12%N, 0, a)
      | DataKey.ProjectRegistry => (13%N, 0, Addr 0)
      | DataKey.ProjectRegistryNonce => (14%N, 0, Addr 0)
      | DataKey.ProviderChallenges a => (15%N, 0, a)
      | DataKey.SlashHistory a => (16%N, 0, a)
      | DataKey.LockedStake a => (17%N, 0, a)
      | DataKey.ReportLock i => (18%N, i, Addr 0)
      | DataKey.ChallengeBondBalance a => (19%N, 0, a)
      | DataKey.ChallengeBondLock a => (20%N, 0, a)
      | DataKey.ChallengeUpholdVotes i => (21%N, i, Addr 0)
      | DataKey.ChallengeRejectVotes i => (22%N, i, Addr 0)
      | DataKey.ProjectReportPeriods p => (23%N, p, Addr 0)
      | DataKey.PendingAdmin => (24%N, 0, Addr 0)
      end)
    (fun x => match x with
      | (0%N, _, _) => DataKey.Admin
      | (1%N, _, a) => DataKey.Provider a
      | (2%N, _, _) => DataKey.ProviderList
      | (3%N, i, _) => DataKey.Report i
      | (4%N, _, _) => DataKey.ReportCount
      | (5%N, p, _) => DataKey.ProjectReports p
      | (6%N, i, _) => DataKey.Challenge i
      | (7%N, i, _) => DataKey.ReportVerifiers i
      | (8%N, i, _) => DataKey.VerificationCount i
      | (9%N, _, _) => DataKey.SignatureThreshold
      | (10%N, _, _) => DataKey.ChallengeWindow
      | (11%N, _, a) => DataKey.Nonce a
      | (12%N, _, a) => DataKey.ProviderReportCount a
      | (13%N, _, _) => DataKey.ProjectRegistry
      | (14%N, _, _) => DataKey.ProjectRegistryNonce
      | (15%N, _, a) => DataKey.ProviderChallenges a
      | (16%N, _, a) => DataKey.SlashHistory a
      | (17%N, _, a) => DataKey.LockedStake a
      | (18%N, i, _) => DataKey.ReportLock i
      | (19%N, _, a) => DataKey.ChallengeBondBalance a
      | (20%N, _, a) => DataKey.ChallengeBondLock a
      | (21%N, i, _) => DataKey.ChallengeUpholdVotes i
      | (22%N, i, _) => DataKey.ChallengeRejectVotes i
      | (23%N, p, _) => DataKey.ProjectReportPeriods p
      | _ => DataKey.PendingAdmin
      end) _).
  by intros [].
Defined.

Record PendingAdminChange := mkPendingAdminChange {
  pc_candidate : Address;
  pc_executable_at : Z;
}.

Record OracleProvider := mkOracleProvider {
  op_address : Address;
  op_methodology : Symbol;
  op_stake : Z;
  op_active : bool;
  op_registered_at : Z;
}.

Record Challenge := mkChallenge {
  ch_report_id : Z;
  ch_challenger : Address;
  ch_counter_evidence_hash : BytesN;
  ch_submitted_at : Z;
  ch_resolved : bool;
  ch_resolution : Z;
  ch_bond : Z;
}.

Record SlashRecord := mkSlashRecord {
  sr_report_id : Z;
  sr_penalty : Z;
  sr_remaining_stake : Z;
  sr_timestamp : Z;
  sr_active_after : bool;
}.

Record ProviderStats := mkProviderStats {
  st_reports_submitted : Z;
  st_challenges_faced : Z;
  st_slashes : Z;
  st_total_penalty : Z;
  st_stake : Z;
  st_active : bool;
}.

(** Assignments to the fields of loaded records. *)
Definition with_active (b : bool) (p : OracleProvider) : OracleProvider :=
  mkOracleProvider (op_address p) (op_methodology p) (op_stake p) b (op_registered_at p).
Definition with_stake (z : Z) (p : OracleProvider) : OracleProvider :=
  mkOracleProvider (op_address p) (op_methodology p) z (op_active p) (op_registered_at p).
Definition with_status (st : ReportStatus.ReportStatus) (r : Report) : Report :=
  mkReport (rp_id r) (rp_provider r) (rp_project_id r) (rp_project_metadata_hash r) (rp_period_start r)
    (rp_period_end r) (rp_carbon_sequestered r) (rp_biodiversity r) (rp_methodology r)
    (rp_ipfs_evidence_hash r) st (rp_submitted_at r) (rp_verified_at r).
Definition with_verified_at (t : Z) (r : Report) : Report :=
  mkReport (rp_id r) (rp_provider r) (rp_project_id r) (rp_project_metadata_hash r) (rp_period_start r)
    (rp_period_end r) (rp_carbon_sequestered r) (rp_biodiversity r) (rp_methodology r)
    (rp_ipfs_evidence_hash r) (rp_status r) (rp_submitted_at r) t.
Definition with_resolved (c : Challenge) : Challenge :=
  mkChallenge (ch_report_id c) (ch_challenger c) (ch_counter_evidence_hash c) (ch_submitted_at c)
    true (ch_resolution c) (ch_bond c).
Definition with_resolution (z : Z) (c : Challenge) : Challenge :=
  mkChallenge (ch_report_id c) (ch_challenger c) (ch_counter_evidence_hash c) (ch_submitted_at c)
    (ch_resolved c) z (ch_bond c).

Definition ty (k : DataKey) : Type :=
  match k with
  | DataKey.Admin | DataKey.ProjectRegistry => Address
  | DataKey.Provider _ => OracleProvider
  | DataKey.ProviderList => list Address
  | DataKey.Report _ => Report
  | DataKey.ReportCount | DataKey.SignatureThreshold | DataKey.ChallengeWindow
  | DataKey.ProjectRegistryNonce => Z
  | DataKey.ProjectReports _ => list Z
  | DataKey.Challenge _ => Challenge
  | DataKey.ReportVerifiers _ => list Address
  | DataKey.VerificationCount _ => Z
  | DataKey.Nonce _ => Z
  | DataKey.ProviderReportCount _ => Z
  | DataKey.ProviderChallenges _ => list Z
  | DataKey.SlashHistory _ => list SlashRecord
  | DataKey.LockedStake _ => Z
  | DataKey.ReportLock _ => Z
  | DataKey.ChallengeBondBalance _ => Z
  | DataKey.ChallengeBondLock _ => Z
  | DataKey.ChallengeUpholdVotes _ | DataKey.ChallengeRejectVotes _ => list Address
  | DataKey.ProjectReportPeriods _ => list (Z * Z)
  | DataKey.PendingAdmin => PendingAdminChange
  end.

Inductive Event :=
| signature_threshold_adjusted (adjusted : Z)
| provider_registered (provider : Address)
| provider_removed (provider : Address)
| report_submitted (report_id : Z) (provider : Address) (project_id : Z)
| report_verified (report_id : Z)
| report_admin_override (report_id status : Z)
| report_challenged (report_id : Z) (challenger : Address)
| challenge_vote (report_id : Z) (caller : Address) (uphold : bool)
| challenge_expired (report_id : Z)
| challenge_resolved (report_id resolution : Z)
| stake_added (provider : Address) (amount : Z)
| stake_withdrawn (provider : Address) (amount : Z)
| challenge_bond_deposited (caller : Address) (amount : Z)
| challenge_bond_withdrawn (caller : Address) (amount : Z)
| challenge_bond_locked (challenger : Address) (amount : Z)
| challenge_bond_refunded (challenger : Address) (amount : Z)
| challenge_bond_forfeited (challenger : Address) (amount : Z)
| provider_slashed (provider : Address) (penalty stake : Z) (active : bool)
| registry_set (caller registry_id : Address)
| admin_transfer_proposed (caller candidate : Address) (executable_at : Z)
| admin_transfer_cancelled (caller : Address)
| admin_changed (old_admin caller : Address).

(** Two half-open periods share an instant. *)
Definition overlaps (start end_ : Z) (pair : Z * Z) : bool :=
  (start <? snd pair) && (fst pair <? end_).

(** The smallest number of votes that is two thirds of [active], at least one:
    [((2 * active).div_ceil(3)).max(1) as u32]. *)
Definition supermajority_threshold (active : Z) : Z := wrap U32 (Z.max ((2 * active + 2) / 3) 1).

(** The measurements [submit_report] accepts. *)
Definition biodiversity_ok (b : BiodiversityMetrics) : bool :=
  match b with
  | Absent => true
  | Present (habitat, species, units) => negb ((habitat <? 0) || (species <? 0) || (units <? 0))
  end.

(** [periods.remove(0)] at the cap, then [push_back]. *)
Definition push_period (periods : list (Z * Z)) (pair : Z * Z) : list (Z * Z) :=
  (if MAX_PERIOD_HISTORY <=? Z.of_nat (length periods) then drop 1 periods else periods) ++ [pair].

Section oracle.
Context {W : Type} `{!World W} `{!ProjectSource W}.
Local Abbreviation M := (contract DataKey ty OracleError.OracleError Event W).
Local Abbreviation state := (cstate DataKey ty Event W).

(** ** Helpers *)

Definition require_admin (caller : Address) : M unit :=
  let* o := iget DataKey.Admin in
  let* admin := ok_or o OracleError.NotInitialized in
  fail_if (bool_decide (caller <> admin)) OracleError.Unauthorized.

Definition bump_persistent (key : DataKey) : M unit :=
  pextend_ttl key PERSISTENT_TTL_THRESHOLD PERSISTENT_TTL_EXTEND_TO.

(** [if has(key) { bump_persistent(key) }] after a read. *)
Definition bump_if_has (key : DataKey) : M unit :=
  let* has := phas key in when has (bump_persistent key).

(** [set(key, value); bump_persistent(key)] *)
Definition store_entry (key : DataKey) (value : ty key) : M unit :=
  pset key value ;;
  bump_persistent key.

(** [get(key).unwrap_or(d)], then the bump of a key that exists: the getters' body. *)
Definition read_or (key : DataKey) (d : ty key) : M (ty key) :=
  let* o := pget key in
  bump_if_has key ;;
  ret (default d o).

(** [get(key).ok_or(err)?], then the bump. *)
Definition read_existing (key : DataKey) (err : OracleError.OracleError) : M (ty key) :=
  let* o := pget key in
  let* val := ok_or o err in
  bump_persistent key ;;
  ret val.

Definition get_nonce (addr : Address) : M Z := read_or (DataKey.Nonce addr) 0.

Definition set_nonce (addr : Address) (nonce : Z) : M unit := store_entry (DataKey.Nonce addr) nonce.

(** The prologue of the signed entrypoints. *)
Definition consume_nonce (caller : Address) (nonce : Z) : M unit :=
  let* expected_nonce := get_nonce caller in
  fail_if (negb (nonce =? expected_nonce)) OracleError.InvalidNonce ;;
  let* next := arith U64 (expected_nonce + 1) in
  set_nonce caller next.

(** One turn of the loop of [active_provider_count]. *)
Definition count_active (count : Z) (addr : Address) : M Z :=
  let* o := pget (DataKey.Provider addr) in
  match o with
  | Some p => if op_active p then arith U32 (count + 1) else ret count
  | None => ret count
  end.

Definition active_provider_count : M Z :=
  let* o := pget DataKey.ProviderList in
  mfold count_active 0 (default [] o).

Definition reconcile_signature_threshold : M unit :=
  let* o := iget DataKey.SignatureThreshold in
  let current : Z := default 1 o in
  let* active := active_provider_count in
  let adjusted := Z.min current (Z.max active 1) in
  when (negb (adjusted =? current))
    (iset DataKey.SignatureThreshold adjusted ;;
     publish (signature_threshold_adjusted adjusted)).

Definition constructor (admin : Address) : M unit :=
  iset DataKey.Admin admin ;;
  iset DataKey.ChallengeWindow CHALLENGE_WINDOW_SECONDS ;;
  iset DataKey.SignatureThreshold 1.

(** ** Stake locks, bonds and slashing *)

Definition slashable_amount (stake : Z) : M Z :=
  let* product := arith I128 (stake * SLASH_PENALTY_PPM) in
  let penalty := Z.quot product 1000000 in
  let penalty := if penalty <=? 0 then stake else penalty in
  ret (if stake <? penalty then stake else penalty).

Definition lock_stake_for_report (provider : Address) (report_id stake : Z) : M unit :=
  let* lock_amount := slashable_amount stake in
  store_entry (DataKey.ReportLock report_id) lock_amount ;;
  let* o := pget (DataKey.LockedStake provider) in
  let* total := arith I128 (default 0 o + lock_amount) in
  store_entry (DataKey.LockedStake provider) total.

Definition release_report_lock (provider : Address) (report_id : Z) : M unit :=
  let* r := pget (DataKey.ReportLock report_id) in
  let lock_amount : Z := default 0 r in
  if lock_amount =? 0 then ret tt
  else
    premove (DataKey.ReportLock report_id) ;;
    let* o := pget (DataKey.LockedStake provider) in
    let locked : Z := default 0 o in
    let* new_locked := if locked <? lock_amount then ret 0 else arith I128 (locked - lock_amount) in
    store_entry (DataKey.LockedStake provider) new_locked.

Definition charge_challenge_bond (challenger : Address) : M Z :=
  let* b := pget (DataKey.ChallengeBondBalance challenger) in
  let balance : Z := default 0 b in
  fail_if (balance <? CHALLENGE_BOND) OracleError.InsufficientChallengeBond ;;
  let* rest := arith I128 (balance - CHALLENGE_BOND) in
  store_entry (DataKey.ChallengeBondBalance challenger) rest ;;
  let* l := pget (DataKey.ChallengeBondLock challenger) in
  let* locked := arith I128 (default 0 l + CHALLENGE_BOND) in
  store_entry (DataKey.ChallengeBondLock challenger) locked ;;
  publish (challenge_bond_locked challenger CHALLENGE_BOND) ;;
  ret CHALLENGE_BOND.

Definition settle_challenge_bond (challenger : Address) (bond : Z) (refund : bool) : M unit :=
  if bond <=? 0 then ret tt
  else
    let* l := pget (DataKey.ChallengeBondLock challenger) in
    let locked : Z := default 0 l in
    let released := Z.min bond locked in
    let* new_locked := arith I128 (locked - released) in
    (if new_locked =? 0 then premove (DataKey.ChallengeBondLock challenger)
     else store_entry (DataKey.ChallengeBondLock challenger) new_locked) ;;
    if refund then
      let* b := pget (DataKey.ChallengeBondBalance challenger) in
      let* total := arith I128 (default 0 b + released) in
      store_entry (DataKey.ChallengeBondBalance challenger) total ;;
      publish (challenge_bond_refunded challenger released)
    else publish (challenge_bond_forfeited challenger released).

Definition slash_provider (provider : Address) (report_id : Z) : M unit :=
  let* o := pget (DataKey.Provider provider) in
  let* p := unwrap o in
  let* penalty := slashable_amount (op_stake p) in
  let* rest := arith I128 (op_stake p - penalty) in
  let p := with_stake rest p in
  let p := if rest =? 0 then with_active false p else p in
  store_entry (DataKey.Provider provider) p ;;
  reconcile_signature_threshold ;;
  let* h := pget (DataKey.SlashHistory provider) in
  let* now := ledger_timestamp in
  store_entry (DataKey.SlashHistory provider)
    (default [] h ++ [mkSlashRecord report_id penalty (op_stake p) now (op_active p)]) ;;
  publish (provider_slashed provider penalty (op_stake p) (op_active p)).

(** The revocation of the project of a rejected report. *)
Definition revoke_reported_project (project_id : Z) : M unit :=
  let* r := iget DataKey.ProjectRegistry in
  match r with
  | None => ret tt
  | Some registry_id =>
      let* n := iget DataKey.ProjectRegistryNonce in
      let registry_nonce : Z := default 0 n in
      let* this := current_contract_address in
      invoke_contract registry_id (call_revoke_project registry_id this project_id
        "Project revoked due to rejected oracle report" registry_nonce) ;;
      let* next := arith U64 (registry_nonce + 1) in
      iset DataKey.ProjectRegistryNonce next
  end.

Definition finalize_challenge (report_id : Z) (resolution : ReportStatus.ReportStatus) : M unit :=
  let* c := pget (DataKey.Challenge report_id) in
  let* challenge := ok_or c OracleError.ReportNotFound in
  if ch_resolved challenge then ret tt
  else
    store_entry (DataKey.Challenge report_id)
      (with_resolution (report_status_code resolution) (with_resolved challenge)) ;;
    let* r := pget (DataKey.Report report_id) in
    let* report := ok_or r OracleError.ReportNotFound in
    let* now := ledger_timestamp in
    let updated := with_status resolution report in
    let updated :=
      if bool_decide (resolution = ReportStatus.Verified) then with_verified_at now updated else updated in
    store_entry (DataKey.Report report_id) updated ;;
    release_report_lock (rp_provider report) report_id ;;
    when (bool_decide (resolution = ReportStatus.Rejected))
      (slash_provider (rp_provider report) report_id ;;
       revoke_reported_project (rp_project_id report)) ;;
    settle_challenge_bond (ch_challenger challenge) (ch_bond challenge)
      (bool_decide (resolution = ReportStatus.Rejected)) ;;
    publish (challenge_resolved report_id (report_status_code resolution)).

(** ** Providers and reports *)

Definition register_provider (caller provider : Address) (methodology : Symbol) (nonce : Z) : M unit :=
  require_auth caller ;;
  consume_nonce caller nonce ;;
  require_admin caller ;;
  let* has := phas (DataKey.Provider provider) in
  fail_if has OracleError.ProviderAlreadyExists ;;
  let* now := ledger_timestamp in
  store_entry (DataKey.Provider provider) (mkOracleProvider provider methodology 0 true now) ;;
  let* l := pget DataKey.ProviderList in
  store_entry DataKey.ProviderList (default [] l ++ [provider]) ;;
  publish (provider_registered provider).

Definition remove_provider (caller provider : Address) (nonce : Z) : M unit :=
  require_auth caller ;;
  consume_nonce caller nonce ;;
  require_admin caller ;;
  let* o := pget (DataKey.Provider provider) in
  let* p := ok_or o OracleError.ProviderNotFound in
  store_entry (DataKey.Provider provider) (with_active false p) ;;
  reconcile_signature_threshold ;;
  publish (provider_removed provider).

(** The provider of a signed call, which has to be active. *)
Definition active_provider (provider : Address) (missing : OracleError.OracleError) : M OracleProvider :=
  let* p := read_existing (DataKey.Provider provider) missing in
  fail_if (negb (op_active p)) OracleError.Unauthorized ;;
  ret p.

(** The project of a report, as the registry knows it now. *)
Definition approved_project (project_id : Z) : M ProjectLinkage :=
  let* r := iget DataKey.ProjectRegistry in
  let* registry_id := ok_or r OracleError.ProjectRegistryNotConfigured in
  let* linkage := try_invoke_contract registry_id (call_get_project_linkage registry_id project_id) in
  let* project :=
    match linkage with
    | inl project => ret project
    | inr (Some RegistryError.ProjectNotFound) => throw OracleError.ProjectNotFound
    | inr _ => throw OracleError.ProjectRegistryCallFailed
    end in
  fail_if (bool_decide (pl_status project <> ProjectStatus.Approved)) OracleError.ProjectNotApproved ;;
  ret project.

(** No overlap with a period claimed before, and none before the last one. *)
Definition check_period (project_id period_start period_end : Z) : M unit :=
  let* o := pget (DataKey.ProjectReportPeriods project_id) in
  let claimed : list (Z * Z) := default [] o in
  for_each (fun pair => fail_if (overlaps period_start period_end pair) OracleError.OverlappingReportPeriod)
    claimed ;;
  match list.last claimed with
  | Some (_, last_end) => fail_if (period_start <? last_end) OracleError.BackdatedReportPeriod
  | None => ret tt
  end.

Definition submit_report (provider : Address) (project_id period_start period_end carbon_sequestered : Z)
    (biodiversity : BiodiversityMetrics) (methodology : Symbol) (ipfs_evidence_hash : BytesN) (nonce : Z) : M Z :=
  require_auth provider ;;
  consume_nonce provider nonce ;;
  let* p := active_provider provider OracleError.ProviderNotFound in
  fail_if ((period_end <=? period_start) || (carbon_sequestered <? 0)) OracleError.InvalidSignature ;;
  fail_if (negb (biodiversity_ok biodiversity)) OracleError.InvalidSignature ;;
  let* project := approved_project project_id in
  check_period project_id period_start period_end ;;
  let* c := iget DataKey.ReportCount in
  let* report_id := arith U64 (default 0 c + 1) in
  iset DataKey.ReportCount report_id ;;
  let* now := ledger_timestamp in
  store_entry (DataKey.Report report_id)
    (mkReport report_id provider project_id (pl_metadata_ipfs_hash project) period_start period_end
       carbon_sequestered biodiversity methodology ipfs_evidence_hash ReportStatus.Pending now 0) ;;
  lock_stake_for_report provider report_id (op_stake p) ;;
  let* pr := pget (DataKey.ProjectReports project_id) in
  store_entry (DataKey.ProjectReports project_id) (default [] pr ++ [report_id]) ;;
  let* pp := pget (DataKey.ProjectReportPeriods project_id) in
  store_entry (DataKey.ProjectReportPeriods project_id)
    (push_period (default [] pp) (period_start, period_end)) ;;
  let* rc := pget (DataKey.ProviderReportCount provider) in
  let* report_count := arith U64 (default 0 rc + 1) in
  store_entry (DataKey.ProviderReportCount provider) report_count ;;
  publish (report_submitted report_id provider project_id) ;;
  ret report_id.

(** An open challenge blocks verification, a resolved one does not. *)
Definition no_open_challenge (report_id : Z) : M unit :=
  let* c := pget (DataKey.Challenge report_id) in
  match c with
  | Some challenge => fail_if (negb (ch_resolved challenge)) OracleError.ReportAlreadyVerified
  | None => ret tt
  end.

(** Add the caller to the verifiers of a report; the list that results. *)
Definition record_verifier (caller : Address) (report_id : Z) : M (list Address) :=
  let* v := pget (DataKey.ReportVerifiers report_id) in
  let verifiers : list Address := default [] v in
  if bool_decide (caller ∈ verifiers) then ret verifiers
  else
    let verifiers := verifiers ++ [caller] in
    store_entry (DataKey.ReportVerifiers report_id) verifiers ;;
    store_entry (DataKey.VerificationCount report_id) (Z.of_nat (length verifiers)) ;;
    ret verifiers.

Definition verify_report (caller : Address) (report_id nonce : Z) : M unit :=
  require_auth caller ;;
  active_provider caller OracleError.Unauthorized ;;
  consume_nonce caller nonce ;;
  let* r := pget (DataKey.Report report_id) in
  let* report := ok_or r OracleError.ReportNotFound in
  fail_if (bool_decide (rp_status report <> ReportStatus.Pending)) OracleError.ReportAlreadyVerified ;;
  no_open_challenge report_id ;;
  fail_if (bool_decide (caller = rp_provider report)) OracleError.InvalidSignature ;;
  let* verifiers := record_verifier caller report_id in
  let* t := iget DataKey.SignatureThreshold in
  let threshold : Z := default 1 t in
  let* now := ledger_timestamp in
  when (threshold <=? Z.of_nat (length verifiers))
    (store_entry (DataKey.Report report_id)
       (with_verified_at now (with_status ReportStatus.Verified report)) ;;
     release_report_lock (rp_provider report) report_id ;;
     publish (report_verified report_id)).

(** The statuses an override or a resolution may set. *)
Definition is_verdict (status : ReportStatus.ReportStatus) : bool :=
  bool_decide (status = ReportStatus.Verified) || bool_decide (status = ReportStatus.Rejected).

Definition admin_override_report (caller : Address) (report_id : Z) (status : ReportStatus.ReportStatus)
    (nonce : Z) : M unit :=
  require_auth caller ;;
  consume_nonce caller nonce ;;
  require_admin caller ;;
  fail_if (negb (is_verdict status)) OracleError.InvalidResolution ;;
  let* r := pget (DataKey.Report report_id) in
  let* report := ok_or r OracleError.ReportNotFound in
  fail_if (bool_decide (rp_status report <> ReportStatus.Pending)) OracleError.ReportAlreadyVerified ;;
  let* now := ledger_timestamp in
  store_entry (DataKey.Report report_id) (with_verified_at now (with_status status report)) ;;
  publish (report_admin_override report_id (report_status_code status)).

(** ** Challenges *)

Definition challenge_report (challenger : Address) (report_id : Z) (counter_evidence_hash : BytesN)
    (nonce : Z) : M unit :=
  require_auth challenger ;;
  consume_nonce challenger nonce ;;
  let* has := phas (DataKey.Challenge report_id) in
  fail_if has OracleError.ChallengeAlreadyExists ;;
  let* report := read_existing (DataKey.Report report_id) OracleError.ReportNotFound in
  fail_if (bool_decide (rp_status report <> ReportStatus.Pending)) OracleError.ReportAlreadyVerified ;;
  fail_if (bool_decide (challenger = rp_provider report)) OracleError.SelfChallenge ;;
  let* now := ledger_timestamp in
  let* w := iget DataKey.ChallengeWindow in
  let window : Z := default CHALLENGE_WINDOW_SECONDS w in
  fail_if (window <? saturating U64 (now - rp_submitted_at report)) OracleError.ChallengeWindowExpired ;;
  let* bond := charge_challenge_bond challenger in
  store_entry (DataKey.Challenge report_id)
    (mkChallenge report_id challenger counter_evidence_hash now false 0 bond) ;;
  let* again := pget (DataKey.Report report_id) in
  let* report_mut := unwrap again in
  store_entry (DataKey.Report report_id) (with_status ReportStatus.Challenged report_mut) ;;
  let* pc := pget (DataKey.ProviderChallenges (rp_provider report)) in
  store_entry (DataKey.ProviderChallenges (rp_provider report)) (default [] pc ++ [report_id]) ;;
  publish (report_challenged report_id challenger).

Definition resolve_challenge (caller : Address) (report_id : Z) (resolution : ReportStatus.ReportStatus)
    (nonce : Z) : M unit :=
  require_auth caller ;;
  consume_nonce caller nonce ;;
  require_admin caller ;;
  fail_if (negb (is_verdict resolution)) OracleError.InvalidResolution ;;
  finalize_challenge report_id resolution.

(** The status one side of the vote stands for. *)
Definition verdict (uphold : bool) : ReportStatus.ReportStatus :=
  if uphold then ReportStatus.Verified else ReportStatus.Rejected.

(** Store the votes of one side after the caller's. *)
Definition write_votes (report_id : Z) (uphold : bool) (votes : list Address) : M unit :=
  if uphold then store_entry (DataKey.ChallengeUpholdVotes report_id) votes
  else store_entry (DataKey.ChallengeRejectVotes report_id) votes.

(** Cast the caller's vote; the number of votes on its side afterwards. *)
Definition cast_vote (caller : Address) (report_id : Z) (uphold : bool) : M Z :=
  let* u := pget (DataKey.ChallengeUpholdVotes report_id) in
  let* r := pget (DataKey.ChallengeRejectVotes report_id) in
  let uphold_votes : list Address := default [] u in
  let reject_votes : list Address := default [] r in
  fail_if (bool_decide (caller ∈ uphold_votes)) OracleError.AlreadyVoted ;;
  fail_if (bool_decide (caller ∈ reject_votes)) OracleError.AlreadyVoted ;;
  let votes := (if uphold then uphold_votes else reject_votes) ++ [caller] in
  write_votes report_id uphold votes ;;
  publish (challenge_vote report_id caller uphold) ;;
  ret (Z.of_nat (length votes)).

Definition resolve_challenge_by_verifier (caller : Address) (report_id : Z) (uphold : bool) (nonce : Z) : M unit :=
  require_auth caller ;;
  consume_nonce caller nonce ;;
  active_provider caller OracleError.Unauthorized ;;
  let* c := pget (DataKey.Challenge report_id) in
  let* challenge := ok_or c OracleError.ReportNotFound in
  fail_if (ch_resolved challenge) OracleError.InvalidResolution ;;
  let* r := pget (DataKey.Report report_id) in
  let* report := ok_or r OracleError.ReportNotFound in
  fail_if (bool_decide (rp_status report <> ReportStatus.Challenged)) OracleError.ReportAlreadyVerified ;;
  fail_if (bool_decide (caller = rp_provider report)) OracleError.InvalidSignature ;;
  let* votes := cast_vote caller report_id uphold in
  let* active := active_provider_count in
  when (supermajority_threshold active <=? votes) (finalize_challenge report_id (verdict uphold)).

Definition expire_stale_challenge (report_id : Z) : M unit :=
  let* c := pget (DataKey.Challenge report_id) in
  let* challenge := ok_or c OracleError.ReportNotFound in
  if ch_resolved challenge then ret tt
  else
    let* now := ledger_timestamp in
    fail_if (saturating U64 (now - ch_submitted_at challenge) <=? CHALLENGE_TIMEOUT_SECONDS)
      OracleError.ChallengeNotStale ;;
    let* r := pget (DataKey.Report report_id) in
    let* report := ok_or r OracleError.ReportNotFound in
    fail_if (bool_decide (rp_status report <> ReportStatus.Challenged)) OracleError.InvalidResolution ;;
    store_entry (DataKey.Challenge report_id) (with_resolved challenge) ;;
    store_entry (DataKey.Report report_id) (with_status ReportStatus.Pending report) ;;
    settle_challenge_bond (ch_challenger challenge) (ch_bond challenge) true ;;
    publish (challenge_expired report_id).

(** ** Configuration, stakes and bonds *)

Definition set_signature_threshold (caller : Address) (threshold nonce : Z) : M unit :=
  require_auth caller ;;
  consume_nonce caller nonce ;;
  require_admin caller ;;
  let* active := active_provider_count in
  fail_if ((threshold =? 0) || (active <? threshold)) OracleError.InvalidThreshold ;;
  iset DataKey.SignatureThreshold threshold.

Definition add_stake (provider : Address) (amount nonce : Z) : M unit :=
  require_auth provider ;;
  consume_nonce provider nonce ;;
  fail_if (amount <=? 0) OracleError.InsufficientStake ;;
  let* o := pget (DataKey.Provider provider) in
  let* p := ok_or o OracleError.ProviderNotFound in
  let* stake := ok_or (checked I128 (op_stake p + amount)) OracleError.InsufficientStake in
  store_entry (DataKey.Provider provider) (with_stake stake p) ;;
  publish (stake_added provider amount).

Definition withdraw_stake (provider : Address) (amount nonce : Z) : M unit :=
  require_auth provider ;;
  consume_nonce provider nonce ;;
  fail_if (amount <=? 0) OracleError.InsufficientStake ;;
  let* o := pget (DataKey.Provider provider) in
  let* p := ok_or o OracleError.ProviderNotFound in
  fail_if (op_stake p <? amount) OracleError.InsufficientStake ;;
  let* l := pget (DataKey.LockedStake provider) in
  let locked : Z := default 0 l in
  let* rest := arith I128 (op_stake p - amount) in
  fail_if (rest <? locked) OracleError.StakeLocked ;;
  let* stake := arith I128 (op_stake p - amount) in
  store_entry (DataKey.Provider provider) (with_stake stake p) ;;
  publish (stake_withdrawn provider amount).

Definition deposit_challenge_bond (caller : Address) (amount nonce : Z) : M unit :=
  require_auth caller ;;
  consume_nonce caller nonce ;;
  fail_if (amount <=? 0) OracleError.InsufficientChallengeBond ;;
  let* b := pget (DataKey.ChallengeBondBalance caller) in
  let* new_balance := ok_or (checked I128 (default 0 b + amount)) OracleError.InsufficientStake in
  store_entry (DataKey.ChallengeBondBalance caller) new_balance ;;
  publish (challenge_bond_deposited caller amount).

Definition withdraw_challenge_bond (caller : Address) (amount nonce : Z) : M unit :=
  require_auth caller ;;
  consume_nonce caller nonce ;;
  fail_if (amount <=? 0) OracleError.InsufficientChallengeBond ;;
  let* b := pget (DataKey.ChallengeBondBalance caller) in
  let balance : Z := default 0 b in
  fail_if (balance <? amount) OracleError.InsufficientChallengeBond ;;
  let* rest := arith I128 (balance - amount) in
  store_entry (DataKey.ChallengeBondBalance caller) rest ;;
  publish (challenge_bond_withdrawn caller amount).

Definition set_project_registry (caller registry_id : Address) (nonce : Z) : M unit :=
  require_auth caller ;;
  consume_nonce caller nonce ;;
  require_admin caller ;;
  iset DataKey.ProjectRegistry registry_id ;;
  iset DataKey.ProjectRegistryNonce 0 ;;
  publish (registry_set caller registry_id).

Definition propose_admin_transfer (caller candidate : Address) (nonce : Z) : M unit :=
  require_auth caller ;;
  consume_nonce caller nonce ;;
  require_admin caller ;;
  let* now := ledger_timestamp in
  let* executable_at := arith U64 (now + ADMIN_TRANSFER_TIMELOCK_SECONDS) in
  iset DataKey.PendingAdmin (mkPendingAdminChange candidate executable_at) ;;
  publish (admin_transfer_proposed caller candidate executable_at).

Definition cancel_admin_transfer (caller : Address) (nonce : Z) : M unit :=
  require_auth caller ;;
  consume_nonce caller nonce ;;
  require_admin caller ;;
  let* has := ihas DataKey.PendingAdmin in
  fail_if (negb has) OracleError.NoPendingAdminChange ;;
  iremove DataKey.PendingAdmin ;;
  publish (admin_transfer_cancelled caller).

Definition accept_admin_transfer (caller : Address) (nonce : Z) : M unit :=
  require_auth caller ;;
  consume_nonce caller nonce ;;
  let* o := iget DataKey.PendingAdmin in
  let* pending := ok_or o OracleError.NoPendingAdminChange in
  fail_if (bool_decide (caller <> pc_candidate pending)) OracleError.Unauthorized ;;
  let* now := ledger_timestamp in
  fail_if (now <? pc_executable_at pending) OracleError.TimelockNotElapsed ;;
  let* a := iget DataKey.Admin in
  let* old_admin := ok_or a OracleError.NotInitialized in
  iset DataKey.Admin caller ;;
  iremove DataKey.PendingAdmin ;;
  publish (admin_changed old_admin caller).

(** ** Getters *)

Definition get_provider (provider : Address) : M OracleProvider :=
  read_existing (DataKey.Provider provider) OracleError.ProviderNotFound.

Definition get_report (report_id : Z) : M Report :=
  read_existing (DataKey.Report report_id) OracleError.ReportNotFound.

Definition list_providers : M (list Address) := read_or DataKey.ProviderList [].

Definition get_project_reports (project_id : Z) : M (list Z) := read_or (DataKey.ProjectReports project_id) [].

Definition get_challenge (report_id : Z) : M Challenge :=
  read_existing (DataKey.Challenge report_id) OracleError.ReportNotFound.

Definition get_verification_count (report_id : Z) : M Z := read_or (DataKey.VerificationCount report_id) 0.

Definition get_report_verifiers (report_id : Z) : M (list Address) :=
  read_or (DataKey.ReportVerifiers report_id) [].

Definition get_provider_stats (provider : Address) : M ProviderStats :=
  let* p := read_existing (DataKey.Provider provider) OracleError.ProviderNotFound in
  let* reports_submitted := read_or (DataKey.ProviderReportCount provider) 0 in
  let* challenges := read_or (DataKey.ProviderChallenges provider) [] in
  let* history := read_or (DataKey.SlashHistory provider) [] in
  let* total_penalty := mfold (fun total record => arith I128 (total + sr_penalty record)) 0 history in
  ret (mkProviderStats reports_submitted (Z.of_nat (length challenges)) (Z.of_nat (length history))
         total_penalty (op_stake p) (op_active p)).

Definition get_locked_stake (provider : Address) : M Z := read_or (DataKey.LockedStake provider) 0.

Definition get_slash_history (provider : Address) : M (list SlashRecord) :=
  read_or (DataKey.SlashHistory provider) [].

(** One turn of the loop of [get_challenge_history]. *)
Definition push_challenge (challenges : list Challenge) (id : Z) : M (list Challenge) :=
  let* c := pget (DataKey.Challenge id) in
  match c with
  | Some challenge =>
      bump_persistent (DataKey.Challenge id) ;;
      ret (challenges ++ [challenge])
  | None => ret challenges
  end.

Definition get_challenge_history (provider : Address) : M (list Challenge) :=
  let* ids := read_or (DataKey.ProviderChallenges provider) [] in
  mfold push_challenge [] ids.

Definition get_signature_threshold : M Z :=
  let* o := iget DataKey.SignatureThreshold in ret (default 1 o).

Definition get_challenge_bond_balance (challenger : Address) : M Z :=
  read_or (DataKey.ChallengeBondBalance challenger) 0.

Definition get_locked_challenge_bond (challenger : Address) : M Z :=
  read_or (DataKey.ChallengeBondLock challenger) 0.

Definition get_challenge_votes (report_id : Z) : M (list Address * list Address) :=
  let* u := pget (DataKey.ChallengeUpholdVotes report_id) in
  let* r := pget (DataKey.ChallengeRejectVotes report_id) in
  bump_if_has (DataKey.ChallengeUpholdVotes report_id) ;;
  bump_if_has (DataKey.ChallengeRejectVotes report_id) ;;
  ret (default [] u, default [] r).

Definition get_admin : M (option Address) := iget DataKey.Admin.

Definition get_pending_admin : M (option PendingAdminChange) := iget DataKey.PendingAdmin.

(** ** Executions *)

Inductive Call :=
| CRegister (caller provider : Address) (methodology : Symbol) (nonce : Z)
| CRemove (caller provider : Address) (nonce : Z)
| CSubmit (provider : Address) (project_id period_start period_end carbon_sequestered : Z)
    (biodiversity : BiodiversityMetrics) (methodology : Symbol) (ipfs_evidence_hash : BytesN) (nonce : Z)
| CVerify (caller : Address) (report_id nonce : Z)
| COverride (caller : Address) (report_id : Z) (status : ReportStatus.ReportStatus) (nonce : Z)
| CChallenge (challenger : Address) (report_id : Z) (counter_evidence_hash : BytesN) (nonce : Z)
| CResolve (caller : Address) (report_id : Z) (resolution : ReportStatus.ReportStatus) (nonce : Z)
| CVote (caller : Address) (report_id : Z) (uphold : bool) (nonce : Z)
| CExpire (report_id : Z)
| CThreshold (caller : Address) (threshold nonce : Z)
| CAddStake (provider : Address) (amount nonce : Z)
| CWithdrawStake (provider : Address) (amount nonce : Z)
| CDeposit (caller : Address) (amount nonce : Z)
| CWithdraw (caller : Address) (amount nonce : Z)
| CSetRegistry (caller registry_id : Address) (nonce : Z)
| CProposeAdmin (caller candidate : Address) (nonce : Z)
| CCancelAdmin (caller : Address) (nonce : Z)
| CAcceptAdmin (caller : Address) (nonce : Z).

Definition exec (c : Call) : M unit :=
  match c with
  | CRegister a p m n => register_provider a p m n
  | CRemove a p n => remove_provider a p n
  | CSubmit a p x y v b m h n => submit_report a p x y v b m h n ;; ret tt
  | CVerify a i n => verify_report a i n
  | COverride a i st n => admin_override_report a i st n
  | CChallenge a i h n => challenge_report a i h n
  | CResolve a i st n => resolve_challenge a i st n
  | CVote a i u n => resolve_challenge_by_verifier a i u n
  | CExpire i => expire_stale_challenge i
  | CThreshold a t n => set_signature_threshold a t n
  | CAddStake a v n => add_stake a v n
  | CWithdrawStake a v n => withdraw_stake a v n
  | CDeposit a v n => deposit_challenge_bond a v n
  | CWithdraw a v n => withdraw_challenge_bond a v n
  | CSetRegistry a r n => set_project_registry a r n
  | CProposeAdmin a c n => propose_admin_transfer a c n
  | CCancelAdmin a n => cancel_admin_transfer a n
  | CAcceptAdmin a n => accept_admin_transfer a n
  end.

Definition deployed (s : state) : Prop :=
  exists e admin w, constructor admin e (empty_state w) = Ok tt s.
End oracle.

(** ** Views of the state *)

Section views.
Context {W : Type}.
Implicit Types s : cstate DataKey ty Event W.

Definition provider_of s (a : Address) : option OracleProvider := sget (DataKey.Provider a) (pers s).
Definition providers_of s : list Address := default [] (sget DataKey.ProviderList (pers s)).
Definition report_of s (i : Z) : option Report := sget (DataKey.Report i) (pers s).
Definition count_of s : Z := default 0 (sget DataKey.ReportCount (inst s)).
Definition challenge_of s (i : Z) : option Challenge := sget (DataKey.Challenge i) (pers s).
Definition verifiers_of s (i : Z) : list Address := default [] (sget (DataKey.ReportVerifiers i) (pers s)).
Definition upholders_of s (i : Z) : list Address := default [] (sget (DataKey.ChallengeUpholdVotes i) (pers s)).
Definition rejecters_of s (i : Z) : list Address := default [] (sget (DataKey.ChallengeRejectVotes i) (pers s)).
Definition voters_of s (i : Z) (uphold : bool) : list Address :=
  if uphold then upholders_of s i else rejecters_of s i.
Definition threshold_of s : Z := default 1 (sget DataKey.SignatureThreshold (inst s)).
Definition admin_of s : option Address := sget DataKey.Admin (inst s).
Definition registry_of s : option Address := sget DataKey.ProjectRegistry (inst s).
Definition nonce_of s (a : Address) : Z := default 0 (sget (DataKey.Nonce a) (pers s)).
Definition lock_of s (i : Z) : Z := default 0 (sget (DataKey.ReportLock i) (pers s)).
Definition locked_of s (a : Address) : Z := default 0 (sget (DataKey.LockedStake a) (pers s)).
Definition bond_of s (a : Address) : Z := default 0 (sget (DataKey.ChallengeBondBalance a) (pers s)).
Definition bond_lock_of s (a : Address) : Z := default 0 (sget (DataKey.ChallengeBondLock a) (pers s)).
Definition periods_of s (p : Z) : list (Z * Z) := default [] (sget (DataKey.ProjectReportPeriods p) (pers s)).
Definition project_reports_of s (p : Z) : list Z := default [] (sget (DataKey.ProjectReports p) (pers s)).
End views.

(** Two stores agree outside the keys [ks]. *)
Definition agree (ks : list DataKey) (m m' : store DataKey ty) : Prop :=
  forall k, k ∉ ks -> sget k m' = sget k m.

Lemma agree_refl ks m : agree ks m m.
Proof. done. Qed.

Lemma agree_trans ks1 ks2 m1 m2 m3 : agree ks1 m1 m2 -> agree ks2 m2 m3 -> agree (ks1 ++ ks2) m1 m3.
Proof.
  intros H1 H2 k Hk. rewrite elem_of_app in Hk. rewrite H2, H1; [done|..]; intros ?; apply Hk; auto.
Qed.

Lemma agree_sset k v m : agree [k] m (sset k v m).
Proof. intros j Hj. rewrite sget_sset_ne; [done|]. intros ->. apply Hj, list_elem_of_singleton. done. Qed.

Lemma agree_sdel k m : agree [k] m (sdel k m).
Proof. intros j Hj. rewrite sget_sdel_ne; [done|]. intros ->. apply Hj, list_elem_of_singleton. done. Qed.

Lemma agree_weaken ks ks' m m' : agree ks m m' -> ks ⊆ ks' -> agree ks' m m'.
Proof. intros H Hs k Hk. apply H. intros Hin. by apply Hk, Hs. Qed.

(** [k] is none of the listed keys. *)
Ltac outside := rewrite ?not_elem_of_app, ?not_elem_of_cons; split_and?; first [apply not_elem_of_nil | congruence].

Section specs.
Context {W : Type} `{!World W} `{!ProjectSource W}.
Local Abbreviation state := (cstate DataKey ty Event W).
Implicit Types (s : state) (e : Env).

(** *** What the helpers do *)

Lemma oracle_require_admin_Ok a e s u s' :
  @require_admin W a e s = Ok u s' -> admin_of s = Some a /\ s' = s.
Proof. unfold require_admin, admin_of. intros H. inv_ok H. guards. by subst. Qed.

Lemma oracle_bump_Ok k e s u s' : @bump_persistent W k e s = Ok u s' -> exists l, s' = put_live l s.
Proof. apply pextend_Ok. Qed.

Lemma oracle_store_Ok k v e s u s' :
  @store_entry W k v e s = Ok u s' -> exists l, s' = put_live l (put_pers k v s).
Proof. unfold store_entry, bump_persistent. intros H. inv_ok H. by eexists. Qed.

Lemma read_or_Ok k d e s v s' :
  @read_or W k d e s = Ok v s' -> v = default d (sget k (pers s)) /\ exists l, s' = put_live l s.
Proof.
  unfold read_or. intros (o&s1&[-> ->]%pget_Ok&(?&s2&[l ->]%bump_if_present_Ok&[-> ->]%ret_Ok)%bind_Ok)%bind_Ok.
  split; [done|by exists l].
Qed.

Lemma read_existing_Ok k x e s v s' :
  @read_existing W k x e s = Ok v s' -> sget k (pers s) = Some v /\ exists l, s' = put_live l s.
Proof.
  unfold read_existing. intros (o&s1&[-> ->]%pget_Ok&H)%bind_Ok.
  apply bind_Ok in H as (w&s1&[Hw ->]%ok_or_Ok&H).
  apply bind_Ok in H as (?&s1&[l ->]%oracle_bump_Ok&[-> ->]%ret_Ok). split; [done|by exists l].
Qed.

Lemma oracle_consume_nonce_Ok a n e s u s' :
  @consume_nonce W a n e s = Ok u s' ->
  n = nonce_of s a /\ exists next l, s' = put_live l (put_pers (DataKey.Nonce a) next s) /\
    (in_range U64 (n + 1) = true -> next = n + 1).
Proof.
  unfold consume_nonce, get_nonce, set_nonce.
  intros (v&s1&[-> [l ->]]%(read_or_Ok (DataKey.Nonce a))&H)%bind_Ok.
  apply bind_Ok in H as (?&s2&[Hn ->]%fail_if_Ok&H). guards. subst n.
  apply bind_Ok in H as (next&s2&(->&_&Hnx&_)%arith_Ok&H).
  apply (oracle_store_Ok (DataKey.Nonce a)) in H as [l' ->].
  split; [done|]. exists next, l'. split; [done|exact Hnx].
Qed.

Lemma active_count_Ok e s v s' : @active_provider_count W e s = Ok v s' -> s' = s.
Proof.
  unfold active_provider_count. intros (o&s1&[-> ->]%pget_Ok&H)%bind_Ok.
  apply (mfold_Ok_ind (fun _ s1 => s1 = s)) in H; [done| |done].
  intros acc a s1 acc' s1' -> Hc. unfold count_active in Hc.
  apply bind_Ok in Hc as (o&s2&[-> ->]%pget_Ok&Hc). destruct (sget (DataKey.Provider a) (pers s)) as [p|].
  - destruct (op_active p); [by apply arith_Ok in Hc as [-> _]|by apply (ret_Ok acc acc' e) in Hc as [_ ->]].
  - by apply (ret_Ok acc acc' e) in Hc as [_ ->].
Qed.

(** Reconciling only ever lowers the threshold. *)
Lemma reconcile_Ok e s u s' :
  @reconcile_signature_threshold W e s = Ok u s' ->
  pers s' = pers s /\ world s' = world s /\ agree [DataKey.SignatureThreshold] (inst s) (inst s') /\
  threshold_of s' <= threshold_of s /\ (1 <= threshold_of s -> 1 <= threshold_of s').
Proof.
  unfold reconcile_signature_threshold, threshold_of. intros (o&s1&[-> ->]%iget_Ok&H)%bind_Ok.
  apply bind_Ok in H as (v&s1&->%active_count_Ok&H).
  apply when_Ok in H as [[_ H]|[_ ->]]; [|split_and!; by try lia].
  apply bind_Ok in H as (?&s2&->%iset_Ok&->%publish_Ok). host_cbn. rewrite sget_sset_eq. simpl.
  split_and!; try done; try lia. apply agree_sset.
Qed.

(** [slashable_amount] as a number, when the product does not overflow: a tenth of
    the stake, all of it when that rounds to nothing. *)
Definition slashable (stake : Z) : Z :=
  let penalty := Z.quot (stake * SLASH_PENALTY_PPM) 1000000 in
  if penalty <=? 0 then stake else penalty.

Lemma slashable_bounds stake : 0 <= stake -> 0 <= slashable stake <= stake.
Proof.
  intros Hs. unfold slashable, SLASH_PENALTY_PPM.
  rewrite Z.quot_div_nonneg by lia. assert (stake * 100000 / 1000000 <= stake) by (apply Z.div_le_upper_bound; lia).
  assert (0 <= stake * 100000 / 1000000) by (apply Z.div_pos; lia). destruct (_ <=? _) eqn:Hp; lia.
Qed.

Lemma slashable_Ok stake e s v s' :
  @slashable_amount W stake e s = Ok v s' ->
  s' = s /\ v <= stake /\
  (0 <= stake -> in_range I128 (stake * SLASH_PENALTY_PPM) = true -> v = slashable stake).
Proof.
  unfold slashable_amount. intros (p&s1&(->&_&Hp&_)%arith_Ok&[-> ->]%ret_Ok)%bind_Ok.
  split; [done|]. split; [destruct (Z.ltb_spec stake (if Z.quot p 1000000 <=? 0 then stake else Z.quot p 1000000)); lia|].
  intros H0 Hr. rewrite (Hp Hr). fold (slashable stake). pose proof (slashable_bounds stake H0).
  destruct (Z.ltb_spec stake (slashable stake)); lia.
Qed.
End specs.

Ltac inv_hook H ::=
  lazymatch type of H with
  | bump_persistent _ _ _ = Ok _ _ => apply oracle_bump_Ok in H as [? ?]; subst
  | store_entry _ _ _ _ = Ok _ _ => apply oracle_store_Ok in H as [? ?]; subst
  | require_admin _ _ _ = Ok _ _ => apply oracle_require_admin_Ok in H as [? ?]; subst
  | active_provider_count _ _ = Ok _ _ => apply active_count_Ok in H; subst
  end.

Section effects.
Context {W : Type} `{!World W} `{!ProjectSource W}.
Local Abbreviation state := (cstate DataKey ty Event W).
Implicit Types (s : state) (e : Env).

(** ** What the shared steps do *)

(** [s'] differs from [s] in the persistent entries [ks] and in lifetimes, events. *)
Definition touches (ks : list DataKey) s s' : Prop :=
  inst s' = inst s /\ world s' = world s /\ agree ks (pers s) (pers s').

Lemma touches_get ks s s' k : touches ks s s' -> k ∉ ks -> sget k (pers s') = sget k (pers s).
Proof. intros (_&_&H). apply H. Qed.

Lemma touches_trans ks1 ks2 s1 s2 s3 : touches ks1 s1 s2 -> touches ks2 s2 s3 -> touches (ks1 ++ ks2) s1 s3.
Proof.
  intros (Hi&Hw&Hp) (Hi'&Hw'&Hp'). split_and!; [congruence..|]. by eapply agree_trans.
Qed.

Lemma touches_live ks s l : touches ks s (put_live l s).
Proof. by split_and!. Qed.

Lemma touches_log ks s s' ev : touches ks s s' -> touches ks s (log ev s').
Proof. done. Qed.

Lemma touches_put k v s l : touches [k] s (put_live l (put_pers k v s)).
Proof. split_and!; [done..|apply agree_sset]. Qed.

Lemma touches_del k s : touches [k] s (del_pers k s).
Proof. split_and!; [done..|apply agree_sdel]. Qed.

Lemma touches_weaken ks ks' s s' : touches ks s s' -> ks ⊆ ks' -> touches ks' s s'.
Proof. intros (Hi&Hw&Hp) Hs. split_and!; [done..|]. by eapply agree_weaken. Qed.

Lemma lock_Ok a i z e s u s' :
  lock_stake_for_report a i z e s = Ok u s' ->
  touches [DataKey.ReportLock i; DataKey.LockedStake a] s s' /\ lock_of s' i <= z /\
  (0 <= z -> in_range I128 (z * SLASH_PENALTY_PPM) = true -> lock_of s' i = slashable z) /\
  (in_range I128 (locked_of s a + lock_of s' i) = true -> locked_of s' a = locked_of s a + lock_of s' i).
Proof.
  unfold lock_stake_for_report. intros (v&s1&(->&Hv&Hex)%slashable_Ok&H)%bind_Ok.
  apply bind_Ok in H as (?&s1&[l ->]%(oracle_store_Ok (DataKey.ReportLock i))&H).
  apply bind_Ok in H as (o&s1&[-> ->]%pget_Ok&H). apply bind_Ok in H as (t&s1&(->&_&Ht&_)%arith_Ok&H).
  apply (oracle_store_Ok (DataKey.LockedStake a)) in H as [l' ->]. host_cbn. rewrite sget_sset_ne in Ht by done.
  split_and!.
  - eapply (touches_trans [_] [_]); apply touches_put.
  - unfold lock_of. host_cbn. by store_simp.
  - unfold lock_of. host_cbn. by store_simp.
  - unfold lock_of, locked_of. host_cbn. by store_simp.
Qed.

(** The lock of report [i] of provider [a] was released. *)
Definition unlocked s (a : Address) (i : Z) s' : Prop :=
  lock_of s' i = 0 /\
  (0 <= lock_of s i <= locked_of s a -> locked_of s a <= int_hi I128 -> locked_of s' a = locked_of s a - lock_of s i).

Lemma unlocked_from a i s s1 s' :
  unlocked s1 a i s' -> lock_of s1 i = lock_of s i -> locked_of s1 a = locked_of s a -> unlocked s a i s'.
Proof. intros [H0 H1] Hl Hld. rewrite Hl, Hld in H1. by split. Qed.

Definition released (a : Address) (i : Z) s s' : Prop :=
  touches [DataKey.ReportLock i; DataKey.LockedStake a] s s' /\ unlocked s a i s'.

Lemma release_Ok a i e s u s' : @release_report_lock W a i e s = Ok u s' -> released a i s s'.
Proof.
  unfold released, unlocked, release_report_lock, lock_of, locked_of. intros (o&s1&[-> ->]%pget_Ok&H)%bind_Ok.
  destruct (Z.eqb_spec (default 0 (sget (DataKey.ReportLock i) (pers s))) 0) as [Hz|Hz].
  { apply (ret_Ok tt u e) in H as [_ ->]. split_and!; [by split_and!|done|intros; lia]. }
  apply bind_Ok in H as (?&s1&->%premove_Ok&H). apply bind_Ok in H as (o&s1&[-> ->]%pget_Ok&H).
  apply bind_Ok in H as (nl&s1&Hnl&H). host_cbn. rewrite sget_sdel_ne in Hnl by done.
  set (locked := default 0 (sget (DataKey.LockedStake a) (pers s))) in *.
  set (lk := default 0 (sget (DataKey.ReportLock i) (pers s))) in *.
  assert (s1 = del_pers (DataKey.ReportLock i) s /\
    (0 <= lk <= locked -> locked <= int_hi I128 -> nl = locked - lk)) as [-> Hex].
  { destruct (Z.ltb_spec locked lk).
    - apply (ret_Ok 0 nl e) in Hnl as [-> ->]. split; [done|lia].
    - apply arith_Ok in Hnl as (->&_&Hx&_). split; [done|]. intros. apply Hx, in_range_spec.
      pose proof (int_lo_hi I128). lia. }
  apply (oracle_store_Ok (DataKey.LockedStake a)) in H as [l ->]. split_and!.
  - eapply (touches_trans [_] [_]); [apply touches_del|apply touches_put].
  - host_cbn. by store_simp.
  - host_cbn. by store_simp.
Qed.

Lemma charge_Ok a e s v s' :
  @charge_challenge_bond W a e s = Ok v s' ->
  touches [DataKey.ChallengeBondBalance a; DataKey.ChallengeBondLock a] s s' /\
  v = CHALLENGE_BOND /\ CHALLENGE_BOND <= bond_of s a /\
  (bond_of s a <= int_hi I128 -> bond_of s' a = bond_of s a - CHALLENGE_BOND) /\
  (in_range I128 (bond_lock_of s a + CHALLENGE_BOND) = true -> bond_lock_of s' a = bond_lock_of s a + CHALLENGE_BOND).
Proof.
  unfold charge_challenge_bond, bond_of, bond_lock_of. intros (o&s1&[-> ->]%pget_Ok&H)%bind_Ok.
  apply bind_Ok in H as (?&s1&[Hb ->]%fail_if_Ok&H). guards.
  apply bind_Ok in H as (r&s1&(->&_&Hr&_)%arith_Ok&H).
  apply bind_Ok in H as (?&s1&[l ->]%(oracle_store_Ok (DataKey.ChallengeBondBalance a))&H).
  apply bind_Ok in H as (o&s1&[-> ->]%pget_Ok&H). apply bind_Ok in H as (k&s1&(->&_&Hk&_)%arith_Ok&H).
  apply bind_Ok in H as (?&s1&[l' ->]%(oracle_store_Ok (DataKey.ChallengeBondLock a))&H). inv_ok H.
  host_cbn. rewrite sget_sset_ne in Hk by done. split_and!; [|done|done|..].
  - apply touches_log. eapply (touches_trans [_] [_]); apply touches_put.
  - intros Hle. transitivity r; [by store_simp|]. apply Hr, in_range_spec.
    unfold CHALLENGE_BOND in *. cbn [int_lo int_hi] in *. lia.
  - by store_simp.
Qed.

(** The bond [b] of [a] left the lock, back to its balance with [refund]. *)
Definition bond_settled (a : Address) (b : Z) (refund : bool) s s' : Prop :=
  touches [DataKey.ChallengeBondBalance a; DataKey.ChallengeBondLock a] s s' /\
  (0 < b <= bond_lock_of s a -> bond_lock_of s a <= int_hi I128 ->
   bond_lock_of s' a = bond_lock_of s a - b /\
   (in_range I128 (bond_of s a + b) = true -> bond_of s' a = bond_of s a + if refund then b else 0)).

Lemma settle_bond_Ok a b refund e s u s' :
  @settle_challenge_bond W a b refund e s = Ok u s' -> bond_settled a b refund s s'.
Proof.
  unfold bond_settled, settle_challenge_bond. destruct (Z.leb_spec b 0) as [Hb|Hb].
  { intros [_ ->]%(ret_Ok tt u e). split; [done|lia]. }
  intros (o&s1&[-> ->]%pget_Ok&H)%bind_Ok. fold (bond_lock_of s a) in H.
  apply bind_Ok in H as (nl&s1&(->&_&Hnl&_)%arith_Ok&H). apply bind_Ok in H as ([]&s1&Hst&H).
  assert (exists m l, s1 = put_live l (with_pers m s) /\ agree [DataKey.ChallengeBondLock a] (pers s) m /\
    default 0 (sget (DataKey.ChallengeBondLock a) m) = nl) as (m&l&->&Hm&Hval).
  { destruct (Z.eqb_spec nl 0) as [->|].
    - apply premove_Ok in Hst as ->. exists (sdel (DataKey.ChallengeBondLock a) (pers s)).
      exists (delete (DataKey.ChallengeBondLock a) (live s)). split_and!; [done|apply agree_sdel|by rewrite sget_sdel_eq].
    - apply (oracle_store_Ok (DataKey.ChallengeBondLock a)) in Hst as [l ->].
      exists (sset (DataKey.ChallengeBondLock a) nl (pers s)), l.
      split_and!; [done|apply agree_sset|by rewrite sget_sset_eq]. }
  clear Hst. assert (Hbal : sget (DataKey.ChallengeBondBalance a) m = sget (DataKey.ChallengeBondBalance a) (pers s))
    by (apply Hm; outside).
  assert (Hnl' : 0 < b <= bond_lock_of s a -> bond_lock_of s a <= int_hi I128 -> nl = bond_lock_of s a - b).
  { intros [_ Hle] Hhi. rewrite (Z.min_l b) in Hnl by done. apply Hnl, in_range_spec.
    pose proof (int_lo_hi I128). lia. }
  assert (Hw : agree [DataKey.ChallengeBondBalance a; DataKey.ChallengeBondLock a] (pers s) m)
    by (eapply agree_weaken; [exact Hm|set_solver]).
  destruct refund.
  - apply bind_Ok in H as (o&s1&[-> ->]%pget_Ok&H). apply bind_Ok in H as (t&s1&(->&_&Ht&_)%arith_Ok&H).
    apply bind_Ok in H as (?&s1&[l' ->]%(oracle_store_Ok (DataKey.ChallengeBondBalance a))&->%publish_Ok).
    host_cbn. rewrite Hbal in Ht. unfold bond_of, bond_lock_of in *. host_cbn. store_simp. simpl. split.
    + split_and!; [done..|]. eapply agree_weaken; [eapply agree_trans; [exact Hm|apply agree_sset]|set_solver].
    + intros H1 H2. rewrite Hval. split; [by apply Hnl'|]. intros Hr. rewrite (Z.min_l b) in Ht by lia. by apply Ht.
  - apply publish_Ok in H as ->. host_cbn. unfold bond_of, bond_lock_of in *. host_cbn. split; [done|].
    intros H1 H2. rewrite Hbal, Hval. split; [by apply Hnl'|lia].
Qed.

(** The provider after it lost [penalty]. *)
Definition slashed (rest : Z) (p : OracleProvider) : OracleProvider :=
  let p := with_stake rest p in if rest =? 0 then with_active false p else p.

Definition history_of s (a : Address) : list SlashRecord := default [] (sget (DataKey.SlashHistory a) (pers s)).

(** The stake of [a] was slashed over report [i]. *)
Definition slash_effect e s (a : Address) (i : Z) s' : Prop :=
  exists p penalty rest, provider_of s a = Some p /\ penalty <= op_stake p /\
    (0 <= op_stake p -> in_range I128 (op_stake p * SLASH_PENALTY_PPM) = true -> penalty = slashable (op_stake p)) /\
    (in_range I128 (op_stake p - penalty) = true -> rest = op_stake p - penalty) /\
    provider_of s' a = Some (slashed rest p) /\
    history_of s' a = history_of s a ++ [mkSlashRecord i penalty rest (timestamp e) (op_active (slashed rest p))].

Lemma slashed_stake rest p : op_stake (slashed rest p) = rest.
Proof. unfold slashed. by destruct (rest =? 0). Qed.

Lemma slash_Ok a i e s u s' :
  @slash_provider W a i e s = Ok u s' ->
  agree [DataKey.Provider a; DataKey.SlashHistory a] (pers s) (pers s') /\ world s' = world s /\
  agree [DataKey.SignatureThreshold] (inst s) (inst s') /\
  threshold_of s' <= threshold_of s /\ (1 <= threshold_of s -> 1 <= threshold_of s') /\
  slash_effect e s a i s'.
Proof.
  unfold slash_provider. intros (o&s1&[-> ->]%pget_Ok&H)%bind_Ok.
  apply bind_Ok in H as (p&s1&[Hp ->]%unwrap_Ok&H).
  apply bind_Ok in H as (pen&s1&(->&Hle&Hex)%slashable_Ok&H).
  apply bind_Ok in H as (rest&s1&(->&_&Hrest&_)%arith_Ok&H). fold (slashed rest p) in H. cbv zeta in H.
  apply bind_Ok in H as (?&s1&[l ->]%(oracle_store_Ok (DataKey.Provider a))&H).
  apply bind_Ok in H as (?&s1&(Hp1&Hw1&Hi1&Ht1&Ht2)%reconcile_Ok&H).
  apply bind_Ok in H as (h&s2&[-> ->]%pget_Ok&H). apply bind_Ok in H as (now&s2&[-> ->]%timestamp_Ok&H).
  apply bind_Ok in H as (?&s2&[l2 ->]%(oracle_store_Ok (DataKey.SlashHistory a))&->%publish_Ok).
  host_cbn. rewrite Hp1 in *. split_and!; try done.
  - eapply (agree_trans [_] [_]); apply agree_sset.
  - exists p, pen, rest. unfold provider_of, history_of. host_cbn. rewrite Hp1. rewrite slashed_stake. store_simp.
    by split_and!.
Qed.

(** The project of the report was revoked, where a registry is configured. *)
Definition revoke_effect s (pid : Z) s' : Prop :=
  match registry_of s with
  | Some r => project_status (world s) r pid = Some ProjectStatus.Approved /\
              project_status (world s') r pid = Some ProjectStatus.Rejected
  | None => world s' = world s
  end.

Lemma oracle_revoke_Ok pid e s u s' :
  revoke_reported_project pid e s = Ok u s' ->
  pers s' = pers s /\ agree [DataKey.ProjectRegistryNonce] (inst s) (inst s') /\
  wstep (world s) (world s') /\ revoke_effect s pid s'.
Proof.
  unfold revoke_reported_project, revoke_effect, registry_of. intros (o&s1&[-> ->]%iget_Ok&H)%bind_Ok.
  destruct (sget DataKey.ProjectRegistry (inst s)) as [r|].
  2: { apply (ret_Ok tt u e) in H as [_ ->]. by split_and!. }
  apply bind_Ok in H as (n&s1&[-> ->]%iget_Ok&H). apply bind_Ok in H as (a&s1&[-> ->]%current_Ok&H).
  apply bind_Ok in H as (?&s1&(w&(H1&H2&H3)%call_revoke_project_spec&->)%invoke_Ok&H).
  apply bind_Ok in H as (k&s1&(->&_)%arith_Ok&->%iset_Ok). host_cbn. split_and!; try done. apply agree_sset.
Qed.

(** The challenge of report [i] was settled with the verdict [st]. *)
Definition closed_challenge (st : ReportStatus.ReportStatus) (c : Challenge) : Challenge :=
  with_resolution (report_status_code st) (with_resolved c).
Definition judged (e : Env) (st : ReportStatus.ReportStatus) (r : Report) : Report :=
  if bool_decide (st = ReportStatus.Verified) then with_verified_at (timestamp e) (with_status st r)
  else with_status st r.

Record finalized e (i : Z) (st : ReportStatus.ReportStatus) (c : Challenge) (r : Report) s s' : Prop := {
  fz_open : challenge_of s i = Some c /\ ch_resolved c = false;
  fz_report : report_of s i = Some r;
  fz_closed : challenge_of s' i = Some (closed_challenge st c);
  fz_judged : report_of s' i = Some (judged e st r);
  fz_lock : lock_of s' i = 0;
  fz_locked : 0 <= lock_of s i <= locked_of s (rp_provider r) -> locked_of s (rp_provider r) <= int_hi I128 ->
    locked_of s' (rp_provider r) = locked_of s (rp_provider r) - lock_of s i;
  fz_bond : 0 < ch_bond c <= bond_lock_of s (ch_challenger c) -> bond_lock_of s (ch_challenger c) <= int_hi I128 ->
    bond_lock_of s' (ch_challenger c) = bond_lock_of s (ch_challenger c) - ch_bond c /\
    (in_range I128 (bond_of s (ch_challenger c) + ch_bond c) = true ->
     bond_of s' (ch_challenger c) =
       bond_of s (ch_challenger c) + if bool_decide (st = ReportStatus.Rejected) then ch_bond c else 0);
  fz_pers : agree [DataKey.Challenge i; DataKey.Report i; DataKey.ReportLock i; DataKey.LockedStake (rp_provider r);
    DataKey.Provider (rp_provider r); DataKey.SlashHistory (rp_provider r);
    DataKey.ChallengeBondBalance (ch_challenger c); DataKey.ChallengeBondLock (ch_challenger c)] (pers s) (pers s');
  fz_inst : agree [DataKey.SignatureThreshold; DataKey.ProjectRegistryNonce] (inst s) (inst s');
  fz_threshold : threshold_of s' <= threshold_of s /\ (1 <= threshold_of s -> 1 <= threshold_of s');
  fz_world : wstep (world s) (world s');
  fz_provider : st <> ReportStatus.Rejected -> provider_of s' (rp_provider r) = provider_of s (rp_provider r);
  fz_slash : st = ReportStatus.Rejected -> slash_effect e s (rp_provider r) i s';
  fz_revoke : st = ReportStatus.Rejected -> revoke_effect s (rp_project_id r) s';
}.
End effects.

Section finalize.
Context {W : Type} `{!World W} `{!ProjectSource W}.
Local Abbreviation state := (cstate DataKey ty Event W).
Implicit Types (s : state) (e : Env).

(** Slashing and revoking, on a rejection only. *)
(** What a rejection, [b], does to the provider [a] and the project [pid] of report [i]. *)
Definition punished (b : bool) (a : Address) (i pid : Z) e s s' : Prop :=
  agree [DataKey.Provider a; DataKey.SlashHistory a] (pers s) (pers s') /\
  agree [DataKey.SignatureThreshold; DataKey.ProjectRegistryNonce] (inst s) (inst s') /\
  wstep (world s) (world s') /\ threshold_of s' <= threshold_of s /\ (1 <= threshold_of s -> 1 <= threshold_of s') /\
  (b = false -> pers s' = pers s) /\
  (b = true -> slash_effect e s a i s' /\ revoke_effect s pid s').

Lemma punish_Ok (b : bool) a i pid e s u s' :
  when b (slash_provider a i ;; revoke_reported_project pid) e s = Ok u s' -> punished b a i pid e s s'.
Proof.
  unfold punished.
  intros [[-> H]|[-> ->]]%when_Ok.
  - apply bind_Ok in H as (?&s1&(Hp&Hw&Hi&Ht1&Ht2&Hs)%slash_Ok&H).
    apply oracle_revoke_Ok in H as (Hp'&Hi'&Hw'&Hr). split_and!; try done.
    + by rewrite Hp'.
    + eapply (agree_trans [_] [_]); done.
    + by rewrite <- Hw.
    + unfold threshold_of in *. rewrite (Hi' DataKey.SignatureThreshold) by outside. done.
    + unfold threshold_of in *. rewrite (Hi' DataKey.SignatureThreshold) by outside. done.
    + intros _. split.
      * destruct Hs as (p&pen&rest&H1&H2&H3&H4&H5&H6). exists p, pen, rest.
        unfold provider_of, history_of in *. by rewrite Hp'.
      * unfold revoke_effect in *. rewrite <- Hw. unfold registry_of in *.
        rewrite (Hi DataKey.ProjectRegistry) in Hr by outside. done.
  - by split_and!.
Qed.

(** The stages of a verdict: the challenge and the report are rewritten, the stake is
    released, a rejection is punished, the bond is settled. *)
Definition staged e (i : Z) (st : ReportStatus.ReportStatus) (c : Challenge) (r : Report) s s2 s3 s4 s5 : Prop :=
  touches [DataKey.Challenge i; DataKey.Report i] s s2 /\
  challenge_of s2 i = Some (closed_challenge st c) /\ report_of s2 i = Some (judged e st r) /\
  released (rp_provider r) i s2 s3 /\
  punished (bool_decide (st = ReportStatus.Rejected)) (rp_provider r) i (rp_project_id r) e s3 s4 /\
  bond_settled (ch_challenger c) (ch_bond c) (bool_decide (st = ReportStatus.Rejected)) s4 s5.

Lemma staged_finalized e i st c r s s2 s3 s4 s5 s' :
  challenge_of s i = Some c -> ch_resolved c = false -> report_of s i = Some r ->
  staged e i st c r s s2 s3 s4 s5 -> inst s' = inst s5 -> pers s' = pers s5 -> world s' = world s5 ->
  finalized e i st c r s s'.
Proof.
  intros Hc Hres Hr ((Hi2&Hw2&Hp2)&Hc2&Hr2&((Hi3&Hw3&Hp3)&Hlk3&Hld3)&(H4p&H4i&H4w&H4t&H4t'&H4f&H4r)&((Hi5&Hw5&Hp5)&H5b)) HI HP HW.
  assert (Hback : forall k, k ∉ [DataKey.ChallengeBondBalance (ch_challenger c); DataKey.ChallengeBondLock (ch_challenger c)] ->
    k ∉ [DataKey.Provider (rp_provider r); DataKey.SlashHistory (rp_provider r)] ->
    k ∉ [DataKey.ReportLock i; DataKey.LockedStake (rp_provider r)] -> sget k (pers s5) = sget k (pers s2)).
  { intros k Hk1 Hk2 Hk3. by rewrite Hp5, H4p, Hp3. }
  assert (Hmid : forall k, k ∉ [DataKey.Provider (rp_provider r); DataKey.SlashHistory (rp_provider r)] ->
    k ∉ [DataKey.ReportLock i; DataKey.LockedStake (rp_provider r)] -> k ∉ [DataKey.Challenge i; DataKey.Report i] ->
    sget k (pers s4) = sget k (pers s)).
  { intros k Hk1 Hk2 Hk3. by rewrite H4p, Hp3, Hp2. }
  assert (Hpro : forall a, provider_of s3 a = provider_of s a)
    by (intros a; unfold provider_of; rewrite Hp3, Hp2 by outside; done).
  assert (Hhis : forall a, history_of s3 a = history_of s a)
    by (intros a; unfold history_of; rewrite Hp3, Hp2 by outside; done).
  split; unfold challenge_of, report_of, lock_of, locked_of, bond_of, bond_lock_of, threshold_of in *; rewrite ?HI, ?HP, ?HW; try done.
  - by rewrite Hback by outside.
  - by rewrite Hback by outside.
  - by rewrite Hp5, H4p by outside.
  - intros H0 H1. rewrite Hp5, H4p by outside. rewrite !Hp2 in Hld3 by outside. by apply Hld3.
  - intros H0 H1. rewrite !Hmid in H5b by outside. by apply H5b.
  - intros k Hk. rewrite Hp5, H4p, Hp3, Hp2; try done; intros Hin; apply Hk; set_solver.
  - intros k Hk. rewrite Hi5, H4i by done. by rewrite Hi3, Hi2.
  - rewrite Hi5. rewrite Hi3, Hi2 in H4t, H4t'. done.
  - rewrite Hw5, <- Hw2, <- Hw3. done.
  - intros Hst. unfold provider_of in *. rewrite HP, Hp5 by outside. rewrite H4f by (by apply bool_decide_eq_false).
    apply Hpro.
  - intros Hst. destruct H4r as [(p&pen&rest&G1&G2&G3&G4&G5&G6) _]; [by apply bool_decide_eq_true|].
    exists p, pen, rest. rewrite Hpro in G1. rewrite Hhis in G6.
    unfold provider_of, history_of in *. rewrite HP, !Hp5 by outside. by split_and!.
  - intros Hst. destruct H4r as [_ Hrv]; [by apply bool_decide_eq_true|].
    unfold revoke_effect, registry_of in *. rewrite Hi3, Hi2 in Hrv. rewrite HW, Hw5, <- Hw2, <- Hw3. done.
Qed.

Lemma finalize_Ok i st e s u s' :
  finalize_challenge i st e s = Ok u s' ->
  exists c, challenge_of s i = Some c /\
    (ch_resolved c = true /\ s' = s \/ exists r, finalized e i st c r s s').
Proof.
  unfold finalize_challenge. intros (o&s0&[-> ->]%pget_Ok&H)%bind_Ok.
  apply bind_Ok in H as (c&s0&[Hc ->]%ok_or_Ok&H). exists c. split; [done|].
  destruct (ch_resolved c) eqn:Hres; [left; by apply (ret_Ok tt u e) in H as [_ ->]|right].
  apply bind_Ok in H as (?&s1&[l1 ->]%(oracle_store_Ok (DataKey.Challenge i))&H). fold (closed_challenge st c) in H.
  apply bind_Ok in H as (o&s1&[-> ->]%pget_Ok&H). apply bind_Ok in H as (r&s1&[Hr ->]%ok_or_Ok&H).
  host_cbn. rewrite sget_sset_ne in Hr by done. exists r.
  apply bind_Ok in H as (now&s1&[-> ->]%timestamp_Ok&H). cbv zeta in H. fold (judged e st r) in H.
  apply bind_Ok in H as (?&s1&[l2 ->]%(oracle_store_Ok (DataKey.Report i))&H).
  apply bind_Ok in H as (?&s3&H3%release_Ok&H). apply bind_Ok in H as (?&s4&Hpun%punish_Ok&H).
  apply bind_Ok in H as (?&s5&H5%settle_bond_Ok&->%publish_Ok).
  eapply staged_finalized; [done..| |done|done|done]. split_and!; [|..|exact H3|exact Hpun|exact H5].
  - eapply (touches_trans [_] [_]); apply touches_put.
  - unfold challenge_of. host_cbn. by store_simp.
  - unfold report_of. host_cbn. by store_simp.
Qed.
End finalize.

Section operations.
Context {W : Type} `{!World W} `{!ProjectSource W}.
Local Abbreviation state := (cstate DataKey ty Event W).
Implicit Types (s : state) (e : Env).

(** ** What the entrypoints do *)

(** [a] signed with nonce [n]; [s1] is the state with its next nonce. *)
Definition signed e s (a : Address) (n : Z) s1 : Prop :=
  is_authorized e a = true /\ n = nonce_of s a /\ touches [DataKey.Nonce a] s s1 /\
  (in_range U64 (n + 1) = true -> nonce_of s1 a = n + 1).

Lemma consume_signed a n e s u s1 :
  consume_nonce a n e s = Ok u s1 -> is_authorized e a = true -> signed e s a n s1.
Proof.
  intros (Hn&next&l&->&Hnx)%oracle_consume_nonce_Ok Ha. split_and!; [done|done|apply touches_put|].
  intros Hr. unfold nonce_of. host_cbn. rewrite sget_sset_eq. by apply Hnx.
Qed.

Lemma oracle_signed_Ok a n e s {B} (k : contract DataKey ty OracleError.OracleError Event W B) r s' :
  (require_auth a ;; consume_nonce a n ;; k) e s = Ok r s' ->
  exists s1, signed e s a n s1 /\ k e s1 = Ok r s'.
Proof.
  intros (?&s1&[Ha ->]%require_auth_Ok&H)%bind_Ok. apply bind_Ok in H as (?&s1&Hc&H).
  exists s1. split; [by eapply consume_signed|done].
Qed.

Lemma signed_get e s a n s1 k : signed e s a n s1 -> k <> DataKey.Nonce a -> sget k (pers s1) = sget k (pers s).
Proof. intros (_&_&H&_) Hk. apply (touches_get _ _ _ _ H). outside. Qed.

Lemma signed_inst e s a n s1 : signed e s a n s1 -> inst s1 = inst s /\ world s1 = world s.
Proof. by intros (_&_&(Hi&Hw&_)&_). Qed.

Lemma active_Ok a x e s p s' :
  @active_provider W a x e s = Ok p s' ->
  provider_of s a = Some p /\ op_active p = true /\ exists l, s' = put_live l s.
Proof.
  unfold active_provider. intros (q&s1&[Hq [l ->]]%(read_existing_Ok (DataKey.Provider a))&H)%bind_Ok.
  apply bind_Ok in H as (?&s1&[Hb ->]%fail_if_Ok&[-> ->]%ret_Ok). guards. split_and!; [done|done|by exists l].
Qed.

Lemma approved_project_Ok pid e s pl s' :
  @approved_project W _ _ pid e s = Ok pl s' ->
  exists r w, registry_of s = Some r /\ project_status (world s) r pid = Some ProjectStatus.Approved /\
    wquiet (world s) w /\ s' = put_world w s.
Proof.
  unfold approved_project, registry_of. intros (o&s1&[-> ->]%iget_Ok&H)%bind_Ok.
  apply bind_Ok in H as (r&s1&[Hr ->]%ok_or_Ok&H). apply bind_Ok in H as (li&s1&Hli&H).
  apply bind_Ok in H as (q&s2&Hq&H). apply bind_Ok in H as (?&s3&[Hst ->]%fail_if_Ok&[-> ->]%ret_Ok). guards.
  apply try_invoke_Ok in Hli as [(z&w&->&[Hs Hw]%call_get_project_linkage_spec&->)|[(z&->&_&->)|(->&_&->)]].
  - apply (ret_Ok z) in Hq as [-> ->]. rewrite Hst in Hs. by exists r, w.
  - destruct z; by inv_ok Hq.
  - by inv_ok Hq.
Qed.

Lemma check_period_Ok pid x y e s u s' :
  @check_period W pid x y e s = Ok u s' ->
  s' = s /\ (forall pair, pair ∈ periods_of s pid -> overlaps x y pair = false) /\
  (forall pair, list.last (periods_of s pid) = Some pair -> snd pair <= x).
Proof.
  unfold check_period. intros (o&s1&[-> ->]%pget_Ok&H)%bind_Ok. cbv zeta in H. fold (periods_of s pid) in H.
  apply bind_Ok in H as (?&s1&[-> Hall]%for_each_fail_if_Ok&H). rewrite Forall_forall in Hall.
  destruct (list.last (periods_of s pid)) as [[a b]|].
  - apply fail_if_Ok in H as [H ->]. guards. split_and!; [done|intros pair Hp; by apply Hall, list_elem_of_In|].
    by intros pair [= <-].
  - apply (ret_Ok tt u e) in H as [_ ->]. split_and!; [done|intros pair Hp; by apply Hall, list_elem_of_In|done].
Qed.

(** A new report. *)
Record submitted e s (a : Address) (pid x y v : Z) (b : BiodiversityMetrics) (m : Symbol) (h : BytesN)
    (n i : Z) s' : Prop := {
  sb_signed : exists s1, signed e s a n s1;
  sb_provider : exists p, provider_of s a = Some p /\ op_active p = true /\
    (0 <= op_stake p -> in_range I128 (op_stake p * SLASH_PENALTY_PPM) = true -> lock_of s' i = slashable (op_stake p));
  sb_data : x < y /\ 0 <= v /\ biodiversity_ok b = true;
  sb_project : exists r, registry_of s = Some r /\ project_status (world s) r pid = Some ProjectStatus.Approved;
  sb_disjoint : forall pair, pair ∈ periods_of s pid -> overlaps x y pair = false;
  sb_ordered : forall pair, list.last (periods_of s pid) = Some pair -> snd pair <= x;
  sb_id : in_range U64 (count_of s + 1) = true -> i = count_of s + 1;
  sb_count : count_of s' = i;
  sb_report : exists hash, report_of s' i =
    Some (mkReport i a pid hash x y v b m h ReportStatus.Pending (timestamp e) 0);
  sb_periods : periods_of s' pid = push_period (periods_of s pid) (x, y);
  sb_reports : project_reports_of s' pid = project_reports_of s pid ++ [i];
  sb_locked : in_range I128 (locked_of s a + lock_of s' i) = true -> locked_of s' a = locked_of s a + lock_of s' i;
  sb_pers : agree [DataKey.Nonce a; DataKey.Report i; DataKey.ReportLock i; DataKey.LockedStake a;
    DataKey.ProjectReports pid; DataKey.ProjectReportPeriods pid; DataKey.ProviderReportCount a] (pers s) (pers s');
  sb_inst : agree [DataKey.ReportCount] (inst s) (inst s');
  sb_world : wstep (world s) (world s');
}.

Lemma submit_Ok a pid x y v b m h n e s i s' :
  submit_report a pid x y v b m h n e s = Ok i s' -> submitted e s a pid x y v b m h n i s'.
Proof.
  unfold submit_report. intros (s1&Hs&H)%oracle_signed_Ok. pose proof (signed_inst _ _ _ _ _ Hs) as [Hi1 Hw1].
  apply bind_Ok in H as (p&s2&(Hp&Hact&l&->)%active_Ok&H).
  apply bind_Ok in H as (?&s2&[Hxy ->]%fail_if_Ok&H). apply bind_Ok in H as (?&s2&[Hb ->]%fail_if_Ok&H). guards.
  apply bind_Ok in H as (pj&s2&(r&w&Hr&Hpj&Hw&->)%approved_project_Ok&H).
  apply bind_Ok in H as (?&s2&(->&Hdis&Hord)%check_period_Ok&H).
  apply bind_Ok in H as (c&s2&[-> ->]%iget_Ok&H). apply bind_Ok in H as (j&s2&(->&_&Hj&_)%arith_Ok&H).
  apply bind_Ok in H as (?&s2&->%iset_Ok&H). apply bind_Ok in H as (now&s2&[-> ->]%timestamp_Ok&H).
  apply bind_Ok in H as (?&s2&[l2 ->]%(oracle_store_Ok (DataKey.Report j))&H).
  apply bind_Ok in H as (?&s4&(H4&_&Hlk&Hld)%lock_Ok&H).
  apply bind_Ok in H as (pr&s5&[-> ->]%pget_Ok&H).
  apply bind_Ok in H as (?&s5&[l5 ->]%(oracle_store_Ok (DataKey.ProjectReports pid))&H).
  apply bind_Ok in H as (pp&s5&[-> ->]%pget_Ok&H).
  apply bind_Ok in H as (?&s5&[l6 ->]%(oracle_store_Ok (DataKey.ProjectReportPeriods pid))&H).
  apply bind_Ok in H as (rc&s5&[-> ->]%pget_Ok&H). apply bind_Ok in H as (k&s5&(->&_)%arith_Ok&H).
  apply bind_Ok in H as (?&s5&[l7 ->]%(oracle_store_Ok (DataKey.ProviderReportCount a))&H).
  apply bind_Ok in H as (?&s5&->%publish_Ok&[-> ->]%ret_Ok).
  destruct H4 as (Hi4&Hw4&Hp4). host_cbn.
  assert (Hold : forall k, k ∉ [DataKey.ReportLock j; DataKey.LockedStake a] -> k <> DataKey.Report j ->
    k <> DataKey.Nonce a -> sget k (pers s4) = sget k (pers s)).
  { intros k' G1 G2 G3. rewrite Hp4 by done. rewrite sget_sset_ne by done. by apply (signed_get _ _ _ _ _ _ Hs). }
  assert (Hper : periods_of s1 pid = periods_of s pid) by (unfold periods_of; by rewrite (signed_get _ _ _ _ _ _ Hs)).
  split; [by exists s1|..].
  - exists p. split; [|split; [done|]].
    + unfold provider_of in *. by rewrite (signed_get _ _ _ _ _ _ Hs) in Hp.
    + intros G1 G2. rewrite <- Hlk by done. unfold lock_of. host_cbn. by store_simp.
  - split_and!; [lia|lia|done].
  - exists r. unfold registry_of in *. host_cbn. by rewrite Hi1, Hw1 in *.
  - intros pair Hin. apply Hdis. unfold periods_of in *. host_cbn. by rewrite Hper.
  - intros pair Hin. apply Hord. unfold periods_of in *. host_cbn. by rewrite Hper.
  - unfold count_of. rewrite Hi1 in Hj. exact Hj.
  - unfold count_of. host_cbn. rewrite Hi4. by store_simp.
  - eexists. unfold report_of. host_cbn. store_simp. rewrite Hp4 by outside. by store_simp.
  - unfold periods_of. host_cbn. store_simp. rewrite Hold by first [outside|done]. done.
  - unfold project_reports_of. host_cbn. store_simp. rewrite Hold by first [outside|done]. done.
  - unfold locked_of, lock_of in *. host_cbn. store_simp.
    rewrite (signed_get _ _ _ _ _ (DataKey.LockedStake a) Hs) in Hld by done. exact Hld.
  - intros k' Hk. rewrite !not_elem_of_cons in Hk. destruct Hk as (K1&K2&K3&K4&K5&K6&K7&_).
    host_cbn. rewrite !sget_sset_ne by done. apply Hold; [outside|done|done].
  - host_cbn. rewrite Hi4, Hi1. apply agree_sset.
  - host_cbn. rewrite Hw4, <- Hw1. by apply wquiet_step.
Qed.

Definition consensus (e : Env) (r : Report) : Report :=
  with_verified_at (timestamp e) (with_status ReportStatus.Verified r).

(** The verifiers of a report after [a] signed. *)
Definition add_verifier (a : Address) (l : list Address) : list Address :=
  if decide (a ∈ l) then l else l ++ [a].

(** A verification signature on the pending report [r]. *)
Record verification e s (a : Address) (i n : Z) (r : Report) s' : Prop := {
  vf_signed : exists s1, signed e s a n s1;
  vf_provider : exists p, provider_of s a = Some p /\ op_active p = true;
  vf_report : report_of s i = Some r /\ rp_status r = ReportStatus.Pending;
  vf_challenge c : challenge_of s i = Some c -> ch_resolved c = true;
  vf_other : a <> rp_provider r;
  vf_verifiers : verifiers_of s' i = add_verifier a (verifiers_of s i);
  vf_outcome :
    (threshold_of s <= Z.of_nat (length (verifiers_of s' i)) /\ report_of s' i = Some (consensus e r) /\
     unlocked s (rp_provider r) i s') \/
    (Z.of_nat (length (verifiers_of s' i)) < threshold_of s /\ report_of s' i = Some r /\
     lock_of s' i = lock_of s i /\ locked_of s' (rp_provider r) = locked_of s (rp_provider r));
  vf_pers : agree [DataKey.Nonce a; DataKey.ReportVerifiers i; DataKey.VerificationCount i; DataKey.Report i;
    DataKey.ReportLock i; DataKey.LockedStake (rp_provider r)] (pers s) (pers s');
  vf_inst : inst s' = inst s;
  vf_world : world s' = world s;
}.

Lemma record_verifier_Ok a i e s vs s' :
  @record_verifier W a i e s = Ok vs s' ->
  vs = add_verifier a (verifiers_of s i) /\ verifiers_of s' i = vs /\
  touches [DataKey.ReportVerifiers i; DataKey.VerificationCount i] s s'.
Proof.
  unfold record_verifier, add_verifier. intros (o&s1&[-> ->]%pget_Ok&H)%bind_Ok. cbv zeta in H.
  fold (verifiers_of s i) in H. case_bool_decide as Hin.
  - apply (ret_Ok (verifiers_of s i)) in H as [-> ->]. rewrite decide_True by done. by split_and!.
  - rewrite decide_False by done.
    apply bind_Ok in H as (?&s1&[l ->]%(oracle_store_Ok (DataKey.ReportVerifiers i))&H).
    apply bind_Ok in H as (?&s1&[l' ->]%(oracle_store_Ok (DataKey.VerificationCount i))&H).
    apply (ret_Ok (verifiers_of s i ++ [a])) in H as [-> ->]. split; [done|]. split.
    + unfold verifiers_of. host_cbn. by store_simp.
    + eapply (touches_trans [_] [_]); apply touches_put.
Qed.

Lemma no_open_Ok i e s u s' :
  @no_open_challenge W i e s = Ok u s' ->
  s' = s /\ forall c, challenge_of s i = Some c -> ch_resolved c = true.
Proof.
  unfold no_open_challenge, challenge_of. intros (o&s1&[-> ->]%pget_Ok&H)%bind_Ok.
  destruct (sget (DataKey.Challenge i) (pers s)) as [c|].
  - apply fail_if_Ok in H as [H ->]. guards. split; [done|]. by intros ? [= <-].
  - by apply (ret_Ok tt u e) in H as [_ ->].
Qed.

Lemma verify_report_Ok a i n e s u s' :
  verify_report a i n e s = Ok u s' -> exists r, verification e s a i n r s'.
Proof.
  unfold verify_report. intros (?&s0&[Ha ->]%require_auth_Ok&H)%bind_Ok.
  apply bind_Ok in H as (p&s0&(Hp&Hact&l0&->)%active_Ok&H).
  apply bind_Ok in H as (?&s1&Hc&H). apply consume_signed in Hc as Hs; [|done].
  assert (signed e s a n s1) as Hs' by exact Hs. clear Hs Hc.
  pose proof (signed_inst _ _ _ _ _ Hs') as [Hi1 Hw1]. pose proof (fun k => signed_get e s a n s1 k Hs') as Hg.
  apply bind_Ok in H as (o&s2&[-> ->]%pget_Ok&H). apply bind_Ok in H as (r&s2&[Hr ->]%ok_or_Ok&H).
  apply bind_Ok in H as (?&s2&[Hst ->]%fail_if_Ok&H). apply bind_Ok in H as (?&s2&[-> Hno]%no_open_Ok&H).
  apply bind_Ok in H as (?&s2&[Hne ->]%fail_if_Ok&H). guards.
  apply bind_Ok in H as (vs&s2&(Hvs&Hvs'&H2)%record_verifier_Ok&H).
  apply bind_Ok in H as (o&s3&[-> ->]%iget_Ok&H). apply bind_Ok in H as (now&s3&[-> ->]%timestamp_Ok&H).
  destruct H2 as (Hi2&Hw2&Hp2). rewrite Hi2, Hi1 in H. cbv zeta in H. fold (threshold_of s) in H.
  rewrite Hg in Hr by done. unfold verifiers_of in Hvs at 1. rewrite Hg in Hvs by done.
  fold (verifiers_of s i) in Hvs. rewrite <- Hvs' in Hvs.
  assert (Hc : forall c, challenge_of s i = Some c -> ch_resolved c = true)
    by (intros c Hc; apply Hno; unfold challenge_of; by rewrite Hg).
  assert (Hold : forall k, k ∉ [DataKey.ReportVerifiers i; DataKey.VerificationCount i] -> k <> DataKey.Nonce a ->
    sget k (pers s2) = sget k (pers s)) by (intros; rewrite Hp2 by done; by apply Hg).
  exists r. apply when_Ok in H as [[Hle H]|[Hlt ->]]; guards.
  - apply bind_Ok in H as (?&s3&[l3 ->]%(oracle_store_Ok (DataKey.Report i))&H).
    apply bind_Ok in H as (?&s4&((Hi4&Hw4&Hp4)&Hun)%release_Ok&->%publish_Ok). host_cbn.
    assert (Hv : verifiers_of (log (report_verified i) s4) i = vs).
    { rewrite <- Hvs'. unfold verifiers_of. host_cbn. rewrite Hp4 by outside. by store_simp. }
    split; try done.
    + by exists s1.
    + by exists p.
    + by rewrite Hv, <- Hvs', Hvs.
    + left. rewrite Hv. split; [done|]. split.
      * unfold report_of. host_cbn. rewrite Hp4 by outside. by store_simp.
      * eapply unlocked_from; [exact Hun|..]; unfold lock_of, locked_of; host_cbn; store_simp; by rewrite Hold by first [outside|done].
    + intros k Hk. rewrite !not_elem_of_cons in Hk. destruct Hk as (K1&K2&K3&K4&K5&K6&_). host_cbn.
      rewrite Hp4 by outside. rewrite sget_sset_ne by done. apply Hold; [outside|done].
    + by rewrite <- Hi1, <- Hi2.
    + by rewrite <- Hw1, <- Hw2.
  - split; try done.
    + by exists s1.
    + by exists p.
    + right. rewrite Hvs'. split; [done|]. unfold report_of, lock_of, locked_of.
      rewrite !Hold by first [outside|done]. done.
    + intros k Hk. rewrite !not_elem_of_cons in Hk. destruct Hk as (K1&K2&K3&_). apply Hold; [outside|done].
    + by rewrite Hi2.
    + by rewrite Hw2.
Qed.

(** An admin override of the pending report [r]. *)
Record override e s (a : Address) (i : Z) (st : ReportStatus.ReportStatus) (n : Z) (r : Report) s' : Prop := {
  ov_signed : exists s1, signed e s a n s1;
  ov_admin : admin_of s = Some a;
  ov_verdict : is_verdict st = true;
  ov_report : report_of s i = Some r /\ rp_status r = ReportStatus.Pending;
  ov_result : report_of s' i = Some (with_verified_at (timestamp e) (with_status st r));
  ov_pers : agree [DataKey.Nonce a; DataKey.Report i] (pers s) (pers s');
  ov_inst : inst s' = inst s;
  ov_world : world s' = world s;
}.

Lemma override_Ok a i st n e s u s' :
  admin_override_report a i st n e s = Ok u s' -> exists r, override e s a i st n r s'.
Proof.
  unfold admin_override_report. intros (s1&Hs&H)%oracle_signed_Ok.
  pose proof (signed_inst _ _ _ _ _ Hs) as [Hi1 Hw1]. pose proof (fun k => signed_get e s a n s1 k Hs) as Hg.
  apply bind_Ok in H as (?&s2&[Had ->]%oracle_require_admin_Ok&H).
  apply bind_Ok in H as (?&s2&[Hv ->]%fail_if_Ok&H). apply bind_Ok in H as (o&s2&[-> ->]%pget_Ok&H).
  apply bind_Ok in H as (r&s2&[Hr ->]%ok_or_Ok&H). apply bind_Ok in H as (?&s2&[Hst ->]%fail_if_Ok&H). guards.
  apply bind_Ok in H as (t&s2&[-> ->]%timestamp_Ok&H).
  apply bind_Ok in H as (?&s2&[l ->]%(oracle_store_Ok (DataKey.Report i))&->%publish_Ok). host_cbn.
  rewrite Hg in Hr by done. exists r. split; try done.
  - by exists s1.
  - unfold admin_of in *. by rewrite <- Hi1.
  - unfold report_of. host_cbn. by store_simp.
  - intros k Hk. rewrite !not_elem_of_cons in Hk. destruct Hk as (K1&K2&_). host_cbn.
    rewrite sget_sset_ne by done. by apply Hg.
Qed.

(** A challenge filed against the pending report [r]. *)
Record challenged e s (a : Address) (i : Z) (h : BytesN) (n : Z) (r : Report) s' : Prop := {
  cg_signed : exists s1, signed e s a n s1;
  cg_fresh : challenge_of s i = None;
  cg_report : report_of s i = Some r /\ rp_status r = ReportStatus.Pending;
  cg_other : a <> rp_provider r;
  cg_window : saturating U64 (timestamp e - rp_submitted_at r)
    <= default CHALLENGE_WINDOW_SECONDS (sget DataKey.ChallengeWindow (inst s));
  cg_balance : CHALLENGE_BOND <= bond_of s a;
  cg_bond : bond_of s a <= int_hi I128 -> bond_of s' a = bond_of s a - CHALLENGE_BOND;
  cg_lock : in_range I128 (bond_lock_of s a + CHALLENGE_BOND) = true ->
    bond_lock_of s' a = bond_lock_of s a + CHALLENGE_BOND;
  cg_challenge : challenge_of s' i = Some (mkChallenge i a h (timestamp e) false 0 CHALLENGE_BOND);
  cg_result : report_of s' i = Some (with_status ReportStatus.Challenged r);
  cg_pers : agree [DataKey.Nonce a; DataKey.ChallengeBondBalance a; DataKey.ChallengeBondLock a;
    DataKey.Challenge i; DataKey.Report i; DataKey.ProviderChallenges (rp_provider r)] (pers s) (pers s');
  cg_inst : inst s' = inst s;
  cg_world : world s' = world s;
}.

Lemma challenge_report_Ok a i h n e s u s' :
  challenge_report a i h n e s = Ok u s' -> exists r, challenged e s a i h n r s'.
Proof.
  unfold challenge_report. intros (s1&Hs&H)%oracle_signed_Ok.
  pose proof (signed_inst _ _ _ _ _ Hs) as [Hi1 Hw1]. pose proof (fun k => signed_get e s a n s1 k Hs) as Hg.
  apply bind_Ok in H as (b&s2&[-> ->]%phas_Ok&H). apply bind_Ok in H as (?&s2&[Hfr ->]%fail_if_Ok&H). guards.
  rewrite Hg in Hfr by done.
  apply bind_Ok in H as (r&s2&[Hr [l ->]]%(read_existing_Ok (DataKey.Report i))&H). rewrite Hg in Hr by done.
  apply bind_Ok in H as (?&s2&[Hst ->]%fail_if_Ok&H). apply bind_Ok in H as (?&s2&[Hne ->]%fail_if_Ok&H). guards.
  apply bind_Ok in H as (t&s2&[-> ->]%timestamp_Ok&H). apply bind_Ok in H as (o&s2&[-> ->]%iget_Ok&H). cbv zeta in H.
  apply bind_Ok in H as (?&s2&[Hwin ->]%fail_if_Ok&H). guards. host_cbn.
  apply bind_Ok in H as (v&s2&((Hi2&Hw2&Hp2)&->&Hbal&Hb&Hlk)%charge_Ok&H). host_cbn.
  apply bind_Ok in H as (?&s3&[l3 ->]%(oracle_store_Ok (DataKey.Challenge i))&H).
  apply bind_Ok in H as (o&s3&[-> ->]%pget_Ok&H). apply bind_Ok in H as (r'&s3&[Hr' ->]%unwrap_Ok&H). host_cbn.
  rewrite sget_sset_ne in Hr' by done. rewrite Hp2, Hg, Hr in Hr' by first [outside|done]. injection Hr' as <-.
  apply bind_Ok in H as (?&s3&[l4 ->]%(oracle_store_Ok (DataKey.Report i))&H).
  apply bind_Ok in H as (o&s3&[-> ->]%pget_Ok&H).
  apply bind_Ok in H as (?&s3&[l5 ->]%(oracle_store_Ok (DataKey.ProviderChallenges (rp_provider r)))&->%publish_Ok).
  exists r. unfold bond_of, bond_lock_of in *. host_cbn. rewrite ?Hg in Hbal, Hb, Hlk by done.
  split; unfold challenge_of, report_of, bond_of, bond_lock_of; host_cbn; store_simp; try done.
  - by exists s1.
  - by apply eq_None_not_Some.
  - by rewrite <- Hi1.
  - intros k Hk. rewrite !not_elem_of_cons in Hk. destruct Hk as (K1&K2&K3&K4&K5&K6&_).
    host_cbn. rewrite !sget_sset_ne by done. rewrite Hp2 by outside. by apply Hg.
  - by rewrite Hi2.
  - by rewrite Hw2.
Qed.

Lemma resolve_Ok a i st n e s u s' :
  resolve_challenge a i st n e s = Ok u s' ->
  admin_of s = Some a /\ is_verdict st = true /\
  exists s1 c, signed e s a n s1 /\ challenge_of s i = Some c /\
    (ch_resolved c = true /\ s' = s1 \/ exists r, finalized e i st c r s1 s').
Proof.
  unfold resolve_challenge. intros (s1&Hs&H)%oracle_signed_Ok.
  pose proof (signed_inst _ _ _ _ _ Hs) as [Hi1 Hw1]. pose proof (fun k => signed_get e s a n s1 k Hs) as Hg.
  apply bind_Ok in H as (?&s2&[Had ->]%oracle_require_admin_Ok&H).
  apply bind_Ok in H as (?&s2&[Hv ->]%fail_if_Ok&H). guards. apply finalize_Ok in H as (c&Hc&H).
  split; [unfold admin_of in *; by rewrite <- Hi1|]. split; [done|]. exists s1, c. split; [done|].
  split; [unfold challenge_of in *; by rewrite Hg in Hc|done].
Qed.

(** The votes of one side, as a key. *)
Definition votes_key (i : Z) (uphold : bool) : DataKey :=
  if uphold then DataKey.ChallengeUpholdVotes i else DataKey.ChallengeRejectVotes i.

Lemma cast_vote_Ok a i up e s v s' :
  @cast_vote W a i up e s = Ok v s' ->
  a ∉ upholders_of s i /\ a ∉ rejecters_of s i /\ touches [votes_key i up] s s' /\
  voters_of s' i up = voters_of s i up ++ [a] /\ voters_of s' i (negb up) = voters_of s i (negb up) /\
  v = Z.of_nat (length (voters_of s' i up)).
Proof.
  unfold cast_vote. intros (o&s1&[-> ->]%pget_Ok&H)%bind_Ok. apply bind_Ok in H as (o&s1&[-> ->]%pget_Ok&H).
  cbv zeta in H. fold (upholders_of s i) in H. fold (rejecters_of s i) in H.
  apply bind_Ok in H as (?&s1&[H1 ->]%fail_if_Ok&H). apply bind_Ok in H as (?&s1&[H2 ->]%fail_if_Ok&H). guards.
  apply bind_Ok in H as (?&s1&Hst&H). apply bind_Ok in H as (?&s2&->%publish_Ok&[-> ->]%ret_Ok).
  fold (voters_of s i up) in *. do 2 (split; [done|]).
  unfold write_votes in Hst. destruct up; apply oracle_store_Ok in Hst as [l ->].
  - split; [apply touches_log, touches_put|]. unfold voters_of, upholders_of, rejecters_of. host_cbn. by store_simp.
  - split; [apply touches_log, touches_put|]. unfold voters_of, upholders_of, rejecters_of. host_cbn. by store_simp.
Qed.

(** A verifier's vote on the open challenge [c] of the report [r]. *)
Record ballot e s (a : Address) (i : Z) (up : bool) (n : Z) (c : Challenge) (r : Report) s1 : Prop := {
  bl_signed : is_authorized e a = true /\ n = nonce_of s a;
  bl_provider : exists p, provider_of s a = Some p /\ op_active p = true;
  bl_challenge : challenge_of s i = Some c /\ ch_resolved c = false;
  bl_report : report_of s i = Some r /\ rp_status r = ReportStatus.Challenged;
  bl_other : a <> rp_provider r;
  bl_fresh : a ∉ upholders_of s i /\ a ∉ rejecters_of s i;
  bl_voters : voters_of s1 i up = voters_of s i up ++ [a] /\ voters_of s1 i (negb up) = voters_of s i (negb up);
  bl_touches : touches [DataKey.Nonce a; votes_key i up] s s1;
}.

(** The active providers on the list: what [active_provider_count] counts. *)
Definition active_providers s : list Address :=
  filter (fun a => (op_active <$> provider_of s a) = Some true) (providers_of s).

Lemma active_count_value e s v s' :
  @active_provider_count W e s = Ok v s' -> Z.of_nat (length (providers_of s)) <= int_hi U32 ->
  v = Z.of_nat (length (active_providers s)).
Proof.
  unfold active_provider_count, active_providers. intros (o&s1&[-> ->]%pget_Ok&H)%bind_Ok. fold (providers_of s) in *.
  enough (forall l acc v s1, 0 <= acc -> acc + Z.of_nat (length l) <= int_hi U32 -> mfold count_active acc l e s = Ok v s1 ->
    v = acc + Z.of_nat (length (filter (fun a => (op_active <$> provider_of s a) = Some true) l))) as Hgen.
  { intros Hlen. apply (Hgen _ 0 v s') in H; [done|lia|lia]. }
  clear H. intros l. induction l as [|a l IH]; intros acc w s1 H0 Hle H.
  - apply (ret_Ok acc w e) in H as [-> ->]. simpl. lia.
  - apply mfold_cons_Ok in H as (acc1&s2&H1&H). unfold count_active in H1.
    apply bind_Ok in H1 as (o&s3&[-> ->]%pget_Ok&H1). rewrite filter_cons. simpl length in Hle.
    fold (provider_of s a) in H1. case_decide as Hd; destruct (provider_of s a) as [p|]; simpl in Hd.
    + injection Hd as Hd. rewrite Hd in H1. apply arith_Ok in H1 as (->&_&Hx&_). simpl.
      rewrite Hx in H by (apply in_range_spec; pose proof (int_lo_hi U32); cbn [int_lo] in *; lia).
      apply IH in H; lia.
    + done.
    + destruct (op_active p); [done|]. apply (ret_Ok acc acc1 e) in H1 as [-> ->]. apply IH in H; lia.
    + apply (ret_Ok acc acc1 e) in H1 as [-> ->]. apply IH in H; lia.
Qed.

Lemma vote_Ok a i up n e s u s' :
  resolve_challenge_by_verifier a i up n e s = Ok u s' ->
  exists c r s1, ballot e s a i up n c r s1 /\
    (s' = s1 \/
     exists active, (Z.of_nat (length (providers_of s)) <= int_hi U32 -> active = Z.of_nat (length (active_providers s))) /\
       supermajority_threshold active <= Z.of_nat (length (voters_of s1 i up)) /\
       finalized e i (verdict up) c r s1 s').
Proof.
  unfold resolve_challenge_by_verifier. intros (s1&Hs&H)%oracle_signed_Ok.
  pose proof (signed_inst _ _ _ _ _ Hs) as [Hi1 Hw1]. pose proof (fun k => signed_get e s a n s1 k Hs) as Hg.
  apply bind_Ok in H as (p&s2&(Hp&Hact&l&->)%active_Ok&H). apply bind_Ok in H as (o&s2&[-> ->]%pget_Ok&H).
  apply bind_Ok in H as (c&s2&[Hc ->]%ok_or_Ok&H). apply bind_Ok in H as (?&s2&[Hres ->]%fail_if_Ok&H).
  apply bind_Ok in H as (o&s2&[-> ->]%pget_Ok&H). apply bind_Ok in H as (r&s2&[Hr ->]%ok_or_Ok&H).
  apply bind_Ok in H as (?&s2&[Hst ->]%fail_if_Ok&H). apply bind_Ok in H as (?&s2&[Hne ->]%fail_if_Ok&H). guards.
  apply bind_Ok in H as (v&s3&(Hu&Hrj&Ht&Hv1&Hv2&->)%cast_vote_Ok&H).
  apply bind_Ok in H as (act&s4&Hact'&H). pose proof (active_count_Ok _ _ _ _ Hact') as ->.
  host_cbn. rewrite Hg in Hc, Hr by done.
  assert (Hvo : forall b, voters_of (put_live l s1) i b = voters_of s i b).
  { intros b. unfold voters_of, upholders_of, rejecters_of. host_cbn. by rewrite !Hg by done. }
  assert (Htt : touches [DataKey.Nonce a; votes_key i up] s s3).
  { destruct Hs as (_&_&Hs&_). eapply (touches_trans [_] [_]); [exact Hs|exact Ht]. }
  assert (Hpv : forall b, provider_of s3 b = provider_of s b).
  { intros b. unfold provider_of. by rewrite (touches_get _ _ _ _ Htt) by (destruct up; unfold votes_key; outside). }
  assert (Hpl : providers_of s3 = providers_of s).
  { unfold providers_of. by rewrite (touches_get _ _ _ _ Htt) by (destruct up; unfold votes_key; outside). }
  exists c, r, s3. split.
  - split; try done.
    + by destruct Hs as (Ha&Hn&_).
    + exists p. unfold provider_of in *. by rewrite Hg in Hp.
    + split; [specialize (Hvo true)|specialize (Hvo false)]; simpl in Hvo; by rewrite <- Hvo.
    + by rewrite Hv1, Hv2, !Hvo.
  - apply when_Ok in H as [[Hle H]|[_ ->]]; [right|by left]. guards.
    apply finalize_Ok in H as (c'&Hc'&H). unfold challenge_of in Hc'.
    rewrite (touches_get _ _ _ _ Htt) in Hc' by (destruct up; unfold votes_key; outside).
    rewrite Hc in Hc'. injection Hc' as <-.
    destruct H as [[Hres' _]|[r' Hf]]; [congruence|].
    pose proof (fz_report _ _ _ _ _ _ _ Hf) as Hr'. unfold report_of in Hr'.
    rewrite (touches_get _ _ _ _ Htt) in Hr' by (destruct up; unfold votes_key; outside).
    rewrite Hr in Hr'. injection Hr' as <-. exists act. split; [|by split].
    intros Hlen. rewrite <- Hpl in Hlen. rewrite (active_count_value _ _ _ _ Hact' Hlen).
    unfold active_providers. rewrite Hpl. f_equal. f_equal. apply filter_ext_elem. intros b _. by rewrite Hpv.
Qed.

(** A stale challenge [c] was expired. *)
Record expired e s (i : Z) (c : Challenge) (r : Report) s' : Prop := {
  ex_challenge : challenge_of s i = Some c /\ ch_resolved c = false;
  ex_time : CHALLENGE_TIMEOUT_SECONDS < saturating U64 (timestamp e - ch_submitted_at c);
  ex_report : report_of s i = Some r /\ rp_status r = ReportStatus.Challenged;
  ex_closed : challenge_of s' i = Some (with_resolved c);
  ex_result : report_of s' i = Some (with_status ReportStatus.Pending r);
  ex_bond : 0 < ch_bond c <= bond_lock_of s (ch_challenger c) -> bond_lock_of s (ch_challenger c) <= int_hi I128 ->
    bond_lock_of s' (ch_challenger c) = bond_lock_of s (ch_challenger c) - ch_bond c /\
    (in_range I128 (bond_of s (ch_challenger c) + ch_bond c) = true ->
     bond_of s' (ch_challenger c) = bond_of s (ch_challenger c) + ch_bond c);
  ex_pers : agree [DataKey.Challenge i; DataKey.Report i; DataKey.ChallengeBondBalance (ch_challenger c);
    DataKey.ChallengeBondLock (ch_challenger c)] (pers s) (pers s');
  ex_inst : inst s' = inst s;
  ex_world : world s' = world s;
}.

Lemma expire_Ok i e s u s' :
  @expire_stale_challenge W i e s = Ok u s' ->
  exists c, challenge_of s i = Some c /\ (ch_resolved c = true /\ s' = s \/ exists r, expired e s i c r s').
Proof.
  unfold expire_stale_challenge. intros (o&s1&[-> ->]%pget_Ok&H)%bind_Ok.
  apply bind_Ok in H as (c&s1&[Hc ->]%ok_or_Ok&H). exists c. split; [done|].
  destruct (ch_resolved c) eqn:Hres; [left; by apply (ret_Ok tt u e) in H as [_ ->]|right].
  apply bind_Ok in H as (t&s1&[-> ->]%timestamp_Ok&H). apply bind_Ok in H as (?&s1&[Ht ->]%fail_if_Ok&H).
  apply bind_Ok in H as (o&s1&[-> ->]%pget_Ok&H). apply bind_Ok in H as (r&s1&[Hr ->]%ok_or_Ok&H).
  apply bind_Ok in H as (?&s1&[Hst ->]%fail_if_Ok&H). guards.
  apply bind_Ok in H as (?&s1&[l1 ->]%(oracle_store_Ok (DataKey.Challenge i))&H).
  apply bind_Ok in H as (?&s1&[l2 ->]%(oracle_store_Ok (DataKey.Report i))&H).
  apply bind_Ok in H as (?&s1&((Hi1&Hw1&Hp1)&Hb)%settle_bond_Ok&->%publish_Ok).
  exists r. unfold bond_of, bond_lock_of in *. host_cbn. rewrite !sget_sset_ne in Hb by done.
  split; unfold challenge_of, report_of, bond_of, bond_lock_of; host_cbn; try done.
  - rewrite Hp1 by outside. by store_simp.
  - rewrite Hp1 by outside. by store_simp.
  - intros k Hk. rewrite !not_elem_of_cons in Hk. destruct Hk as (K1&K2&K3&K4&_). host_cbn.
    rewrite Hp1 by outside. by rewrite !sget_sset_ne by done.
Qed.
End operations.

(** ** Calls that leave reports alone *)

(** The entries of reports, challenges, votes, periods and locks. *)
Definition report_key (k : DataKey) : bool :=
  match k with
  | DataKey.Report _ | DataKey.Challenge _ | DataKey.ReportVerifiers _ | DataKey.VerificationCount _
  | DataKey.ProjectReports _ | DataKey.ChallengeUpholdVotes _ | DataKey.ChallengeRejectVotes _
  | DataKey.ProjectReportPeriods _ | DataKey.ReportLock _ | DataKey.LockedStake _
  | DataKey.ChallengeBondLock _ => true
  | _ => false
  end.

Definition report_call `{!World W} `{!ProjectSource W} (c : Call) : bool :=
  match c with
  | CSubmit _ _ _ _ _ _ _ _ _ | CVerify _ _ _ | COverride _ _ _ _ | CChallenge _ _ _ _
  | CResolve _ _ _ _ | CVote _ _ _ _ | CExpire _ => true
  | _ => false
  end.

Section quiet.
Context {W : Type} `{!World W} `{!ProjectSource W}.
Local Abbreviation state := (cstate DataKey ty Event W).
Implicit Types (s : state) (e : Env).

(** Reports and their bookkeeping are the same in both states. *)
Definition same_reports s s' : Prop :=
  (forall k, report_key k = true -> sget k (pers s') = sget k (pers s)) /\
  sget DataKey.ReportCount (inst s') = sget DataKey.ReportCount (inst s) /\ world s' = world s /\
  (forall a, is_Some (provider_of s a) -> is_Some (provider_of s' a)).

Lemma same_reports_signed e s a n s1 : signed e s a n s1 -> same_reports s s1.
Proof.
  intros Hs. pose proof (signed_inst _ _ _ _ _ Hs) as [Hi Hw]. split_and!; [|by rewrite Hi|done|].
  - intros k Hk. apply (signed_get _ _ _ _ _ _ Hs). by intros ->.
  - intros b. unfold provider_of. by rewrite (signed_get _ _ _ _ _ _ Hs).
Qed.

Lemma same_reports_trans s1 s2 s3 : same_reports s1 s2 -> same_reports s2 s3 -> same_reports s1 s3.
Proof.
  intros (Hp&Hi&Hw&Ha) (Hp'&Hi'&Hw'&Ha'). split_and!; [|congruence|congruence|auto].
  intros k Hk. by rewrite Hp', Hp.
Qed.

(** Writes under keys that are not about reports. *)
Lemma same_reports_put k v s l :
  report_key k = false -> same_reports s (put_live l (put_pers k v s)).
Proof.
  intros Hk. split_and!; [|done|done|].
  - intros j Hj. host_cbn. rewrite sget_sset_ne; [done|]. intros ->. congruence.
  - intros a [p Hp]. unfold provider_of. host_cbn.
    destruct (decide (k = DataKey.Provider a)) as [->|Hne]; [by rewrite sget_sset_eq|].
    rewrite sget_sset_ne by done. unfold provider_of in Hp. by rewrite Hp.
Qed.

Lemma same_reports_inst s s' :
  pers s' = pers s -> world s' = world s ->
  sget DataKey.ReportCount (inst s') = sget DataKey.ReportCount (inst s) -> same_reports s s'.
Proof. intros Hp Hw Hi. split_and!; [by rewrite Hp|done|done|]. intros a. unfold provider_of. by rewrite Hp. Qed.

Lemma same_reports_log s s' ev : same_reports s s' -> same_reports s (log ev s').
Proof. done. Qed.

Lemma quiet_Ok c e s s' : report_call c = false -> exec c e s = Ok tt s' -> same_reports s s'.
Proof.
  intros Hc. destruct c; try done; simpl; clear Hc.
  - intros (s1&Hs&H)%oracle_signed_Ok. eapply same_reports_trans; [by eapply same_reports_signed|].
    inv_ok H. host_cbn. apply same_reports_log.
    eapply same_reports_trans; [apply (same_reports_put (DataKey.Provider provider))|apply (same_reports_put DataKey.ProviderList)]; done.
  - intros (s1&Hs&H)%oracle_signed_Ok. eapply same_reports_trans; [by eapply same_reports_signed|].
    unfold remove_provider in H. apply bind_Ok in H as (?&s2&[_ ->]%oracle_require_admin_Ok&H).
    apply bind_Ok in H as (o&s2&[-> ->]%pget_Ok&H). apply bind_Ok in H as (p&s2&[_ ->]%ok_or_Ok&H).
    apply bind_Ok in H as (?&s2&[l ->]%(oracle_store_Ok (DataKey.Provider provider))&H).
    apply bind_Ok in H as (?&s2&(Hp&Hw&Hi&_)%reconcile_Ok&->%publish_Ok). apply same_reports_log.
    eapply same_reports_trans; [by apply (same_reports_put (DataKey.Provider provider))|].
    apply same_reports_inst; [exact Hp|exact Hw|]. apply Hi. outside.
  - intros (s1&Hs&H)%oracle_signed_Ok. eapply same_reports_trans; [by eapply same_reports_signed|].
    inv_ok H. apply same_reports_inst; [done|done|]. host_cbn. by store_simp.
  - intros (s1&Hs&H)%oracle_signed_Ok. eapply same_reports_trans; [by eapply same_reports_signed|].
    cbv zeta in H. inv_ok H. apply same_reports_log. by apply (same_reports_put (DataKey.Provider provider)).
  - intros (s1&Hs&H)%oracle_signed_Ok. eapply same_reports_trans; [by eapply same_reports_signed|].
    cbv zeta in H. inv_ok H. apply same_reports_log. by apply (same_reports_put (DataKey.Provider provider)).
  - intros (s1&Hs&H)%oracle_signed_Ok. eapply same_reports_trans; [by eapply same_reports_signed|].
    cbv zeta in H. inv_ok H. apply same_reports_log. by apply (same_reports_put (DataKey.ChallengeBondBalance caller)).
  - intros (s1&Hs&H)%oracle_signed_Ok. eapply same_reports_trans; [by eapply same_reports_signed|].
    cbv zeta in H. inv_ok H. apply same_reports_log. by apply (same_reports_put (DataKey.ChallengeBondBalance caller)).
  - intros (s1&Hs&H)%oracle_signed_Ok. eapply same_reports_trans; [by eapply same_reports_signed|].
    inv_ok H. apply same_reports_inst; [done|done|]. host_cbn. by store_simp.
  - intros (s1&Hs&H)%oracle_signed_Ok. eapply same_reports_trans; [by eapply same_reports_signed|].
    inv_ok H. apply same_reports_inst; [done|done|]. host_cbn. by store_simp.
  - intros (s1&Hs&H)%oracle_signed_Ok. eapply same_reports_trans; [by eapply same_reports_signed|].
    inv_ok H. apply same_reports_inst; [done|done|]. host_cbn. by store_simp.
  - intros (s1&Hs&H)%oracle_signed_Ok. eapply same_reports_trans; [by eapply same_reports_signed|].
    inv_ok H. apply same_reports_inst; [done|done|]. host_cbn. by store_simp.
Qed.
End quiet.

(** ** The invariant *)

Section invariant.
Context {W : Type} `{!World W} `{!ProjectSource W}.
Local Abbreviation state := (cstate DataKey ty Event W).
Implicit Types (s : state) (e : Env).

(** The report ids handed out so far, the reports of a project, the open challenges
    of a challenger. *)
Definition ids_of s : list Z := seqZ 1 (count_of s).
Definition of_project s (p i : Z) : bool := bool_decide ((rp_project_id <$> report_of s i) = Some p).
Definition open_by s (a : Address) (i : Z) : bool :=
  match challenge_of s i with
  | Some c => negb (ch_resolved c) && bool_decide (ch_challenger c = a)
  | None => false
  end.
Definition open_challenges s (a : Address) : list Z := filter (fun i => open_by s a i = true) (ids_of s).

(** The report's verifiers, and the voters on its challenge: no one twice, never
    its own provider, registered providers only. *)
Definition jury s (r : Report) (l : list Address) : Prop :=
  NoDup l /\ rp_provider r ∉ l /\ forall a, a ∈ l -> is_Some (provider_of s a).

(** What is said of each report. *)
Record report_inv s (i : Z) (r : Report) : Prop := {
  ri_id : rp_id r = i;
  ri_data : report_nonneg r /\ rp_period_start r < rp_period_end r;
  ri_provider : is_Some (provider_of s (rp_provider r));
  ri_verifiers : jury s r (verifiers_of s i);
  ri_votes : jury s r (upholders_of s i ++ rejecters_of s i);
  ri_open : rp_status r = ReportStatus.Challenged <->
    exists c, challenge_of s i = Some c /\ ch_resolved c = false;
  ri_challenge c : challenge_of s i = Some c ->
    ch_report_id c = i /\ ch_bond c = CHALLENGE_BOND /\ ch_challenger c <> rp_provider r;
}.

(** What nothing changes in a report. *)
Definition same_content (r r' : Report) : Prop :=
  rp_id r' = rp_id r /\ rp_provider r' = rp_provider r /\ rp_project_id r' = rp_project_id r /\
  rp_project_metadata_hash r' = rp_project_metadata_hash r /\ rp_period_start r' = rp_period_start r /\
  rp_period_end r' = rp_period_end r /\ rp_carbon_sequestered r' = rp_carbon_sequestered r /\
  rp_biodiversity r' = rp_biodiversity r /\ rp_methodology r' = rp_methodology r /\
  rp_ipfs_evidence_hash r' = rp_ipfs_evidence_hash r /\ rp_submitted_at r' = rp_submitted_at r.

Record inv (n : Z) s : Prop := {
  oi_count : 0 <= count_of s <= n;
  oi_ids i : is_Some (report_of s i) <-> 1 <= i <= count_of s;
  oi_report i r : report_of s i = Some r -> report_inv s i r;
  oi_none i : report_of s i = None ->
    verifiers_of s i = [] /\ upholders_of s i = [] /\ rejecters_of s i = [] /\ challenge_of s i = None;
  oi_bonds a : bond_lock_of s a = CHALLENGE_BOND * Z.of_nat (length (open_challenges s a));
  oi_index p : project_reports_of s p = filter (fun i => of_project s p i = true) (ids_of s);
  oi_ordered i j r1 r2 : report_of s i = Some r1 -> report_of s j = Some r2 -> i < j ->
    rp_project_id r1 = rp_project_id r2 -> rp_period_end r1 <= rp_period_start r2;
  oi_last i r : report_of s i = Some r ->
    exists pair, list.last (periods_of s (rp_project_id r)) = Some pair /\ rp_period_end r <= snd pair;
}.

Lemma same_content_refl r : same_content r r.
Proof. by split_and!. Qed.
Lemma same_content_status st r : same_content r (with_status st r).
Proof. by split_and!. Qed.
Lemma same_content_verified t st r : same_content r (with_verified_at t (with_status st r)).
Proof. by split_and!. Qed.
Lemma same_content_judged e st r : same_content r (judged e st r).
Proof. unfold judged. case_bool_decide; by split_and!. Qed.
Lemma judged_status e st r : rp_status (judged e st r) = st.
Proof. unfold judged. by case_bool_decide. Qed.

Lemma same_content_nonneg r r' : same_content r r' -> report_nonneg r -> report_nonneg r'.
Proof. intros (_&_&_&_&_&_&Hc&Hb&_). unfold report_nonneg. by rewrite Hc, Hb. Qed.

(** States that agree on reports and their bookkeeping. *)
Lemma same_reports_views s s' :
  same_reports s s' ->
  (forall i, report_of s' i = report_of s i) /\ (forall i, challenge_of s' i = challenge_of s i) /\
  (forall i, verifiers_of s' i = verifiers_of s i) /\ (forall i, upholders_of s' i = upholders_of s i) /\
  (forall i, rejecters_of s' i = rejecters_of s i) /\ (forall a, bond_lock_of s' a = bond_lock_of s a) /\
  (forall p, project_reports_of s' p = project_reports_of s p) /\ (forall p, periods_of s' p = periods_of s p) /\
  (forall i, lock_of s' i = lock_of s i) /\ (forall a, locked_of s' a = locked_of s a) /\ count_of s' = count_of s.
Proof.
  intros (Hp&Hi&_). unfold report_of, challenge_of, verifiers_of, upholders_of, rejecters_of, bond_lock_of,
    project_reports_of, periods_of, lock_of, locked_of, count_of.
  split_and!; intros; rewrite ?Hp by done; congruence.
Qed.

Lemma jury_mono s s' r r' l :
  (forall a, is_Some (provider_of s a) -> is_Some (provider_of s' a)) -> rp_provider r' = rp_provider r ->
  jury s r l -> jury s' r' l.
Proof. intros Ha Hr (H1&H2&H3). unfold jury. rewrite Hr. split_and!; auto. Qed.

Lemma open_challenges_ext s s' a :
  count_of s' = count_of s -> (forall i, challenge_of s' i = challenge_of s i) ->
  open_challenges s' a = open_challenges s a.
Proof.
  intros Hc Hch. unfold open_challenges, ids_of. rewrite Hc. apply filter_ext_elem.
  intros i _. unfold open_by. by rewrite Hch.
Qed.

Lemma inv_same n s s' : inv n s -> same_reports s s' -> inv n s'.
Proof.
  intros [H1 H2 H3 H4 H5 H6 H7 H8] Hs. pose proof Hs as (_&_&_&Ha).
  destruct (same_reports_views _ _ Hs) as (V1&V2&V3&V4&V5&V6&V7&V8&_&_&V9).
  split; intros *; rewrite ?V1, ?V2, ?V3, ?V4, ?V5, ?V6, ?V7, ?V8, ?V9; try done; eauto.
  - intros [? ? ? ? ? ? ?]%H3. split; rewrite ?V2, ?V3, ?V4, ?V5; eauto using jury_mono.
  - by rewrite (open_challenges_ext s s') by done.
  - rewrite H6. unfold ids_of. rewrite V9. apply filter_ext_elem. intros i _. unfold of_project. by rewrite V1.
Qed.

Lemma oracle_inv_stores n s (t : state) : inst s = inst t -> pers s = pers t -> inv n s -> inv n t.
Proof.
  destruct s, t. cbn. intros -> -> [? ? I3 ? ? ? ? ?]. split; try done. intros i r Hr. by destruct (I3 i r Hr); split.
Qed.

Lemma oracle_inv_mono n m s : n <= m -> inv n s -> inv m s.
Proof. intros Hnm [? ? ? ? ? ? ? ?]. split; try done. lia. Qed.

(** A change of one report, its challenge, verifiers and votes. *)
Lemma oracle_inv_update n s s' i r r' :
  inv n s -> report_of s i = Some r -> same_content r r' -> count_of s' = count_of s ->
  (forall j, report_of s' j = if decide (j = i) then Some r' else report_of s j) ->
  (forall j, j <> i -> challenge_of s' j = challenge_of s j /\ verifiers_of s' j = verifiers_of s j /\
     upholders_of s' j = upholders_of s j /\ rejecters_of s' j = rejecters_of s j) ->
  (forall p, periods_of s' p = periods_of s p /\ project_reports_of s' p = project_reports_of s p) ->
  (forall a, is_Some (provider_of s a) -> is_Some (provider_of s' a)) ->
  jury s' r' (verifiers_of s' i) -> jury s' r' (upholders_of s' i ++ rejecters_of s' i) ->
  (rp_status r' = ReportStatus.Challenged <-> exists c, challenge_of s' i = Some c /\ ch_resolved c = false) ->
  (forall c, challenge_of s' i = Some c ->
     ch_report_id c = i /\ ch_bond c = CHALLENGE_BOND /\ ch_challenger c <> rp_provider r') ->
  (forall a, bond_lock_of s' a = CHALLENGE_BOND * Z.of_nat (length (open_challenges s' a))) ->
  inv n s'.
Proof.
  intros [H1 H2 H3 H4 H5 H6 H7 H8] Hr Hsame Hct Hrep Hoth Hper Hprov Hver Hvot Hopen Hch Hbond.
  assert (Hsome : forall j, is_Some (report_of s' j) <-> is_Some (report_of s j)).
  { intros j. rewrite Hrep. case_decide as Hd; [|done]. subst. rewrite Hr. split; by eexists. }
  assert (Hback : forall j q, report_of s' j = Some q -> exists q0, report_of s j = Some q0 /\ same_content q0 q).
  { intros j q. rewrite Hrep. case_decide as Hd; [intros [= <-]; subst; by exists r|].
    intros Hq. exists q. split; [done|apply same_content_refl]. }
  split.
  - by rewrite Hct.
  - intros j. by rewrite Hsome, Hct.
  - intros j q Hq. destruct (decide (j = i)) as [->|Hne].
    + rewrite Hrep, decide_True in Hq by done. injection Hq as <-.
      destruct (H3 i r Hr) as [R1 [R2 R2'] R3 _ _ _ _]. pose proof Hsame as (S1&S2&_&_&S5&S6&_).
      split; try done.
      * congruence.
      * split; [by eapply same_content_nonneg|]. by rewrite S5, S6.
      * rewrite S2. auto.
    + rewrite Hrep, decide_False in Hq by done. destruct (H3 j q Hq) as [R1 R2 R3 R4 R5 R6 R7].
      destruct (Hoth j Hne) as (O1&O2&O3&O4). split; rewrite ?O1, ?O2, ?O3, ?O4; eauto using jury_mono.
  - intros j Hj. destruct (decide (j = i)) as [->|Hne].
    + rewrite Hrep, decide_True in Hj by done. done.
    + destruct (Hoth j Hne) as (O1&O2&O3&O4). rewrite O1, O2, O3, O4. apply H4.
      by rewrite Hrep, decide_False in Hj by done.
  - done.
  - intros p. destruct (Hper p) as [_ ->]. rewrite H6. unfold ids_of. rewrite Hct. apply filter_ext_elem.
    intros j _. unfold of_project. rewrite Hrep. case_decide as Hd; [|done]. subst. rewrite Hr. simpl.
    pose proof Hsame as (_&_&S3&_). by rewrite S3.
  - intros j k r1 r2 Hr1 Hr2 Hlt Hp. apply Hback in Hr1 as (q1&Hq1&(_&_&S3&_&_&S6&_)).
    apply Hback in Hr2 as (q2&Hq2&(_&_&T3&_&T5&_&_)). rewrite S6, T5. apply (H7 j k); congruence.
  - intros j q Hq. apply Hback in Hq as (q0&Hq0&(_&_&S3&_&_&S6&_)). rewrite S3, S6.
    destruct (Hper (rp_project_id q0)) as [-> _]. by apply (H8 j).
Qed.

(** Counting open challenges. *)
Lemma open_challenges_shift s s' i a :
  count_of s' = count_of s -> 1 <= i <= count_of s ->
  (forall j, j <> i -> challenge_of s' j = challenge_of s j) ->
  Z.of_nat (length (open_challenges s' a)) =
    Z.of_nat (length (open_challenges s a)) + Z.b2z (open_by s' a i) - Z.b2z (open_by s a i).
Proof.
  intros Hc Hi Hoth.
  assert (Hj : forall j, j <> i -> open_by s' a j = open_by s a j) by (intros j Hj; unfold open_by; by rewrite Hoth).
  assert (Hin : i ∈ ids_of s) by (apply elem_of_seqZ; lia).
  pose proof (NoDup_seqZ 1 (count_of s)) as Hnd. unfold open_challenges. unfold ids_of at 1. rewrite Hc. fold (ids_of s).
  destruct (open_by s' a i) eqn:H1, (open_by s a i) eqn:H2; simpl.
  - rewrite (filter_ext_elem (fun j => open_by s' a j = true) (fun j => open_by s a j = true)); [lia|].
    intros j _. destruct (decide (j = i)) as [->|Hne]; [by rewrite H1, H2|by rewrite Hj].
  - rewrite (length_filter_one_more (fun j => open_by s a j = true) (fun j => open_by s' a j = true) _ i); try done; [lia| |].
    + by rewrite H2.
    + intros j Hne. by rewrite Hj.
  - rewrite (length_filter_one_more (fun j => open_by s' a j = true) (fun j => open_by s a j = true) _ i); try done; [lia| |].
    + by rewrite H1.
    + intros j Hne. by rewrite Hj.
  - rewrite (filter_ext_elem (fun j => open_by s' a j = true) (fun j => open_by s a j = true)); [lia|].
    intros j _. destruct (decide (j = i)) as [->|Hne]; [by rewrite H1, H2|by rewrite Hj].
Qed.

Lemma open_challenges_le s a : 0 <= count_of s -> Z.of_nat (length (open_challenges s a)) <= count_of s.
Proof.
  intros Hc. unfold open_challenges. pose proof (length_filter (fun i => open_by s a i = true) (ids_of s)) as Hle.
  unfold ids_of in *. rewrite length_seqZ in Hle. lia.
Qed.

(** Locked bonds stay far from the bounds of an [i128]. *)
Lemma bond_lock_bound n s a : inv n s -> n <= 2 ^ 64 -> 0 <= bond_lock_of s a <= CHALLENGE_BOND * 2 ^ 64.
Proof.
  intros Hinv Hn. rewrite (oi_bonds _ _ Hinv). pose proof (oi_count _ _ Hinv) as [Hc0 Hc].
  pose proof (open_challenges_le s a Hc0). unfold CHALLENGE_BOND. lia.
Qed.

(** The report and challenge [i] change; [ks] are the other entries written, none of
    them about reports. *)
Lemma entries_frame ks s s' :
  agree ks (pers s) (pers s') ->
  (forall j, DataKey.Report j ∉ ks -> report_of s' j = report_of s j) /\
  (forall j, DataKey.Challenge j ∉ ks -> challenge_of s' j = challenge_of s j) /\
  (forall j, DataKey.ReportVerifiers j ∉ ks -> verifiers_of s' j = verifiers_of s j) /\
  (forall j, DataKey.ChallengeUpholdVotes j ∉ ks -> upholders_of s' j = upholders_of s j) /\
  (forall j, DataKey.ChallengeRejectVotes j ∉ ks -> rejecters_of s' j = rejecters_of s j) /\
  (forall p, DataKey.ProjectReportPeriods p ∉ ks -> periods_of s' p = periods_of s p) /\
  (forall p, DataKey.ProjectReports p ∉ ks -> project_reports_of s' p = project_reports_of s p) /\
  (forall a, DataKey.ChallengeBondLock a ∉ ks -> bond_lock_of s' a = bond_lock_of s a) /\
  (forall a, DataKey.Provider a ∉ ks -> provider_of s' a = provider_of s a).
Proof.
  intros H. unfold report_of, challenge_of, verifiers_of, upholders_of, rejecters_of, periods_of, project_reports_of,
    bond_lock_of, provider_of. split_and!; intros; by rewrite H.
Qed.

Lemma open_by_eq s a i c :
  challenge_of s i = Some c -> open_by s a i = negb (ch_resolved c) && bool_decide (ch_challenger c = a).
Proof. unfold open_by. by intros ->. Qed.

(** The bond of an open challenge is locked. *)
Lemma open_bond n s i c :
  inv n s -> n <= 2 ^ 64 -> is_Some (report_of s i) -> challenge_of s i = Some c -> ch_resolved c = false ->
  ch_bond c = CHALLENGE_BOND /\ 0 < ch_bond c <= bond_lock_of s (ch_challenger c) /\
  bond_lock_of s (ch_challenger c) <= int_hi I128.
Proof.
  intros Hinv Hn [r Hr] Hc Hop. destruct (ri_challenge _ _ _ (oi_report _ _ Hinv _ _ Hr) _ Hc) as (_&Hb&_).
  assert (Hids : 1 <= i <= count_of s) by (apply (oi_ids _ _ Hinv); by rewrite Hr).
  pose proof (oi_bonds _ _ Hinv (ch_challenger c)) as Hbl. pose proof (bond_lock_bound _ _ (ch_challenger c) Hinv Hn) as Hbb.
  assert (1 <= Z.of_nat (length (open_challenges s (ch_challenger c)))) as H1.
  { unfold open_challenges. assert (i ∈ filter (fun j => open_by s (ch_challenger c) j = true) (ids_of s)) as Hin.
    { apply list_elem_of_filter. split; [|by apply elem_of_seqZ; lia].
      rewrite (open_by_eq _ _ _ _ Hc), Hop. simpl. by apply bool_decide_eq_true. }
    destruct (filter _ (ids_of s)); [by apply elem_of_nil in Hin|simpl; lia]. }
  rewrite Hb. unfold CHALLENGE_BOND in *. cbn [int_hi]. lia.
Qed.

(** Closing a challenge. *)
Lemma inv_close n s s' i c c' r r' :
  inv n s -> n <= 2 ^ 64 -> report_of s i = Some r -> challenge_of s i = Some c -> ch_resolved c = false ->
  report_of s' i = Some r' -> same_content r r' -> rp_status r' <> ReportStatus.Challenged ->
  challenge_of s' i = Some c' -> ch_resolved c' = true -> ch_report_id c' = ch_report_id c ->
  ch_bond c' = ch_bond c -> ch_challenger c' = ch_challenger c -> count_of s' = count_of s ->
  agree [DataKey.Challenge i; DataKey.Report i; DataKey.ReportLock i; DataKey.LockedStake (rp_provider r);
    DataKey.Provider (rp_provider r); DataKey.SlashHistory (rp_provider r);
    DataKey.ChallengeBondBalance (ch_challenger c); DataKey.ChallengeBondLock (ch_challenger c)] (pers s) (pers s') ->
  is_Some (provider_of s' (rp_provider r)) ->
  (0 < ch_bond c <= bond_lock_of s (ch_challenger c) -> bond_lock_of s (ch_challenger c) <= int_hi I128 ->
    bond_lock_of s' (ch_challenger c) = bond_lock_of s (ch_challenger c) - ch_bond c) ->
  inv n s'.
Proof.
  intros Hinv Hn Hr Hc Hop Hr' Hsame Hst Hc' Hres Hid Hb Hch Hct Hag Hprov Hbond.
  destruct (entries_frame _ _ _ Hag) as (F1&F2&F3&F4&F5&F6&F7&F8&F9).
  destruct (oi_report _ _ Hinv _ _ Hr) as [R1 R2 R3 R4 R5 R6 R7]. destruct (R7 _ Hc) as (C1&C2&C3).
  assert (Hids : 1 <= i <= count_of s) by (apply (oi_ids _ _ Hinv); by rewrite Hr).
  assert (Hpr : forall a, is_Some (provider_of s a) -> is_Some (provider_of s' a)).
  { intros a Ha. destruct (decide (a = rp_provider r)) as [->|Hne]; [done|]. by rewrite F9 by outside. }
  assert (Hsp : rp_provider r' = rp_provider r) by (by destruct Hsame as (_&?&_)).
  assert (Hoth : forall j, j <> i -> challenge_of s' j = challenge_of s j) by (intros j Hj; rewrite F2 by outside; done).
  eapply (oracle_inv_update n s s' i r r'); try done.
  - intros j. case_decide as Hd; [by subst|]. by rewrite F1 by outside.
  - intros j Hj. rewrite Hoth by done. by rewrite F3, F4, F5 by outside.
  - intros p. by rewrite F6, F7 by outside.
  - rewrite F3 by outside. by eapply jury_mono.
  - rewrite F4, F5 by outside. by eapply jury_mono.
  - split; [done|]. intros (c0&Hc0&Hf). rewrite Hc' in Hc0. injection Hc0 as <-. congruence.
  - intros c0 Hc0. rewrite Hc' in Hc0. injection Hc0 as <-. by rewrite Hid, Hb, Hch, Hsp.
  - intros a. rewrite (open_challenges_shift s s' i a Hct Hids Hoth), (open_by_eq s a i c Hc), (open_by_eq s' a i c' Hc').
    rewrite Hop, Hres, Hch. simpl. destruct (decide (ch_challenger c = a)) as [<-|Hne].
    + rewrite bool_decide_eq_true_2 by done. simpl. pose proof (oi_bonds _ _ Hinv (ch_challenger c)) as Hbl.
      destruct (open_bond _ _ _ _ Hinv Hn ltac:(by rewrite Hr) Hc Hop) as (_&Hb1&Hb2).
      rewrite (Hbond Hb1 Hb2), C2. unfold CHALLENGE_BOND in *. lia.
    + rewrite bool_decide_eq_false_2 by done. simpl. rewrite F8 by outside. rewrite (oi_bonds _ _ Hinv). lia.
Qed.
End invariant.

Section preservation.
Context {W : Type} `{!World W} `{!ProjectSource W}.
Local Abbreviation state := (cstate DataKey ty Event W).
Implicit Types (s : state) (e : Env).

Lemma count_same ks s s' : agree ks (inst s) (inst s') -> DataKey.ReportCount ∉ ks -> count_of s' = count_of s.
Proof. intros H Hk. unfold count_of. by rewrite (H _ Hk). Qed.

Lemma slash_provider_kept e s a i s' : slash_effect e s a i s' -> is_Some (provider_of s' a).
Proof. intros (p&pen&rest&H1&H2&H3&H4&H5&H6). rewrite H5. by eexists. Qed.

Lemma inv_finalized n e i st c r s s' :
  inv n s -> n <= 2 ^ 64 -> is_verdict st = true -> finalized e i st c r s s' -> inv n s'.
Proof.
  intros Hinv Hn Hst [[Z1 Z2] Z3 Z4 Z5 _ _ Zb Zp Zi _ _ Zpr Zs _].
  eapply (inv_close n s s' i c _ r _ Hinv Hn Z3 Z1 Z2 Z5); try done.
  - apply same_content_judged.
  - rewrite judged_status. by destruct st.
  - by apply (count_same _ _ _ Zi); outside.
  - destruct (decide (st = ReportStatus.Rejected)) as [->|Hne].
    + by eapply slash_provider_kept, Zs.
    + rewrite Zpr by done. apply (ri_provider _ _ _ (oi_report _ _ Hinv _ _ Z3)).
  - intros G1 G2. by apply Zb.
Qed.

Lemma inv_expired n e i c r s s' : inv n s -> n <= 2 ^ 64 -> expired e s i c r s' -> inv n s'.
Proof.
  intros Hinv Hn [[Z1 Z2] _ [Z3 _] Z4 Z5 Zb Zp Zi _].
  eapply (inv_close n s s' i c _ r _ Hinv Hn Z3 Z1 Z2 Z5); try done.
  - unfold count_of. by rewrite Zi.
  - eapply agree_weaken; [exact Zp|]. set_solver.
  - unfold provider_of. rewrite Zp by outside. apply (ri_provider _ _ _ (oi_report _ _ Hinv _ _ Z3)).
  - intros G1 G2. by apply Zb.
Qed.

(** The entries written when only the report [i] itself changes: its status, its
    verification, its verifiers or its votes. *)
Definition own_entry (i : Z) (k : DataKey) : Prop :=
  match k with
  | DataKey.Report j | DataKey.ReportVerifiers j | DataKey.ChallengeUpholdVotes j | DataKey.ChallengeRejectVotes j => j = i
  | DataKey.Challenge _ | DataKey.ProjectReportPeriods _ | DataKey.ProjectReports _ | DataKey.ChallengeBondLock _
  | DataKey.Provider _ => False
  | _ => True
  end.

Lemma own_notin i ks k : Forall (own_entry i) ks -> ~ own_entry i k -> k ∉ ks.
Proof. intros Hks Hk Hin. rewrite Forall_forall in Hks. by apply Hk, Hks, list_elem_of_In. Qed.

Lemma inv_rewritten n s s' i r r' ks :
  inv n s -> report_of s i = Some r -> same_content r r' -> report_of s' i = Some r' ->
  count_of s' = count_of s -> agree ks (pers s) (pers s') -> Forall (own_entry i) ks ->
  (rp_status r' = ReportStatus.Challenged <-> rp_status r = ReportStatus.Challenged) ->
  jury s r (verifiers_of s' i) -> jury s r (upholders_of s' i ++ rejecters_of s' i) -> inv n s'.
Proof.
  intros Hinv Hr Hsame Hr' Hct Hag Hks Hst Hv Hj. pose proof (fun k => own_notin i ks k Hks) as K.
  destruct (entries_frame _ _ _ Hag) as (F1&F2&F3&F4&F5&F6&F7&F8&F9).
  destruct (oi_report _ _ Hinv _ _ Hr) as [R1 R2 R3 R4 R5 R6 R7].
  assert (Hsp : rp_provider r' = rp_provider r) by (by destruct Hsame as (_&?&_)).
  eapply (oracle_inv_update n s s' i r r'); try done.
  - intros j. case_decide as Hd; [by subst|]. by apply F1, K.
  - intros j Hd. by rewrite F2, F3, F4, F5 by (apply K; auto).
  - intros p. by rewrite F6, F7 by (apply K; auto).
  - intros a. by rewrite F9 by (apply K; auto).
  - eapply (jury_mono s); [|exact Hsp|done]. intros a. by rewrite F9 by (apply K; auto).
  - eapply (jury_mono s); [|exact Hsp|done]. intros a. by rewrite F9 by (apply K; auto).
  - by rewrite Hst, F2 by (apply K; auto).
  - intros c. rewrite F2, Hsp by (apply K; auto). apply R7.
  - intros a. rewrite F8 by (apply K; auto). rewrite (open_challenges_ext s s'); [apply (oi_bonds _ _ Hinv)|done|].
    intros j. apply F2, K. auto.
Qed.

Lemma jury_snoc s r l a :
  jury s r l -> a ∉ l -> a <> rp_provider r -> is_Some (provider_of s a) -> jury s r (l ++ [a]).
Proof.
  intros (H1&H2&H3) Ha Hne Hp. split_and!.
  - by apply NoDup_snoc.
  - rewrite elem_of_app, list_elem_of_singleton. intros [|<-]; done.
  - intros b. rewrite elem_of_app, list_elem_of_singleton. intros [Hb| ->]; auto.
Qed.

Lemma jury_perm s r l l' : l ≡ₚ l' -> jury s r l -> jury s r l'.
Proof. intros Hl (H1&H2&H3). unfold jury. by setoid_rewrite <- Hl. Qed.

Lemma inv_verified n e s a i m r s' : inv n s -> verification e s a i m r s' -> inv n s'.
Proof.
  intros Hinv [_ (p&V2&_) [V3 V3'] _ V5 V6 V7 V8 V9 _].
  destruct (oi_report _ _ Hinv _ _ V3) as [R1 R2 R3 R4 R5 R6 R7].
  assert (Hr' : exists r', report_of s' i = Some r' /\ same_content r r' /\ rp_status r' <> ReportStatus.Challenged).
  { destruct V7 as [(_&V7&_)|(_&V7&_)]; rewrite V7; eexists; (split; [done|]).
    - split; [apply same_content_verified|done].
    - split; [apply same_content_refl|by rewrite V3']. }
  destruct Hr' as (r'&Hr'&Hsame&Hst).
  eapply (inv_rewritten n s s' i r r' _ Hinv V3 Hsame Hr'); [unfold count_of; by rewrite V9|exact V8|by repeat constructor|..]; [by rewrite V3'| |].
  - rewrite V6. unfold add_verifier. case_decide as Hd; [done|]. apply jury_snoc; [done|done|done|]. by rewrite V2.
  - unfold upholders_of, rejecters_of. rewrite !V8 by outside. exact R5.
Qed.

Lemma inv_override n e s a i st m r s' : inv n s -> override e s a i st m r s' -> inv n s'.
Proof.
  intros Hinv [_ _ V3 [V4 V4'] V5 V6 V7 _].
  destruct (oi_report _ _ Hinv _ _ V4) as [R1 R2 R3 R4 R5 R6 R7].
  eapply (inv_rewritten n s s' i r _ _ Hinv V4 (same_content_verified _ st r) V5); [unfold count_of; by rewrite V7|exact V6|by repeat constructor|..].
  - rewrite V4'. simpl. by destruct st.
  - unfold verifiers_of. rewrite V6 by outside. exact R4.
  - unfold upholders_of, rejecters_of. rewrite !V6 by outside. exact R5.
Qed.

Lemma inv_ballot n e s a i up m c r s1 : inv n s -> ballot e s a i up m c r s1 -> inv n s1.
Proof.
  intros Hinv [_ (p&B2&_) _ [B4 _] B5 [B6 B7] [B8 B9] (Bi&_&Bp)].
  destruct (oi_report _ _ Hinv _ _ B4) as [R1 R2 R3 R4 R5 R6 R7].
  assert (Hr' : report_of s1 i = Some r) by (unfold report_of in *; rewrite Bp by (destruct up; unfold votes_key; outside); done).
  eapply (inv_rewritten n s s1 i r r _ Hinv B4 (same_content_refl r) Hr'); [unfold count_of; by rewrite Bi|exact Bp|destruct up; by repeat constructor|..]; [done| |].
  - unfold verifiers_of. rewrite Bp by (destruct up; unfold votes_key; outside). exact R4.
  - assert (Hj : jury s r ((upholders_of s i ++ rejecters_of s i) ++ [a])).
    { apply jury_snoc; [done|rewrite elem_of_app; by intros [|]|done|by rewrite B2]. }
    eapply jury_perm; [|exact Hj]. destruct up; simpl in B8, B9; rewrite B8, B9, <- !(assoc_L (++)).
    + f_equiv. apply Permutation_app_comm.
    + done.
Qed.

Lemma inv_challenged n e s a i h m r s' : inv n s -> n <= 2 ^ 64 -> challenged e s a i h m r s' -> inv n s'.
Proof.
  intros Hinv Hn [_ G2 [G3 G3'] G4 _ _ _ G8 G9 G10 G11 G12 _].
  destruct (entries_frame _ _ _ G11) as (F1&F2&F3&F4&F5&F6&F7&F8&F9).
  destruct (oi_report _ _ Hinv _ _ G3) as [R1 R2 R3 R4 R5 R6 R7].
  assert (Hct : count_of s' = count_of s) by (unfold count_of; by rewrite G12).
  assert (Hids : 1 <= i <= count_of s) by (apply (oi_ids _ _ Hinv); by rewrite G3).
  assert (Hpr : forall b, provider_of s' b = provider_of s b) by (intros b; by rewrite F9 by outside).
  assert (Hoth : forall j, j <> i -> challenge_of s' j = challenge_of s j) by (intros j Hj; rewrite F2 by outside; done).
  eapply (oracle_inv_update n s s' i r _ Hinv G3 (same_content_status _ r) Hct).
  - intros j. case_decide as Hd; [by subst|]. by rewrite F1 by outside.
  - intros j Hj. rewrite Hoth by done. by rewrite F3, F4, F5 by outside.
  - intros p. by rewrite F6, F7 by outside.
  - intros b. by rewrite Hpr.
  - rewrite F3 by outside. eapply (jury_mono s); [intros b; by rewrite Hpr|done|done].
  - rewrite F4, F5 by outside. eapply (jury_mono s); [intros b; by rewrite Hpr|done|done].
  - split; [intros _; by eexists|done].
  - intros c Hc. rewrite G9 in Hc. injection Hc as <-. done.
  - intros b. rewrite (open_challenges_shift s s' i b Hct Hids Hoth), (open_by_eq s' b i _ G9).
    replace (open_by s b i) with false by (unfold open_by; by rewrite G2). simpl. rewrite Z.sub_0_r.
    destruct (decide (a = b)) as [<-|Hne].
    + rewrite bool_decide_eq_true_2 by done. simpl. pose proof (bond_lock_bound _ _ a Hinv Hn) as Hbb.
      rewrite G8; [rewrite (oi_bonds _ _ Hinv); unfold CHALLENGE_BOND; lia|].
      apply in_range_spec. unfold CHALLENGE_BOND in *. cbn [int_lo int_hi]. lia.
    + rewrite bool_decide_eq_false_2 by done. simpl. rewrite F8 by outside. rewrite (oi_bonds _ _ Hinv). lia.
Qed.

Lemma ids_snoc s s' : 0 <= count_of s -> count_of s' = count_of s + 1 -> ids_of s' = ids_of s ++ [count_of s + 1].
Proof.
  intros G0 Hc. unfold ids_of. rewrite Hc, seqZ_app by lia. f_equal. rewrite Z.add_comm. apply (seqZ_cons _ 1). lia.
Qed.

Lemma last_push l pair : list.last (push_period l pair) = Some pair.
Proof. unfold push_period. apply list.last_snoc. Qed.

Lemma biodiversity_nonneg b : biodiversity_ok b = true ->
  match b with Absent => True | Present (habitat, species, units) => 0 <= habitat /\ 0 <= species /\ 0 <= units end.
Proof. destruct b as [|[[h sp] u]]; simpl; [done|]. rewrite negb_true_iff, !orb_false_iff, !Z.ltb_ge. lia. Qed.

(** A submission keeps the invariant, part by part. *)
Section submission.
Context (n : Z) e s (a : Address) (pid x y v : Z) (b : BiodiversityMetrics) (m : Symbol) (h : BytesN) (k i : Z) s'.
Context (Hinv : inv n s) (Hn : n + 1 < 2 ^ 64).
Context (Hsub : submitted e s a pid x y v b m h k i s').

Lemma submitted_id : i = count_of s + 1.
Proof.
  pose proof (oi_count _ _ Hinv). apply (sb_id _ _ _ _ _ _ _ _ _ _ _ _ _ Hsub), in_range_spec. cbn [int_lo int_hi]. lia.
Qed.

Lemma submitted_fresh : report_of s i = None.
Proof.
  destruct (report_of s i) eqn:Hs; [|done]. pose proof submitted_id.
  assert (1 <= i <= count_of s) by (apply (oi_ids _ _ Hinv); by rewrite Hs). lia.
Qed.

(** The reports afterwards: the new one and the old ones. *)
Lemma submitted_reports j q :
  report_of s' j = Some q ->
  j = i /\ (exists hash, q = mkReport i a pid hash x y v b m h ReportStatus.Pending (timestamp e) 0) \/
  j <> i /\ report_of s j = Some q.
Proof.
  destruct Hsub as [_ _ _ _ _ _ _ _ (hash&Hr) _ _ _ Hag _ _]. intros Hq. destruct (decide (j = i)) as [->|Hne]; [left|right].
  - rewrite Hr in Hq. injection Hq as <-. eauto.
  - by rewrite (proj1 (entries_frame _ _ _ Hag)) in Hq by outside.
Qed.

Lemma submitted_after j q : report_of s j = Some q -> rp_project_id q = pid -> rp_period_end q <= x.
Proof.
  intros Hq Hqp. destruct (oi_last _ _ Hinv j q Hq) as (pair&Hl&Hle). rewrite Hqp in Hl.
  apply (sb_ordered _ _ _ _ _ _ _ _ _ _ _ _ _ Hsub) in Hl. lia.
Qed.

Lemma submitted_ids : ids_of s' = ids_of s ++ [i].
Proof.
  rewrite submitted_id. apply ids_snoc; [pose proof (oi_count _ _ Hinv); lia|].
  rewrite (sb_count _ _ _ _ _ _ _ _ _ _ _ _ _ Hsub). apply submitted_id.
Qed.

Lemma submitted_inv j q : report_of s' j = Some q -> report_inv s' j q.
Proof.
  intros Hq. destruct Hsub as [_ (p&Hp&_) (Hxy&Hv&Hb) _ _ _ _ _ _ _ _ _ Hag _ _].
  destruct (entries_frame _ _ _ Hag) as (F1&F2&F3&F4&F5&F6&F7&F8&F9).
  assert (Hpr : forall c, provider_of s' c = provider_of s c) by (intros c; by rewrite F9 by outside).
  destruct (submitted_reports j q Hq) as [[-> [hash ->]]|[Hne Hq']].
  - destruct (oi_none _ _ Hinv i submitted_fresh) as (N1&N2&N3&N4).
    split; rewrite ?F2, ?F3, ?F4, ?F5, ?N1, ?N2, ?N3, ?N4 by outside; simpl; try done.
    + split; [|done]. split; [done|]. by apply biodiversity_nonneg.
    + rewrite Hpr, Hp. by eexists.
    + split_and!; [apply NoDup_nil_2|apply not_elem_of_nil|by intros ? ?%elem_of_nil].
    + split_and!; [apply NoDup_nil_2|apply not_elem_of_nil|by intros ? ?%elem_of_nil].
    + split; [done|]. by intros (c&?&_).
  - assert (Hpm : forall c, is_Some (provider_of s c) -> is_Some (provider_of s' c)) by (intros c; by rewrite Hpr).
    destruct (oi_report _ _ Hinv j q Hq') as [R1 R2 R3 R4 R5 R6 R7].
    split; rewrite ?F2, ?F3, ?F4, ?F5 by outside; eauto using jury_mono.
Qed.

Lemma submitted_bonds c : bond_lock_of s' c = CHALLENGE_BOND * Z.of_nat (length (open_challenges s' c)).
Proof.
  destruct Hsub as [_ _ _ _ _ _ _ _ _ _ _ _ Hag _ _]. destruct (entries_frame _ _ _ Hag) as (_&F2&_&_&_&_&_&F8&_).
  destruct (oi_none _ _ Hinv i submitted_fresh) as (_&_&_&N4).
  rewrite F8, (oi_bonds _ _ Hinv) by outside. unfold open_challenges. rewrite submitted_ids, list.filter_app, length_app.
  rewrite (filter_none _ [i]).
  2: { intros j ->%list_elem_of_singleton. unfold open_by. by rewrite F2, N4 by outside. }
  rewrite (filter_ext_elem (fun j => open_by s' c j = true) (fun j => open_by s c j = true)); [simpl; lia|].
  intros j _. unfold open_by. by rewrite F2 by outside.
Qed.

Lemma submitted_index q : project_reports_of s' q = filter (fun i => of_project s' q i = true) (ids_of s').
Proof.
  destruct Hsub as [_ _ _ _ _ _ _ _ (hash&Hr) _ Hreps _ Hag _ _].
  destruct (entries_frame _ _ _ Hag) as (F1&_&_&_&_&_&F7&_). pose proof submitted_id as Hi.
  rewrite submitted_ids, list.filter_app.
  assert (Hsame : filter (fun j => of_project s' q j = true) (ids_of s) = filter (fun j => of_project s q j = true) (ids_of s)).
  { apply filter_ext_elem. intros j Hj. apply elem_of_seqZ in Hj. assert (j <> i) by lia.
    unfold of_project. by rewrite F1 by outside. }
  assert (Hone : of_project s' q i = bool_decide (pid = q)).
  { unfold of_project. rewrite Hr. apply bool_decide_ext. simpl. split; [by intros [= ->]|by intros ->]. }
  rewrite Hsame, <- (oi_index _ _ Hinv), filter_cons, filter_nil, Hone. destruct (decide (q = pid)) as [->|Hne].
  - by rewrite bool_decide_eq_true_2, Hreps by done.
  - rewrite bool_decide_eq_false_2 by congruence. rewrite F7 by outside. by rewrite app_nil_r.
Qed.

Lemma submitted_ordered j1 j2 q1 q2 :
  report_of s' j1 = Some q1 -> report_of s' j2 = Some q2 -> j1 < j2 ->
  rp_project_id q1 = rp_project_id q2 -> rp_period_end q1 <= rp_period_start q2.
Proof.
  intros H1 H2 Hlt Hpq. pose proof submitted_id as Hi.
  destruct (submitted_reports _ _ H1) as [[-> [hash1 ->]]|[Hne1 Hq1]], (submitted_reports _ _ H2) as [[-> [hash2 ->]]|[Hne2 Hq2]].
  - lia.
  - assert (1 <= j2 <= count_of s) by (apply (oi_ids _ _ Hinv); by rewrite Hq2). lia.
  - by apply (submitted_after j1).
  - by apply (oi_ordered _ _ Hinv j1 j2).
Qed.

Lemma submitted_last j q :
  report_of s' j = Some q ->
  exists pair, list.last (periods_of s' (rp_project_id q)) = Some pair /\ rp_period_end q <= snd pair.
Proof.
  intros Hj. destruct Hsub as [_ _ _ _ _ _ _ _ _ Hper _ _ Hag _ _].
  destruct (entries_frame _ _ _ Hag) as (_&_&_&_&_&F6&_). destruct (submitted_reports j q Hj) as [[-> [hash ->]]|[Hne Hq]].
  - simpl. rewrite Hper, last_push. eexists. split; [done|simpl; lia].
  - destruct (decide (rp_project_id q = pid)) as [Hqp|Hqp].
    + rewrite Hqp, Hper, last_push. eexists. split; [done|]. pose proof (submitted_after j q Hq Hqp).
      pose proof (sb_data _ _ _ _ _ _ _ _ _ _ _ _ _ Hsub). simpl. lia.
    + rewrite F6 by outside. by apply (oi_last _ _ Hinv j).
Qed.

Lemma inv_submitted : inv (n + 1) s'.
Proof.
  pose proof submitted_id as Hi. pose proof (oi_count _ _ Hinv) as Hc.
  pose proof (sb_count _ _ _ _ _ _ _ _ _ _ _ _ _ Hsub) as Hct.
  destruct (sb_report _ _ _ _ _ _ _ _ _ _ _ _ _ Hsub) as [hash Hr].
  destruct (entries_frame _ _ _ (sb_pers _ _ _ _ _ _ _ _ _ _ _ _ _ Hsub)) as (F1&F2&F3&F4&F5&_).
  split; [lia| |apply submitted_inv| |apply submitted_bonds|apply submitted_index|apply submitted_ordered|apply submitted_last].
  - intros j. rewrite Hct. destruct (decide (j = i)) as [->|Hne].
    + rewrite Hr. split; [lia|by eexists].
    + rewrite F1, (oi_ids _ _ Hinv) by outside. lia.
  - intros j Hj. destruct (decide (j = i)) as [->|Hne]; [congruence|]. rewrite F1 in Hj by outside.
    rewrite F2, F3, F4, F5 by outside. by apply (oi_none _ _ Hinv).
Qed.
End submission.

Lemma oracle_inv_init s : deployed s -> inv 0 s.
Proof.
  intros (e&admin&w&H). unfold constructor in H. inv_ok H.
  split; unfold report_of, challenge_of, verifiers_of, upholders_of, rejecters_of, bond_lock_of, project_reports_of,
    count_of, open_challenges, ids_of, count_of; host_cbn; store_simp; simpl; try done.
  intros i. split; [by intros [? ?]|lia].
Qed.

Lemma oracle_inv_exec n s s' e c :
  n + 1 < 2 ^ 64 -> inv n s -> exec c e s = Ok tt s' -> inv (n + 1) s'.
Proof.
  intros Hn Hinv He. destruct (report_call c) eqn:Hc.
  2: { apply quiet_Ok in He; [|done]. eapply oracle_inv_mono, inv_same; [|done..]. lia. }
  destruct c; try done; simpl in He; clear Hc.
  - apply bind_Ok in He as (i&s1&He&[_ ->]%ret_Ok). apply submit_Ok in He. by eapply inv_submitted.
  - apply verify_report_Ok in He as [r He]. eapply oracle_inv_mono, inv_verified; [|done..]. lia.
  - apply override_Ok in He as [r He]. eapply oracle_inv_mono, inv_override; [|done..]. lia.
  - apply challenge_report_Ok in He as [r He]. eapply oracle_inv_mono, inv_challenged; [|done|..|done]; lia.
  - apply resolve_Ok in He as (_&Hv&s1&c&Hs&_&He). apply same_reports_signed in Hs.
    eapply (oracle_inv_mono n); [lia|]. pose proof (inv_same _ _ _ Hinv Hs) as Hinv1.
    destruct He as [[_ ->]|[r He]]; [done|]. eapply inv_finalized; [done| |done|done]. lia.
  - apply vote_Ok in He as (c&r&s1&Hb&He). eapply (oracle_inv_mono n); [lia|].
    pose proof (inv_ballot _ _ _ _ _ _ _ _ _ _ Hinv Hb) as Hinv1.
    destruct He as [->|(act&_&_&He)]; [done|]. eapply inv_finalized; [done| | |done]; [lia|]. by destruct uphold.
  - apply expire_Ok in He as (c&_&[[_ ->]|[r He]]); [by eapply oracle_inv_mono; [|done]; lia|].
    eapply (oracle_inv_mono n); [lia|]. eapply inv_expired; [done| |done]. lia.
Qed.

Lemma oracle_reachable_inv n s : reach deployed exec n s -> n < 2 ^ 64 -> inv n s.
Proof.
  revert n s. apply reach_ind_bounded.
  - intros s Hs. by apply oracle_inv_init.
  - intros n s s' e c _ Hn Hinv He. by eapply oracle_inv_exec.
  - intros n s Hs. eapply oracle_inv_mono; [|done]. lia.
  - intros n s w Hs _. by apply (oracle_inv_stores n s).
Qed.
End preservation.

(** ** A report's life *)

Section life.
Context {W : Type} `{!World W} `{!ProjectSource W}.
Local Abbreviation state := (cstate DataKey ty Event W).
Implicit Types (s : state) (e : Env).

(** What entitles the call [c] to move the report [i], [r] in [s], to the status [st]. *)
Definition warranted e s (c : Call) (i : Z) (r : Report) (st : ReportStatus.ReportStatus) s' : Prop :=
  match c with
  | CVerify a j _ =>
      j = i /\ is_authorized e a = true /\ rp_status r = ReportStatus.Pending /\ st = ReportStatus.Verified /\
      a ∈ verifiers_of s' i /\ jury s r (verifiers_of s' i) /\ threshold_of s <= Z.of_nat (length (verifiers_of s' i))
  | COverride a j v _ =>
      j = i /\ is_authorized e a = true /\ rp_status r = ReportStatus.Pending /\ st = v /\
      admin_of s = Some a /\ is_verdict v = true
  | CChallenge a j _ _ =>
      j = i /\ is_authorized e a = true /\ rp_status r = ReportStatus.Pending /\ st = ReportStatus.Challenged /\
      a <> rp_provider r /\ challenge_of s i = None /\ CHALLENGE_BOND <= bond_of s a
  | CResolve a j v _ =>
      j = i /\ is_authorized e a = true /\ rp_status r = ReportStatus.Challenged /\ st = v /\
      admin_of s = Some a /\ is_verdict v = true
  | CVote a j up _ =>
      j = i /\ is_authorized e a = true /\ rp_status r = ReportStatus.Challenged /\ st = verdict up /\
      a ∈ voters_of s' i up /\ jury s r (voters_of s' i up) /\
      (Z.of_nat (length (providers_of s)) <= int_hi U32 ->
       supermajority_threshold (Z.of_nat (length (active_providers s))) <= Z.of_nat (length (voters_of s' i up)))
  | CExpire j =>
      j = i /\ rp_status r = ReportStatus.Challenged /\ st = ReportStatus.Pending /\
      exists ch, challenge_of s i = Some ch /\
        CHALLENGE_TIMEOUT_SECONDS < saturating U64 (timestamp e - ch_submitted_at ch)
  | _ => False
  end.

Lemma add_verifier_in a l : a ∈ add_verifier a l.
Proof. unfold add_verifier. case_decide as H; [done|]. apply elem_of_app. right. by apply list_elem_of_singleton. Qed.

Lemma jury_app s r l1 l2 : jury s r (l1 ++ l2) -> jury s r l1 /\ jury s r l2.
Proof.
  intros (H1&H2&H3). apply list.NoDup_app in H1 as (N1&_&N2). rewrite not_elem_of_app in H2. destruct H2 as [M1 M2].
  split; split_and!; try done; intros a Ha; apply H3, elem_of_app; auto.
Qed.

Lemma finalized_status n e i st c r s s' :
  inv n s -> finalized e i st c r s s' -> rp_status r = ReportStatus.Challenged.
Proof.
  intros Hinv [[Z1 Z2] Z3]. apply (ri_open _ _ _ (oi_report _ _ Hinv _ _ Z3)). by exists c.
Qed.

Lemma finalized_others e i st c r s s' j :
  finalized e i st c r s s' -> j <> i -> report_of s' j = report_of s j.
Proof. intros Hf Hj. unfold report_of. rewrite (fz_pers _ _ _ _ _ _ _ Hf) by outside. done. Qed.

Lemma finalized_voters e i st c r s s' j up :
  finalized e i st c r s s' -> voters_of s' j up = voters_of s j up.
Proof.
  intros Hf. unfold voters_of, upholders_of, rejecters_of. by rewrite !(fz_pers _ _ _ _ _ _ _ Hf) by outside.
Qed.

(** What one transaction did to report [i], which was [r]. *)
Definition report_moved e s (c : Call) i r s' : Prop :=
  exists r', report_of s' i = Some r' /\ same_content r r' /\ (r' = r \/ warranted e s c i r (rp_status r') s').

Lemma report_kept e s c s' i r : report_of s i = Some r -> report_of s' i = report_of s i -> report_moved e s c i r s'.
Proof. intros Hr Hs. exists r. rewrite Hs. split_and!; [done|apply same_content_refl|by left]. Qed.

Section report_step.
Context n e s s' i r (Hinv : inv n s) (Hn : n + 1 < 2 ^ 64) (Hr : report_of s i = Some r).

Lemma submit_step a pid x y v b m h k j c : submitted e s a pid x y v b m h k j s' -> report_moved e s c i r s'.
Proof.
  intros [_ _ _ _ _ _ Hid _ _ _ _ _ Hp _ _]. apply report_kept; [done|].
  unfold report_of. rewrite Hp; [done|]. pose proof (oi_count _ _ Hinv) as [C1 C2].
  assert (1 <= i <= count_of s) by (apply (oi_ids _ _ Hinv); by rewrite Hr).
  assert (i <> j) by (rewrite Hid; [lia|apply in_range_spec; cbn [int_lo int_hi]; lia]). outside.
Qed.

Lemma verify_step a j k r0 : verification e s a j k r0 s' -> report_moved e s (CVerify a j k) i r s'.
Proof.
  intros [[s1 (V1&_)] (p&V2&_) [V3 V3'] _ V5 V6 V7 V8 _ _].
  destruct (decide (j = i)) as [->|Hne]; [|apply report_kept; unfold report_of in *; by rewrite ?V8 by outside].
  rewrite Hr in V3. injection V3 as <-. destruct V7 as [(V7&V9&_)|(_&V9&_)]; [|apply report_kept; by rewrite ?V9, ?Hr].
  eexists. split_and!; [exact V9|apply same_content_verified|right].
  split_and!; [done..| | |done].
  - rewrite V6. apply add_verifier_in.
  - rewrite V6. pose proof (ri_verifiers _ _ _ (oi_report _ _ Hinv _ _ Hr)). unfold add_verifier.
    case_decide as Hd; [done|]. apply jury_snoc; [done..|by rewrite V2].
Qed.

Lemma override_step a j st k : admin_override_report a j st k e s = Ok tt s' -> report_moved e s (COverride a j st k) i r s'.
Proof.
  intros [r0 [[s1 (V1&_)] V2 V3 [V4 V4'] V5 V6 _ _]]%override_Ok.
  destruct (decide (j = i)) as [->|Hne]; [|apply report_kept; unfold report_of in *; by rewrite ?V6 by outside].
  rewrite Hr in V4. injection V4 as <-. eexists. split_and!; [exact V5|apply same_content_verified|right]. by split_and!.
Qed.

Lemma challenge_step a j h k : challenge_report a j h k e s = Ok tt s' -> report_moved e s (CChallenge a j h k) i r s'.
Proof.
  intros [r0 [[s1 (V1&_)] V2 [V3 V3'] V4 _ V6 _ _ _ V10 V11 _ _]]%challenge_report_Ok.
  destruct (decide (j = i)) as [->|Hne]; [|apply report_kept; unfold report_of in *; by rewrite ?V11 by outside].
  rewrite Hr in V3. injection V3 as <-. eexists. split_and!; [exact V10|apply same_content_status|right]. by split_and!.
Qed.

(** A verdict that was reached in a state [s1] with the same reports. *)
Lemma judged_step s1 j st ch r0 c :
  inv n s1 -> (forall j, report_of s1 j = report_of s j) -> finalized e j st ch r0 s1 s' ->
  (j = i -> rp_status r = ReportStatus.Challenged -> warranted e s c i r st s') ->
  report_moved e s c i r s'.
Proof.
  intros Hinv1 Hq Hf Hw. destruct (decide (j = i)) as [->|Hne].
  2: { apply report_kept; [done|]. by rewrite (finalized_others _ _ _ _ _ _ _ _ Hf), Hq by done. }
  pose proof (finalized_status _ _ _ _ _ _ _ _ Hinv1 Hf) as Hst.
  pose proof (fz_report _ _ _ _ _ _ _ Hf) as Hr0. rewrite Hq, Hr in Hr0. injection Hr0 as <-.
  eexists. split_and!; [apply (fz_judged _ _ _ _ _ _ _ Hf)|apply same_content_judged|right].
  rewrite judged_status. by apply Hw.
Qed.

Lemma resolve_step a j st k : resolve_challenge a j st k e s = Ok tt s' -> report_moved e s (CResolve a j st k) i r s'.
Proof.
  intros (Had&Hv&s1&ch&Hs&_&He)%resolve_Ok. pose proof (same_reports_signed _ _ _ _ _ Hs) as Hq.
  pose proof (inv_same _ _ _ Hinv Hq) as Hinv1. apply same_reports_views in Hq as [Hq _].
  destruct He as [[_ ->]|[r0 Hf]]; [by apply report_kept|]. apply (judged_step s1 j st ch r0); [done..|].
  intros -> Hst. destruct Hs as (Ha&_). by split_and!.
Qed.

Lemma vote_step a j up k : resolve_challenge_by_verifier a j up k e s = Ok tt s' -> report_moved e s (CVote a j up k) i r s'.
Proof.
  intros (ch&r0&s1&Hb&He)%vote_Ok. pose proof (inv_ballot _ _ _ _ _ _ _ _ _ _ Hinv Hb) as Hinv1.
  pose proof Hb as [[B1 _] (p&B2&_) _ [B4 B4'] B5 [B6 B7] [B8 _] (_&_&Bp)].
  assert (Hq : forall j, report_of s1 j = report_of s j)
    by (intros ?; unfold report_of; rewrite Bp by (destruct up; unfold votes_key; outside); done).
  destruct He as [->|(act&Hact&Hmaj&Hf)]; [by apply report_kept|].
  apply (judged_step s1 j (verdict up) ch r0); [done..|]. intros -> Hst. rewrite Hr in B4. injection B4 as <-.
  unfold warranted. rewrite (finalized_voters _ _ _ _ _ _ _ _ _ Hf), B8. split_and!; try done.
  - apply elem_of_app. right. by apply list_elem_of_singleton.
  - pose proof (ri_votes _ _ _ (oi_report _ _ Hinv _ _ Hr)) as [J1 J2]%jury_app.
    destruct up; apply jury_snoc; try done; by rewrite B2.
  - intros Hlen. by rewrite <- Hact, <- B8.
Qed.

Lemma expire_step j : expire_stale_challenge (W := W) j e s = Ok tt s' -> report_moved e s (CExpire j) i r s'.
Proof.
  intros (ch&Hch&[[_ ->]|[r0 [_ X2 [X3 X3'] _ X5 _ Xp _ _]]])%expire_Ok; [by apply report_kept|].
  destruct (decide (j = i)) as [->|Hne]; [|apply report_kept; unfold report_of in *; by rewrite ?Xp by outside].
  rewrite Hr in X3. injection X3 as <-. eexists. split_and!; [exact X5|apply same_content_status|right].
  split_and!; try done. by exists ch.
Qed.
End report_step.

Lemma report_step n e s c s' i r :
  inv n s -> exec c e s = Ok tt s' -> n + 1 < 2 ^ 64 -> report_of s i = Some r -> report_moved e s c i r s'.
Proof.
  intros Hinv He Hn Hr.
  destruct (report_call c) eqn:Hc.
  2: { apply report_kept; [done|]. apply quiet_Ok in He; [|done]. by apply same_reports_views in He as [-> _]. }
  destruct c; try done; simpl in He; clear Hc.
  - apply bind_Ok in He as (j&s1&He&[_ ->]%ret_Ok). apply submit_Ok in He. by eapply submit_step.
  - apply verify_report_Ok in He as [r0 He]. by eapply verify_step.
  - by apply override_step.
  - by apply challenge_step.
  - by eapply resolve_step.
  - by eapply vote_step.
  - by apply expire_step.
Qed.

(** Verified and rejected reports do not move. *)
Definition is_final (st : ReportStatus.ReportStatus) : bool := is_verdict st.

Lemma warranted_open e s c i r st s' : warranted e s c i r st s' -> is_final (rp_status r) = false.
Proof. unfold is_final. destruct c; simpl; try done; intros Hw; destruct_and?; by match goal with H : rp_status r = _ |- _ => rewrite H end. Qed.

Lemma same_content_trans r1 r2 r3 : same_content r1 r2 -> same_content r2 r3 -> same_content r1 r3.
Proof. unfold same_content. intros H1 H2. destruct_and?. split_and!; congruence. Qed.

(** What an execution from [s] to [t] keeps of every report. *)
Definition keeps_reports s (t : state) : Prop :=
  forall i r, report_of s i = Some r ->
    exists r', report_of t i = Some r' /\ same_content r r' /\ (is_final (rp_status r) = true -> r' = r).

Lemma keeps_reports_refl s : keeps_reports s s.
Proof. intros i r Hr. exists r. split_and!; [done|apply same_content_refl|done]. Qed.

Lemma keeps_reports_trans s1 s2 s3 : keeps_reports s1 s2 -> keeps_reports s2 s3 -> keeps_reports s1 s3.
Proof.
  intros H1 H2 i r Hr. destruct (H1 i r Hr) as (r1&Hr1&Hs1&Hf1). destruct (H2 i r1 Hr1) as (r2&Hr2&Hs2&Hf2).
  exists r2. split_and!; [done|by eapply same_content_trans|]. intros Hf. specialize (Hf1 Hf). subst. auto.
Qed.

Lemma keeps_reports_step n e s c s' :
  inv n s -> exec c e s = Ok tt s' -> n + 1 < 2 ^ 64 -> keeps_reports s s'.
Proof.
  intros Hinv He Hn i r Hr. destruct (report_step n e s c s' i r Hinv He Hn Hr) as (r'&Hr'&Hs&Hc).
  exists r'. split_and!; [done|done|]. intros Hf. destruct Hc as [|Hw]; [done|]. apply warranted_open in Hw. congruence.
Qed.

(** An invariant of the executions that continue a reachable state. *)
Lemma oracle_continue (P : state -> Prop) n m s (t : state) :
  reach deployed exec n s -> reach (eq s) exec m t -> n + m < 2 ^ 64 -> P s ->
  (forall k t1 e c t2, n <= k -> k + 1 < 2 ^ 64 -> reach deployed exec k t1 -> P t1 -> exec c e t1 = Ok tt t2 -> P t2) ->
  (forall t1 w, P t1 -> P (put_world w t1)) -> P t.
Proof.
  intros Hs Ht. induction Ht as [t <-|m t e c Ht IH|m t w Ht IH Hw]; intros Hn HP Hstep Hworld; [done| |].
  - pose proof (reach_nonneg _ _ _ _ Ht). pose proof (reach_trans _ _ _ _ _ _ Hs Ht) as Hreach.
    specialize (IH ltac:(lia) HP Hstep Hworld).
    destruct (exec c e t) as [[] t'|x t'|] eqn:He; simpl; [|done..]. eapply (Hstep (n + m)); [lia|lia|done..].
  - auto.
Qed.

Lemma reach_keeps_reports n m s (t : state) :
  reach deployed exec n s -> reach (eq s) exec m t -> n + m < 2 ^ 64 -> keeps_reports s t.
Proof.
  intros Hs Ht Hn. eapply (oracle_continue (keeps_reports s)); [done..|apply keeps_reports_refl| |done].
  intros k t1 e c t2 Hk Hk2 Hreach HP He. eapply keeps_reports_trans; [done|].
  apply (keeps_reports_step k e t1 c t2); [|done|done]. by apply oracle_reachable_inv; [|lia].
Qed.

(** The lock of a report that is settled stays as it is. *)
Lemma lock_step n e s c s' i r :
  inv n s -> exec c e s = Ok tt s' -> n + 1 < 2 ^ 64 -> report_of s i = Some r -> is_final (rp_status r) = true ->
  lock_of s' i = lock_of s i.
Proof.
  intros Hinv He Hn Hr Hfin. unfold is_final in Hfin.
  destruct (report_call c) eqn:Hc; [|apply quiet_Ok in He; [|done]; by apply same_reports_views in He as (_&_&_&_&_&_&_&_&V&_)].
  assert (Hfz : forall s1 st ch r0 (j : Z), report_of s1 i = Some r -> inv n s1 -> finalized e j st ch r0 s1 s' ->
    lock_of s' i = lock_of s1 i).
  { intros s1 st ch r0 j Hr1 Hi1 Hf. destruct (decide (j = i)) as [->|Hne].
    - pose proof (finalized_status _ _ _ _ _ _ _ _ Hi1 Hf) as Hst.
      pose proof (fz_report _ _ _ _ _ _ _ Hf) as Hr0. rewrite Hr1 in Hr0. injection Hr0 as <-. by rewrite Hst in Hfin.
    - unfold lock_of. by rewrite (fz_pers _ _ _ _ _ _ _ Hf) by outside. }
  destruct c; try done; simpl in He; clear Hc.
  - apply bind_Ok in He as (j&s1&He&[_ ->]%ret_Ok). apply submit_Ok in He as [_ _ _ _ _ _ Hid _ _ _ _ _ Hp _ _].
    pose proof (oi_count _ _ Hinv) as [C1 C2]. assert (1 <= i <= count_of s) by (apply (oi_ids _ _ Hinv); by rewrite Hr).
    assert (i <> j) by (rewrite Hid; [lia|apply in_range_spec; cbn [int_lo int_hi]; lia]).
    unfold lock_of. by rewrite Hp by outside.
  - apply verify_report_Ok in He as [r0 [_ _ [V3 V3'] _ _ _ _ V8 _ _]].
    destruct (decide (report_id = i)) as [->|Hne]; [|unfold lock_of; by rewrite V8 by outside].
    rewrite Hr in V3. injection V3 as <-. by rewrite V3' in Hfin.
  - apply override_Ok in He as [r0 [_ _ _ _ _ V6 _ _]]. unfold lock_of. by rewrite V6 by outside.
  - apply challenge_report_Ok in He as [r0 [_ _ _ _ _ _ _ _ _ _ V11 _ _]]. unfold lock_of. by rewrite V11 by outside.
  - apply resolve_Ok in He as (_&_&s1&ch&Hs&_&He). pose proof (same_reports_signed _ _ _ _ _ Hs) as Hq.
    pose proof (inv_same _ _ _ Hinv Hq) as Hinv1. apply same_reports_views in Hq as (Q1&_&_&_&_&_&_&_&Q2&_).
    rewrite <- Q2. destruct He as [[_ ->]|[r0 Hf]]; [done|]. eapply Hfz; [by rewrite Q1|done|exact Hf].
  - apply vote_Ok in He as (ch&r0&s1&Hb&He). pose proof (inv_ballot _ _ _ _ _ _ _ _ _ _ Hinv Hb) as Hinv1.
    pose proof (bl_touches _ _ _ _ _ _ _ _ _ Hb) as (_&_&Bp).
    assert (Hk : forall k, k ∉ [DataKey.Nonce caller; votes_key report_id uphold] -> sget k (pers s1) = sget k (pers s)) by done.
    assert (Hl : lock_of s1 i = lock_of s i) by (unfold lock_of; rewrite Hk by (destruct uphold; unfold votes_key; outside); done).
    rewrite <- Hl. destruct He as [->|(act&_&_&Hf)]; [done|]. eapply Hfz; [|done|exact Hf].
    unfold report_of. by rewrite Hk by (destruct uphold; unfold votes_key; outside).
  - apply expire_Ok in He as (ch&_&[[_ ->]|[r0 [_ _ _ _ _ _ Xp _ _]]]); [done|]. unfold lock_of. by rewrite Xp by outside.
Qed.

Lemma slash_effect_from e s1 s a i s' :
  provider_of s1 a = provider_of s a -> history_of s1 a = history_of s a ->
  slash_effect e s1 a i s' -> slash_effect e s a i s'.
Proof. intros Hp Hh (p&pen&rest&H). exists p, pen, rest. by rewrite <- Hp, <- Hh. Qed.

(** How a challenged report came to a verdict. *)
Lemma settled_by n e s c s' i r r' :
  inv n s -> exec c e s = Ok tt s' -> n + 1 < 2 ^ 64 -> report_of s i = Some r ->
  rp_status r = ReportStatus.Challenged -> report_of s' i = Some r' -> is_verdict (rp_status r') = true ->
  exists s1 a ch, challenge_of s i = Some ch /\
    touches [DataKey.Nonce a; DataKey.ChallengeUpholdVotes i; DataKey.ChallengeRejectVotes i] s s1 /\
    inv n s1 /\ finalized e i (rp_status r') ch r s1 s'.
Proof.
  intros Hinv He Hn Hr Hst Hr' Hv.
  destruct (report_step n e s c s' i r Hinv He Hn Hr) as (r1&Hr1&_&Hw).
  rewrite Hr' in Hr1. injection Hr1 as <-. destruct Hw as [->|Hw]; [by rewrite Hst in Hv|].
  destruct c; simpl in Hw; try done; destruct_and?; try congruence; subst; simpl in He.
  - apply resolve_Ok in He as (_&_&s1&ch&Hs&Hch&He). pose proof (same_reports_signed _ _ _ _ _ Hs) as Hq.
    destruct He as [[_ ->]|[r0 Hf]].
    { apply same_reports_views in Hq as [Q1 _]. rewrite Q1, Hr in Hr'. injection Hr' as <-. by rewrite Hst in Hv. }
    pose proof (fz_report _ _ _ _ _ _ _ Hf) as Hr0. pose proof Hq as Hq'. apply same_reports_views in Hq' as [Q1 _].
    rewrite Q1, Hr in Hr0. injection Hr0 as <-. exists s1, caller, ch. split; [done|]. split.
    { destruct Hs as (_&_&Hs&_). eapply touches_weaken; [exact Hs|set_solver]. }
    split; [by eapply inv_same|]. congruence.
  - apply vote_Ok in He as (ch&r0&s1&Hb&He). pose proof (inv_ballot _ _ _ _ _ _ _ _ _ _ Hinv Hb) as Hinv1.
    pose proof Hb as [_ _ [Hch _] [B4 _] _ _ _ Bt]. rewrite Hr in B4. injection B4 as <-.
    destruct He as [->|(act&_&_&Hf)].
    { destruct Bt as (_&_&Bp). unfold report_of in Hr'. rewrite Bp in Hr' by (destruct uphold; unfold votes_key; outside).
      fold (report_of s i) in Hr'. rewrite Hr in Hr'. injection Hr' as <-. by rewrite Hst in Hv. }
    exists s1, caller, ch. split; [done|]. split.
    { eapply touches_weaken; [exact Bt|]. destruct uphold; unfold votes_key; set_solver. }
    split; [done|]. congruence.
  - by match goal with H : rp_status r' = _ |- _ => rewrite H in Hv end.
Qed.
(** The two ways to a rejection: a challenge, or the admin's override, which reaches no
    other contract. *)
Lemma rejection_paths n s e c s' i r r' :
  inv n s -> n + 1 < 2 ^ 64 -> exec c e s = Ok tt s' -> report_of s i = Some r ->
  rp_status r <> ReportStatus.Rejected -> report_of s' i = Some r' -> rp_status r' = ReportStatus.Rejected ->
  rp_status r = ReportStatus.Challenged \/
  (rp_status r = ReportStatus.Pending /\ world s' = world s /\
   exists a k, c = COverride a i ReportStatus.Rejected k /\ admin_of s = Some a).
Proof.
  intros Hinv Hn He Hr Hst Hr' Hrej. destruct (report_step n e s c s' i r Hinv He Hn Hr) as (r1&Hr1&_&Hw).
  rewrite Hr' in Hr1. injection Hr1 as <-. destruct Hw as [->|Hw]; [done|].
  destruct c; simpl in Hw; try done; destruct_and?; try congruence; subst; auto.
  right. apply override_Ok in He as [r0 []]. split; [done|]. split; [done|]. eexists _, _. split; [by f_equal; congruence|done].
Qed.

(** The consequences of a rejection after a challenge. *)
Lemma rejection_step n s e c s' i r r' :
  inv n s -> n + 1 < 2 ^ 64 -> exec c e s = Ok tt s' -> report_of s i = Some r ->
  rp_status r = ReportStatus.Challenged -> report_of s' i = Some r' -> rp_status r' = ReportStatus.Rejected ->
  slash_effect e s (rp_provider r) i s' /\ revoke_effect s (rp_project_id r) s' /\ lock_of s' i = 0 /\
  exists ch, challenge_of s i = Some ch /\ ch_resolved ch = false /\
    challenge_of s' i = Some (closed_challenge ReportStatus.Rejected ch) /\
    bond_lock_of s' (ch_challenger ch) = bond_lock_of s (ch_challenger ch) - CHALLENGE_BOND /\
    (in_range I128 (bond_of s (ch_challenger ch) + CHALLENGE_BOND) = true ->
     bond_of s' (ch_challenger ch) = bond_of s (ch_challenger ch) + CHALLENGE_BOND).
Proof.
  intros Hinv Hn He Hr Hst Hr' Hrej.
  destruct (settled_by n e s c s' i r r' Hinv He Hn Hr Hst Hr') as (s1&a&ch&Hch&(Hi1&Hw1&Hp1)&Hinv1&Hf); [by rewrite Hrej|].
  rewrite Hrej in Hf. destruct Hf as [[Z1 Z2] Z3 Z4 _ Z6 _ Z8 _ _ _ _ _ Z13 Z14].
  assert (Hc : challenge_of s1 i = challenge_of s i) by (unfold challenge_of; by rewrite Hp1 by outside).
  destruct (open_bond _ _ _ _ Hinv1 ltac:(lia) ltac:(by rewrite Z3) Z1 Z2) as (Hb&Hb1&Hb2).
  specialize (Z13 eq_refl). specialize (Z14 eq_refl). destruct (Z8 Hb1 Hb2) as [Hl Hbal].
  rewrite bool_decide_eq_true_2 in Hbal by done. rewrite Hb in Hl, Hbal.
  split.
  { eapply (slash_effect_from e s1); [| |done]; unfold provider_of, history_of; by rewrite Hp1 by outside. }
  unfold revoke_effect, registry_of, bond_lock_of, bond_of in *. rewrite !Hp1 in Hl, Hbal by outside.
  rewrite Hi1, Hw1 in Z14. do 2 (split; [done|]). exists ch. split; [done|]. split; [done|]. split; [done|]. by split.
Qed.
(** The registry moves along its own steps. *)
Lemma oracle_world_step c e s s' : exec c e s = Ok tt s' -> wstep (world s) (world s').
Proof.
  intros He. destruct (report_call c) eqn:Hc.
  2: { apply quiet_Ok in He as (_&_&->&_); [done|done]. }
  destruct c; try done; simpl in He; clear Hc.
  - apply bind_Ok in He as (i&s1&He&[_ ->]%ret_Ok). apply submit_Ok in He. by apply sb_world in He.
  - apply verify_report_Ok in He as [r He]. by rewrite (vf_world _ _ _ _ _ _ _ He).
  - apply override_Ok in He as [r He]. by rewrite (ov_world _ _ _ _ _ _ _ _ He).
  - apply challenge_report_Ok in He as [r He]. by rewrite (cg_world _ _ _ _ _ _ _ _ He).
  - apply resolve_Ok in He as (_&_&s1&c&Hs&_&He). apply signed_inst in Hs as [_ <-].
    destruct He as [[_ ->]|[r He]]; [done|]. by apply fz_world in He.
  - apply vote_Ok in He as (c&r&s1&Hb&He). destruct (bl_touches _ _ _ _ _ _ _ _ _ Hb) as (_&<-&_).
    destruct He as [->|(act&_&_&He)]; [done|]. by apply fz_world in He.
  - apply expire_Ok in He as (c&_&[[_ ->]|[r He]]); [done|]. by rewrite (ex_world _ _ _ _ _ _ He).
Qed.

Lemma oracle_reach_world m s (t : state) : reach (eq s) exec m t -> wstep (world s) (world t).
Proof.
  induction 1 as [t <-|m t e c Ht IH|m t w Ht IH Hw]; [done| |by rewrite IH].
  destruct (exec c e t) as [[] t'|x t'|] eqn:He; simpl; [|done..]. rewrite IH. by eapply oracle_world_step.
Qed.
End life.

(** ** What the contract promises *)

Section promises.
Context {W : Type} `{!World W} `{!ProjectSource W}.
Local Abbreviation state := (cstate DataKey ty Event W).
Implicit Types (s : state) (e : Env).

(** C12: a call that succeeds changes an existing report at most in its status and its
    verification time, never in its contents, and the status only with a warrant: a
    pending report is verified by a registered provider other than its own whose
    signature brings the distinct registered co-signers to the threshold, or is decided
    by the admin's override, or is challenged by someone with a bond; a challenged one is
    decided by the admin, by two thirds of the active providers among distinct voters
    none of whom is its provider, or returns to pending once the challenge is stale. *)
Theorem report_warrant n s e c s' i r :
  reach deployed exec n s -> n + 1 < 2 ^ 64 -> exec c e s = Ok tt s' -> report_of s i = Some r ->
  exists r', report_of s' i = Some r' /\ same_content r r' /\ (r' = r \/ warranted e s c i r (rp_status r') s').
Proof. intros Hs Hn He. apply (report_step n); [apply oracle_reachable_inv; [done|lia]|done|done]. Qed.

(** Along every later execution a report keeps its id, provider, project, period,
    measurements and evidence, and once verified or rejected it does not change at all. *)
Theorem report_final n m s (t : state) i r :
  reach deployed exec n s -> reach (eq s) exec m t -> n + m < 2 ^ 64 -> report_of s i = Some r ->
  exists r', report_of t i = Some r' /\ same_content r r' /\
    (rp_status r = ReportStatus.Verified \/ rp_status r = ReportStatus.Rejected -> r' = r).
Proof.
  intros Hs Ht Hn Hr. destruct (reach_keeps_reports _ _ _ _ Hs Ht Hn i r Hr) as (r'&Hr'&Hsame&Hf).
  exists r'. split_and!; [done|done|]. intros Hst. apply Hf. unfold is_final. by destruct Hst as [-> | ->].
Qed.

(** C38: the reports of a project cover disjoint periods in the order of their ids, even
    those whose period has left the bounded history the contract checks against, no
    measurement is negative, and the index of a project lists exactly its reports. *)
Theorem report_periods n s :
  reach deployed exec n s -> n < 2 ^ 64 ->
  (forall p, project_reports_of s p = filter (fun i => of_project s p i = true) (ids_of s)) /\
  (forall i r, report_of s i = Some r -> rp_id r = i /\ report_nonneg r /\ rp_period_start r < rp_period_end r) /\
  forall i j r1 r2, report_of s i = Some r1 -> report_of s j = Some r2 -> i <> j ->
    rp_project_id r1 = rp_project_id r2 ->
    overlaps (rp_period_start r1) (rp_period_end r1) (rp_period_start r2, rp_period_end r2) = false /\
    (i < j -> rp_period_end r1 <= rp_period_start r2).
Proof.
  intros Hs Hn. pose proof (oracle_reachable_inv _ _ Hs Hn) as Hinv. split; [apply (oi_index _ _ Hinv)|]. split.
  { intros i r Hr. by destruct (oi_report _ _ Hinv _ _ Hr). }
  intros i j r1 r2 Hr1 Hr2 Hne Hp. split; [|intros Hlt; by apply (oi_ordered _ _ Hinv i j)].
  unfold overlaps. rewrite andb_false_iff, !Z.ltb_ge. simpl. destruct (Z.lt_total i j) as [Hlt|[Heq|Hlt]]; [right|done|left].
  - by apply (oi_ordered _ _ Hinv i j).
  - by apply (oi_ordered _ _ Hinv j i).
Qed.

(** C37: in every reachable state a report is challenged exactly while it has an open
    challenge, never filed by its own provider, and the bonds locked for a challenger are
    [CHALLENGE_BOND] for each of his open challenges. *)
Theorem challenge_bonds n s :
  reach deployed exec n s -> n < 2 ^ 64 ->
  (forall a, bond_lock_of s a = CHALLENGE_BOND * Z.of_nat (length (open_challenges s a))) /\
  forall i r, report_of s i = Some r ->
    (rp_status r = ReportStatus.Challenged <-> exists ch, challenge_of s i = Some ch /\ ch_resolved ch = false) /\
    forall ch, challenge_of s i = Some ch -> ch_report_id ch = i /\ ch_challenger ch <> rp_provider r.
Proof.
  intros Hs Hn. pose proof (oracle_reachable_inv _ _ Hs Hn) as Hinv. split; [apply (oi_bonds _ _ Hinv)|].
  intros i r Hr. destruct (oi_report _ _ Hinv _ _ Hr) as [_ _ _ _ _ R6 R7]. split; [done|].
  intros ch Hc. by destruct (R7 ch Hc) as (?&_&?).
Qed.

(** C13: whichever way a challenged report is rejected, by the admin or by the vote, the
    provider's stake is slashed and the slash recorded, the lock of the report is released,
    the challenger's bond is returned, and the project is revoked in the configured
    registry, where it must still have been approved: the rejection of a second report of
    a revoked project cannot go through. *)
Theorem rejection_punished n s e c s' i r r' :
  reach deployed exec n s -> n + 1 < 2 ^ 64 -> exec c e s = Ok tt s' -> report_of s i = Some r ->
  rp_status r = ReportStatus.Challenged -> report_of s' i = Some r' -> rp_status r' = ReportStatus.Rejected ->
  slash_effect e s (rp_provider r) i s' /\ revoke_effect s (rp_project_id r) s' /\ lock_of s' i = 0 /\
  exists ch, challenge_of s i = Some ch /\ ch_resolved ch = false /\
    challenge_of s' i = Some (closed_challenge ReportStatus.Rejected ch) /\
    bond_lock_of s' (ch_challenger ch) = bond_lock_of s (ch_challenger ch) - CHALLENGE_BOND /\
    (in_range I128 (bond_of s (ch_challenger ch) + CHALLENGE_BOND) = true ->
     bond_of s' (ch_challenger ch) = bond_of s (ch_challenger ch) + CHALLENGE_BOND).
Proof. intros Hs Hn. apply (rejection_step n); [|done]. apply oracle_reachable_inv; [done|lia]. Qed.

(** C39: an override by the admin decides a pending report and does nothing else: it takes
    the admin's signature and a verdict, writes the verdict and the time, and leaves every
    other entry - the provider's stake and lock, the slash records, the verifiers, the
    challenge - and the other contracts as they were, so a rejection by override revokes
    no project.  The verdict is final, and the stake locked for the report is never given
    back: both the report and its lock entry stay the same in every later state. *)
Theorem override_keeps_lock n m s e a i st k u s' (t : state) :
  reach deployed exec n s -> admin_override_report a i st k e s = Ok u s' ->
  reach (eq s') exec m t -> n + 1 + m < 2 ^ 64 ->
  exists r, report_of s i = Some r /\ rp_status r = ReportStatus.Pending /\
    is_authorized e a = true /\ admin_of s = Some a /\ (st = ReportStatus.Verified \/ st = ReportStatus.Rejected) /\
    (forall key, key <> DataKey.Nonce a -> key <> DataKey.Report i -> sget key (pers s') = sget key (pers s)) /\
    inst s' = inst s /\ world s' = world s /\
    report_of t i = Some (with_verified_at (timestamp e) (with_status st r)) /\ lock_of t i = lock_of s i.
Proof.
  intros Hs He Ht Hn. pose proof (reach_nonneg _ _ _ _ Ht) as Hm.
  assert (Hs' : reach deployed exec (n + 1) s').
  { replace s' with (commit (exec (COverride a i st k) e s) s) by (simpl; destruct u; by rewrite He). by apply reach_call. }
  apply override_Ok in He as [r [[s1 Hsig] Had Hv [Hr0 Hst] Hr Hp Hi Hw]].
  assert (Hl : lock_of s' i = lock_of s i) by (unfold lock_of; by rewrite Hp by outside).
  set (r' := with_verified_at (timestamp e) (with_status st r)) in *.
  assert (Hend : report_of t i = Some r' /\ lock_of t i = lock_of s' i).
  { apply (oracle_continue (fun x => report_of x i = Some r' /\ lock_of x i = lock_of s' i) _ _ _ _ Hs' Ht Hn); [done| |done].
    intros q t1 e1 c t2 Hq Hq2 Hreach [Hr1 Hl1] Hc. pose proof (oracle_reachable_inv _ _ Hreach ltac:(lia)) as Hinv.
    assert (Hfin : is_final (rp_status r') = true) by exact Hv. split.
    - destruct (keeps_reports_step q e1 t1 c t2 Hinv Hc Hq2 i r' Hr1) as (r2&Hr2&_&Hk). by rewrite Hr2, Hk.
    - by rewrite (lock_step q e1 t1 c t2 i r' Hinv Hc Hq2 Hr1 Hfin). }
  destruct Hend as [Hrt Hlt]. exists r. split_and!; try done; [apply Hsig| | |congruence].
  - destruct st; simpl in Hv; auto; discriminate Hv.
  - intros key H1 H2. apply Hp. set_solver.
Qed.
End promises.

(** ** A concrete run *)

(** A registry at address 30 with one project, 5; the world says whether it still is
    approved. *)
Section sample.
Definition SampleWorld : Type := bool.

#[local] Instance sample_world : World SampleWorld.
Proof. by refine {| wstep := fun _ _ => True; wquiet := eq |}. Defined.

Definition sample_status (approved : SampleWorld) : ProjectStatus.ProjectStatus :=
  if approved then ProjectStatus.Approved else ProjectStatus.Rejected.

#[local] Instance sample_projects : ProjectSource SampleWorld.
Proof.
  refine {| project_status := fun w _ p => if p =? 5 then Some (sample_status w) else None;
            call_get_project_linkage := fun _ p _ w =>
              if p =? 5 then EOk (mkProjectLinkage 5 [7] (sample_status w)) w else EErr RegistryError.ProjectNotFound;
            call_revoke_project := fun _ _ p _ _ _ w =>
              if (p =? 5) && w then EOk tt false else EErr RegistryError.InvalidStatusTransition |}.
  - intros r p e w l w' H. destruct (p =? 5); [|done]. by injection H as <- <-.
  - intros r a p reason n e w u w' H. destruct (p =? 5), w; simpl in *; try done. by injection H as <- <-.
  - by intros w w' r p ->.
Defined.

Abbreviation sample_state := (cstate DataKey ty Event SampleWorld).

(** Everybody signs; the admin is address 1, the providers are 2, 3 and 4. *)
Definition oracle_env (t : Z) : Env :=
  mkEnv t (Addr 1000) [] (fun _ _ => true) true 0 (fun live _ _ => live).
Definition sample_start : sample_state := commit (constructor (Addr 1) (oracle_env 0) (empty_state true)) (empty_state true).
Definition at_ (t : Z) (c : Call) : Env * Call := (oracle_env t, c).

(** Provider 2 stakes 1000, reports on project 5 and is challenged by address 9. *)
Definition setup_calls : list (Env * Call) :=
  [at_ 1 (CRegister (Addr 1) (Addr 2) "m" 0); at_ 1 (CRegister (Addr 1) (Addr 3) "m" 1);
   at_ 1 (CRegister (Addr 1) (Addr 4) "m" 2); at_ 1 (CSetRegistry (Addr 1) (Addr 30) 3);
   at_ 1 (CThreshold (Addr 1) 2 4); at_ 2 (CAddStake (Addr 2) 1000 0);
   at_ 3 (CSubmit (Addr 2) 5 100 200 40 Absent "m" [8] 1)].
Definition sample_reported : sample_state := run_calls exec setup_calls sample_start.
Definition challenge_calls : list (Env * Call) :=
  [at_ 4 (CDeposit (Addr 9) 1500000 0); at_ 5 (CChallenge (Addr 9) 1 [6] 1);
   at_ 6 (CVote (Addr 3) 1 false 0)].
Definition sample_challenged : sample_state := run_calls exec challenge_calls sample_reported.
Definition last_vote : Call := CVote (Addr 4) 1 false 0.
Definition sample_rejected : sample_state := commit (exec last_vote (oracle_env 7) sample_challenged) sample_challenged.

Lemma oracle_sample_deployed : deployed sample_start.
Proof. exists (oracle_env 0), (Addr 1), true. apply commit_is_ok. reflexivity. Qed.

Lemma oracle_reported_reachable : reach deployed exec 7 sample_reported.
Proof. apply (reach_run_calls deployed exec setup_calls 0). apply reach_init, oracle_sample_deployed. Qed.

Lemma oracle_challenged_reachable : reach deployed exec 10 sample_challenged.
Proof. apply (reach_run_calls deployed exec challenge_calls 7), oracle_reported_reachable. Qed.

Example oracle_sample_outcome :
  (rp_status <$> report_of sample_reported 1, rp_status <$> report_of sample_challenged 1,
   rp_status <$> report_of sample_rejected 1, op_stake <$> provider_of sample_rejected (Addr 2),
   bond_of sample_challenged (Addr 9), bond_of sample_rejected (Addr 9), world sample_rejected)
  = (Some ReportStatus.Pending, Some ReportStatus.Challenged, Some ReportStatus.Rejected, Some 900,
     500000, 1500000, false).
Proof. vm_compute. reflexivity. Qed.

Lemma last_vote_Ok : exec last_vote (oracle_env 7) sample_challenged = Ok tt sample_rejected.
Proof. apply commit_is_ok. vm_compute. reflexivity. Qed.

Lemma report_warrant_witness :
  exists r r', report_of sample_challenged 1 = Some r /\ report_of sample_rejected 1 = Some r' /\
    same_content r r' /\ (r' = r \/ warranted (oracle_env 7) sample_challenged last_vote 1 r (rp_status r') sample_rejected).
Proof.
  destruct (report_of sample_challenged 1) as [r|] eqn:Hr; [|vm_compute in Hr; discriminate].
  destruct (report_warrant 10 sample_challenged (oracle_env 7) last_vote sample_rejected 1 r
    oracle_challenged_reachable eq_refl last_vote_Ok Hr) as (r'&Hr'&H).
  exists r, r'. exact (conj eq_refl (conj Hr' H)).
Defined.

Lemma rejection_punished_witness :
  exists r, report_of sample_challenged 1 = Some r /\
    slash_effect (oracle_env 7) sample_challenged (rp_provider r) 1 sample_rejected /\
    revoke_effect sample_challenged (rp_project_id r) sample_rejected.
Proof.
  assert (Hs : rp_status <$> report_of sample_challenged 1 = Some ReportStatus.Challenged) by (vm_compute; reflexivity).
  assert (Hs' : rp_status <$> report_of sample_rejected 1 = Some ReportStatus.Rejected) by (vm_compute; reflexivity).
  destruct (report_of sample_challenged 1) as [r|] eqn:Hr; [|discriminate Hs].
  destruct (report_of sample_rejected 1) as [r'|] eqn:Hr'; [|discriminate Hs'].
  injection Hs as Hst. injection Hs' as Hst'.
  destruct (rejection_punished 10 sample_challenged (oracle_env 7) last_vote sample_rejected 1 r r'
    oracle_challenged_reachable eq_refl last_vote_Ok Hr Hst Hr' Hst') as (H1&H2&_).
  exists r. exact (conj eq_refl (conj H1 H2)).
Defined.

Lemma report_final_witness :
  exists r r', report_of sample_reported 1 = Some r /\ report_of sample_challenged 1 = Some r' /\ same_content r r'.
Proof.
  destruct (report_of sample_reported 1) as [r|] eqn:Hr; [|vm_compute in Hr; discriminate].
  destruct (report_final 7 3 sample_reported sample_challenged 1 r oracle_reported_reachable
    (reach_run_calls (eq sample_reported) exec challenge_calls 0 sample_reported
       (reach_init (eq sample_reported) exec sample_reported eq_refl)) eq_refl Hr) as (r'&Hr'&Hc&_).
  exists r, r'. exact (conj eq_refl (conj Hr' Hc)).
Defined.

Lemma report_periods_witness :
  project_reports_of sample_reported 5 = filter (fun i => of_project sample_reported 5 i = true) (ids_of sample_reported) /\
  ids_of sample_reported = [1].
Proof.
  split; [|vm_compute; reflexivity].
  exact (proj1 (report_periods 7 sample_reported oracle_reported_reachable eq_refl) 5).
Defined.

Lemma challenge_bonds_witness :
  bond_lock_of sample_challenged (Addr 9) = CHALLENGE_BOND * Z.of_nat (length (open_challenges sample_challenged (Addr 9))) /\
  bond_lock_of sample_challenged (Addr 9) = 1000000.
Proof.
  split; [|vm_compute; reflexivity].
  exact (proj1 (challenge_bonds 10 sample_challenged oracle_challenged_reachable eq_refl) (Addr 9)).
Defined.

(** The admin overrides the report; the lock of 100 stays. *)
Definition override_call (s : sample_state) :=
  admin_override_report (Addr 1) 1 ReportStatus.Verified 5 (oracle_env 8) s.
Definition sample_overridden : sample_state := commit (override_call sample_reported) sample_reported.

Lemma override_keeps_lock_witness :
  lock_of sample_overridden 1 = lock_of sample_reported 1 /\ lock_of sample_reported 1 = 100 /\
  world sample_overridden = world sample_reported.
Proof.
  assert (H1 : lock_of sample_reported 1 = 100) by (vm_compute; reflexivity).
  destruct (override_keeps_lock 7 0 sample_reported (oracle_env 8) (Addr 1) 1 ReportStatus.Verified 5 tt
    sample_overridden sample_overridden oracle_reported_reachable
    ltac:(apply commit_is_ok; vm_compute; reflexivity)
    (reach_init (eq sample_overridden) exec sample_overridden eq_refl) eq_refl) as (r&_&_&_&_&_&_&_&Hw&_&Hl).
  exact (conj Hl (conj H1 Hw)).
Defined.
End sample.
