(* ===== verification/Wiring.v ===== *)
(** * Wiring: the contracts behind the interfaces

    The deployment of the protocol as nested worlds: the state of a contract holds
    the states of the contracts it calls.  The classes of [Interfaces.v] are
    implemented here by the entrypoints of the verified contracts. *)

From S2P Require Import Prelude Host Shared Interfaces.
From S2P Require Import ProjectRegistry BondIssuer CouponEngine Provenance OracleConsumer.

(** ** Calls to an address

    A contract lives at one address; calls to any other one abort. *)

Definition at_address {W E A} (home a : Address) (c : ecall W E A) : ecall W E A :=
  if decide (a = home) then c else fun _ _ => EAbort.

Lemma at_address_EOk {W E A} home a (c : ecall W E A) e w x w' :
  at_address home a c e w = EOk x w' -> a = home /\ c e w = EOk x w'.
Proof. unfold at_address. by case_decide. Qed.

Lemma read_home {A} (a home : Address) (o : option A) x :
  (if decide (a = home) then o else None) = Some x -> a = home /\ o = Some x.
Proof. by case_decide. Qed.

(** ** Contracts with their invariant

    A contract state that satisfies its invariant, with the number of transactions
    it has seen.  As everywhere in the development that number stays below 2^64: the
    call that would reach it aborts. *)

Section aged.
Context {K : Type} `{Countable K} {ty : K -> Type} {E Ev W : Type}.
Context (inv : Z -> cstate K ty Ev W -> Prop).

Record aged := mkAged {
  age : Z;
  body : cstate K ty Ev W;
  sound : age < 2 ^ 64 /\ inv age body;
}.

(** The result of a transaction on a state of age [n], given that it keeps the
    invariant. *)
Definition settle {A} (n : Z) (r : result K ty E Ev W A) :
    (forall a s', r = Ok a s' -> n + 1 < 2 ^ 64 -> inv (n + 1) s') -> eresult aged E A :=
  match r with
  | Ok a s' => fun Hr =>
      match Z_lt_dec (n + 1) (2 ^ 64) with
      | left Hn => EOk a (mkAged (n + 1) s' (conj Hn (Hr a s' eq_refl Hn)))
      | right _ => EAbort
      end
  | Err x _ => fun _ => EErr x
  | Trap => fun _ => EAbort
  end.

Lemma settle_EOk {A} n (r : result K ty E Ev W A) Hr a w' :
  settle n r Hr = EOk a w' -> r = Ok a (body w') /\ age w' = n + 1.
Proof.
  destruct r as [x s'|x s'|]; simpl; [|done..]. destruct (Z_lt_dec (n + 1) (2 ^ 64)); [|done]. by intros [= <- <-].
Qed.

(** Every successful run of [m] keeps the invariant. *)
Definition preserves {A} (m : contract K ty E Ev W A) : Prop :=
  forall n e s a s', n + 1 < 2 ^ 64 -> inv n s -> m e s = Ok a s' -> inv (n + 1) s'.

Definition tick {A} (m : contract K ty E Ev W A) (Hm : preserves m) : ecall aged E A := fun e w =>
  settle (age w) (m e (body w)) (fun a s' Heq Hn => Hm _ _ _ _ _ Hn (proj2 (sound w)) Heq).

Lemma tick_EOk {A} (m : contract K ty E Ev W A) Hm e w a w' :
  tick m Hm e w = EOk a w' -> m e (body w) = Ok a (body w') /\ age w' = age w + 1.
Proof. apply settle_EOk. Qed.

End aged.

Arguments mkAged {K _ _ ty Ev W inv}.
Arguments age {K _ _ ty Ev W inv}.
Arguments body {K _ _ ty Ev W inv}.
Arguments sound {K _ _ ty Ev W inv}.

(** The same up to lifetimes and events, here and in the contracts called. *)
Definition same_stores `{Countable K} {ty : K -> Type} {Ev W} `{!World W} (s t : cstate K ty Ev W) : Prop :=
  inst s = inst t /\ pers s = pers t /\ wquiet (world s) (world t).

#[export] Instance same_stores_preorder `{Countable K} {ty : K -> Type} {Ev W} `{!World W} :
  PreOrder (@same_stores K _ _ ty Ev W _).
Proof.
  unfold same_stores. split; [by intros s|]. intros s t u (?&?&G1) (?&?&G2). split_and!; try congruence. by rewrite G1.
Qed.

(** What makes a contract usable as a world: its invariant survives its transactions
    and does not depend on lifetimes and events. *)
Class Component `{Countable K} {ty : K -> Type} {E Ev W Call : Type} `{!World W}
    (inv : Z -> cstate K ty Ev W -> Prop) (exec : Call -> contract K ty E Ev W unit) := {
  component_exec c : preserves inv (exec c);
  component_quiet n s t : same_stores s t -> inv n s -> inv (n + 1) t;
  component_world n s w : wstep (world s) w -> inv n s -> inv n (put_world w s);
}.

Section component.
Context `{Countable K} {ty : K -> Type} {E Ev W Call : Type} `{!World W}.
Context (inv : Z -> cstate K ty Ev W -> Prop) (exec : Call -> contract K ty E Ev W unit).
Context `{!Component inv exec}.
Local Abbreviation contract_world := (aged (K := K) (ty := ty) inv).

(** How the contract moves on its own: by its transactions, by reads, and by moves of
    the contracts it calls. *)
Inductive evolves (w : contract_world) : contract_world -> Prop :=
| evolves_refl : evolves w w
| evolves_call w1 w2 e c :
    evolves w w1 -> exec c e (body w1) = Ok tt (body w2) -> age w2 = age w1 + 1 -> evolves w w2
| evolves_quiet w1 w2 :
    evolves w w1 -> same_stores (body w1) (body w2) -> evolves w w2
| evolves_world w1 w2 v :
    evolves w w1 -> wstep (world (body w1)) v -> body w2 = put_world v (body w1) -> evolves w w2.

#[export] Instance evolves_preorder : PreOrder evolves.
Proof.
  split; [intros w; constructor|]. intros w1 w2 w3 H1 H2. induction H2 as [|w3 w4 e c _ IH|w3 w4 _ IH|w3 w4 v _ IH].
  - done.
  - by eapply evolves_call.
  - by eapply evolves_quiet.
  - by eapply evolves_world.
Qed.

Definition component_wquiet (w w' : contract_world) : Prop := same_stores (body w) (body w').

#[export] Instance component_wquiet_preorder : PreOrder component_wquiet.
Proof. unfold component_wquiet. split; red; [done|]. intros ? ? ? H1 H2. by rewrite H1. Qed.

Definition component_as_world : World contract_world.
Proof.
  refine {| wstep := evolves; wquiet := component_wquiet |}.
  intros w w' Hq. by eapply evolves_quiet; [apply evolves_refl|].
Defined.

(** Transactions and reads as calls. *)
Lemma preserves_as c {A} (m : contract K ty E Ev W A) :
  (forall e s a s', m e s = Ok a s' -> exec c e s = Ok tt s') -> preserves inv m.
Proof. intros Hm n e s a s' Hn Hinv He. eapply component_exec; eauto. Qed.

Lemma preserves_read {A} (m : contract K ty E Ev W A) :
  (forall e s a s', m e s = Ok a s' -> same_stores s s') -> preserves inv m.
Proof. intros Hm n e s a s' Hn Hinv He. eapply component_quiet; eauto. Qed.

(** A read that the contract would pass on to one of its callees. *)
Definition pass {A E'} (n : Z) (s : cstate K ty Ev W) (Hn : n < 2 ^ 64) (Hs : inv n s) (r : eresult W E' A) :
    (forall a v, r = EOk a v -> wquiet (world s) v) -> eresult contract_world E' A :=
  match r with
  | EOk a v => fun Hr =>
      EOk a (mkAged n (put_world v s) (conj Hn (component_world n s v (wquiet_step _ _ (Hr a v eq_refl)) Hs)))
  | EErr x => fun _ => EErr x
  | EAbort => fun _ => EAbort
  end.

Definition through {A E'} (c : ecall W E' A) (Hc : forall e v a v', c e v = EOk a v' -> wquiet v v') :
    ecall contract_world E' A := fun e w =>
  pass (age w) (body w) (proj1 (sound w)) (proj2 (sound w)) (c e (world (body w))) (fun a v Heq => Hc _ _ _ _ Heq).

Lemma through_EOk {A E'} (c : ecall W E' A) Hc e w a w' :
  through c Hc e w = EOk a w' ->
  exists v, c e (world (body w)) = EOk a v /\ body w' = put_world v (body w) /\ component_wquiet w w'.
Proof.
  unfold through. generalize (fun a0 v Heq => Hc e (world (body w)) a0 v Heq).
  generalize (c e (world (body w))). intros [x v|x|] Hr; simpl; [|done..]. intros [= <- <-]. exists v.
  split_and!; [done|done|]. by split_and!; [..|apply (Hr x)].
Qed.

(** An invariant of the contract's own moves. *)
Lemma evolves_keeps (P : cstate K ty Ev W -> Prop) w w' :
  evolves w w' -> P (body w) ->
  (forall n s e c s', n + 1 < 2 ^ 64 -> inv n s -> P s -> exec c e s = Ok tt s' -> P s') ->
  (forall s t, inst s = inst t -> pers s = pers t -> wstep (world s) (world t) -> P s -> P t) -> P (body w').
Proof.
  intros Hw HP Hexec Hsame. induction Hw as [|w1 w2 e c _ IH Hc Ha|w1 w2 _ IH (Hi&Hp&Hwo)|w1 w2 v _ IH Hv Hb].
  - done.
  - eapply (Hexec (age w1)); [|apply (sound w1)|done|done]. rewrite <- Ha. apply (sound w2).
  - eapply Hsame; [done|done| |done]. by apply wquiet_step.
  - rewrite Hb. by eapply (Hsame (body w1)).
Qed.
End component.

(** ** ProjectRegistry *)

#[export] Instance registry_component : Component ProjectRegistry.inv ProjectRegistry.exec.
Proof.
  split.
  - intros c n e s [] s' Hn Hinv He. by eapply registry_inv_exec.
  - intros n s t (Hi&Hp&_) Hinv. by apply registry_inv_mono, (registry_inv_same n s).
  - intros n s w _ Hinv. by apply (registry_inv_same n s).
Qed.

Definition Registry : Type := aged ProjectRegistry.inv.
#[export] Instance registry_world : World Registry := component_as_world ProjectRegistry.inv ProjectRegistry.exec.

Section registry.
Context (registry : Address).

Lemma get_project_linkage_reads p e s a s' :
  ProjectRegistry.get_project_linkage p e s = Ok a s' ->
  same_stores s s' /\ exists q, ProjectRegistry.project_of s p = Some q /\ pl_status a = pj_status q.
Proof.
  unfold ProjectRegistry.get_project_linkage.
  intros (?&s1&[l1 ->]%bump_instance_Ok&(o&s2&[-> [l2 ->]]%read_project_Ok&H)%bind_Ok)%bind_Ok.
  apply ok_or_Ok in H as [H ->]. split; [done|].
  change (ProjectRegistry.project_of (put_inst_live l1 s) p) with (ProjectRegistry.project_of s p) in H.
  destruct (ProjectRegistry.project_of s p) as [q|]; [|done]. injection H as <-. by exists q.
Qed.

Lemma get_status_by_hash_reads h e s a s' :
  ProjectRegistry.get_project_status_by_hash h e s = Ok a s' -> same_stores s s'.
Proof.
  unfold ProjectRegistry.get_project_status_by_hash.
  intros (?&s1&[l1 ->]%bump_instance_Ok&H)%bind_Ok.
  apply bind_Ok in H as (o&s2&[_ [l2 ->]]%read_persistent_Ok&H). apply bind_Ok in H as (i&s2&[_ ->]%ok_or_Ok&H).
  apply bind_Ok in H as (p&s3&[_ [l3 ->]]%read_project_Ok&H). apply bind_Ok in H as (q&s3&[_ ->]%ok_or_Ok&[_ ->]%ret_Ok).
  done.
Qed.

Definition linkage_call (p : Z) : ecall Registry RegistryError.RegistryError ProjectLinkage :=
  tick _ (ProjectRegistry.get_project_linkage p)
    (preserves_read _ _ _ (fun e s a s' H => proj1 (get_project_linkage_reads p e s a s' H))).
Definition status_call (h : BytesN) : ecall Registry RegistryError.RegistryError ProjectStatus.ProjectStatus :=
  tick _ (ProjectRegistry.get_project_status_by_hash h) (preserves_read _ _ _ (get_status_by_hash_reads h)).
Definition revoke_call (a : Address) (p : Z) (reason : Symbol) (n : Z) :
    ecall Registry RegistryError.RegistryError unit :=
  tick _ (ProjectRegistry.exec (ProjectRegistry.CRevoke a p reason n)) (component_exec _).

Definition status_in (w : Registry) (p : Z) : option ProjectStatus.ProjectStatus :=
  pj_status <$> ProjectRegistry.project_of (body w) p.

#[export] Instance registry_source : ProjectSource Registry.
Proof.
  refine {| project_status := fun w r p => if decide (r = registry) then status_in w p else None;
            call_get_project_linkage := fun r p => at_address registry r (linkage_call p);
            call_revoke_project := fun r a p reason n => at_address registry r (revoke_call a p reason n) |}.
  - intros r p e w l w' [-> [H _]%tick_EOk]%at_address_EOk. rewrite decide_True by done.
    apply get_project_linkage_reads in H as (Hq&q&Hp&->). unfold status_in. rewrite Hp. by split.
  - intros r a p reason n e w u w' [-> [H Ha]%tick_EOk]%at_address_EOk. rewrite !decide_True by done.
    pose proof H as Hrv. destruct u. apply exec_Ok in Hrv as [_ Hrv]. apply ProjectRegistry.revoke_Ok in Hrv as (q&next&_&_&Hm). pose proof Hm as (Hp&Hs&_).
    unfold status_in. rewrite Hp. rewrite (moved_projects _ _ _ _ _ _ _ _ Hm), decide_True by done.
    split_and!; [simpl; by rewrite Hs|done|]. eapply evolves_call; [apply evolves_refl|exact H|done].
  - intros w w' r p (_&Hp&_). unfold status_in, ProjectRegistry.project_of. by rewrite Hp.
Defined.

#[export] Instance registry_reader : RegistryReader Registry.
Proof.
  refine {| call_status_by_hash := fun r h => at_address registry r (status_call h) |}.
  intros r h e w st w' [-> [H _]%tick_EOk]%at_address_EOk. by apply get_status_by_hash_reads in H.
Defined.
End registry.

(** ** BondIssuer *)

#[export] Instance bond_component : Component BondIssuer.inv BondIssuer.exec.
Proof.
  split.
  - intros c n e s [] s' Hn Hinv He. by eapply bond_inv_exec.
  - intros n s t (Hi&Hp&_) Hinv. by apply bond_inv_mono, (bond_inv_same n s).
  - intros n s w _ Hinv. by apply (bond_inv_same n s).
Qed.

Definition Bonds : Type := aged BondIssuer.inv.
#[export] Instance bonds_world : World Bonds := component_as_world BondIssuer.inv BondIssuer.exec.

Section bonds.
Context (issuer : Address).

Lemma same_data_stores `{Countable K} {ty : K -> Type} {Ev W} `{!World W} (s t : cstate K ty Ev W) :
  same_data s t -> same_stores t s.
Proof. intros (?&?&_&Hw). split_and!; [done|done|]. by rewrite Hw. Qed.

Lemma get_balance_reads b h e s v s' :
  BondIssuer.get_holder_balance b h e s = Ok v s' -> v = BondIssuer.balance s b h /\ same_stores s s'.
Proof. unfold BondIssuer.get_holder_balance. by intros (o&s1&[-> ->]%pget_Ok&[-> ->]%ret_Ok)%bind_Ok. Qed.

Lemma get_bond_nonce_reads a e s v s' : BondIssuer.get_nonce a e s = Ok v s' -> same_stores s s'.
Proof. unfold BondIssuer.get_nonce. by intros (o&s1&[-> ->]%pget_Ok&[-> ->]%ret_Ok)%bind_Ok. Qed.

Lemma get_bond_reads b e s c s' : BondIssuer.get_bond b e s = Ok c s' -> same_stores s s'.
Proof. intros [_ H]%BondIssuer.get_bond_Ok. by apply same_data_stores. Qed.

Lemma total_subscribed_reads b e s v s' : BondIssuer.total_subscribed b e s = Ok v s' -> same_stores s s'.
Proof. intros (st&_&_&H)%total_subscribed_Ok. by apply same_data_stores. Qed.

Definition bond_call (b : Z) : ecall Bonds BondError.BondError BondConfig :=
  tick _ (BondIssuer.get_bond b) (preserves_read _ _ _ (get_bond_reads b)).
Definition subscribed_call (b : Z) : ecall Bonds BondError.BondError Z :=
  tick _ (BondIssuer.total_subscribed b) (preserves_read _ _ _ (total_subscribed_reads b)).
Definition balance_call (b : Z) (h : Address) : ecall Bonds BondError.BondError Z :=
  tick _ (BondIssuer.get_holder_balance b h)
    (preserves_read _ _ _ (fun e s v s' H => proj2 (get_balance_reads b h e s v s' H))).
Definition nonce_call (a : Address) : ecall Bonds BondError.BondError Z :=
  tick _ (BondIssuer.get_nonce a) (preserves_read _ _ _ (get_bond_nonce_reads a)).
Definition transfer_call (from to : Address) (b v n : Z) : ecall Bonds BondError.BondError unit :=
  tick _ (BondIssuer.exec (BondIssuer.CTransfer from to b v n)) (component_exec _).

(** Terms of a bond, for ever. *)
Lemma bonds_keep_config (w w' : Bonds) b c :
  wstep w w' -> BondIssuer.config_of (body w) b = Some c -> BondIssuer.config_of (body w') b = Some c.
Proof.
  intros Hw Hc.
  apply (evolves_keeps BondIssuer.inv BondIssuer.exec (fun s => BondIssuer.config_of s b = Some c) w w'); [done|done| |].
  - intros n s e call s' Hn Hinv Hs He.
    destruct (BondIssuer.state_of s b) as [st|] eqn:Hst; [by eapply (lifecycle_step n s e call s' b c st)|].
    assert (H1 : 1 <= b <= BondIssuer.count_of s) by (apply (BondIssuer.inv_config n s Hinv); by rewrite Hs).
    apply (BondIssuer.inv_state n s Hinv) in H1 as [? ?]. congruence.
  - intros s t _ Hp _. unfold BondIssuer.config_of. by rewrite Hp.
Qed.

#[export] Instance bonds_reader : BondReader Bonds.
Proof.
  refine {| bond_config := fun w a b => if decide (a = issuer) then BondIssuer.config_of (body w) b else None;
            call_get_bond := fun a b => at_address issuer a (bond_call b);
            call_total_subscribed := fun a b => at_address issuer a (subscribed_call b);
            call_get_holder_balance := fun a b h => at_address issuer a (balance_call b h) |}.
  - intros a b e w c w' [-> [H _]%tick_EOk]%at_address_EOk. rewrite decide_True by done.
    split; [by apply BondIssuer.get_bond_Ok in H as [? _]|by apply get_bond_reads in H].
  - intros a b e w v w' [-> [H _]%tick_EOk]%at_address_EOk. by apply total_subscribed_reads in H.
  - intros a b h e w v w' [-> [H _]%tick_EOk]%at_address_EOk. by apply get_balance_reads in H as [_ ?].
  - intros w w' a b c Hw. case_decide; [|done]. by apply bonds_keep_config.
Defined.

Lemma balance_in_range n s b h : BondIssuer.inv n s -> in_range I128 (BondIssuer.balance s b h) = true.
Proof.
  intros Hinv. pose proof (BondIssuer.balance_nonneg n s b h Hinv) as H0. apply in_range_spec. pose proof (int_lo_hi I128).
  split; [lia|]. unfold BondIssuer.balance in *.
  destruct (sget (BondIssuer.DataKey.HolderBalance b h) (pers s)) as [v|] eqn:Hv; simpl in *; [|lia].
  destruct (BondIssuer.inv_balance n s Hinv _ _ _ Hv) as [_ Hb].
  destruct (proj2 (BondIssuer.inv_config n s Hinv b) Hb) as [c Hc]. destruct (proj2 (BondIssuer.inv_state n s Hinv b) Hb) as [st Hst].
  destruct (BondIssuer.inv_supply n s Hinv b c st Hc Hst) as (Hs&_&Hle).
  pose proof (balance_le_supply n s b h Hinv) as Hbs. unfold BondIssuer.balance in Hbs. rewrite Hv in Hbs. cbn [default int_lo int_hi] in *. simpl in Hbs. lia.
Qed.

#[export] Instance bonds_market : BondMarket Bonds.
Proof.
  refine {| bond_balance := fun w a b h => if decide (a = issuer) then BondIssuer.balance (body w) b h else 0;
            call_get_nonce := fun a h => at_address issuer a (nonce_call h);
            call_transfer := fun a from to b v n => at_address issuer a (transfer_call from to b v n) |}.
  - intros a b h e w v w' [-> [H _]%tick_EOk]%at_address_EOk. rewrite decide_True by done.
    apply get_balance_reads in H as [-> _]. split; [done|]. apply (balance_in_range (age w)), (sound w).
  - intros a h e w v w' [-> [H _]%tick_EOk]%at_address_EOk. by apply get_bond_nonce_reads in H.
  - intros a from to b v n e w u w' [-> [H Ha]%tick_EOk]%at_address_EOk. rewrite !decide_True by done.
    pose proof H as Ht. simpl in Ht.
    apply BondIssuer.transfer_Ok in Ht as (c&st&next&Hau&_&_&Hne&Hv&_&_&_&_&Hle&_&_&Hp).
    split_and!; [done|done|done|done|eapply evolves_call; [apply evolves_refl|by destruct u|done]|].
    intros b' h'. unfold BondIssuer.balance in *. rewrite Hp.
    destruct (decide (issuer = issuer)) as [_|]; [|done]. rewrite sget_append_ne by done.
    destruct (decide ((b', h') = (b, to))) as [[= -> ->]|Hto]; [rewrite decide_False by congruence; rewrite sget_sset_eq; simpl; lia|].
    rewrite sget_sset_ne by congruence.
    destruct (decide ((b', h') = (b, from))) as [[= -> ->]|Hfrom]; [rewrite sget_sset_eq; simpl; lia|].
    rewrite !sget_sset_ne by congruence. lia.
  - intros w w' a b h (_&Hp&_). case_decide; [|done]. unfold BondIssuer.balance. by rewrite Hp.
Defined.
End bonds.

(** ** OracleConsumer, on ProjectRegistry *)

Section oracle.
Context (registry : Address).
#[local] Instance oracle_projects : ProjectSource Registry := registry_source registry.

Definition Oracle : Type := aged (OracleConsumer.inv (W := Registry)).

#[export] Instance oracle_component :
  Component (OracleConsumer.inv (W := Registry)) (OracleConsumer.exec (W := Registry)).
Proof.
  split.
  - intros c n e s [] s' Hn Hinv He. by eapply oracle_inv_exec.
  - intros n s t (Hi&Hp&_) Hinv. apply (oracle_inv_mono n); [lia|]. by eapply oracle_inv_stores.
  - intros n s w _ Hinv. by apply (oracle_inv_stores n s).
Qed.

Definition oracle_as_world : World Oracle :=
  component_as_world (OracleConsumer.inv (W := Registry)) (OracleConsumer.exec (W := Registry)).
#[local] Existing Instance oracle_as_world.

Lemma get_report_reads i e (s : cstate OracleConsumer.DataKey OracleConsumer.ty OracleConsumer.Event Registry) r s' :
  OracleConsumer.get_report i e s = Ok r s' -> OracleConsumer.report_of s i = Some r /\ same_stores s s'.
Proof. by intros [H [l ->]]%(read_existing_Ok (OracleConsumer.DataKey.Report i)). Qed.

Definition report_call (i : Z) : ecall Oracle OracleError.OracleError Report :=
  tick _ (OracleConsumer.get_report i)
    (preserves_read _ _ _ (fun e s r s' H => proj2 (get_report_reads i e s r s' H))).

(** A verified report, for ever. *)
Lemma oracle_keeps_report (w w' : Oracle) i r :
  wstep w w' -> OracleConsumer.report_of (body w) i = Some r -> rp_status r = ReportStatus.Verified ->
  OracleConsumer.report_of (body w') i = Some r.
Proof.
  intros Hw Hr Hst.
  apply (evolves_keeps (OracleConsumer.inv (W := Registry)) (OracleConsumer.exec (W := Registry))
    (fun s => OracleConsumer.report_of s i = Some r) w w'); [done|done| |].
  - intros n s e c s' Hn Hinv Hs He. destruct (keeps_reports_step n e s c s' Hinv He Hn i r Hs) as (r'&Hr'&_&Hf).
    by rewrite Hr', Hf by by rewrite Hst.
  - intros s t _ Hp _. unfold OracleConsumer.report_of. by rewrite Hp.
Qed.

Definition oracle_as_reader (home : Address) : OracleReader Oracle.
Proof.
  refine {| report_record := fun w a i => if decide (a = home) then OracleConsumer.report_of (body w) i else None;
            call_get_report := fun a i => at_address home a (report_call i) |}.
  - intros a i e w r w' [-> [H _]%tick_EOk]%at_address_EOk. rewrite decide_True by done.
    apply get_report_reads in H as [Hr Hs]. split; [|done]. split; [|done].
    by destruct (oi_report _ _ (proj2 (sound w)) _ _ Hr) as [_ [? _] _ _ _ _ _].
  - intros w w' a i r Hw. case_decide; [|done]. by apply oracle_keeps_report.
Defined.
End oracle.

(** ** Two neighbours *)

Section pair.
Context {A B : Type} `{!World A} `{!World B}.

#[export] Instance pair_world : World (A * B).
Proof.
  refine {| wstep := fun w w' => wstep w.1 w'.1 /\ wstep w.2 w'.2;
            wquiet := fun w w' => wquiet w.1 w'.1 /\ wquiet w.2 w'.2 |}.
  - split; [done|]. intros w1 w2 w3 [H1 H2] [H3 H4]. split; [by rewrite H1|by rewrite H2].
  - split; [done|]. intros w1 w2 w3 [H1 H2] [H3 H4]. split; [by rewrite H1|by rewrite H2].
  - intros w w' [? ?]. split; by apply wquiet_step.
Defined.

Definition on_left {E X} (c : ecall A E X) : ecall (A * B) E X := fun e w =>
  match c e w.1 with EOk x v => EOk x (v, w.2) | EErr x => EErr x | EAbort => EAbort end.
Definition on_right {E X} (c : ecall B E X) : ecall (A * B) E X := fun e w =>
  match c e w.2 with EOk x v => EOk x (w.1, v) | EErr x => EErr x | EAbort => EAbort end.

Lemma on_left_EOk {E X} (c : ecall A E X) e w x w' :
  on_left c e w = EOk x w' -> exists v, c e w.1 = EOk x v /\ w' = (v, w.2).
Proof. unfold on_left. destruct (c e w.1); try done. intros [= <- <-]. eauto. Qed.

Lemma on_right_EOk {E X} (c : ecall B E X) e w x w' :
  on_right c e w = EOk x w' -> exists v, c e w.2 = EOk x v /\ w' = (w.1, v).
Proof. unfold on_right. destruct (c e w.2); try done. intros [= <- <-]. eauto. Qed.
End pair.

(** ** CouponEngine, on BondIssuer, OracleConsumer and ProjectRegistry *)

Section engine.
Context (issuer oracle_consumer registry : Address).
#[local] Instance engine_oracle_world : World Oracle := oracle_as_world registry.
#[local] Instance engine_bonds : BondReader Bonds := bonds_reader issuer.
#[local] Instance engine_projects : ProjectSource Registry := registry_source registry.

Definition Neighbours : Type := Bonds * Oracle.

#[local] Instance neighbours_bonds : BondReader Neighbours.
Proof.
  refine {| bond_config := fun w a b => bond_config (w.1 : Bonds) a b;
            call_get_bond := fun a b => on_left (call_get_bond a b);
            call_total_subscribed := fun a b => on_left (call_total_subscribed a b);
            call_get_holder_balance := fun a b h => on_left (call_get_holder_balance a b h) |}.
  - intros a b e w c w' (v&[Hc Hq]%call_get_bond_spec&->)%on_left_EOk. by split.
  - intros a b e w c w' (v&Hq%call_total_subscribed_spec&->)%on_left_EOk. by split.
  - intros a b h e w c w' (v&Hq%call_get_holder_balance_spec&->)%on_left_EOk. by split.
  - intros w w' a b c [Hw _]. by apply bond_config_stable.
Defined.

#[local] Instance oracle_reports : OracleReader Oracle := oracle_as_reader registry oracle_consumer.

#[local] Instance neighbours_reports : OracleReader Neighbours.
Proof.
  refine {| report_record := fun w a i => report_record (w.2 : Oracle) a i;
            call_get_report := fun a i => on_right (call_get_report a i) |}.
  - intros a i e w r w' (v&[Hr Hq]%call_get_report_spec&->)%on_right_EOk. by split.
  - intros w w' a i r [_ Hw]. by apply report_record_stable.
Defined.

(** The registry the engine reads is the one behind the oracle. *)
Lemma status_call_quiet a h e w x w' :
  call_status_by_hash (RegistryReader := registry_reader registry) a h e w = EOk x w' -> wquiet w w'.
Proof. apply (call_status_by_hash_spec (RegistryReader := registry_reader registry)). Qed.

#[local] Instance neighbours_projects : RegistryReader Neighbours.
Proof.
  refine {| call_status_by_hash := fun a h => on_right (through _ _ (Component0 := oracle_component registry) _ (status_call_quiet a h)) |}.
  intros a h e w x w' (v&Hq&->)%on_right_EOk. apply through_EOk in Hq as (u&_&_&Hq). by split.
Defined.

(** The invariant of the engine: its balances and the provenance of its periods. *)
Definition engine_inv (n : Z) (s : cstate CouponEngine.DataKey CouponEngine.ty CouponEngine.Event Neighbours) : Prop :=
  CouponEngine.inv n s /\ pinv s.

Definition Engine : Type := aged engine_inv.

Lemma engine_inv_move n (s t : cstate CouponEngine.DataKey CouponEngine.ty CouponEngine.Event Neighbours) :
  inst t = inst s -> pers t = pers s -> wstep (world s) (world t) -> engine_inv n s -> engine_inv n t.
Proof. intros Hi Hp Hw [Hinv Hpi]. split; [by apply (coupon_inv_same n s)|by apply (pinv_move s)]. Qed.

#[export] Instance engine_component : Component engine_inv (CouponEngine.exec (W := Neighbours)).
Proof.
  split.
  - intros c n e s [] s' Hn [Hinv Hpi] He. split; [by eapply coupon_inv_exec|by eapply pinv_exec].
  - intros n s t (Hi&Hp&Hw) Hinv. destruct (engine_inv_move n s t (eq_sym Hi) (eq_sym Hp) (wquiet_step _ _ Hw) Hinv).
    split; [by apply coupon_inv_mono|done].
  - intros n s w Hw Hinv. by apply (engine_inv_move n s).
Qed.

Definition engine_as_world : World Engine :=
  component_as_world engine_inv (CouponEngine.exec (W := Neighbours)).
#[local] Existing Instance engine_as_world.
Local Abbreviation engine_state := (cstate CouponEngine.DataKey CouponEngine.ty CouponEngine.Event Neighbours).

Lemma read_refresh_reads k e (s : engine_state) o s' :
  CouponEngine.read_refresh_ttl k e s = Ok o s' -> o = sget k (pers s) /\ same_stores s s'.
Proof. by intros [-> [l ->]]%read_refresh_ttl_Ok. Qed.

Lemma accrued_credits_reads b h e (s : engine_state) v s' :
  CouponEngine.accrued_credits b h e s = Ok v s' -> v = CouponEngine.accrued s b h /\ same_stores s s'.
Proof.
  unfold CouponEngine.accrued_credits. by intros (o&s1&[-> H]%read_refresh_reads&[-> ->]%ret_Ok)%bind_Ok.
Qed.

Lemma get_period_reads b p e (s : engine_state) i s' :
  CouponEngine.get_period_info b p e s = Ok i s' -> CouponEngine.period_of s b p = Some i /\ same_stores s s'.
Proof.
  unfold CouponEngine.get_period_info. by intros (o&s1&[-> H]%read_refresh_reads&[Ho ->]%ok_or_Ok)%bind_Ok.
Qed.

Lemma deduct_preserves b h v t :
  preserves engine_inv (CouponEngine.deduct_credits b h v t).
Proof.
  intros n e s a s' Hn Hinv He. apply (component_exec (Component := engine_component) (CouponEngine.CDeduct b h v t) n e s tt s' Hn Hinv).
  simpl. unfold bind. by rewrite He.
Qed.

Definition accrued_call (b : Z) (h : Address) : ecall Engine CouponEngineError.CouponEngineError Z :=
  tick _ (CouponEngine.accrued_credits b h)
    (preserves_read _ _ _ (fun e s v s' H => proj2 (accrued_credits_reads b h e s v s' H))).
Definition period_call (b p : Z) : ecall Engine CouponEngineError.CouponEngineError PeriodInfo :=
  tick _ (CouponEngine.get_period_info b p)
    (preserves_read _ _ _ (fun e s v s' H => proj2 (get_period_reads b p e s v s' H))).
Definition deduct_call (b : Z) (h : Address) (v : Z) (t : CreditType.CreditType) :
    ecall Engine CouponEngineError.CouponEngineError Z :=
  tick _ (CouponEngine.deduct_credits b h v t) (deduct_preserves b h v t).

(** What a deduction does to the balances. *)
Lemma deduct_balances n b h v t e (s : engine_state) r s' :
  CouponEngine.inv n s -> CouponEngine.deduct_credits b h v t e s = Ok r s' ->
  0 < v <= CouponEngine.accrued s b h /\ world s' = world s /\
  pers s' = sset (CouponEngine.DataKey.AccruedCreditsByType b h (CouponEngine.storage_type t))
              (CouponEngine.by_type s b h (CouponEngine.storage_type t) - v)
              (sset (CouponEngine.DataKey.AccruedCredits b h) (CouponEngine.accrued s b h - v) (pers s)).
Proof.
  intros Hinv H. apply deduct_Ok in H as (d&_&_&Hpos&Hle&_&_&_&Hw&_&Hp); [by split_and!|apply (CouponEngine.inv_range n s Hinv)|].
  intros x. etransitivity; [by apply by_type_le_accrued with n|]. apply (CouponEngine.inv_range n s Hinv).
Qed.

Definition engine_as_credits (home : Address) : CreditSource Engine.
Proof.
  refine {| credit_balance := fun w a b h => if decide (a = home) then CouponEngine.accrued (body w) b h else 0;
            period_record := fun w a b p => if decide (a = home) then CouponEngine.period_of (body w) b p else None;
            call_accrued_credits := fun a b h => at_address home a (accrued_call b h);
            call_get_period_info := fun a b p => at_address home a (period_call b p);
            call_deduct_credits := fun a b h v t => at_address home a (deduct_call b h v t) |}.
  - intros a b h e w v w' [-> [H _]%tick_EOk]%at_address_EOk. rewrite decide_True by done. by apply accrued_credits_reads in H.
  - intros a b p e w i w' [-> [H _]%tick_EOk]%at_address_EOk. rewrite decide_True by done. by apply get_period_reads in H.
  - intros a b h v t e w r w' [-> [H Ha]%tick_EOk]%at_address_EOk. destruct (decide (home = home)) as [_|]; [|done].
    destruct (deduct_balances _ _ _ _ _ _ _ _ _ (proj1 (proj2 (sound w))) H) as (Hv&_&Hp). split_and!; [apply Hv|apply Hv| |].
    + eapply (evolves_call _ _ _ w w' e (CouponEngine.CDeduct b h v t)); [apply evolves_refl| |done].
      simpl. unfold bind. by rewrite H.
    + intros b' h'. unfold CouponEngine.accrued at 1. rewrite Hp, sget_sset_ne by done.
      case_decide as Hd; [injection Hd as -> ->; by rewrite sget_sset_eq|]. by rewrite sget_sset_ne by congruence.
  - intros w w' a b h (_&Hp&_). case_decide; [|done]. unfold CouponEngine.accrued. by rewrite Hp.
  - intros w w' a b p (_&Hp&_). case_decide; [|done]. unfold CouponEngine.period_of. by rewrite Hp.
Defined.

(** Bonds, as a caller of the engine finds them behind it. *)
Lemma behind_bond_quiet a b e v x v' :
  call_get_bond (BondReader := neighbours_bonds) a b e v = EOk x v' -> wquiet v v'.
Proof. intros H. by apply (call_get_bond_spec (BondReader := neighbours_bonds)) in H as [_ ?]. Qed.
Lemma behind_subscribed_quiet a b e v x v' :
  call_total_subscribed (BondReader := neighbours_bonds) a b e v = EOk x v' -> wquiet v v'.
Proof. apply (call_total_subscribed_spec (BondReader := neighbours_bonds)). Qed.
Lemma behind_balance_quiet a b h e v x v' :
  call_get_holder_balance (BondReader := neighbours_bonds) a b h e v = EOk x v' -> wquiet v v'.
Proof. apply (call_get_holder_balance_spec (BondReader := neighbours_bonds)). Qed.

Definition engine_behind : BondReader Engine.
Proof.
  refine {| bond_config := fun w a b => bond_config (BondReader := neighbours_bonds) (world (body w)) a b;
            call_get_bond := fun a b => through _ _ (Component0 := engine_component) _ (behind_bond_quiet a b);
            call_total_subscribed := fun a b => through _ _ (Component0 := engine_component) _ (behind_subscribed_quiet a b);
            call_get_holder_balance := fun a b h => through _ _ (Component0 := engine_component) _ (behind_balance_quiet a b h) |}.
  - intros a b e w c w' (v&H&_&Hq)%through_EOk. split; [|done]. by apply (call_get_bond_spec (BondReader := neighbours_bonds)) in H as [? _].
  - intros a b e w c w' (v&_&_&Hq)%through_EOk. done.
  - intros a b h e w c w' (v&_&_&Hq)%through_EOk. done.
  - intros w w' a b c Hw Hc.
    apply (evolves_keeps engine_inv (CouponEngine.exec (W := Neighbours))
      (fun s => bond_config (BondReader := neighbours_bonds) (world s) a b = Some c) w w'); [done|done| |].
    + intros n s e call s' _ _ Hs He. eapply bond_config_stable; [|done]. by eapply coupon_world_step.
    + intros s t _ _ Hst Hs. by eapply bond_config_stable.
Defined.
End engine.
