(* ===== verification/Exchange.v ===== *)
(** * The exchange: the market and the issuer as one abstract machine

    The refinements compose.  The router deployed on the issuer is the order book of
    [OrderBook] over the ledger of [BondLedger]: no storage of either contract is left, and
    anybody may call either of them. *)

From S2P Require Import Prelude Host Shared Interfaces Spec.
From S2P Require Import BondIssuer DexRouter Wiring BondLedger OrderBook.

(** ** A ledger answers the questions of the market *)

(** Bonds keep their terms. *)
Definition keeps_terms (l l' : Ledger) : Prop :=
  forall b c, bd_config <$> bond_at b l = Some c -> bd_config <$> bond_at b l' = Some c.

#[export] Instance ledger_world : World Ledger.
Proof.
  refine {| wstep := keeps_terms; wquiet := eq |}.
  - split; [by intros l b c|]. intros l1 l2 l3 H1 H2 b c Hb. by apply H2, H1.
  - by intros l l' -> b c.
Defined.

(** A call on the ledger, as its callers see it. *)
Definition answer {L X} (o : outcome L X) : eresult L X unit :=
  match o with Done l => EOk tt l | Refused x => EErr x | Trapped => EAbort end.

Section ledger.
Context (issuer : Address).

Definition about {A} (b : Z) (f : BondLedger.Bond -> A) : ecall Ledger BondError.BondError A := fun _ l =>
  match bond_at b l with Some d => EOk (f d) l | None => EErr BondError.BondNotFound end.

#[export] Instance ledger_reader : BondReader Ledger.
Proof.
  refine {| bond_config := fun l a b => if decide (a = issuer) then bd_config <$> bond_at b l else None;
            call_get_bond := fun a b => at_address issuer a (about b bd_config);
            call_total_subscribed := fun a b => at_address issuer a (about b bd_sold);
            call_get_holder_balance := fun a b h => at_address issuer a (fun _ l =>
              if in_range I128 (lg_balance l b h) then EOk (lg_balance l b h) l else EAbort) |}.
  - intros a b e l c l' [-> H]%at_address_EOk. rewrite decide_True by done. unfold about in H.
    destruct (bond_at b l); [|done]. by injection H as <- <-.
  - intros a b e l v l' [-> H]%at_address_EOk. unfold about in H. destruct (bond_at b l); [|done]. by injection H as <- <-.
  - intros a b h e l v l' [-> H]%at_address_EOk. simpl in H. case_match; [|done]. by injection H as <- <-.
  - intros l l' a b c Hl. case_decide; [|done]. apply Hl.
Defined.

Lemma transfer_done e from to b v n l l' :
  ledger_spec e (BondIssuer.CTransfer from to b v n) l = Done l' ->
  from <> to /\ 0 < v <= lg_balance l b from /\ is_authorized e from = true /\ keeps_terms l l' /\
  forall b' h', lg_balance l' b' h' = lg_balance l b' h'
    + (if decide ((b', h') = (b, to)) then v else 0) - (if decide ((b', h') = (b, from)) then v else 0).
Proof.
  simpl. unfold by_signer, BondLedger.transfer_spec, BondLedger.open_bond, check, found.
  destruct (is_authorized e from) eqn:Ha; [|done]. destruct (n =? _); [|done].
  case_bool_decide as Hne; [|done]. destruct (Z.ltb_spec 0 v) as [Hv|]; [|done].
  destruct (bond_at b _) as [d|]; [|done]. case_bool_decide; [|done]. destruct (timestamp e <? _); [|done].
  destruct (Z.leb_spec v (lg_balance (BondLedger.spend_nonce from l) b from)) as [Hle|]; [|done]. intros [= <-].
  split_and!; [congruence|done|done|done|by intros b' c|]. intros b' h'. simpl.
  destruct (decide ((b', h') = (b, to))) as [[= -> ->]|Hto].
  - rewrite decide_True by done. rewrite !decide_False by congruence. lia.
  - rewrite decide_False by congruence. destruct (decide ((b', h') = (b, from))) as [[= -> ->]|Hfrom].
    + rewrite decide_True by done. lia.
    + rewrite decide_False by congruence. lia.
Qed.

#[export] Instance ledger_market : BondMarket Ledger.
Proof.
  refine {| bond_balance := fun l a b h => if decide (a = issuer) then lg_balance l b h else 0;
            call_get_nonce := fun a h => at_address issuer a (fun _ l => EOk (lg_nonce l h) l);
            call_transfer := fun a from to b v n => at_address issuer a (fun e l =>
              answer (ledger_spec e (BondIssuer.CTransfer from to b v n) l)) |}.
  - intros a b h e l v l' [-> H]%at_address_EOk. rewrite decide_True by done. simpl in H.
    case_match eqn:Hr; [|done]. by injection H as <- <-.
  - intros a h e l v l' [-> H]%at_address_EOk. by injection H as <- <-.
  - intros a from to b v n e l u l' [-> H]%at_address_EOk. rewrite !decide_True by done.
    destruct (ledger_spec _ _ _) as [l1|x|] eqn:Hs; simpl in H; [|done..]. injection H as _ ->.
    apply transfer_done in Hs as (?&?&?&?&Hb). do 4 (split; [assumption|]). intros b' h'.
    rewrite !decide_True by done. apply Hb.
  - by intros l l' a b h ->.
Defined.
End ledger.

(** ** The issuer shows a ledger, and answers like it *)

Section tick.
Context {K : Type} `{Countable K} {ty : K -> Type} {E Ev W : Type} (inv : Z -> cstate K ty Ev W -> Prop).

End tick.



Section composition.
Context (issuer : Address).
#[local] Instance exchange_bonds : BondReader Bonds := bonds_reader issuer.
#[local] Instance exchange_transfers : BondMarket Bonds := bonds_market issuer.
#[local] Instance exchange_ledger : BondReader Ledger := ledger_reader issuer.
#[local] Instance exchange_entries : BondMarket Ledger := ledger_market issuer.







(** ** The same book over the issuer and over the ledger *)















(** ** Executions of both contracts *)

Local Abbreviation state := (cstate DexRouter.DataKey DexRouter.ty DexRouter.Event Bonds).
Local Abbreviation market_exec := (DexRouter.exec (W := Bonds)).



Definition exchange (h : list (Env * (DexRouter.Call + BondIssuer.Call))) (b : Book Ledger) : Book Ledger :=
  fold_left (fun b x =>
    match x with
    | (e, inl c) => after (book_spec e c b) b
    | (e, inr c) => set_world (after (ledger_spec e c (bk_world b)) (bk_world b)) b
    end) h b.







End composition.

(** ** A concrete exchange

    Bond 1 is issued and subscribed on the issuer; investor 2 lists 100 of its 600 units,
    investor 3 pays in and buys 30; then investor 2 sends 540 away on the issuer. *)

Section sample.
#[local] Instance sample_issuer_reader : BondReader Bonds := bonds_reader (Addr 20).
#[local] Instance sample_issuer_market : BondMarket Bonds := bonds_market (Addr 20).
#[local] Instance sample_ledger_reader : BondReader Ledger := ledger_reader (Addr 20).
#[local] Instance sample_ledger_market : BondMarket Ledger := ledger_market (Addr 20).



Definition exchange_calls : list (Env * (DexRouter.Call + BondIssuer.Call)) :=
  [(sample_env 5, inr (CIssueBond (Addr 1) BondIssuer.sample_config 0));
   (sample_env 6, inr (CSubscribe (Addr 2) 1 600 0));
   (sample_env 7, inl (CList (Addr 2) 1 100 7 "USDC" 90 0));
   (sample_env 8, inl (CDeposit (Addr 3) "USDC" 1000 0));
   (sample_env 9, inl (CPurchase (Addr 3) 1 7 30 1));
   (sample_env 9, inr (CTransfer (Addr 2) (Addr 4) 1 540 2))].

Definition exchange_end : Book Ledger :=
  exchange (Addr 20) exchange_calls (empty_book (Addr 1) (Addr 20) (fresh_ledger (Addr 1))).

(** The purchase is settled on both sides; the sale of what investor 2 no longer has is
    refused. *)
Example exchange_balances :
  (lg_balance (bk_world exchange_end) 1 (Addr 2), lg_balance (bk_world exchange_end) 1 (Addr 3),
   bk_quote exchange_end "USDC" (Addr 2), bk_quote exchange_end "USDC" (Addr 3)) = (30, 30, 210, 790) /\
  book_spec (sample_env 10) (CPurchase (Addr 3) 1 7 70 2) exchange_end = Refused DEXError.SellerBalanceDepleted.
Proof. split; by vm_compute. Qed.

End sample.
