(* ===== verification/Council.v ===== *)
(** * The council: Governance administering ProjectRegistry

    The multi-signature contract as the admin of the project registry: its proposals
    call the registry's entrypoints, everybody else calls the registry directly.  What
    the registry holds is then what the signers agreed to. *)

From S2P Require Import Prelude Host Shared Interfaces.
From S2P Require Import ProjectRegistry Governance Wiring.

(** ** The registry as a target of proposals

    A proposal carries a method name and host values.  The registry's entrypoints decode
    the values they take, in the order of their parameters, and trap on any other. *)

Class HostCodec `{HV : HostVal} := {
  val_symbol : Val -> option Symbol;
  val_string : Val -> option Symbol;
  val_bytes : Val -> option BytesN;
  void : Val;
}.

Section decoding.
Context `{HC : HostCodec}.

Definition decode2 {A B R} (f : A -> B -> R) (va : Val -> option A) (vb : Val -> option B)
    (args : list Val) : option R :=
  match args with
  | [a; b] => x ← va a; y ← vb b; Some (f x y)
  | _ => None
  end.

Definition decode3 {A B C R} (f : A -> B -> C -> R) (va : Val -> option A) (vb : Val -> option B)
    (vc : Val -> option C) (args : list Val) : option R :=
  match args with
  | a :: args' => x ← va a; decode2 (f x) vb vc args'
  | _ => None
  end.

Definition decode4 {A B C D R} (f : A -> B -> C -> D -> R) (va : Val -> option A) (vb : Val -> option B)
    (vc : Val -> option C) (vd : Val -> option D) (args : list Val) : option R :=
  match args with
  | a :: args' => x ← va a; decode3 (f x) vb vc vd args'
  | _ => None
  end.

(** [register_project] takes two more. *)
Definition decode_registration (args : list Val) : option ProjectRegistry.Call :=
  match args with
  | caller :: hash :: args' =>
      x ← val_address caller; y ← val_bytes hash;
      decode4 (ProjectRegistry.CRegister x y) val_symbol val_symbol val_symbol val_u64 args'
  | _ => None
  end.

(** The entrypoints that change the registry, by name. *)
Definition registry_methods : list (Symbol * (list Val -> option ProjectRegistry.Call)) :=
  [("register_project"%string, decode_registration);
   ("suspend_project"%string, decode4 ProjectRegistry.CSuspend val_address val_u64 val_string val_u64);
   ("revoke_project"%string, decode4 ProjectRegistry.CRevoke val_address val_u64 val_string val_u64);
   ("approve_project"%string, decode3 ProjectRegistry.CApprove val_address val_u64 val_u64);
   ("reject_project"%string, decode3 ProjectRegistry.CReject val_address val_u64 val_u64);
   ("set_oracle_consumer"%string, decode3 ProjectRegistry.CSetOracle val_address val_address val_u64);
   ("propose_admin_transfer"%string, decode3 ProjectRegistry.CPropose val_address val_address val_u64);
   ("cancel_admin_transfer"%string, decode2 ProjectRegistry.CCancel val_address val_u64);
   ("accept_admin_transfer"%string, decode2 ProjectRegistry.CAccept val_address val_u64)].

Fixpoint find_method {R} (m : Symbol) (l : list (Symbol * R)) : option R :=
  match l with
  | [] => None
  | (m', r) :: l' => if decide (m' = m) then Some r else find_method m l'
  end.

(** The call that method [m] makes of [args]. *)
Definition registry_entry (m : Symbol) (args : list Val) : option ProjectRegistry.Call :=
  decode ← find_method m registry_methods; decode args.
End decoding.

(** The answer of a call whose result is discarded. *)
Definition answered {W E V} (v : V) (r : eresult W E unit) : eresult W unit V :=
  match r with
  | EOk _ w => EOk v w
  | EErr _ => EErr tt
  | EAbort => EAbort
  end.

Lemma answered_EOk {W E V} (v : V) (r : eresult W E unit) x w : answered v r = EOk x w -> r = EOk tt w.
Proof. destruct r as [[] ?|?|]; [|done..]. by intros [= _ <-]. Qed.

Section targets.
Context `{HC : HostCodec} (registry : Address).

Definition enter (m : Symbol) (args : list Val) : ecall Registry unit Val := fun e w =>
  match registry_entry m args with
  | Some c => answered void (tick _ (ProjectRegistry.exec c) (component_exec c) e w)
  | None => EAbort
  end.

Lemma enter_EOk m args e w v w' :
  enter m args e w = EOk v w' ->
  exists c, registry_entry m args = Some c /\ ProjectRegistry.exec c e (body w) = Ok tt (body w') /\ age w' = age w + 1.
Proof. unfold enter. destruct (registry_entry m args) as [c|]; [|done]. intros H%answered_EOk%tick_EOk. by exists c. Qed.

#[export] Instance registry_targets : Targets Registry.
Proof.
  refine {| call_any := fun a m args => at_address registry a (enter m args) |}.
  intros a m args e w v w' [_ (c&_&H&Ha)%enter_EOk]%at_address_EOk.
  eapply evolves_call; [apply evolves_refl|exact H|done].
Defined.
End targets.

(** ** The two contracts together *)

Section council.
Context `{HC : HostCodec} (registry council : Address).
#[local] Instance council_targets : Targets Registry := registry_targets registry.
Local Abbreviation state := (cstate Governance.DataKey Governance.ty Governance.Event Registry).
Local Abbreviation council_exec := (Governance.exec (W := Registry)).
Local Abbreviation council_deployed := (Governance.deployed (W := Registry)).
Implicit Types (s t : state) (r : ProjectRegistry.state) (c : ProjectRegistry.Call).

(** A transaction on the registry that the council has no part in: who called what, and
    the state it ran in. *)
Record Visit := mkVisit {
  vi_env : Env;
  vi_call : ProjectRegistry.Call;
  vi_state : ProjectRegistry.state;
}.
Implicit Types (h : list Visit).

(** The registry is deployed with the council as its admin.  From then on anybody calls
    the council, and anybody calls the registry: directly or through other contracts, but
    not in the name of the council, which is a contract and signs nothing.  [h] is the
    history of those visits. *)
Inductive joint : list Visit -> Z -> state -> Prop :=
| joint_start s e :
    council_deployed s -> ProjectRegistry.constructor council e (empty_state tt) = Ok tt (body (world s)) -> joint [] 0 s
| joint_council h n s e call :
    joint h n s -> self e = council -> joint h (n + 1) (commit (council_exec call e s) s)
| joint_registry h n s e c w :
    joint h n s -> is_authorized e council = false ->
    ProjectRegistry.exec c e (body (world s)) = Ok tt (body w) -> age w = age (world s) + 1 ->
    joint (h ++ [mkVisit e c (body (world s))]) n (put_world w s)
| joint_quiet h n s w : joint h n s -> wquiet (world s) w -> joint h n (put_world w s).

Lemma joint_reach h n s : joint h n s -> reach council_deployed council_exec n s.
Proof.
  induction 1 as [s e Hs _|h n s e call _ IH _|h n s e c w _ IH _ Hc Ha|h n s w _ IH Hw].
  - by apply reach_init.
  - by apply reach_call.
  - apply reach_world; [done|]. by eapply evolves_call; [apply evolves_refl|..].
  - apply reach_world; [done|]. by apply wquiet_step.
Qed.

(** Transactions on the council, one after the other. *)
Lemma joint_run calls h n s :
  joint h n s -> Forall (fun ec => self ec.1 = council) calls ->
  joint h (n + Z.of_nat (length calls)) (run_calls council_exec calls s).
Proof.
  revert n s. induction calls as [|[e call] calls IH]; intros n s Hs Hself; simpl; [by rewrite Z.add_0_r|].
  inversion_clear Hself as [|? ? He Hselves].
  replace (n + Z.of_nat (S (length calls))) with ((n + 1) + Z.of_nat (length calls)) by lia.
  apply IH; [|done]. by apply joint_council.
Qed.

(** *** Mandates

    A call on the registry that an executed proposal carries. *)
Definition mandate s c : Prop := exists i p,
  proposal_of s i = Some p /\ pr_status p = ProposalStatus.Executed /\
  pr_target p = registry /\ registry_entry (pr_method p) (pr_args p) = Some c.

Lemma mandate_keeps s t c : keeps s t -> mandate s c -> mandate t c.
Proof.
  intros (_&_&_&Hk&_) (i&p&Hp&Hst&Ht&He). apply Hk in Hp as (q&Hq&(_&_&Htg&Hm&Ha&_)&Hle). exists i, q.
  rewrite Hst in Hle. rewrite <- Htg, <- Hm, <- Ha.
  split_and!; [done| |done|done]. by destruct Hle as [<-|[[[=] _]|[[=] _]]].
Qed.

(** The council appointed [o] as the oracle consumer. *)
Definition appointed (M : ProjectRegistry.Call -> Prop) (o : Address) : Prop :=
  exists k, M (ProjectRegistry.CSetOracle council o k).

(** [o] itself revoked project [id], at a moment when it was the oracle consumer of the
    registry: the visit is in the history, and [o] signed it. *)
Definition revoked_by h (o : Address) (id : Z) : Prop := exists e why k r,
  mkVisit e (ProjectRegistry.CRevoke o id why k) r ∈ h /\ is_authorized e o = true /\ oracle_of r = Some o.

(** What status a project has because of which mandate.  Only a registration makes a
    project pending; a project is rejected because the council adopted its rejection, or
    its revocation in the council's or the appointed oracle consumer's name, or because
    an oracle consumer the council appointed revoked it itself. *)
Definition reviewed (M : ProjectRegistry.Call -> Prop) h (id : Z) (st : ProjectStatus.ProjectStatus) : Prop :=
  match st with
  | ProjectStatus.Pending => True
  | ProjectStatus.Approved => exists k, M (ProjectRegistry.CApprove council id k)
  | ProjectStatus.Inactive => exists why k, M (ProjectRegistry.CSuspend council id why k)
  | ProjectStatus.Rejected =>
      (exists k, M (ProjectRegistry.CReject council id k)) \/
      (exists a why k, M (ProjectRegistry.CRevoke a id why k) /\ (a = council \/ appointed M a)) \/
      (exists o, appointed M o /\ revoked_by h o id)
  end.

(** Everything that only an admin can do was mandated. *)
Record governed (M : ProjectRegistry.Call -> Prop) h r : Prop := {
  gv_admin : admin_of r = Some council;
  gv_pending pd : pending_of r = Some pd -> pac_candidate pd = council;
  gv_oracle o : oracle_of r = Some o -> appointed M o;
  gv_projects id p : 1 <= id < 2 ^ 64 -> project_of r id = Some p -> reviewed M h id (pj_status p);
}.

(** The administration was handed to somebody else. *)
Definition handed_over (M : ProjectRegistry.Call -> Prop) : Prop :=
  exists heir k, heir <> council /\ M (ProjectRegistry.CPropose council heir k).

Section monotone.
Context (M M' : ProjectRegistry.Call -> Prop) (HM : forall c, M c -> M' c).
Context (h h' : list Visit) (Hh : h ⊆ h').

Lemma appointed_mono o : appointed M o -> appointed M' o.
Proof. intros [k Hk]. exists k. by apply HM. Qed.

Lemma reviewed_mono id st : reviewed M h id st -> reviewed M' h' id st.
Proof.
  destruct st; simpl; [done|intros [k Hk]; eauto| |intros (why&k&Hk); eauto].
  intros [[k Hk]|[(a&why&k&Hk&Ha)|(o&Ho&e&why&k&r&Hin&Hr)]].
  - left. eauto.
  - right. left. exists a, why, k. split; [auto|]. destruct Ha; auto using appointed_mono.
  - right. right. exists o. split; [by apply appointed_mono|]. exists e, why, k, r. split; [by apply Hh|done].
Qed.

Lemma governed_mono r : governed M h r -> governed M' h' r.
Proof.
  intros [H1 H2 H3 H4]. split; [done|done| |].
  - intros o Ho. by apply appointed_mono, H3.
  - intros id p Hid Hp. by eapply reviewed_mono, H4.
Qed.

Lemma handed_mono : handed_over M -> handed_over M'.
Proof. intros (heir&k&?&?). exists heir, k. auto. Qed.

(** A transaction of the registry: carried out for the council, or a visit. *)
Definition accounted c e r : Prop :=
  M' c \/ (is_authorized e council = false /\ mkVisit e c r ∈ h').

Lemma review_governed n c e r r' id p :
  ProjectRegistry.inv n r -> n + 1 < 2 ^ 64 -> governed M h r -> ProjectRegistry.exec c e r = Ok tt r' ->
  accounted c e r -> 1 <= id < 2 ^ 64 -> project_of r' id = Some p -> reviewed M' h' id (pj_status p).
Proof.
  intros Hinv Hn [Hadm _ Horc Hrev] He Hc Hid Hp. pose proof (fun a => exec_signed c e r r' a He) as Hsig.
  assert (Hcouncil : caller_of c = Some council -> M' c).
  { intros Hca. destruct Hc as [|[Hau _]]; [done|]. rewrite (Hsig _ Hca) in Hau. done. }
  destruct (project_of r id) as [q|] eqn:Hq; [|by rewrite (exec_new c e r r' id p He Hq Hp)].
  destruct (exec_review n r e c r' id q Hinv Hn Hid Hq He) as (st&Hp'&Hr). rewrite Hp in Hp'. injection Hp' as ->. simpl.
  specialize (Hrev id q Hid Hq). apply reviewed_mono in Hrev.
  inversion Hr as [|a k Hca Ha|a k Hca Ha|a why k Hca Ha|a why k Hca Ha]; subst; simpl; try done; rewrite Hadm in Ha.
  - injection Ha as <-. eauto.
  - injection Ha as <-. eauto.
  - injection Ha as <-. eauto.
  - right. destruct Ha as [[= <-]|Ho]; [left; exists council, why, k; auto|].
    pose proof (appointed_mono a (Horc a Ho)) as Happ. destruct Hc as [Hm|[_ Hin]]; [left; exists a, why, k; auto|].
    right. exists a. split; [done|]. exists e, why, k, r. split_and!; [done|by apply Hsig|done].
Qed.

Lemma governed_step n c e r r' :
  ProjectRegistry.inv n r -> n + 1 < 2 ^ 64 -> governed M h r -> ProjectRegistry.exec c e r = Ok tt r' ->
  accounted c e r -> handed_over M' \/ governed M' h' r'.
Proof.
  intros Hinv Hn Hg He Hc. pose proof Hg as [Hadm Hpend Horc _].
  assert (Hcouncil : is_authorized e council = true -> M' c) by (intros Hau; destruct Hc as [|[? _]]; [done|congruence]).
  destruct (exec_effects c e r r' He) as (Ha&Hp&Ho).
  unfold admin_effect, pending_effect, oracle_effect in *. rewrite Hadm in Ha.
  assert (Hadm' : admin_of r' = Some council).
  { destruct Ha as [->|(pd&Hpd&_&_&->)]; [done|]. by rewrite (Hpend pd Hpd). }
  assert (Horc' : forall o, oracle_of r' = Some o -> appointed M' o).
  { intros o Hor. destruct Ho as [Heq|(a&o'&k&->&Ha'&Hau&Heq)]; rewrite Heq in Hor.
    { by apply appointed_mono, Horc. }
    injection Hor as ->. rewrite Hadm in Ha'. injection Ha' as <-. exists k. auto. }
  destruct Hp as [Heq|[Heq|(a&cand&at_&k&->&Ha'&Hau&Heq&_)]].
  3: destruct (decide (cand = council)) as [->|Hne].
  4: { left. rewrite Hadm in Ha'. injection Ha' as <-. by exists cand, k; auto. }
  all: right; split; [done|rewrite Heq|done|intros id p; by eapply review_governed].
  - done.
  - done.
  - by intros pd [= <-].
Qed.
End monotone.

(** *** The invariant *)

Lemma keeps_call h n s e call :
  joint h n s -> n + 1 < 2 ^ 64 -> keeps s (commit (council_exec call e s) s).
Proof.
  intros Hs Hn. apply (reach_keeps n 1 s); [by eapply joint_reach| |done].
  apply (reach_call (eq s) council_exec 0). by apply reach_init.
Qed.

(** An executed proposal made its call in the name of the council. *)
Lemma carried_call e (p : Proposal Val) s s' i :
  self e = council -> carried e p (world s) (world s') ->
  proposal_of s' i = Some (executed (timestamp e) p) ->
  exists c, mandate s' c /\ age (world s') = age (world s) + 1 /\
    ProjectRegistry.exec c (sub_env registry e) (body (world s)) = Ok tt (body (world s')).
Proof.
  intros He [v Hv] Hp. simpl in Hv. apply at_address_EOk in Hv as [Ht Hv]. apply enter_EOk in Hv as (c&Hent&Hc&Ha).
  rewrite Ht in Hc. exists c. split; [|done]. by exists i, (executed (timestamp e) p).
Qed.

Lemma joint_governed h n s :
  joint h n s -> n < 2 ^ 64 -> handed_over (mandate s) \/ governed (mandate s) h (body (world s)).
Proof.
  induction 1 as [s e Hs Hr|h n s e call Hs IH Hself|h n s e c w Hs IH Hau Hc Hage|h n s w Hs IH (Hi&Hp&_)]; intros Hn.
  - right. unfold ProjectRegistry.constructor in Hr. inv_ok Hr. apply ProjectRegistry.bump_instance_Ok in Hr as [l Hl].
    split; views; rewrite Hl; host_cbn; intros *; rewrite ?sget_empty; done.
  - pose proof (keeps_call h n s e call Hs Hn) as Hk. pose proof (fun c => mandate_keeps _ _ c Hk) as HM.
    destruct (IH ltac:(lia)) as [Hh|Hg]; [left; by eapply handed_mono|].
    destruct (council_exec call e s) as [[] s'|x s'|] eqn:He; simpl in *; [|by right..].
    apply gov_exec_world in He as [Hw|(a&i&k&p&->&_&_&Hcar&Hp)]; [right; rewrite Hw; by eapply governed_mono|].
    destruct (carried_call e p s s' i Hself Hcar Hp) as (c&Hmc&Hage&Hc).
    pose proof (sound (world s)) as [_ Hinv]. pose proof (sound (world s')) as [Hold _].
    eapply (governed_step (mandate s) (mandate s') HM h h _ (age (world s)) c); [done|lia|done|exact Hc|by left].
  - destruct (IH Hn) as [Hh|Hg]; [by left|]. pose proof (sound (world s)) as [_ Hinv]. pose proof (sound w) as [Hw _].
    eapply (governed_step (mandate s) (mandate (put_world w s)) (fun _ H => H) h _ _ (age (world s)) c);
      [done|lia|done|exact Hc|]. right. split; [done|]. set_solver.
  - destruct (IH Hn) as [Hh|[H1 H2 H3 H4]]; [by left|right]. views. simpl. rewrite Hi, Hp in *. by split; views.
  Unshelve. all: set_solver.
Qed.

(** The call [c] was adopted: it is the call of an executed proposal that exactly as many
    distinct signers as the threshold approved. *)
Definition adopted s c : Prop := exists i p approvers,
  proposal_of s i = Some p /\ pr_status p = ProposalStatus.Executed /\
  pr_target p = registry /\ registry_entry (pr_method p) (pr_args p) = Some c /\
  NoDup approvers /\ Z.of_nat (length approvers) = threshold_of s /\
  forall b, b ∈ approvers -> b ∈ signers_of s /\ vote_of s i b = Some VoteChoice.Approve.

Lemma mandate_adopted h n s c : joint h n s -> n < 2 ^ 64 -> mandate s c -> adopted s c.
Proof.
  intros Hs Hn (i&p&Hp&Hst&Ht&He). pose proof (gov_reachable_inv _ _ (joint_reach h n s Hs) Hn) as Hinv.
  destruct (inv_tally _ _ Hinv _ _ Hp) as (_&Ha&_&_&_&Hthr). rewrite Hst in Hthr.
  exists i, p, (voters s VoteChoice.Approve i). split_and!; try done; try lia.
  - apply list.NoDup_filter, Hinv.
  - intros b [Hb Hin]%list_elem_of_filter. done.
Qed.

(** C10: the council rules the registry it administers: whatever is called on either
    contract, by anybody, as long as no proposal that hands the administration to another
    address was adopted, the council is the admin, the oracle consumer is one it adopted,
    and every project that is approved, suspended or rejected is so because the signers
    adopted that very decision - or, for a rejection, because the oracle consumer they
    appointed revoked that very project: it signed the revocation, in a transaction of the
    history, while it was the oracle consumer of the registry. *)
Theorem council_rules h n s :
  joint h n s -> n < 2 ^ 64 -> handed_over (adopted s) \/ governed (adopted s) h (body (world s)).
Proof.
  intros Hs Hn. pose proof (fun c => mandate_adopted h n s c Hs Hn) as HM.
  destruct (joint_governed h n s Hs Hn) as [Hh|Hg]; [left; by eapply handed_mono|right; by eapply governed_mono].
Qed.
End council.

(** ** A concrete council

    The council is at address 1000, the registry at 30. *)

Section sample.
#[local] Existing Instance Governance.sample_host.
#[local] Instance sample_codec : HostCodec := {|
  val_symbol _ := None;
  val_string _ := None;
  val_bytes _ := None;
  void := SNumber 0;
|}.
#[local] Instance sample_registry_targets : Targets Registry := registry_targets (Addr 30).

(** The registry at work outside the council. *)
Definition registry_env (t : Z) : Env :=
  mkEnv t (Addr 30) [] (fun _ a => bool_decide (a <> Addr 1000)) true 0 (fun live _ _ => live).

Definition advance (c : ProjectRegistry.Call) (e : Env) (w : Registry) : Registry :=
  match tick _ (ProjectRegistry.exec c) (component_exec c) e w with EOk _ w' => w' | _ => w end.

Definition advances (c : ProjectRegistry.Call) (e : Env) (w : Registry) : bool :=
  match tick _ (ProjectRegistry.exec c) (component_exec c) e w with EOk _ _ => true | _ => false end.

Lemma advance_Ok c e w :
  advances c e w = true ->
  ProjectRegistry.exec c e (body w) = Ok tt (body (advance c e w)) /\ age (advance c e w) = age w + 1.
Proof.
  unfold advances, advance. destruct (tick _ _ _ _ _) as [[] w'|x|] eqn:H; [|done..]. intros _. by apply tick_EOk in H.
Qed.

Definition fresh_state : ProjectRegistry.state :=
  commit (ProjectRegistry.constructor (Addr 1000) (registry_env 0) (empty_state tt)) (empty_state tt).

Lemma fresh_Ok : ProjectRegistry.constructor (Addr 1000) (registry_env 0) (empty_state tt) = Ok tt fresh_state.
Proof. apply commit_is_ok. reflexivity. Qed.

Lemma fresh_inv : 0 < 2 ^ 64 /\ ProjectRegistry.inv 0 fresh_state.
Proof. split; [reflexivity|]. apply registry_inv_init. exists (registry_env 0), (Addr 1000). exact fresh_Ok. Qed.
Definition fresh_registry : Registry := mkAged 0 fresh_state fresh_inv.

Local Abbreviation state := (cstate Governance.DataKey Governance.ty Governance.Event Registry).

Definition council_allowed : list (option AllowedCall) :=
  [Some (mkAllowedCall (Addr 30) "approve_project"); Some (mkAllowedCall (Addr 30) "set_oracle_consumer")].
Definition council_start : state :=
  commit (constructor [Addr 1; Addr 2; Addr 3] 2 100 council_allowed (signers_env 0) (empty_state fresh_registry))
         (empty_state fresh_registry).

(** Owner 2 registers a project; signers 1 and 3 have it approved, and address 40 made
    the oracle consumer. *)
Definition register_call : ProjectRegistry.Call :=
  ProjectRegistry.CRegister (Addr 2) (ProjectRegistry.sample_hash 7) "mangrove" "VM0033" "KE" 0.
Definition registered : Registry := advance register_call (registry_env 5) fresh_registry.
Definition council_calls : list (Env * Governance.Call) :=
  [(signers_env 10, Governance.CPropose (Addr 1) (Addr 30) "approve_project"
      [SAddress (Addr 1000); SNumber 1; SNumber 0] "mangrove" 0);
   (signers_env 11, Governance.CPropose (Addr 1) (Addr 30) "set_oracle_consumer"
      [SAddress (Addr 1000); SAddress (Addr 40); SNumber 1] "oracle" 1);
   (signers_env 20, Governance.CApprove (Addr 1) 1 2); (signers_env 20, Governance.CApprove (Addr 3) 1 0);
   (signers_env 21, Governance.CApprove (Addr 1) 2 3); (signers_env 21, Governance.CApprove (Addr 3) 2 1);
   (signers_env 121, CExecute (Addr 9) 1 0); (signers_env 122, CExecute (Addr 9) 2 1)].
Definition council_done : state := run_calls (Governance.exec (W := Registry)) council_calls (put_world registered council_start).

(** Address 40 revokes the project. *)
Definition revoke_call : ProjectRegistry.Call := ProjectRegistry.CRevoke (Addr 40) 1 "rejected report" 0.
Definition council_revoked : state :=
  put_world (advance revoke_call (registry_env 130) (world council_done)) council_done.

Example council_outcome :
  (status_in registered 1, status_in (world council_done) 1, status_in (world council_revoked) 1)
  = (Some ProjectStatus.Pending, Some ProjectStatus.Approved, Some ProjectStatus.Rejected).
Proof. vm_compute. reflexivity. Qed.

Lemma council_start_deployed : Governance.deployed council_start.
Proof.
  exists (signers_env 0), [Addr 1; Addr 2; Addr 3], 2, 100, council_allowed, fresh_registry.
  split_and!; [reflexivity|reflexivity|]. apply commit_is_ok. reflexivity.
Qed.

Lemma council_start_joint : joint (Addr 30) (Addr 1000) [] 0 council_start.
Proof. apply (joint_start _ _ _ (registry_env 0)); [apply council_start_deployed|exact fresh_Ok]. Qed.

(** The history of the registry: the registration and the revocation. *)
Definition council_history : list Visit :=
  [mkVisit (registry_env 5) register_call (body (world council_start));
   mkVisit (registry_env 130) revoke_call (body (world council_done))].

Lemma council_revoked_joint : joint (Addr 30) (Addr 1000) council_history 8 council_revoked.
Proof.
  destruct (advance_Ok register_call (registry_env 5) fresh_registry eq_refl) as [Hc Ha].
  destruct (advance_Ok revoke_call (registry_env 130) (world council_done) ltac:(vm_compute; reflexivity)) as [Hd Hb].
  apply (joint_registry _ _ [_] 8 council_done (registry_env 130) revoke_call); [|done..].
  apply (joint_run (Addr 30) (Addr 1000) council_calls [_] 0); [|by repeat constructor].
  by apply (joint_registry _ _ [] 0 council_start (registry_env 5) register_call); [apply council_start_joint|..].
Qed.

(** What the signers adopted. *)
Lemma council_adopted c :
  adopted (Addr 30) council_revoked c ->
  c = ProjectRegistry.CApprove (Addr 1000) 1 0 \/ c = ProjectRegistry.CSetOracle (Addr 1000) (Addr 40) 1.
Proof.
  intros (i&p&l&Hp&_&_&He&_).
  pose proof (gov_reachable_inv _ _ (joint_reach _ _ _ _ _ council_revoked_joint) eq_refl) as Hinv.
  assert (H1 : count_of council_revoked = 2) by (vm_compute; reflexivity).
  assert (Hi : 1 <= i <= count_of council_revoked) by (apply (inv_ids _ _ Hinv); by rewrite Hp).
  rewrite H1 in Hi. change ((fun p => registry_entry (pr_method p) (pr_args p)) p = Some c) in He.
  assert (H2 : (fun p => registry_entry (pr_method p) (pr_args p)) <$> proposal_of council_revoked i = Some (Some c))
    by (rewrite Hp; by apply (f_equal Some)).
  assert (i = 1 \/ i = 2) as [-> | ->] by lia.
  - left. vm_compute in H2. by injection H2 as <-.
  - right. vm_compute in H2. by injection H2 as <-.
Qed.

Lemma council_rules_witness :
  exists pj, ProjectRegistry.project_of (body (world council_revoked)) 1 = Some pj /\
    pj_status pj = ProjectStatus.Rejected /\ revoked_by council_history (Addr 40) 1.
Proof.
  assert (H1 : pj_status <$> ProjectRegistry.project_of (body (world council_revoked)) 1 = Some ProjectStatus.Rejected)
    by (vm_compute; reflexivity).
  destruct (ProjectRegistry.project_of (body (world council_revoked)) 1) as [pj|] eqn:Hp; [|discriminate H1].
  injection H1 as Hst. exists pj. split; [reflexivity|]. split; [exact Hst|].
  destruct (council_rules (Addr 30) (Addr 1000) council_history 8 council_revoked council_revoked_joint eq_refl)
    as [(heir&k&_&Hh)|[_ _ _ Hg]]; [destruct (council_adopted _ Hh) as [[=]|[=]]|].
  specialize (Hg 1 pj (conj (Z.le_refl 1) eq_refl) Hp). rewrite Hst in Hg.
  destruct Hg as [[k Hk]|[(a&why&k&Hk&_)|(o&[k Hk]&Hr)]].
  - destruct (council_adopted _ Hk) as [[=]|[=]].
  - destruct (council_adopted _ Hk) as [[=]|[=]].
  - destruct (council_adopted _ Hk) as [[=]|Heq]. injection Heq as -> _. exact Hr.
Defined.
End sample.
