(* ===== verification/System.v ===== *)
(** * The deployed system: contracts verified together

    Theorems about several contracts at once: each contract's callees are the
    verified contracts themselves, through the instances of [Wiring.v]. *)

From S2P Require Import Prelude Host Shared Interfaces.
From S2P Require Import ProjectRegistry BondIssuer CouponEngine Provenance CreditRetirement OracleConsumer Wiring.

(** ** OracleConsumer on ProjectRegistry *)

Section review.
Context (registry : Address).
#[local] Instance review_source : ProjectSource Registry := registry_source registry.
Local Abbreviation oracle_state := (cstate OracleConsumer.DataKey OracleConsumer.ty OracleConsumer.Event Registry).
Local Abbreviation oracle_exec := (OracleConsumer.exec (W := Registry)).
Local Abbreviation oracle_deployed := (OracleConsumer.deployed (W := Registry)).

Lemma registry_keeps_inactive (w w' : Registry) id p :
  wstep w w' -> 1 <= id < 2 ^ 64 -> ProjectRegistry.project_of (body w) id = Some p ->
  active_project (pj_status p) = false -> ProjectRegistry.project_of (body w') id = Some p.
Proof.
  intros Hw Hid Hp Hst.
  apply (evolves_keeps ProjectRegistry.inv ProjectRegistry.exec (fun s => ProjectRegistry.project_of s id = Some p) w w'); [done|done| |].
  - intros n s e c s' Hn Hinv Hs He. by eapply inactive_step.
  - intros s t _ Hpe _. unfold ProjectRegistry.project_of. by rewrite Hpe.
Qed.

(** C5: what the rejection of a report does to its project, for the two ways there are.  A
    challenged report that is rejected, by the admin's resolution or by the vote, while
    the oracle has the registry configured, puts the project out for good: it was approved
    before, the registry holds it as rejected in every later state of the two contracts,
    whatever anybody calls on either of them, and as long as the oracle uses that registry
    no report for the project is accepted again.  The only other way is the admin's
    override of a pending report, and that leaves the registry as it was. *)
Theorem rejected_project_out n (s : oracle_state) e c (s' : oracle_state) i r r' :
  reach oracle_deployed oracle_exec n s -> n + 1 < 2 ^ 64 -> oracle_exec c e s = Ok tt s' ->
  OracleConsumer.report_of s i = Some r -> rp_status r <> ReportStatus.Rejected ->
  OracleConsumer.report_of s' i = Some r' -> rp_status r' = ReportStatus.Rejected ->
  OracleConsumer.registry_of s = Some registry -> 1 <= rp_project_id r < 2 ^ 64 ->
  (rp_status r = ReportStatus.Challenged /\
   status_in (world s) (rp_project_id r) = Some ProjectStatus.Approved /\
   forall m (t : oracle_state), reach (eq s') oracle_exec m t ->
     status_in (world t) (rp_project_id r) = Some ProjectStatus.Rejected /\
     (OracleConsumer.registry_of t = Some registry ->
      forall a x y v b mt h k e' j t', submit_report a (rp_project_id r) x y v b mt h k e' t <> Ok j t')) \/
  (rp_status r = ReportStatus.Pending /\ world s' = world s /\
   exists a k, c = COverride a i ReportStatus.Rejected k /\ OracleConsumer.admin_of s = Some a).
Proof.
  intros Hs Hn He Hr Hst Hr' Hrej Hreg Hid. pose proof (oracle_reachable_inv _ _ Hs ltac:(lia)) as Hinv.
  destruct (rejection_paths n s e c s' i r r' Hinv Hn He Hr Hst Hr' Hrej) as [Hch|Hov]; [left|by right].
  destruct (rejection_step n s e c s' i r r' Hinv Hn He Hr Hch Hr' Hrej) as (_&Hrv&_).
  unfold revoke_effect in Hrv. rewrite Hreg in Hrv. simpl in Hrv. rewrite !decide_True in Hrv by done.
  destruct Hrv as [H1 H2]. split; [done|]. split; [done|]. intros m t Ht.
  assert (Ht' : status_in (world t) (rp_project_id r) = Some ProjectStatus.Rejected).
  { unfold status_in in *. destruct (ProjectRegistry.project_of (body (world s')) _) as [p|] eqn:Hp; [|done].
    injection H2 as Hp2. rewrite (registry_keeps_inactive (world s') (world t) _ p); [by rewrite <- Hp2|..|by rewrite Hp2]; try done.
    by eapply oracle_reach_world. }
  split; [done|]. intros Hregt a x y v b mt h k e' j t' Hsub.
  apply submit_Ok in Hsub. destruct (sb_project _ _ _ _ _ _ _ _ _ _ _ _ _ Hsub) as (q&Hq&Happ).
  rewrite Hregt in Hq. injection Hq as <-. simpl in Happ. rewrite decide_True in Happ by done. congruence.
Qed.
End review.

(** ** CreditRetirement on CouponEngine *)

Section retirement.
Context (issuer oracle_consumer registry engine : Address).
#[local] Instance retirement_world : World (Engine issuer oracle_consumer registry) :=
  engine_as_world issuer oracle_consumer registry.
#[local] Instance retirement_bonds : BondReader (Engine issuer oracle_consumer registry) :=
  engine_behind issuer oracle_consumer registry.
#[local] Instance retirement_credits : CreditSource (Engine issuer oracle_consumer registry) :=
  engine_as_credits issuer oracle_consumer registry engine.
Local Abbreviation retirement_state :=
  (cstate CreditRetirement.DataKey CreditRetirement.ty CreditRetirement.Event (Engine issuer oracle_consumer registry)).

(** The retirements of a bond, by anybody. *)
Definition on_bond (b : Z) (l : list RetirementRecord) : list RetirementRecord := filter (fun r => rr_bond_id r = b) l.

(** The credits of a bond that holders of the engine still have. *)
Definition outstanding (s : retirement_state) (b : Z) : Z := held (body (world s)) b.

(** A call on the retirement contract is a retirement, or leaves the ledger and the other
    contracts alone. *)
Lemma retirement_call (s : retirement_state) l c e s' :
  refines s l -> Z.of_nat (length l) + 1 < 2 ^ 64 -> CreditRetirement.exec c e s = Ok tt s' -> inst s' = inst s /\
  ((exists h b pid p amt t cert id period, vouched h b pid p amt t period s s' /\
      refines s' (l ++ [new_record h b pid p amt t cert period (timestamp e) id])) \/
   (world s' = world s /\ refines s' l)).
Proof.
  intros Hrf Hlen He. destruct c; simpl in He.
  - apply bind_Ok in He as (i&s1&He&[_ ->]%ret_Ok).
    destruct (retire_Ok _ _ _ _ _ _ _ _ _ _ _ _ l He Hrf Hlen) as (_&_&Hi&period&Hv&_&Hr).
    split; [done|]. left. exists holder, bond_id, project_id, period_index, amount, t, certificate_hash, i, period. done.
  - destruct (extend_ttl_Ok _ _ _ _ _ He) as (Hl&Hi&Hw). split; [done|]. right. split; [done|].
    by rewrite <- (same_ledger_look s s').
  - apply bind_Ok in He as (i&s1&He&[_ ->]%ret_Ok). apply same_ledger_count in He as Hsl. destruct Hsl as [_ Hsl].
    apply count_Ok in He as (_&lv&[-> | ->]); (split; [done|]; right; split; [done|by rewrite <- Hsl]).
Qed.

(** C3: retiring destroys credits one for one: whatever is called on the retirement
    contract, the credits of a bond that the coupon engine holds for its holders and the
    credits certified as retired on that bond always have the same sum, so no certificate
    is issued without the credits being taken and none are taken without a certificate. *)
Theorem retired_one_for_one (s : retirement_state) l c e s' :
  refines s l -> Z.of_nat (length l) + 1 < 2 ^ 64 ->
  CreditRetirement.exec c e s = Ok tt s' ->
  exists k, refines s' (l ++ k) /\ Z.of_nat (length k) <= 1 /\ inst s' = inst s /\
    forall b, outstanding s' b + total_amount (on_bond b (l ++ k)) = outstanding s b + total_amount (on_bond b l).
Proof.
  intros Hrf Hlen He. apply (retirement_call s l) in He as [Hi [(h&b0&pid&p&amt&t&cert&id&period&Hv&Hr)|[Hw Hr]]]; [| |done..].
  2: { exists []. rewrite app_nil_r. split_and!; [done|done|done|]. intros b. unfold outstanding. by rewrite Hw. }
  destruct (vo_engine _ _ _ _ _ _ _ _ _ Hv) as (en&_&Hper&_&Hle&Hbal). simpl in Hper, Hbal, Hle.
  apply read_home in Hper as [-> Hper].
  assert (Hb : forall b' h', accrued (body (world s')) b' h' =
    if decide ((b', h') = (b0, h)) then accrued (body (world s)) b0 h - amt else accrued (body (world s)) b' h').
  { intros b' h'. specialize (Hbal b' h'). destruct (decide (engine = engine)); [exact Hbal|done]. }
  eexists. split; [exact Hr|]. split; [done|]. split; [done|]. intros b. unfold on_bond, outstanding.
  rewrite (held_one (body (world s)) (body (world s')) b0 h); [|intros b' h' Hne; by rewrite Hb, decide_False].
  rewrite Hb, decide_True, list.filter_app, total_amount_app, filter_cons, filter_nil by done. simpl.
  assert (Hone : forall r, total_amount [r] = rr_amount r) by (intros r; simpl; lia).
  destruct (Z.eqb_spec b0 b), (decide (b0 = b)); rewrite ?Hone; simpl; done || lia.
Qed.

(** ** From a certificate back to its report *)

#[local] Instance behind_world : World Oracle := oracle_as_world registry.
#[local] Instance behind_bonds : BondReader Neighbours := neighbours_bonds issuer registry.
#[local] Instance behind_reports : OracleReader Neighbours := neighbours_reports oracle_consumer registry.
#[local] Instance behind_projects : RegistryReader Neighbours := neighbours_projects registry.

(** The oracle behind the engine. *)
Definition oracle_of (w : Engine issuer oracle_consumer registry) := body ((world (body w)).2).

(** The record [r] rests on a verified report of its own project, and has its dates. *)
Definition traced (w : Engine issuer oracle_consumer registry) (r : RetirementRecord) : Prop := exists rep,
  OracleConsumer.report_of (oracle_of w) (rr_report_id r) = Some rep /\ rp_status rep = ReportStatus.Verified /\
  rp_project_metadata_hash rep = rr_project_id r /\
  rr_vintage_period_start r = rp_period_start rep /\ rr_vintage_period_end r = rp_period_end rep /\
  rr_vintage_year r = year_from_timestamp (rp_period_end rep).

Lemma engine_keeps_report (w w' : Engine issuer oracle_consumer registry) i r :
  wstep w w' -> OracleConsumer.report_of (oracle_of w) i = Some r -> rp_status r = ReportStatus.Verified ->
  OracleConsumer.report_of (oracle_of w') i = Some r.
Proof.
  intros Hw Hr Hst.
  apply (evolves_keeps (engine_inv issuer oracle_consumer registry) (CouponEngine.exec (W := Neighbours))
    (fun s => OracleConsumer.report_of (body (world s).2) i = Some r) w w'); [done|done| |].
  - intros n s e c s' _ _ Hs He. apply coupon_world_step in He as [_ He].
    exact (oracle_keeps_report registry _ _ i r He Hs Hst).
  - intros s t _ _ [_ Hw'] Hs. exact (oracle_keeps_report registry _ _ i r Hw' Hs Hst).
Qed.

Lemma traced_stable (w w' : Engine issuer oracle_consumer registry) r : wstep w w' -> traced w r -> traced w' r.
Proof. intros Hw (rep&Hr&Hst&Hx). exists rep. split; [by eapply engine_keeps_report|done]. Qed.

Lemma ledger_moves (w w' : Engine issuer oracle_consumer registry) l :
  wstep w w' -> Forall (traced w) l -> Forall (traced w') l.
Proof. intros Hw. apply Forall_impl. intros r. by apply traced_stable. Qed.

Lemma vouched_traced h b pid p amt t cert period ts id (s s' : retirement_state) :
  vouched h b pid p amt t period s s' -> traced (world s) (new_record h b pid p amt t cert period ts id).
Proof.
  intros [(i&w&cfg&_&Hw&Hcfg&Hpid&_) (en&_&Hper&Hdist&_) _]. simpl in Hper. apply read_home in Hper as [-> Hper].
  destruct (period_backed (body (world s)) b p period (proj2 (proj2 (sound (world s)))) Hper Hdist)
    as (o&iss&rep&c&_&Hrep&Hver&_&Hc&Hhash&_&Hd1&Hd2).
  assert (Hc' : bond_config (BondReader := retirement_bonds) w iss b = Some c).
  { eapply (bond_config_stable (BondReader := retirement_bonds)); [exact Hw|exact Hc]. }
  exists rep. simpl in Hrep, Hc', Hcfg. apply read_home in Hrep as [-> Hrep]. apply read_home in Hcfg as [-> Hcfg].
  apply read_home in Hc' as [-> Hc']. rewrite Hcfg in Hc'. injection Hc' as ->. simpl. rewrite Hpid in Hhash.
  by rewrite Hd1, Hd2.
Qed.

Local Abbreviation retirement_exec := (CreditRetirement.exec (W := Engine issuer oracle_consumer registry)).
Local Abbreviation retirement_deployed := (CreditRetirement.deployed (W := Engine issuer oracle_consumer registry)).

Lemma ledger_traced n (s : retirement_state) :
  reach retirement_deployed retirement_exec n s -> n < 2 ^ 64 ->
  exists l, refines s l /\ Z.of_nat (length l) <= n /\ Forall (traced (world s)) l.
Proof.
  revert n s. apply (reach_ind_bounded retirement_deployed retirement_exec (2 ^ 64)
    (fun n s => exists l, refines s l /\ Z.of_nat (length l) <= n /\ Forall (traced (world s)) l)).
  - intros s Hs. exists []. split_and!; [by apply deployed_refines|done|by apply Forall_nil].
  - intros n s s' e c Hn0 Hn (l&Hrf&Hlen&Hl) He.
    assert (Hstep : forall w', wstep (world s) w' -> Forall (traced w') l).
    { intros w' Hw. by apply (ledger_moves (world s)). }
    destruct (retirement_call s l c e s' Hrf ltac:(lia) He)
      as [_ [(h&b&pid&p&amt&t&cert&id&period&Hv&Hr)|[Hw Hr]]].
    + eexists. split; [exact Hr|]. rewrite length_app. simpl. split; [lia|]. pose proof (vo_world _ _ _ _ _ _ _ _ _ Hv) as Hw.
      apply Forall_app. split; [by apply Hstep|]. apply Forall_singleton.
      by eapply traced_stable, vouched_traced.
    + exists l. split_and!; [done|lia|]. apply Hstep. by rewrite Hw.
  - intros n s (l&?&?&?). exists l. split_and!; [done|lia|done].
  - intros n s w (l&Hrf&?&Hl) Hw. exists l. split_and!; [by apply refines_world|done|].
    by apply (ledger_moves (world s)).
Qed.

(** C2: every certificate leads back to a verified report: in every reachable state of the
    deployed contracts, with all of them acting in between, a retirement record names a
    report that the oracle holds as verified and that is about the project the record
    names; the vintage of the record is the period, and the year, of that report. *)
Theorem certificates_traced n (s : retirement_state) id r :
  reach retirement_deployed retirement_exec n s -> n < 2 ^ 64 -> CreditRetirement.record_of s id = Some r ->
  exists rep, OracleConsumer.report_of (oracle_of (world s)) (rr_report_id r) = Some rep /\
    rp_status rep = ReportStatus.Verified /\ rp_project_metadata_hash rep = rr_project_id r /\
    rr_vintage_period_start r = rp_period_start rep /\ rr_vintage_period_end r = rp_period_end rep /\
    rr_vintage_year r = year_from_timestamp (rp_period_end rep).
Proof.
  intros Hr Hn Hid. destruct (ledger_traced n s Hr Hn) as (l&Hrf&_&Hl). rewrite (rf_record _ _ Hrf) in Hid.
  destruct (1 <=? id); [|done].
  exact (Forall_lookup_1 _ _ _ _ Hl Hid).
Qed.
End retirement.

(** ** A concrete deployment

    Address 1 administers everything; the registry is at 30, the bond issuer at 20, the
    oracle at 40, the coupon engine at 50.  [sample_env] and [oracle_env] run the called
    contract at address 1000, so that 1000 is the address other contracts see. *)

Section deployment.
Local Abbreviation hash := (ProjectRegistry.sample_hash 7).

(** The sample registry, with 1000 as the oracle consumer that may revoke. *)
Definition registry_calls : list (Env * ProjectRegistry.Call) :=
  ProjectRegistry.sample_calls ++ [(sample_env 9, ProjectRegistry.CSetOracle (Addr 1) (Addr 1000) 2)].
Definition deployed_registry_state : ProjectRegistry.state :=
  run_calls ProjectRegistry.exec registry_calls ProjectRegistry.sample_start.

Lemma deployed_registry_inv : 5 < 2 ^ 64 /\ ProjectRegistry.inv 5 deployed_registry_state.
Proof.
  split; [reflexivity|]. apply registry_reachable_inv; [|reflexivity].
  apply (reach_run_calls ProjectRegistry.deployed ProjectRegistry.exec registry_calls 0), reach_init.
  by exists (sample_env 0), (Addr 1).
Qed.
Definition deployed_registry : Registry := mkAged 5 deployed_registry_state deployed_registry_inv.

#[local] Instance deployed_projects : ProjectSource Registry := registry_source (Addr 30).
Local Abbreviation oracle_state := (cstate OracleConsumer.DataKey OracleConsumer.ty OracleConsumer.Event Registry).
Local Abbreviation oracle_exec := (OracleConsumer.exec (W := Registry)).
Local Abbreviation oracle_deployed := (OracleConsumer.deployed (W := Registry)).

Definition oracle_start : oracle_state :=
  commit (OracleConsumer.constructor (Addr 1) (oracle_env 0) (empty_state deployed_registry)) (empty_state deployed_registry).

Lemma oracle_start_deployed : oracle_deployed oracle_start.
Proof. exists (oracle_env 0), (Addr 1), deployed_registry. apply commit_is_ok. reflexivity. Qed.

(** Provider 2 reports on project 1. *)
Definition report_calls : list (Env * OracleConsumer.Call) :=
  [at_ 1 (OracleConsumer.CRegister (Addr 1) (Addr 2) "m" 0); at_ 1 (OracleConsumer.CSetRegistry (Addr 1) (Addr 30) 1);
   at_ 2 (CAddStake (Addr 2) 1000 0); at_ 3 (CSubmit (Addr 2) 1 100 200 4000000 Absent "m" [8] 1)].

(** The report is challenged by address 9, and the admin rejects it. *)
Definition challenged_calls : list (Env * OracleConsumer.Call) :=
  report_calls ++ [at_ 4 (CDeposit (Addr 9) 1500000 0); at_ 5 (CChallenge (Addr 9) 1 [6] 1)].
Definition oracle_challenged : oracle_state := run_calls oracle_exec challenged_calls oracle_start.
Definition reject_call : OracleConsumer.Call := CResolve (Addr 1) 1 ReportStatus.Rejected 2.
Definition oracle_rejected : oracle_state := commit (oracle_exec reject_call (oracle_env 7) oracle_challenged) oracle_challenged.

(** Later somebody tries again. *)
Definition retry_calls : list (Env * OracleConsumer.Call) := [at_ 9 (CSubmit (Addr 2) 1 201 300 10 Absent "m" [8] 2)].
Definition oracle_later : oracle_state := run_calls oracle_exec retry_calls oracle_rejected.

Lemma oracle_challenged_reach : reach oracle_deployed oracle_exec 6 oracle_challenged.
Proof. apply (reach_run_calls oracle_deployed oracle_exec challenged_calls 0), reach_init, oracle_start_deployed. Qed.

Lemma reject_call_Ok : oracle_exec reject_call (oracle_env 7) oracle_challenged = Ok tt oracle_rejected.
Proof. apply commit_is_ok. vm_compute. reflexivity. Qed.

Example rejection_outcome :
  (rp_status <$> OracleConsumer.report_of oracle_challenged 1, rp_status <$> OracleConsumer.report_of oracle_rejected 1,
   status_in (world oracle_challenged) 1, status_in (world oracle_later) 1)
  = (Some ReportStatus.Challenged, Some ReportStatus.Rejected, Some ProjectStatus.Approved, Some ProjectStatus.Rejected).
Proof. vm_compute. reflexivity. Qed.

Lemma rejected_project_out_witness :
  exists p, status_in (world oracle_challenged) p = Some ProjectStatus.Approved /\
    status_in (world oracle_later) p = Some ProjectStatus.Rejected /\ p = 1.
Proof.
  assert (H1 : (fun r => (rp_status r, rp_project_id r)) <$> OracleConsumer.report_of oracle_challenged 1
                 = Some (ReportStatus.Challenged, 1)) by (vm_compute; reflexivity).
  assert (H2 : rp_status <$> OracleConsumer.report_of oracle_rejected 1 = Some ReportStatus.Rejected) by (vm_compute; reflexivity).
  assert (H3 : OracleConsumer.registry_of oracle_challenged = Some (Addr 30)) by (vm_compute; reflexivity).
  destruct (OracleConsumer.report_of oracle_challenged 1) as [r|] eqn:Hr; [|discriminate H1].
  destruct (OracleConsumer.report_of oracle_rejected 1) as [r'|] eqn:Hr'; [|discriminate H2].
  injection H1 as Hst Hid. injection H2 as Hst'.
  destruct (rejected_project_out (Addr 30) 6 oracle_challenged (oracle_env 7) reject_call oracle_rejected 1 r r'
    oracle_challenged_reach eq_refl reject_call_Ok Hr ltac:(rewrite Hst; discriminate) Hr' Hst' H3
    (eq_ind_r (fun p => 1 <= p < 2 ^ 64) (conj (Z.le_refl 1) eq_refl) Hid)) as [(_&H4&Hlater)|(Hx&_)];
    [|rewrite Hst in Hx; discriminate Hx].
  destruct (Hlater 1 oracle_later
    (reach_run_calls (eq oracle_rejected) oracle_exec retry_calls 0 oracle_rejected
       (reach_init (eq oracle_rejected) oracle_exec oracle_rejected eq_refl))) as [H5 _].
  exists (rp_project_id r). exact (conj H4 (conj H5 Hid)).
Defined.

(** Before the challenge: the admin has verified the report, worth 4000 credits. *)
Definition verified_calls : list (Env * OracleConsumer.Call) :=
  report_calls ++ [at_ 4 (COverride (Addr 1) 1 ReportStatus.Verified 2)].
Definition oracle_verified : oracle_state := run_calls oracle_exec verified_calls oracle_start.

Lemma oracle_verified_inv : 5 < 2 ^ 64 /\ OracleConsumer.inv 5 oracle_verified.
Proof.
  split; [reflexivity|]. apply oracle_reachable_inv; [|reflexivity].
  apply (reach_run_calls oracle_deployed oracle_exec verified_calls 0), reach_init, oracle_start_deployed.
Qed.
Definition deployed_oracle : Oracle := mkAged 5 oracle_verified oracle_verified_inv.

(** Investor 2 subscribes to 600 units of a bond on project 1. *)
Definition bond_calls : list (Env * BondIssuer.Call) :=
  [(sample_env 5, BondIssuer.CIssueBond (Addr 1) (mkBondConfig hash 100 [1000] CreditType.Carbon 5000 1000) 0);
   (sample_env 6, BondIssuer.CSubscribe (Addr 2) 1 600 0)].
Definition bonds_state : BondIssuer.state := run_calls BondIssuer.exec bond_calls BondIssuer.sample_start.

Lemma bonds_state_inv : 2 < 2 ^ 64 /\ BondIssuer.inv 2 bonds_state.
Proof.
  split; [reflexivity|]. apply bond_reachable_inv; [|reflexivity].
  apply (reach_run_calls BondIssuer.deployed BondIssuer.exec bond_calls 0), reach_init, BondIssuer.sample_start_deployed.
Qed.
Definition deployed_bonds : Bonds := mkAged 2 bonds_state bonds_state_inv.

(** The engine registers the bond, distributes the report to investor 2, and lets the
    retirement contract deduct. *)
#[local] Instance oracle_world : World Oracle := oracle_as_world (Addr 30).
#[local] Instance engine_bonds : BondReader Neighbours := neighbours_bonds (Addr 20) (Addr 30).
#[local] Instance engine_reports : OracleReader Neighbours := neighbours_reports (Addr 40) (Addr 30).
#[local] Instance engine_projects : RegistryReader Neighbours := neighbours_projects (Addr 30).
Local Abbreviation engine_state := (cstate CouponEngine.DataKey CouponEngine.ty CouponEngine.Event Neighbours).
Local Abbreviation engine_exec := (CouponEngine.exec (W := Neighbours)).
Local Abbreviation engine_deployed := (CouponEngine.deployed (W := Neighbours)).

Definition neighbours : Neighbours := (deployed_bonds, deployed_oracle).
Definition engine_start : engine_state :=
  commit (CouponEngine.constructor (Addr 1) (Addr 20) (Addr 40) (Addr 30) (sample_env 0) (empty_state neighbours))
         (empty_state neighbours).
Definition engine_calls : list (Env * CouponEngine.Call) :=
  [(checked_env 20, CouponEngine.CRegisterBond (Addr 1) 1 hash 0);
   (checked_env 21, CDistribute (Addr 1) 1 0 [(Addr 2, 600)] 1 1 true);
   (checked_env 22, CRegisterDeductCaller (Addr 1) (Addr 1000) 2)].
Definition engine_paid : engine_state := run_calls engine_exec engine_calls engine_start.

Example engine_credits : (accrued engine_paid 1 (Addr 2), dust engine_paid 1) = (3999, 1).
Proof. vm_compute. reflexivity. Qed.

Lemma engine_start_deployed : engine_deployed engine_start.
Proof.
  exists (sample_env 0), (Addr 1), (Addr 20), (Addr 40), (Addr 30), neighbours. apply commit_is_ok. reflexivity.
Qed.

Lemma engine_paid_reach : reach engine_deployed engine_exec 3 engine_paid.
Proof. apply (reach_run_calls engine_deployed engine_exec engine_calls 0), reach_init, engine_start_deployed. Qed.

Lemma engine_paid_inv : 3 < 2 ^ 64 /\ engine_inv (Addr 20) (Addr 40) (Addr 30) 3 engine_paid.
Proof.
  split; [reflexivity|]. split; [apply coupon_reachable_inv|apply (reachable_pinv 3)]; (apply engine_paid_reach || reflexivity).
Qed.
Definition deployed_engine : Engine (Addr 20) (Addr 40) (Addr 30) := mkAged 3 engine_paid engine_paid_inv.

(** Investor 2 retires 1000 of its credits. *)
#[local] Instance retirement_moves : World (Engine (Addr 20) (Addr 40) (Addr 30)) := engine_as_world (Addr 20) (Addr 40) (Addr 30).
#[local] Instance bonds_behind : BondReader (Engine (Addr 20) (Addr 40) (Addr 30)) := engine_behind (Addr 20) (Addr 40) (Addr 30).
#[local] Instance engine_credits_at : CreditSource (Engine (Addr 20) (Addr 40) (Addr 30)) :=
  engine_as_credits (Addr 20) (Addr 40) (Addr 30) (Addr 50).
Local Abbreviation retirement_state :=
  (cstate CreditRetirement.DataKey CreditRetirement.ty CreditRetirement.Event (Engine (Addr 20) (Addr 40) (Addr 30))).
Local Abbreviation retirement_exec := (CreditRetirement.exec (W := Engine (Addr 20) (Addr 40) (Addr 30))).

Definition retirement_start : retirement_state :=
  commit (CreditRetirement.constructor (Addr 1) (Addr 20) (Addr 50) (sample_env 0) (empty_state deployed_engine))
         (empty_state deployed_engine).
Definition retire_call : CreditRetirement.Call := CRetire (Addr 2) 1 hash 0 1000 CreditType.Carbon [5] 0.
Definition retirement_done : retirement_state :=
  commit (retirement_exec retire_call (sample_env 30) retirement_start) retirement_start.

Lemma retirement_start_deployed : CreditRetirement.deployed retirement_start.
Proof.
  exists (sample_env 0), (Addr 1), (Addr 20), (Addr 50), deployed_engine. apply commit_is_ok. reflexivity.
Qed.

Lemma retirement_start_refines : refines retirement_start [].
Proof. apply deployed_refines, retirement_start_deployed. Qed.

Lemma retire_call_Ok : retirement_exec retire_call (sample_env 30) retirement_start = Ok tt retirement_done.
Proof. apply commit_is_ok. vm_compute. reflexivity. Qed.

Lemma retired_one_for_one_witness :
  exists k, refines retirement_done ([] ++ k) /\
    held (body (world retirement_done)) 1 + total_amount (on_bond 1 ([] ++ k)) = 3999.
Proof.
  assert (Hk : held (body (world retirement_start)) 1 = 3999) by (vm_compute; reflexivity).
  destruct (retired_one_for_one (Addr 20) (Addr 40) (Addr 30) (Addr 50) retirement_start [] retire_call (sample_env 30)
    retirement_done retirement_start_refines eq_refl retire_call_Ok) as (k&Hr&_&_&Hb).
  exists k. exact (conj Hr (eq_trans (Hb 1) (f_equal (fun x => x + 0) Hk))).
Defined.

(** The certificate of the retirement, traced to report 1. *)
Lemma certificates_traced_witness :
  exists r rep, CreditRetirement.record_of retirement_done 1 = Some r /\
    OracleConsumer.report_of (oracle_of (Addr 20) (Addr 40) (Addr 30) (world retirement_done)) (rr_report_id r) = Some rep /\
    rp_status rep = ReportStatus.Verified /\ rp_project_metadata_hash rep = rr_project_id r /\
    rr_vintage_year r = year_from_timestamp (rp_period_end rep).
Proof.
  assert (Hs : is_Some (CreditRetirement.record_of retirement_done 1)) by (vm_compute; eexists; reflexivity).
  destruct (CreditRetirement.record_of retirement_done 1) as [r|] eqn:Hr; [|destruct (is_Some_None Hs)].
  destruct (certificates_traced (Addr 20) (Addr 40) (Addr 30) (Addr 50) 1 retirement_done 1 r
    (reach_run_calls (CreditRetirement.deployed (W := Engine (Addr 20) (Addr 40) (Addr 30))) retirement_exec
       [(sample_env 30, retire_call)] 0 retirement_start
       (reach_init _ retirement_exec retirement_start retirement_start_deployed)) eq_refl Hr)
    as (rep&H1&H2&H3&_&_&H4).
  exists r, rep. exact (conj eq_refl (conj H1 (conj H2 (conj H3 H4)))).
Defined.
End deployment.
