(* ===== verification/Market.v ===== *)
(** * The market: DexRouter on the deployed BondIssuer

    What an address holds, in quote at the market and in bonds at the issuer, shrinks
    only when the address signs. *)

From S2P Require Import Prelude Host Shared Interfaces.
From S2P Require Import BondIssuer DexRouter Wiring System.

(** ** The issuer *)

Lemma bond_balance_signed c e (s : BondIssuer.state) s' b h :
  BondIssuer.exec c e s = Ok tt s' -> is_authorized e h = false ->
  BondIssuer.balance s b h <= BondIssuer.balance s' b h.
Proof.
  intros He Hh.
  assert (Hsame : pers s' = pers s -> BondIssuer.balance s b h <= BondIssuer.balance s' b h)
    by (intros Hp; unfold BondIssuer.balance; rewrite Hp; lia).
  destruct c; simpl in He; try (apply bind_Ok in He as (?&?&He&[_ ->]%ret_Ok)).
  - apply issue_bond_Ok in He as (next&_&_&_&_&_&_&_&_&Hp). unfold BondIssuer.balance. rewrite Hp, !sget_sset_ne by congruence. lia.
  - apply subscribe_Ok in He as (c&st&next&_&_&_&?&_&_&_&_&_&_&_&_&Hp). unfold BondIssuer.balance in *. rewrite Hp.
    rewrite sget_sset_ne, sget_append_ne by congruence.
    destruct (decide ((bond_id, investor) = (b, h))) as [[= -> ->]|Hne]; [rewrite sget_sset_eq; simpl; lia|].
    rewrite !sget_sset_ne by congruence. lia.
  - apply BondIssuer.transfer_Ok in He as (c&st&next&Hau&_&_&Hne&?&_&_&_&_&_&_&_&Hp). unfold BondIssuer.balance in *. rewrite Hp.
    rewrite sget_append_ne by congruence.
    destruct (decide ((bond_id, to) = (b, h))) as [[= -> ->]|Hto]; [rewrite sget_sset_eq; simpl; lia|].
    rewrite !sget_sset_ne by congruence. lia.
  - apply redeem_Ok in He as (c&st&next&Hau&_&_&?&_&_&_&_&_&_&Hp). unfold BondIssuer.balance in *. rewrite Hp.
    rewrite !sget_sset_ne by congruence. lia.
  - apply mature_bond_Ok in He as (c&st&next&_&_&_&_&_&_&_&_&_&_&Hp). unfold BondIssuer.balance. rewrite Hp, !sget_sset_ne by congruence. lia.
  - apply BondIssuer.get_bond_Ok in He as [_ (_&?&_)]. by apply Hsame.
  - apply get_bond_state_Ok in He as [_ (_&?&_)]. by apply Hsame.
  - apply total_supply_Ok in He as (?&_&_&_&?&_). by apply Hsame.
  - apply total_subscribed_Ok in He as (?&_&_&_&?&_). by apply Hsame.
  - apply get_all_bond_ids_Ok in He as (_&?&_). by apply Hsame.
  - apply get_bond_ids_range_Ok in He as (_&?&_). by apply Hsame.
Qed.

(** ** The router *)

Section router.
Context {W : Type} `{!World W} `{!BondReader W} `{!BondMarket W}.
Local Abbreviation state := (cstate DexRouter.DataKey DexRouter.ty DexRouter.Event W).
Implicit Types (s : state) (e : Env).

(** Only a purchase moves bonds, out of the hands of a seller that signs the transfer. *)
Lemma market_bonds_signed c e s s' iss b h :
  DexRouter.exec c e s = Ok tt s' -> is_authorized (sub_env iss e) h = false ->
  sget DexRouter.DataKey.BondIssuerAddress (inst s) = Some iss ->
  bond_balance (world s) iss b h <= bond_balance (world s') iss b h.
Proof.
  intros He Hh Hiss.
  assert (Hsame : world s' = world s -> bond_balance (world s) iss b h <= bond_balance (world s') iss b h)
    by (intros ->; lia).
  destruct c; simpl in He; try (apply bind_Ok in He as (?&?&He&[_ ->]%ret_Ok)).
  - apply list_Ok in He as (?&?&_&_&_&_&_&_&_&_&Hw&_). rewrite (bond_balance_quiet _ _ _ _ _ Hw). lia.
  - apply dex_cancel_Ok in He as (?&?&_&_&_&_&_&Hw&_). by apply Hsame.
  - apply purchase_Ok in He as (?&o&?&iss'&?&_&_&(_&_&_&Hv&_)&_&_&_&_&_&Hiss'&_&Hau&_&Hbal&_).
    rewrite Hiss in Hiss'. injection Hiss' as <-. rewrite Hbal.
    destruct (decide ((b, h) = (od_bond_id o, od_seller o))) as [[= -> ->]|]; [congruence|]. case_decide; lia.
  - apply deposit_Ok in He as (?&_&_&_&_&Hw&_). by apply Hsame.
  - apply withdraw_Ok in He as (?&?&_&_&_&_&Hw&_). by apply Hsame.
  - apply clean_Ok in He as (?&_&_&_&Hw&_). by apply Hsame.
  - apply clean_sub_Ok in He as (?&_&_&_&_&_&Hw&_). by apply Hsame.
Qed.

(** Quote leaves a balance only by a withdrawal or a purchase of its owner. *)
Lemma market_quote_signed n c e s s' q h :
  DexRouter.inv n s -> n + 1 < 2 ^ 64 -> DexRouter.exec c e s = Ok tt s' -> is_authorized e h = false ->
  quote_of s q h <= quote_of s' q h.
Proof.
  intros Hinv Hn He Hh. pose proof (dex_exec_effects n c e s s' Hn Hinv He) as Heff.
  rewrite (proj1 (ef_quote _ _ _ _ Heff q h)). destruct c; simpl in *; try lia.
  - apply purchase_Ok in He as (?&o&?&?&?&(Hau&_)&Ho&(_&_&_&Hv&_)&_). rewrite Ho.
    destruct (dx_order n s Hinv _ _ Ho) as (_&_&_&Hp).
    destruct (decide ((od_quote_asset o, buyer) = (q, h))) as [[= _ ->]|]; [congruence|]. case_decide; nia.
  - apply deposit_Ok in He as (?&_&?&_). case_decide; lia.
  - apply withdraw_Ok in He as (?&?&(Hau&_)&_). case_decide as Hd; [|lia]. injection Hd as _ ->. congruence.
Qed.

(** The router stays with its issuer. *)
Lemma market_issuer_fixed c e s s' :
  DexRouter.exec c e s = Ok tt s' ->
  sget DexRouter.DataKey.BondIssuerAddress (inst s') = sget DexRouter.DataKey.BondIssuerAddress (inst s).
Proof.
  intros He. destruct c; simpl in He; try (apply bind_Ok in He as (?&?&He&[_ ->]%ret_Ok)).
  - apply list_Ok in He as (?&?&_&_&_&_&_&_&_&_&_&->&_). by rewrite sget_sset_ne.
  - by apply dex_cancel_Ok in He as (?&?&_&_&_&_&->&_).
  - by apply purchase_Ok in He as (?&?&?&?&?&_&_&_&_&_&_&_&_&_&_&_&_&_&->&_).
  - by apply deposit_Ok in He as (?&_&_&_&->&_).
  - by apply withdraw_Ok in He as (?&?&_&_&_&->&_).
  - by apply clean_Ok in He as (?&_&_&->&_).
  - by apply clean_sub_Ok in He as (?&_&_&_&_&->&_).
Qed.
End router.

(** ** Both, and everybody who calls them *)

Section market.
Context (issuer : Address) (h : Address).
#[local] Instance market_reader : BondReader Bonds := bonds_reader issuer.
#[local] Instance market_bonds : BondMarket Bonds := bonds_market issuer.
Local Abbreviation state := (cstate DexRouter.DataKey DexRouter.ty DexRouter.Event Bonds).
Local Abbreviation market_exec := (DexRouter.exec (W := Bonds)).
Local Abbreviation market_deployed := (DexRouter.deployed (W := Bonds)).
Implicit Types (s t u : state) (e : Env).

(** [h] signs nothing: neither the call on the router, nor the transfer it makes. *)
Definition silent e : Prop := is_authorized e h = false /\ is_authorized (sub_env issuer e) h = false.

(** What others do while [h] is silent: transactions on the router, with their calls on
    the issuer, and transactions on the issuer. *)
Inductive trades s : Z -> state -> Prop :=
| trades_refl : trades s 0 s
| trades_market n t e c :
    trades s n t -> silent e -> trades s (n + 1) (commit (market_exec c e t) t)
| trades_issuer n t e c w :
    trades s n t -> is_authorized e h = false ->
    BondIssuer.exec c e (body (world t)) = Ok tt (body w) -> age w = age (world t) + 1 ->
    trades s n (put_world w t)
| trades_quiet n t w : trades s n t -> wquiet (world t) w -> trades s n (put_world w t).

Lemma trades_reach s n t : trades s n t -> reach (eq s) market_exec n t.
Proof.
  induction 1 as [|n t e c _ IH _|n t e c w _ IH _ Hc Ha|n t w _ IH Hw].
  - by apply reach_init.
  - by apply reach_call.
  - apply reach_world; [done|]. by eapply evolves_call; [apply evolves_refl|..].
  - apply reach_world; [done|]. by apply wquiet_step.
Qed.

Definition bonds_at s (b : Z) : Z := BondIssuer.balance (body (world s)) b h.

Lemma bonds_at_balance s b : bond_balance (world s) issuer b h = bonds_at s b.
Proof. simpl. by destruct (decide (issuer = issuer)). Qed.

(** C17: nobody loses anything without signing: while an address signs nothing, whatever
    the others do at the market and at the issuer - listing, buying, cleaning up,
    subscribing, redeeming - none of its bond balances and none of its quote balances
    shrinks; in particular listed bonds are sold only with the seller's signature. *)
Theorem assets_need_signature n m s t q b :
  reach market_deployed market_exec n s -> sget DexRouter.DataKey.BondIssuerAddress (inst s) = Some issuer ->
  trades s m t -> n + m < 2 ^ 64 ->
  quote_of s q h <= quote_of t q h /\ bonds_at s b <= bonds_at t b.
Proof.
  intros Hs Hiss Ht. cut (n + m < 2 ^ 64 -> sget DexRouter.DataKey.BondIssuerAddress (inst t) = Some issuer /\
    quote_of s q h <= quote_of t q h /\ bonds_at s b <= bonds_at t b).
  { intros H Hn. by apply H. }
  induction Ht as [|m t e c Ht IH [Hq Hb]|m t e c w Ht IH Hau Hc Ha|m t w Ht IH (_&Hp&_)]; intros Hn.
  - by split_and!.
  - destruct (IH ltac:(lia)) as (I1&I2&I3). pose proof (reach_trans _ _ _ _ _ _ Hs (trades_reach _ _ _ Ht)) as Hr.
    apply dex_reachable_inv in Hr as Hinv; [|lia].
    destruct (market_exec c e t) as [[] t'|x t'|] eqn:He; simpl; [|done..].
    pose proof (market_quote_signed (n + m) c e t t' q h Hinv ltac:(lia) He Hq).
    pose proof (market_bonds_signed c e t t' issuer b h He Hb I1) as Hbb. rewrite !bonds_at_balance in Hbb.
    rewrite (market_issuer_fixed c e t t' He). split_and!; [done|lia|lia].
  - destruct (IH Hn) as (I1&I2&I3). split_and!; [done|done|].
    pose proof (bond_balance_signed c e (body (world t)) (body w) b h Hc Hau). unfold bonds_at in *. simpl. lia.
  - destruct (IH Hn) as (I1&I2&I3). split_and!; [done|done|].
    unfold bonds_at in *. simpl. unfold BondIssuer.balance in *. rewrite Hp in I3. done.
Qed.
End market.

(** ** A concrete market

    The router at address 1000 on the bonds of [System], whose investor 2 lists 100 of
    its 600 units.  Without its signature nobody buys them. *)

Section sample.
#[local] Instance sample_reader : BondReader Bonds := bonds_reader (Addr 20).
#[local] Instance sample_transfers : BondMarket Bonds := bonds_market (Addr 20).
Local Abbreviation state := (cstate DexRouter.DataKey DexRouter.ty DexRouter.Event Bonds).
Local Abbreviation market_exec := (DexRouter.exec (W := Bonds)).
Local Abbreviation market_deployed := (DexRouter.deployed (W := Bonds)).

Definition market_start : state :=
  commit (constructor (Addr 1) (Addr 20) (Addr 50) (sample_env 0) (empty_state deployed_bonds)) (empty_state deployed_bonds).
Definition listing_calls : list (Env * DexRouter.Call) :=
  [(sample_env 10, CList (Addr 2) 1 100 7 "USDC" 90 0); (sample_env 11, CDeposit (Addr 3) "USDC" 1000 0)].
Definition market_listed : state := run_calls market_exec listing_calls market_start.

(** With the signatures of both, 30 units change hands on the issuer. *)
Definition market_bought : state := run_calls market_exec [(sample_env 20, CPurchase (Addr 3) 1 7 30 1)] market_listed.

Example market_outcome :
  (bonds_at (Addr 2) market_bought 1, bonds_at (Addr 3) market_bought 1,
   quote_of market_bought "USDC" (Addr 2), quote_of market_bought "USDC" (Addr 3)) = (570, 30, 210, 790).
Proof. vm_compute. reflexivity. Qed.

(** Everybody but investor 2 signs. *)
Definition unsigned_env (t : Z) : Env :=
  mkEnv t (Addr 1000) [] (fun _ a => bool_decide (a <> Addr 2)) true 0 (fun live _ _ => live).
Definition unsigned_call : DexRouter.Call := CPurchase (Addr 3) 1 7 30 1.
Definition market_later : state := commit (market_exec unsigned_call (unsigned_env 20) market_listed) market_listed.

Example unsigned_outcome : (bonds_at (Addr 2) market_later 1, quote_of market_later "USDC" (Addr 3)) = (600, 1000).
Proof. vm_compute. reflexivity. Qed.

Lemma market_start_deployed : market_deployed market_start.
Proof. exists (sample_env 0), (Addr 1), (Addr 20), (Addr 50), deployed_bonds. apply commit_is_ok. reflexivity. Qed.

Lemma market_listed_reach : reach market_deployed market_exec 2 market_listed.
Proof. apply (reach_run_calls market_deployed market_exec listing_calls 0), reach_init, market_start_deployed. Qed.

Lemma assets_need_signature_witness :
  0 <= quote_of market_later "USDC" (Addr 2) /\ 600 <= bonds_at (Addr 2) market_later 1.
Proof.
  assert (H1 : quote_of market_listed "USDC" (Addr 2) = 0) by (vm_compute; reflexivity).
  assert (H2 : bonds_at (Addr 2) market_listed 1 = 600) by (vm_compute; reflexivity).
  assert (H3 : sget DexRouter.DataKey.BondIssuerAddress (inst market_listed) = Some (Addr 20)) by (vm_compute; reflexivity).
  rewrite <- H1 at 1. rewrite <- H2 at 1.
  exact (assets_need_signature (Addr 20) (Addr 2) 2 1 market_listed market_later "USDC" 1 market_listed_reach H3
    (trades_market (Addr 20) (Addr 2) market_listed 0 market_listed (unsigned_env 20) unsigned_call
      (trades_refl (Addr 20) (Addr 2) market_listed) (conj eq_refl eq_refl)) eq_refl).
Defined.
End sample.
